(** * CamSim: keyframe animation and the frame-simulation orchestrator

    A shallow embedding of [libcamsim/transformation.cpp],
    [libcamsim/animation.{hpp,cpp}] and of the timestamp, configuration and
    result-accessor logic of [libcamsim/simulator.{hpp,cpp}], followed by the
    properties of these functions.

    Conventions of the embedding:
    - [int] and [long long] values are integers of [Z]; every arithmetic
      operation of the source that can leave the type's range is wrapped
      ([int32], [int64]);
    - [float] and [double] values are IEEE 754 binary32 / binary64 numbers,
      computed with the executable specification [SpecFloat] of the standard
      library (round to nearest even);
    - [QList] / [QVector] are lists; an index outside of the container is the
      error [OutOfRange] (Qt asserts on it);
    - [std::exit(1)] after [qCritical(msg)] is the error [Exit msg];
    - OpenGL is an external collaborator: texture names come from a counter,
      render passes are recorded in a trace, and whether a shader program
      links is a parameter of the model. *)

From Stdlib Require Import ZArith Zquot List Bool Lia String.
From Stdlib Require Import Floats.SpecFloat.
From stdpp Require Import base list sorting.

Local Open Scope Z_scope.

(* ===================================================================== *)
(** ** Machine integers *)
(* ===================================================================== *)

(** Two's complement wrap-around of a [w]-bit signed integer. *)
Definition wrap (w : Z) (x : Z) : Z := (x + 2 ^ (w - 1)) mod 2 ^ w - 2 ^ (w - 1).

Definition int32 (x : Z) : Z := wrap 32 x.
Definition int64 (x : Z) : Z := wrap 64 x.

Definition INT64_MIN : Z := - 2 ^ 63.
Definition INT64_MAX : Z := 2 ^ 63 - 1.

Definition is_int32 (x : Z) : Prop := - 2 ^ 31 <= x < 2 ^ 31.
Definition is_int64 (x : Z) : Prop := - 2 ^ 63 <= x < 2 ^ 63.

(** Boolean form of [is_int64], for executable range checks. *)
Definition in_int64 (x : Z) : bool := (INT64_MIN <=? x) && (x <=? INT64_MAX).

(* ===================================================================== *)
(** ** Floating point numbers *)
(* ===================================================================== *)

Module Float32.
Definition prec : Z := 24.
Definition emax : Z := 128.
Definition add : spec_float -> spec_float -> spec_float := SFadd prec emax.
Definition sub : spec_float -> spec_float -> spec_float := SFsub prec emax.
Definition mul : spec_float -> spec_float -> spec_float := SFmul prec emax.
Definition div : spec_float -> spec_float -> spec_float := SFdiv prec emax.
(** Conversion of an integer ([int], [long long]) to [float]. *)
Definition of_Z (z : Z) : spec_float := binary_normalize prec emax z 0 false.
Definition zero : spec_float := S754_zero false.
Definition one : spec_float := of_Z 1.
End Float32.

Module Float64.
Definition prec : Z := 53.
Definition emax : Z := 1024.
Definition add : spec_float -> spec_float -> spec_float := SFadd prec emax.
Definition sub : spec_float -> spec_float -> spec_float := SFsub prec emax.
Definition mul : spec_float -> spec_float -> spec_float := SFmul prec emax.
Definition div : spec_float -> spec_float -> spec_float := SFdiv prec emax.
(** Conversion of an integer ([int], [long long]) to [double]. *)
Definition of_Z (z : Z) : spec_float := binary_normalize prec emax z 0 false.
Definition zero : spec_float := S754_zero false.

(** The integral part of a finite number (rounding toward zero). *)
Definition trunc (x : spec_float) : option Z :=
  match x with
  | S754_zero _ => Some 0
  | S754_finite s m e =>
      let v := if 0 <=? e then Z.pos m * 2 ^ e else Z.pos m / 2 ^ (- e) in
      Some (if s then - v else v)
  | S754_infinity _ | S754_nan => None
  end.

(** Conversion [double -> long long] (implicit in [return x;] of a function
    returning [long long]): the fractional part is discarded.  A value that
    does not fit is undefined behaviour in C++; the model returns what the
    x86-64 conversion instruction returns, [INT64_MIN]. *)
Definition to_int64 (x : spec_float) : Z :=
  match trunc x with
  | Some v => if in_int64 v then v else INT64_MIN
  | None => INT64_MIN
  end.
End Float64.

(* ===================================================================== *)
(** ** Results of fallible code *)
(* ===================================================================== *)

Inductive Err : Type :=
  | OutOfRange              (* index outside of a QList / QVector *)
  | DivisionByZero          (* integer division by zero *)
  | OutOfFuel               (* a loop of the model ran out of fuel *)
  | Exit (msg : string).    (* qCritical(msg); std::exit(1); *)

Inductive outcome (A : Type) : Type :=
  | Ok (a : A)
  | Fail (e : Err).
Arguments Ok {A} a.
Arguments Fail {A} e.

Definition obind {A B : Type} (x : outcome A) (f : A -> outcome B) : outcome B :=
  match x with
  | Ok a => f a
  | Fail e => Fail e
  end.

Declare Scope outcome_scope.
Delimit Scope outcome_scope with outcome.
Notation "'let?' x ':=' c 'in' k" := (obind c (fun x => k))
  (at level 10, x name, c at level 100, k at level 200) : outcome_scope.
Notation "'let?' ' p ':=' c 'in' k" := (obind c (fun x => match x with p => k end))
  (at level 10, p pattern, c at level 100, k at level 200) : outcome_scope.
Local Open Scope outcome_scope.

(** [container[i]] for a [QList] or [QVector]. *)
Definition at_ {A : Type} (l : list A) (i : Z) : outcome A :=
  if (0 <=? i) && (i <? Z.of_nat (length l)) then
    match l !! Z.to_nat i with
    | Some a => Ok a
    | None => Fail OutOfRange
    end
  else Fail OutOfRange.

(** [container[i] = v]. *)
Definition set_at {A : Type} (l : list A) (i : Z) (v : A) : outcome (list A) :=
  if (0 <=? i) && (i <? Z.of_nat (length l)) then Ok (<[Z.to_nat i := v]> l)
  else Fail OutOfRange.

(** [container.size()]. *)
Definition size {A : Type} (l : list A) : Z := Z.of_nat (length l).

(* ===================================================================== *)
(** ** Qt value types used by [Transformation] *)
(* ===================================================================== *)

(** [QVector3D], [QQuaternion] and [QQuaternion::slerp] belong to the Qt
    library.  The two value types are modelled as far as [Transformation]
    uses them; [slerp] is a parameter of the functions that call it. *)
Module QVector3D.
(** Modelled from the spec: a vector of three [float] components. *)
Record QVector3D : Type := mk { x : spec_float; y : spec_float; z : spec_float }.
(** Modelled from the spec: [QVector3D()] is the zero translation. *)
Definition null : QVector3D := mk Float32.zero Float32.zero Float32.zero.
(** Modelled from the spec: [factor * vector] scales every component. *)
Definition scale (f : spec_float) (v : QVector3D) : QVector3D :=
  mk (Float32.mul (x v) f) (Float32.mul (y v) f) (Float32.mul (z v) f).
(** Modelled from the spec: [v1 + v2] adds the components. *)
Definition add (v1 v2 : QVector3D) : QVector3D :=
  mk (Float32.add (x v1) (x v2)) (Float32.add (y v1) (y v2)) (Float32.add (z v1) (z v2)).
End QVector3D.

Module QQuaternion.
(** Modelled from the spec: a quaternion of four [float] components. *)
Record QQuaternion : Type :=
  mk { scalar : spec_float; x : spec_float; y : spec_float; z : spec_float }.
(** Modelled from the spec: [QQuaternion()] is the identity rotation
    (1, 0, 0, 0). *)
Definition identity : QQuaternion :=
  mk Float32.one Float32.zero Float32.zero Float32.zero.
End QQuaternion.

Abbreviation vec3 := QVector3D.QVector3D.
Abbreviation quat := QQuaternion.QQuaternion.

(* ===================================================================== *)
(** ** transformation.cpp *)
(* ===================================================================== *)

Record Transformation : Type := mkTransformation {
  translation : vec3;
  rotation : quat;
  scaling : vec3
}.

(** [Transformation::Transformation()], the "constructor for zero
    translation, zero rotation, and scale factor 1":
    [translation(), rotation(), scaling(1.0f, 1.0f, 1.0f)]. *)
Definition Transformation_default : Transformation :=
  {| translation := QVector3D.null;
     rotation := QQuaternion.identity;
     scaling := QVector3D.mk Float32.one Float32.one Float32.one |}.

(** The type of [QQuaternion::slerp], a function of the Qt library; the
    functions that call it take it as their first argument. *)
Definition Slerp : Type := quat -> quat -> spec_float -> quat.

(** [Transformation::interpolate(p0, p1, alpha)]. *)
Definition Transformation_interpolate (slerp : Slerp) (p0 p1 : Transformation)
    (alpha : spec_float) : Transformation :=
  {| translation :=
       QVector3D.add (QVector3D.scale (Float32.sub Float32.one alpha) (translation p0))
                     (QVector3D.scale alpha (translation p1));
     rotation := slerp (rotation p0) (rotation p1) alpha;
     scaling :=
       QVector3D.add (QVector3D.scale (Float32.sub Float32.one alpha) (scaling p0))
                     (QVector3D.scale alpha (scaling p1)) |}.

(* ===================================================================== *)
(** ** animation.hpp, animation.cpp *)
(* ===================================================================== *)

Module Keyframe.
Record Keyframe : Type := mk {
  t : Z;                             (* key frame time in microseconds *)
  transformation : Transformation    (* transformation of the target at time t *)
}.
End Keyframe.
Abbreviation Keyframe := Keyframe.Keyframe.

Record Animation : Type := mkAnimation {
  _keyframes : list Keyframe   (* list of keyframes, sorted by ascending time *)
}.

(** [Animation::Animation()]. *)
Definition Animation_default : Animation := mkAnimation [].

(** [QList::front()] and [QList::back()]; both assert a non-empty list. *)
Definition front {A : Type} (l : list A) : outcome A := at_ l 0.
Definition back {A : Type} (l : list A) : outcome A := at_ l (size l - 1).

(** [Animation::startTime()]:
    [_keyframes.size() == 0 ? 0 : _keyframes.front().t]. *)
Definition startTime (a : Animation) : Z :=
  match _keyframes a with
  | [] => 0
  | k :: _ => Keyframe.t k
  end.

(** [Animation::endTime()]:
    [_keyframes.size() == 0 ? 0 : _keyframes.back().t]. *)
Definition endTime (a : Animation) : Z :=
  match last (_keyframes a) with
  | None => 0
  | Some k => Keyframe.t k
  end.

(** The [while (b >= a)] loop of [findKeyframeIndices]; every iteration
    consumes one unit of [fuel]. *)
Fixpoint findKeyframeIndices_loop (fuel : nat) (keyframes : list Keyframe)
    (t a b : Z) : outcome (Z * Z) :=
  if b >=? a then
    match fuel with
    | O => Fail OutOfFuel
    | S fuel' =>
        let c := Z.quot (int32 (a + b)) 2 in
        let? kc := at_ keyframes c in
        if Keyframe.t kc <? t then
          findKeyframeIndices_loop fuel' keyframes t (int32 (c + 1)) b
        else if Keyframe.t kc >? t then
          findKeyframeIndices_loop fuel' keyframes t a (int32 (c - 1))
        else Ok (c, c)                       (* exact match *)
    end
  else Ok (b, a).

(** [findKeyframeIndices(keyframes, t, lowerIndex, higherIndex)]; the result
    is the pair [(lowerIndex, higherIndex)].  The interval [a..b] shrinks in
    every iteration, so that [size + 1] units of fuel are never used up
    (lemma [findKeyframeIndices_loop_spec]). *)
Definition findKeyframeIndices (keyframes : list Keyframe) (t : Z) : outcome (Z * Z) :=
  findKeyframeIndices_loop (S (length keyframes)) keyframes t 0
                           (int32 (size keyframes - 1)).

(** [QList::insert(i, v)]: [v] is inserted before position [i]; an index
    beyond the end appends (and a negative index prepends). *)
Definition qlist_insert {A : Type} (l : list A) (i : Z) (v : A) : list A :=
  take (Z.to_nat i) l ++ v :: drop (Z.to_nat i) l.

(** [Animation::addKeyframe(keyframe)]. *)
Definition addKeyframe (a : Animation) (keyframe : Keyframe) : outcome Animation :=
  if size (_keyframes a) =? 0 then
    Ok (mkAnimation (_keyframes a ++ [keyframe]))
  else if Keyframe.t keyframe >? endTime a then
    (* fast path for common case *)
    Ok (mkAnimation (_keyframes a ++ [keyframe]))
  else if Keyframe.t keyframe <? startTime a then
    (* fast path for common case *)
    Ok (mkAnimation (keyframe :: _keyframes a))
  else
    let? ' (lowerIndex, higherIndex) := findKeyframeIndices (_keyframes a) (Keyframe.t keyframe) in
    if lowerIndex =? higherIndex then
      let? l := set_at (_keyframes a) lowerIndex keyframe in
      Ok (mkAnimation l)
    else
      Ok (mkAnimation (qlist_insert (_keyframes a) higherIndex keyframe)).

(** The blend factor of [Animation::interpolate]:
    [1.0f - static_cast<float>(t_hi - t) / (t_hi - t_lo)],
    with the subtractions in [long long] and the rest in [float]. *)
Definition blend_alpha (t_lo t_hi t : Z) : spec_float :=
  Float32.sub Float32.one
    (Float32.div (Float32.of_Z (int64 (t_hi - t)))
                 (Float32.of_Z (int64 (t_hi - t_lo)))).

(** [Animation::interpolate(t)]. *)
Definition interpolate (slerp : Slerp) (a : Animation) (t : Z) : outcome Transformation :=
  (* Catch corner cases *)
  if size (_keyframes a) =? 0 then
    Ok Transformation_default
  else if t <=? startTime a then
    let? k := front (_keyframes a) in Ok (Keyframe.transformation k)
  else if t >=? endTime a then
    let? k := back (_keyframes a) in Ok (Keyframe.transformation k)
  else
    let? ' (lowerIndex, higherIndex) := findKeyframeIndices (_keyframes a) t in
    if lowerIndex =? higherIndex then
      let? k := at_ (_keyframes a) lowerIndex in Ok (Keyframe.transformation k)
    else
      let? lo := at_ (_keyframes a) lowerIndex in
      let? hi := at_ (_keyframes a) higherIndex in
      (* Compute alpha value for interpolation. *)
      let alpha := blend_alpha (Keyframe.t lo) (Keyframe.t hi) t in
      (* Interpolate transformation *)
      Ok (Transformation_interpolate slerp (Keyframe.transformation lo)
                                     (Keyframe.transformation hi) alpha).

(** The class invariant of [Animation]: the keyframes are sorted by strictly
    ascending time ("list of keyframes, sorted by ascending time", with one
    keyframe per time stamp).  [ascending] is its executable form. *)
Fixpoint ascending (l : list Keyframe) : bool :=
  match l with
  | [] => true
  | k :: l' =>
      match l' with
      | [] => true
      | k' :: _ => Keyframe.t k <? Keyframe.t k'
      end && ascending l'
  end.

Definition earlier (k1 k2 : Keyframe) : Prop := Keyframe.t k1 < Keyframe.t k2.

(** A sequence of [addKeyframe] calls. *)
Fixpoint addKeyframes (a : Animation) (ks : list Keyframe) : outcome Animation :=
  match ks with
  | [] => Ok a
  | k :: ks' => let? a' := addKeyframe a k in addKeyframes a' ks'
  end.

(** A stand-in for [QQuaternion::slerp], to run the model on concrete inputs:
    the normalized linear blend is replaced by the choice of the nearer end. *)
Definition slerp_stub : Slerp :=
  fun q0 q1 alpha => if SFltb alpha (Float32.div Float32.one (Float32.of_Z 2)) then q0 else q1.

(** A translation by the integer vector (x, y, z). *)
Definition translate (x y z : Z) : Transformation :=
  {| translation := QVector3D.mk (Float32.of_Z x) (Float32.of_Z y) (Float32.of_Z z);
     rotation := QQuaternion.identity;
     scaling := QVector3D.mk Float32.one Float32.one Float32.one |}.

(** Vocabulary for the result of the binary search for time [t]:
    every keyframe before index [a] is earlier than [t] ([below]), every
    keyframe after index [b] is later ([above]). *)
Definition below (l : list Keyframe) (t a : Z) : Prop :=
  forall (i : nat) (k : Keyframe), l !! i = Some k -> Z.of_nat i < a -> Keyframe.t k < t.

Definition above (l : list Keyframe) (t b : Z) : Prop :=
  forall (i : nat) (k : Keyframe), l !! i = Some k -> b < Z.of_nat i -> t < Keyframe.t k.

Inductive bracket (l : list Keyframe) (t : Z) : Z * Z -> Prop :=
  | bracket_exact (c : nat) (k : Keyframe) :
      l !! c = Some k -> Keyframe.t k = t ->
      bracket l t (Z.of_nat c, Z.of_nat c)
  | bracket_between (lo : Z) :
      -1 <= lo < size l -> below l t (lo + 1) -> above l t lo ->
      bracket l t (lo, lo + 1).

(** Two animations for concrete runs: built with [addKeyframe] semantics in
    mind (sorted), and handed as an arbitrary list to the constructor
    [Animation(const QList<Keyframe>&)], which stores the list as it is. *)
Definition sorted_animation : Animation :=
  mkAnimation [Keyframe.mk 0 (translate 0 0 0); Keyframe.mk 5 (translate 1 0 0);
               Keyframe.mk 10 (translate 7 7 7); Keyframe.mk 20 (translate 2 2 2)].

Definition unsorted_animation : Animation :=
  mkAnimation [Keyframe.mk 0 (translate 0 0 0); Keyframe.mk 5 (translate 1 0 0);
               Keyframe.mk 3 (translate 7 7 7); Keyframe.mk 10 (translate 2 2 2)].

(** A sorted animation whose two keyframes are more than 2^63 microseconds
    apart: the difference of their time stamps does not fit into
    [long long]. *)
Definition far_animation : Animation :=
  mkAnimation [Keyframe.mk (-6000000000000000000) (translate 1 0 0);
               Keyframe.mk 6000000000000000000 (translate 2 0 0)].

(* ===================================================================== *)
(** ** scene.hpp *)
(* ===================================================================== *)

(** Of [Light], the members that decide which shadow map textures exist;
    photometric members only feed shader uniforms. *)
Record Light : Type := mkLight {
  shadowMap : bool;
  reflectiveShadowMap : bool
}.

(** [Light::Light()]. *)
Definition Light_default : Light := {| shadowMap := true; reflectiveShadowMap := true |}.

Record Shape : Type := mkShape { materialIndex : Z }.

Record Object : Type := mkObject { shapes : list Shape }.

Record Scene : Type := mkScene {
  lights : list Light;
  lightAnimations : list Animation;   (* list must have same size as lights list *)
  objects : list Object;
  objectAnimations : list Animation   (* list must have same size as objects list *)
}.

(** [Scene::Scene()]. *)
Definition Scene_default : Scene := mkScene [] [] [] [].

(** [Scene::addLight(light, animation)]. *)
Definition addLight (sc : Scene) (light : Light) (animation : Animation) : Scene :=
  {| lights := lights sc ++ [light];
     lightAnimations := lightAnimations sc ++ [animation];
     objects := objects sc;
     objectAnimations := objectAnimations sc |}.

(** [Scene::addObject(object, animation)]. *)
Definition addObject (sc : Scene) (object : Object) (animation : Animation) : Scene :=
  {| lights := lights sc;
     lightAnimations := lightAnimations sc;
     objects := objects sc ++ [object];
     objectAnimations := objectAnimations sc ++ [animation] |}.

(* ===================================================================== *)
(** ** simulator.hpp: configuration classes *)
(* ===================================================================== *)

Record ChipTiming : Type := mkChipTiming {
  exposureTime : spec_float;   (* exposure time for each subframe in seconds *)
  readoutTime : spec_float;    (* readout time for each subframe in seconds *)
  pauseTime : spec_float       (* pause time after all subframes *)
}.

(** [ChipTiming::ChipTiming()]: [1.0 / 60.0], [1.0 / 60.0], [0.0]. *)
Definition ChipTiming_default : ChipTiming :=
  {| exposureTime := Float64.div (Float64.of_Z 1) (Float64.of_Z 60);
     readoutTime := Float64.div (Float64.of_Z 1) (Float64.of_Z 60);
     pauseTime := Float64.zero |}.

(** [ChipTiming::subFrameDuration()]. *)
Definition ChipTiming_subFrameDuration (c : ChipTiming) : spec_float :=
  Float64.add (exposureTime c) (readoutTime c).

Record QSize : Type := mkQSize { width : Z; height : Z }.

Record Projection : Type := mkProjection { _w : Z; _h : Z }.

(** [Projection::Projection()]. *)
Definition Projection_default : Projection := {| _w := 640; _h := 480 |}.

(** [Projection::imageSize()]. *)
Definition imageSize (p : Projection) : QSize := mkQSize (_w p) (_h p).

(** Of [Pipeline], the members read by the configuration checks and by the
    pass sequence; the other members only select shader text. *)
Record Pipeline : Type := mkPipeline {
  preprocLensDistortion : bool;
  postprocLensDistortion : bool;
  shadowMaps : bool;
  reflectiveShadowMaps : bool;
  subFrameTemporalSampling : bool;
  spatialSamples : QSize;
  spatialSampleWeights : list spec_float;
  temporalSamples : Z
}.

(** [Pipeline::Pipeline()]. *)
Definition Pipeline_default : Pipeline :=
  {| preprocLensDistortion := false;
     postprocLensDistortion := false;
     shadowMaps := false;
     reflectiveShadowMaps := false;
     subFrameTemporalSampling := true;
     spatialSamples := mkQSize 1 1;
     spatialSampleWeights := [];
     temporalSamples := 1 |}.

Record Output : Type := mkOutput {
  rgb : bool;
  srgb : bool;
  pmd : bool;
  pmdCoordinates : bool;
  eyeSpacePositions : bool;
  customSpacePositions : bool;
  eyeSpaceNormals : bool;
  customSpaceNormals : bool;
  depthAndRange : bool;
  indices : bool;
  forwardFlow3D : bool;
  forwardFlow2D : bool;
  backwardFlow3D : bool;
  backwardFlow2D : bool
}.

(** [Output::Output()]. *)
Definition Output_default : Output :=
  {| rgb := true; srgb := false; pmd := false; pmdCoordinates := false;
     eyeSpacePositions := false; customSpacePositions := false;
     eyeSpaceNormals := false; customSpaceNormals := false;
     depthAndRange := false; indices := false;
     forwardFlow3D := false; forwardFlow2D := false;
     backwardFlow3D := false; backwardFlow2D := false |}.

(* ===================================================================== *)
(** ** OpenGL as seen by the simulator *)
(* ===================================================================== *)

(** The shader programs whose [link()] result the simulator checks. *)
Inductive Program : Type :=
  | ShadowMapPrg | ReflectiveShadowMapPrg | DepthPrg | LightPrg
  | GeomPrg | FlowPrg | PostprocLensDistortionPrg.

(** Whether a program links is decided by the OpenGL driver. *)
Definition Linker : Type := Program -> bool.

(** The render passes issued by [Simulator::simulate], with the sub-frame or
    texture index and the time stamps they are issued for. *)
Inductive RenderPass : Type :=
  | PassShadowMaps (subFrame : Z)
  | PassLight (subFrame : Z) (t : Z) (oversampled : bool)
  | PassOversampledLight (subFrame : Z) (clear : bool)
  | PassPMDDigNums (target : Z)
  | PassPostprocLensDistortion (subFrame : Z)
  | PassConvertToSRGB (target : Z) (texIndex : Z)
  | PassGeometry (subFrame : Z)
  | PassFlow (subFrame : Z) (lastT nextT : Z) (depthBuffer lastDepthBuf : Z)
  | PassRGBResult (target : Z)
  | PassPMDResult (target : Z)
  | PassPMDCoordinates (target : Z).

(* ===================================================================== *)
(** ** simulator.hpp: class Simulator *)
(* ===================================================================== *)

(** The output textures of the simulator (the [QVector<unsigned int>] members
    read by the result accessors). *)
Record Textures : Type := mkTextures {
  _shadowMapDepthBufs : list (list Z);           (* subFrames; one per light *)
  _reflectiveShadowMapDepthBufs : list (list Z); (* subFrames; one per light *)
  _reflectiveShadowMapTexs : list (list Z);      (* subFrames; one per light *)
  _pmdCoordinatesTex : Z;
  _depthBuffers : list Z;          (* subFrames+1 *)
  _rgbTexs : list Z;               (* subFrames+1 *)
  _srgbTexs : list Z;              (* subFrames+1 *)
  _pmdDigNumTexs : list Z;         (* subFrames+1 *)
  _eyeSpacePosTexs : list Z;       (* subFrames *)
  _customSpacePosTexs : list Z;    (* subFrames *)
  _eyeSpaceNormalTexs : list Z;    (* subFrames *)
  _customSpaceNormalTexs : list Z; (* subFrames *)
  _depthAndRangeTexs : list Z;     (* subFrames *)
  _indicesTexs : list Z;           (* subFrames *)
  _forwardFlow3DTexs : list Z;     (* subFrames+1 *)
  _forwardFlow2DTexs : list Z;     (* subFrames+1 *)
  _backwardFlow3DTexs : list Z;    (* subFrames+1 *)
  _backwardFlow2DTexs : list Z     (* subFrames+1 *)
}.

Definition Textures_empty : Textures :=
  mkTextures [] [] [] 0 [] [] [] [] [] [] [] [] [] [] [] [] [] [].

Record Simulator : Type := mkSimulator {
  (* The configuration *)
  _cameraAnimation : Animation;
  _scene : Scene;
  _chipTiming : ChipTiming;
  _projection : Projection;
  _pipeline : Pipeline;
  _output : Output;
  (* Timestamp management *)
  _recreateTimestamps : bool;
  _startTimestamp : Z;
  _endTimestamp : Z;
  _haveLastFrameTimestamp : bool;
  _lastFrameTimestamp : Z;
  (* Shader pipeline management *)
  _recreateShaders : bool;
  (* Simulation output management *)
  _recreateOutput : bool;
  _timestamps : list Z;                                  (* subFrames *)
  _cameraTransformations : list Transformation;          (* subFrames *)
  _lightTransformations : list (list Transformation);    (* subFrames; one per light *)
  _objectTransformations : list (list Transformation);   (* subFrames; one per object *)
  _textures : Textures;
  (* static bool depthBufferPingPong of simulate() *)
  depthBufferPingPong : bool;
  (* OpenGL: the next unused texture name, the render passes issued so far *)
  gl_next : Z;
  gl_passes : list RenderPass
}.

(** Assignment to a member: [set_m v s] is [s] after [m = v]. *)
Definition set_cameraAnimation (v : Animation) (s : Simulator) : Simulator :=
  {| _cameraAnimation := v; _scene := _scene s; _chipTiming := _chipTiming s;
     _projection := _projection s; _pipeline := _pipeline s; _output := _output s;
     _recreateTimestamps := _recreateTimestamps s; _startTimestamp := _startTimestamp s;
     _endTimestamp := _endTimestamp s;
     _haveLastFrameTimestamp := _haveLastFrameTimestamp s;
     _lastFrameTimestamp := _lastFrameTimestamp s; _recreateShaders := _recreateShaders s;
     _recreateOutput := _recreateOutput s; _timestamps := _timestamps s;
     _cameraTransformations := _cameraTransformations s;
     _lightTransformations := _lightTransformations s;
     _objectTransformations := _objectTransformations s; _textures := _textures s;
     depthBufferPingPong := depthBufferPingPong s; gl_next := gl_next s;
     gl_passes := gl_passes s |}.

Definition set_scene (v : Scene) (s : Simulator) : Simulator :=
  {| _cameraAnimation := _cameraAnimation s; _scene := v; _chipTiming := _chipTiming s;
     _projection := _projection s; _pipeline := _pipeline s; _output := _output s;
     _recreateTimestamps := _recreateTimestamps s; _startTimestamp := _startTimestamp s;
     _endTimestamp := _endTimestamp s;
     _haveLastFrameTimestamp := _haveLastFrameTimestamp s;
     _lastFrameTimestamp := _lastFrameTimestamp s; _recreateShaders := _recreateShaders s;
     _recreateOutput := _recreateOutput s; _timestamps := _timestamps s;
     _cameraTransformations := _cameraTransformations s;
     _lightTransformations := _lightTransformations s;
     _objectTransformations := _objectTransformations s; _textures := _textures s;
     depthBufferPingPong := depthBufferPingPong s; gl_next := gl_next s;
     gl_passes := gl_passes s |}.

Definition set_chipTiming (v : ChipTiming) (s : Simulator) : Simulator :=
  {| _cameraAnimation := _cameraAnimation s; _scene := _scene s; _chipTiming := v;
     _projection := _projection s; _pipeline := _pipeline s; _output := _output s;
     _recreateTimestamps := _recreateTimestamps s; _startTimestamp := _startTimestamp s;
     _endTimestamp := _endTimestamp s;
     _haveLastFrameTimestamp := _haveLastFrameTimestamp s;
     _lastFrameTimestamp := _lastFrameTimestamp s; _recreateShaders := _recreateShaders s;
     _recreateOutput := _recreateOutput s; _timestamps := _timestamps s;
     _cameraTransformations := _cameraTransformations s;
     _lightTransformations := _lightTransformations s;
     _objectTransformations := _objectTransformations s; _textures := _textures s;
     depthBufferPingPong := depthBufferPingPong s; gl_next := gl_next s;
     gl_passes := gl_passes s |}.

Definition set_projection (v : Projection) (s : Simulator) : Simulator :=
  {| _cameraAnimation := _cameraAnimation s; _scene := _scene s;
     _chipTiming := _chipTiming s; _projection := v; _pipeline := _pipeline s;
     _output := _output s; _recreateTimestamps := _recreateTimestamps s;
     _startTimestamp := _startTimestamp s; _endTimestamp := _endTimestamp s;
     _haveLastFrameTimestamp := _haveLastFrameTimestamp s;
     _lastFrameTimestamp := _lastFrameTimestamp s; _recreateShaders := _recreateShaders s;
     _recreateOutput := _recreateOutput s; _timestamps := _timestamps s;
     _cameraTransformations := _cameraTransformations s;
     _lightTransformations := _lightTransformations s;
     _objectTransformations := _objectTransformations s; _textures := _textures s;
     depthBufferPingPong := depthBufferPingPong s; gl_next := gl_next s;
     gl_passes := gl_passes s |}.

Definition set_pipeline (v : Pipeline) (s : Simulator) : Simulator :=
  {| _cameraAnimation := _cameraAnimation s; _scene := _scene s;
     _chipTiming := _chipTiming s; _projection := _projection s; _pipeline := v;
     _output := _output s; _recreateTimestamps := _recreateTimestamps s;
     _startTimestamp := _startTimestamp s; _endTimestamp := _endTimestamp s;
     _haveLastFrameTimestamp := _haveLastFrameTimestamp s;
     _lastFrameTimestamp := _lastFrameTimestamp s; _recreateShaders := _recreateShaders s;
     _recreateOutput := _recreateOutput s; _timestamps := _timestamps s;
     _cameraTransformations := _cameraTransformations s;
     _lightTransformations := _lightTransformations s;
     _objectTransformations := _objectTransformations s; _textures := _textures s;
     depthBufferPingPong := depthBufferPingPong s; gl_next := gl_next s;
     gl_passes := gl_passes s |}.

Definition set_output (v : Output) (s : Simulator) : Simulator :=
  {| _cameraAnimation := _cameraAnimation s; _scene := _scene s;
     _chipTiming := _chipTiming s; _projection := _projection s; _pipeline := _pipeline s;
     _output := v; _recreateTimestamps := _recreateTimestamps s;
     _startTimestamp := _startTimestamp s; _endTimestamp := _endTimestamp s;
     _haveLastFrameTimestamp := _haveLastFrameTimestamp s;
     _lastFrameTimestamp := _lastFrameTimestamp s; _recreateShaders := _recreateShaders s;
     _recreateOutput := _recreateOutput s; _timestamps := _timestamps s;
     _cameraTransformations := _cameraTransformations s;
     _lightTransformations := _lightTransformations s;
     _objectTransformations := _objectTransformations s; _textures := _textures s;
     depthBufferPingPong := depthBufferPingPong s; gl_next := gl_next s;
     gl_passes := gl_passes s |}.

Definition set_recreateTimestamps (v : bool) (s : Simulator) : Simulator :=
  {| _cameraAnimation := _cameraAnimation s; _scene := _scene s;
     _chipTiming := _chipTiming s; _projection := _projection s; _pipeline := _pipeline s;
     _output := _output s; _recreateTimestamps := v; _startTimestamp := _startTimestamp s;
     _endTimestamp := _endTimestamp s;
     _haveLastFrameTimestamp := _haveLastFrameTimestamp s;
     _lastFrameTimestamp := _lastFrameTimestamp s; _recreateShaders := _recreateShaders s;
     _recreateOutput := _recreateOutput s; _timestamps := _timestamps s;
     _cameraTransformations := _cameraTransformations s;
     _lightTransformations := _lightTransformations s;
     _objectTransformations := _objectTransformations s; _textures := _textures s;
     depthBufferPingPong := depthBufferPingPong s; gl_next := gl_next s;
     gl_passes := gl_passes s |}.

Definition set_startTimestamp (v : Z) (s : Simulator) : Simulator :=
  {| _cameraAnimation := _cameraAnimation s; _scene := _scene s;
     _chipTiming := _chipTiming s; _projection := _projection s; _pipeline := _pipeline s;
     _output := _output s; _recreateTimestamps := _recreateTimestamps s;
     _startTimestamp := v; _endTimestamp := _endTimestamp s;
     _haveLastFrameTimestamp := _haveLastFrameTimestamp s;
     _lastFrameTimestamp := _lastFrameTimestamp s; _recreateShaders := _recreateShaders s;
     _recreateOutput := _recreateOutput s; _timestamps := _timestamps s;
     _cameraTransformations := _cameraTransformations s;
     _lightTransformations := _lightTransformations s;
     _objectTransformations := _objectTransformations s; _textures := _textures s;
     depthBufferPingPong := depthBufferPingPong s; gl_next := gl_next s;
     gl_passes := gl_passes s |}.

Definition set_endTimestamp (v : Z) (s : Simulator) : Simulator :=
  {| _cameraAnimation := _cameraAnimation s; _scene := _scene s;
     _chipTiming := _chipTiming s; _projection := _projection s; _pipeline := _pipeline s;
     _output := _output s; _recreateTimestamps := _recreateTimestamps s;
     _startTimestamp := _startTimestamp s; _endTimestamp := v;
     _haveLastFrameTimestamp := _haveLastFrameTimestamp s;
     _lastFrameTimestamp := _lastFrameTimestamp s; _recreateShaders := _recreateShaders s;
     _recreateOutput := _recreateOutput s; _timestamps := _timestamps s;
     _cameraTransformations := _cameraTransformations s;
     _lightTransformations := _lightTransformations s;
     _objectTransformations := _objectTransformations s; _textures := _textures s;
     depthBufferPingPong := depthBufferPingPong s; gl_next := gl_next s;
     gl_passes := gl_passes s |}.

Definition set_haveLastFrameTimestamp (v : bool) (s : Simulator) : Simulator :=
  {| _cameraAnimation := _cameraAnimation s; _scene := _scene s;
     _chipTiming := _chipTiming s; _projection := _projection s; _pipeline := _pipeline s;
     _output := _output s; _recreateTimestamps := _recreateTimestamps s;
     _startTimestamp := _startTimestamp s; _endTimestamp := _endTimestamp s;
     _haveLastFrameTimestamp := v; _lastFrameTimestamp := _lastFrameTimestamp s;
     _recreateShaders := _recreateShaders s; _recreateOutput := _recreateOutput s;
     _timestamps := _timestamps s; _cameraTransformations := _cameraTransformations s;
     _lightTransformations := _lightTransformations s;
     _objectTransformations := _objectTransformations s; _textures := _textures s;
     depthBufferPingPong := depthBufferPingPong s; gl_next := gl_next s;
     gl_passes := gl_passes s |}.

Definition set_lastFrameTimestamp (v : Z) (s : Simulator) : Simulator :=
  {| _cameraAnimation := _cameraAnimation s; _scene := _scene s;
     _chipTiming := _chipTiming s; _projection := _projection s; _pipeline := _pipeline s;
     _output := _output s; _recreateTimestamps := _recreateTimestamps s;
     _startTimestamp := _startTimestamp s; _endTimestamp := _endTimestamp s;
     _haveLastFrameTimestamp := _haveLastFrameTimestamp s; _lastFrameTimestamp := v;
     _recreateShaders := _recreateShaders s; _recreateOutput := _recreateOutput s;
     _timestamps := _timestamps s; _cameraTransformations := _cameraTransformations s;
     _lightTransformations := _lightTransformations s;
     _objectTransformations := _objectTransformations s; _textures := _textures s;
     depthBufferPingPong := depthBufferPingPong s; gl_next := gl_next s;
     gl_passes := gl_passes s |}.

Definition set_recreateShaders (v : bool) (s : Simulator) : Simulator :=
  {| _cameraAnimation := _cameraAnimation s; _scene := _scene s;
     _chipTiming := _chipTiming s; _projection := _projection s; _pipeline := _pipeline s;
     _output := _output s; _recreateTimestamps := _recreateTimestamps s;
     _startTimestamp := _startTimestamp s; _endTimestamp := _endTimestamp s;
     _haveLastFrameTimestamp := _haveLastFrameTimestamp s;
     _lastFrameTimestamp := _lastFrameTimestamp s; _recreateShaders := v;
     _recreateOutput := _recreateOutput s; _timestamps := _timestamps s;
     _cameraTransformations := _cameraTransformations s;
     _lightTransformations := _lightTransformations s;
     _objectTransformations := _objectTransformations s; _textures := _textures s;
     depthBufferPingPong := depthBufferPingPong s; gl_next := gl_next s;
     gl_passes := gl_passes s |}.

Definition set_recreateOutput (v : bool) (s : Simulator) : Simulator :=
  {| _cameraAnimation := _cameraAnimation s; _scene := _scene s;
     _chipTiming := _chipTiming s; _projection := _projection s; _pipeline := _pipeline s;
     _output := _output s; _recreateTimestamps := _recreateTimestamps s;
     _startTimestamp := _startTimestamp s; _endTimestamp := _endTimestamp s;
     _haveLastFrameTimestamp := _haveLastFrameTimestamp s;
     _lastFrameTimestamp := _lastFrameTimestamp s; _recreateShaders := _recreateShaders s;
     _recreateOutput := v; _timestamps := _timestamps s;
     _cameraTransformations := _cameraTransformations s;
     _lightTransformations := _lightTransformations s;
     _objectTransformations := _objectTransformations s; _textures := _textures s;
     depthBufferPingPong := depthBufferPingPong s; gl_next := gl_next s;
     gl_passes := gl_passes s |}.

Definition set_timestamps (v : list Z) (s : Simulator) : Simulator :=
  {| _cameraAnimation := _cameraAnimation s; _scene := _scene s;
     _chipTiming := _chipTiming s; _projection := _projection s; _pipeline := _pipeline s;
     _output := _output s; _recreateTimestamps := _recreateTimestamps s;
     _startTimestamp := _startTimestamp s; _endTimestamp := _endTimestamp s;
     _haveLastFrameTimestamp := _haveLastFrameTimestamp s;
     _lastFrameTimestamp := _lastFrameTimestamp s; _recreateShaders := _recreateShaders s;
     _recreateOutput := _recreateOutput s; _timestamps := v;
     _cameraTransformations := _cameraTransformations s;
     _lightTransformations := _lightTransformations s;
     _objectTransformations := _objectTransformations s; _textures := _textures s;
     depthBufferPingPong := depthBufferPingPong s; gl_next := gl_next s;
     gl_passes := gl_passes s |}.

Definition set_cameraTransformations (v : list Transformation) (s : Simulator) : Simulator :=
  {| _cameraAnimation := _cameraAnimation s; _scene := _scene s;
     _chipTiming := _chipTiming s; _projection := _projection s; _pipeline := _pipeline s;
     _output := _output s; _recreateTimestamps := _recreateTimestamps s;
     _startTimestamp := _startTimestamp s; _endTimestamp := _endTimestamp s;
     _haveLastFrameTimestamp := _haveLastFrameTimestamp s;
     _lastFrameTimestamp := _lastFrameTimestamp s; _recreateShaders := _recreateShaders s;
     _recreateOutput := _recreateOutput s; _timestamps := _timestamps s;
     _cameraTransformations := v; _lightTransformations := _lightTransformations s;
     _objectTransformations := _objectTransformations s; _textures := _textures s;
     depthBufferPingPong := depthBufferPingPong s; gl_next := gl_next s;
     gl_passes := gl_passes s |}.

Definition set_lightTransformations (v : list (list Transformation)) (s : Simulator) : Simulator :=
  {| _cameraAnimation := _cameraAnimation s; _scene := _scene s;
     _chipTiming := _chipTiming s; _projection := _projection s; _pipeline := _pipeline s;
     _output := _output s; _recreateTimestamps := _recreateTimestamps s;
     _startTimestamp := _startTimestamp s; _endTimestamp := _endTimestamp s;
     _haveLastFrameTimestamp := _haveLastFrameTimestamp s;
     _lastFrameTimestamp := _lastFrameTimestamp s; _recreateShaders := _recreateShaders s;
     _recreateOutput := _recreateOutput s; _timestamps := _timestamps s;
     _cameraTransformations := _cameraTransformations s; _lightTransformations := v;
     _objectTransformations := _objectTransformations s; _textures := _textures s;
     depthBufferPingPong := depthBufferPingPong s; gl_next := gl_next s;
     gl_passes := gl_passes s |}.

Definition set_objectTransformations (v : list (list Transformation)) (s : Simulator) : Simulator :=
  {| _cameraAnimation := _cameraAnimation s; _scene := _scene s;
     _chipTiming := _chipTiming s; _projection := _projection s; _pipeline := _pipeline s;
     _output := _output s; _recreateTimestamps := _recreateTimestamps s;
     _startTimestamp := _startTimestamp s; _endTimestamp := _endTimestamp s;
     _haveLastFrameTimestamp := _haveLastFrameTimestamp s;
     _lastFrameTimestamp := _lastFrameTimestamp s; _recreateShaders := _recreateShaders s;
     _recreateOutput := _recreateOutput s; _timestamps := _timestamps s;
     _cameraTransformations := _cameraTransformations s;
     _lightTransformations := _lightTransformations s; _objectTransformations := v;
     _textures := _textures s; depthBufferPingPong := depthBufferPingPong s;
     gl_next := gl_next s; gl_passes := gl_passes s |}.

Definition set_textures (v : Textures) (s : Simulator) : Simulator :=
  {| _cameraAnimation := _cameraAnimation s; _scene := _scene s;
     _chipTiming := _chipTiming s; _projection := _projection s; _pipeline := _pipeline s;
     _output := _output s; _recreateTimestamps := _recreateTimestamps s;
     _startTimestamp := _startTimestamp s; _endTimestamp := _endTimestamp s;
     _haveLastFrameTimestamp := _haveLastFrameTimestamp s;
     _lastFrameTimestamp := _lastFrameTimestamp s; _recreateShaders := _recreateShaders s;
     _recreateOutput := _recreateOutput s; _timestamps := _timestamps s;
     _cameraTransformations := _cameraTransformations s;
     _lightTransformations := _lightTransformations s;
     _objectTransformations := _objectTransformations s; _textures := v;
     depthBufferPingPong := depthBufferPingPong s; gl_next := gl_next s;
     gl_passes := gl_passes s |}.

Definition set_depthBufferPingPong (v : bool) (s : Simulator) : Simulator :=
  {| _cameraAnimation := _cameraAnimation s; _scene := _scene s;
     _chipTiming := _chipTiming s; _projection := _projection s; _pipeline := _pipeline s;
     _output := _output s; _recreateTimestamps := _recreateTimestamps s;
     _startTimestamp := _startTimestamp s; _endTimestamp := _endTimestamp s;
     _haveLastFrameTimestamp := _haveLastFrameTimestamp s;
     _lastFrameTimestamp := _lastFrameTimestamp s; _recreateShaders := _recreateShaders s;
     _recreateOutput := _recreateOutput s; _timestamps := _timestamps s;
     _cameraTransformations := _cameraTransformations s;
     _lightTransformations := _lightTransformations s;
     _objectTransformations := _objectTransformations s; _textures := _textures s;
     depthBufferPingPong := v; gl_next := gl_next s; gl_passes := gl_passes s |}.

Definition set_gl_next (v : Z) (s : Simulator) : Simulator :=
  {| _cameraAnimation := _cameraAnimation s; _scene := _scene s;
     _chipTiming := _chipTiming s; _projection := _projection s; _pipeline := _pipeline s;
     _output := _output s; _recreateTimestamps := _recreateTimestamps s;
     _startTimestamp := _startTimestamp s; _endTimestamp := _endTimestamp s;
     _haveLastFrameTimestamp := _haveLastFrameTimestamp s;
     _lastFrameTimestamp := _lastFrameTimestamp s; _recreateShaders := _recreateShaders s;
     _recreateOutput := _recreateOutput s; _timestamps := _timestamps s;
     _cameraTransformations := _cameraTransformations s;
     _lightTransformations := _lightTransformations s;
     _objectTransformations := _objectTransformations s; _textures := _textures s;
     depthBufferPingPong := depthBufferPingPong s; gl_next := v; gl_passes := gl_passes s |}.

Definition set_gl_passes (v : list RenderPass) (s : Simulator) : Simulator :=
  {| _cameraAnimation := _cameraAnimation s; _scene := _scene s;
     _chipTiming := _chipTiming s; _projection := _projection s; _pipeline := _pipeline s;
     _output := _output s; _recreateTimestamps := _recreateTimestamps s;
     _startTimestamp := _startTimestamp s; _endTimestamp := _endTimestamp s;
     _haveLastFrameTimestamp := _haveLastFrameTimestamp s;
     _lastFrameTimestamp := _lastFrameTimestamp s; _recreateShaders := _recreateShaders s;
     _recreateOutput := _recreateOutput s; _timestamps := _timestamps s;
     _cameraTransformations := _cameraTransformations s;
     _lightTransformations := _lightTransformations s;
     _objectTransformations := _objectTransformations s; _textures := _textures s;
     depthBufferPingPong := depthBufferPingPong s; gl_next := gl_next s; gl_passes := v |}.

(** [Simulator::Simulator()].  The constructor initializes the three
    [_recreate...] flags and the texture handles; the members
    [_startTimestamp], [_endTimestamp], [_haveLastFrameTimestamp] and
    [_lastFrameTimestamp] are left uninitialized and can hold any value. *)
Definition Simulator_new (startTimestamp0 endTimestamp0 : Z)
    (haveLastFrameTimestamp0 : bool) (lastFrameTimestamp0 : Z) : Simulator :=
  {| _cameraAnimation := Animation_default;
     _scene := Scene_default;
     _chipTiming := ChipTiming_default;
     _projection := Projection_default;
     _pipeline := Pipeline_default;
     _output := Output_default;
     _recreateTimestamps := true;
     _startTimestamp := startTimestamp0;
     _endTimestamp := endTimestamp0;
     _haveLastFrameTimestamp := haveLastFrameTimestamp0;
     _lastFrameTimestamp := lastFrameTimestamp0;
     _recreateShaders := true;
     _recreateOutput := true;
     _timestamps := [];
     _cameraTransformations := [];
     _lightTransformations := [];
     _objectTransformations := [];
     _textures := Textures_empty;
     depthBufferPingPong := true;
     gl_next := 1;
     gl_passes := [] |}.

(** [Simulator::setCameraAnimation]. *)
Definition setCameraAnimation (animation : Animation) (s : Simulator) : Simulator :=
  set_recreateTimestamps true (set_cameraAnimation animation s).

(** [Simulator::setScene]. *)
Definition setScene (scene : Scene) (s : Simulator) : Simulator :=
  set_recreateOutput true       (* number of light sources and objects changed *)
    (set_recreateTimestamps true  (* animations changed *)
       (set_recreateShaders true  (* number of light sources might have changed *)
          (set_scene scene s))).

(** [Simulator::setChipTiming]. *)
Definition setChipTiming (chipTiming : ChipTiming) (s : Simulator) : Simulator :=
  set_recreateTimestamps true (set_chipTiming chipTiming s).

(** [Simulator::setProjection]. *)
Definition setProjection (projection : Projection) (s : Simulator) : Simulator :=
  set_recreateOutput true (set_projection projection s).

(** [Simulator::setPipeline]. *)
Definition setPipeline (pipeline : Pipeline) (s : Simulator) : Simulator :=
  set_recreateOutput true (set_recreateShaders true (set_pipeline pipeline s)).

(** [Simulator::setOutput]. *)
Definition setOutput (output : Output) (s : Simulator) : Simulator :=
  set_recreateOutput true (set_recreateShaders true (set_output output s)).

(** [Simulator::subFrames()]. *)
Definition subFrames (s : Simulator) : Z := if pmd (_output s) then 4 else 1.

(** One iteration of the loops of [recreateTimestampsIfNecessary]: the pair
    is [(_startTimestamp, _endTimestamp)]. *)
Definition extendTimestamps (bounds : Z * Z) (a : Animation) : Z * Z :=
  let s := startTime a in
  let start := if s <? fst bounds then s else fst bounds in
  let e := endTime a in
  let end_ := if e >? snd bounds then e else snd bounds in
  (start, end_).

(** [Simulator::recreateTimestampsIfNecessary()]. *)
Definition recreateTimestampsIfNecessary (s : Simulator) : Simulator :=
  if negb (_recreateTimestamps s) then s
  else
    let bounds0 := (startTime (_cameraAnimation s), endTime (_cameraAnimation s)) in
    let bounds1 := fold_left extendTimestamps (lightAnimations (_scene s)) bounds0 in
    let bounds2 := fold_left extendTimestamps (objectAnimations (_scene s)) bounds1 in
    set_recreateTimestamps false
      (set_haveLastFrameTimestamp false
         (set_endTimestamp (snd bounds2) (set_startTimestamp (fst bounds2) s))).

(** [Simulator::startTimestamp()]: the result and the simulator afterwards. *)
Definition startTimestamp (s : Simulator) : Z * Simulator :=
  let s' := recreateTimestampsIfNecessary s in (_startTimestamp s', s').

(** [Simulator::endTimestamp()]. *)
Definition endTimestamp (s : Simulator) : Z * Simulator :=
  let s' := recreateTimestampsIfNecessary s in (_endTimestamp s', s').

(** The [double] literal [1e6]. *)
Definition d1e6 : spec_float := Float64.of_Z 1000000.

(** [Simulator::subFrameDuration()]:
    [return _chipTiming.subFrameDuration() * 1e6;] converted to [long long]. *)
Definition subFrameDuration (s : Simulator) : Z :=
  Float64.to_int64 (Float64.mul (ChipTiming_subFrameDuration (_chipTiming s)) d1e6).

(** [Simulator::frameDuration()]:
    [return subFrameDuration() * subFrames() + _chipTiming.pauseTime * 1e6;]
    the product is a [long long], the sum a [double] converted to
    [long long]. *)
Definition frameDuration (s : Simulator) : Z :=
  Float64.to_int64
    (Float64.add (Float64.of_Z (int64 (subFrameDuration s * subFrames s)))
                 (Float64.mul (pauseTime (_chipTiming s)) d1e6)).

(** [Simulator::nextFrameTimestamp()]. *)
Definition nextFrameTimestamp (s : Simulator) : Z * Simulator :=
  let s' := recreateTimestampsIfNecessary s in
  if _haveLastFrameTimestamp s' then
    (int64 (_lastFrameTimestamp s' + frameDuration s'), s')
  else
    startTimestamp s'.

(* ===================================================================== *)
(** ** Methods that change the simulator and can fail *)
(* ===================================================================== *)

(** A method of [Simulator]: from the simulator before the call to the result
    (or the failure) and the simulator after the call (or at the failure). *)
Definition M (A : Type) : Type := Simulator -> outcome A * Simulator.

Definition ret {A : Type} (a : A) : M A := fun s => (Ok a, s).

Definition bind {A B : Type} (m : M A) (f : A -> M B) : M B :=
  fun s =>
    match m s with
    | (Ok a, s') => f a s'
    | (Fail e, s') => (Fail e, s')
    end.

Declare Scope sim_scope.
Delimit Scope sim_scope with sim.
Notation "x <- m ;; k" := (bind m (fun x => k))
  (at level 100, m at next level, right associativity) : sim_scope.
Notation "m ;; k" := (bind m (fun _ => k))
  (at level 100, right associativity) : sim_scope.
Local Open Scope sim_scope.

(** Read the simulator, change it, lift a result, fail. *)
Definition get : M Simulator := fun s => (Ok s, s).
Definition modify (f : Simulator -> Simulator) : M unit := fun s => (Ok tt, f s).
Definition lift {A : Type} (x : outcome A) : M A := fun s => (x, s).
(** [qCritical(msg); std::exit(1);] *)
Definition exit (msg : string) : M unit := fun s => (Fail (Exit msg), s).
(** [if (c) { m }] *)
Definition when (c : bool) (m : M unit) : M unit := if c then m else ret tt.

(** [for (int i = 0; i < n; i++) body(i)] over the indices [0 .. n-1]. *)
Fixpoint for_each {A : Type} (l : list A) (body : A -> M unit) : M unit :=
  match l with
  | [] => ret tt
  | i :: l' => body i ;; for_each l' body
  end.

Definition indices_below (n : Z) : list Z := seqZ 0 n.

(** A loop that computes one value per index. *)
Fixpoint map_each {A B : Type} (l : list A) (body : A -> M B) : M (list B) :=
  match l with
  | [] => ret []
  | i :: l' => x <- body i ;; xs <- map_each l' body ;; ret (x :: xs)
  end.

(** [glGenTextures(n, ...)]: [n] unused texture names. *)
Definition glGenTextures (n : Z) : M (list Z) :=
  fun s => (Ok (map (fun i => gl_next s + i) (indices_below n)),
            set_gl_next (gl_next s + Z.max 0 n) s).

Definition glGenTexture : M Z :=
  fun s => (Ok (gl_next s), set_gl_next (gl_next s + 1) s).

(** A render pass is issued.  The model records the pass in the trace and
    goes on.  What the pass draws is not modelled, and neither are its reads
    of the materials of the scene ([drawScene] reads
    [_scene.materials[shape.materialIndex]]) nor the [std::exit] of
    [getGlFunctionsFromCurrentContext] and [glCheck], taken when no OpenGL
    context is current or OpenGL reports an error: the model describes the
    runs in which OpenGL works and every shape names a material of the
    scene. *)
Definition pass (p : RenderPass) : M unit :=
  modify (fun s => set_gl_passes (gl_passes s ++ [p]) s).

(** [if (!prg.link()) { qCritical(msg); std::exit(1); }] *)
Definition linkOrExit (link : Linker) (prg : Program) (msg : string) : M unit :=
  if link prg then ret tt else exit msg.

(** The outputs of the geometry pass and of the flow pass. *)
Definition geometryOutput (o : Output) : bool :=
  eyeSpacePositions o || customSpacePositions o || eyeSpaceNormals o
  || customSpaceNormals o || depthAndRange o || indices o.

Definition flowOutput (o : Output) : bool :=
  forwardFlow3D o || forwardFlow2D o || backwardFlow3D o || backwardFlow2D o.

(** [Simulator::recreateShadersIfNecessary()]: the sanity checks, then the
    programs that are linked with a checked result. *)
Definition recreateShadersIfNecessary (link : Linker) : M unit :=
  s <- get ;;
  if negb (_recreateShaders s) then ret tt
  else
    let scene := _scene s in
    let pipeline := _pipeline s in
    let output := _output s in
    (* Sanity checks *)
    when (size (lights scene) <? 1)
      (exit "No lights in scene") ;;
    when (negb (size (lights scene) =? size (lightAnimations scene)))
      (exit "Invalid number of light animations in scene") ;;
    when (negb (size (objects scene) =? size (objectAnimations scene)))
      (exit "Invalid number of object animations in scene") ;;
    when ((width (spatialSamples pipeline) <? 1)
          || negb (Z.rem (width (spatialSamples pipeline)) 2 =? 1)
          || (height (spatialSamples pipeline) <? 1)
          || negb (Z.rem (height (spatialSamples pipeline)) 2 =? 1))
      (exit "Invalid number of spatial samples in pipeline configuration") ;;
    when ((size (spatialSampleWeights pipeline) >? 0)
          && negb (size (spatialSampleWeights pipeline)
                   =? int32 (width (spatialSamples pipeline)
                             * height (spatialSamples pipeline))))
      (exit "Invalid number of spatial sample weights in pipeline configuration") ;;
    when (temporalSamples pipeline <? 1)
      (exit "Invalid number of temporal samples in pipeline configuration") ;;
    when (preprocLensDistortion pipeline && postprocLensDistortion pipeline)
      (exit "Cannot enable both preproc and postproc lens distortion") ;;
    when (postprocLensDistortion pipeline
          && (indices output || forwardFlow3D output || forwardFlow2D output
              || backwardFlow3D output || backwardFlow2D output))
      (exit "Postproc lens distortion cannot be applied to indices, flow3d, flow2D outputs") ;;
    (* Shadow map programs *)
    when (shadowMaps pipeline || reflectiveShadowMaps pipeline)
      (when (shadowMaps pipeline)
         (linkOrExit link ShadowMapPrg "Cannot link shadow map program") ;;
       when (reflectiveShadowMaps pipeline)
         (linkOrExit link ReflectiveShadowMapPrg
                     "Cannot link reflective shadow map program")) ;;
    (* Prerender depth only *)
    linkOrExit link DepthPrg "Cannot link depth simulation program" ;;
    (* Light-based simulation programs *)
    when (rgb output || pmd output)
      (linkOrExit link LightPrg "Cannot link light simulation program") ;;
    (* Geometry simulation program *)
    when (geometryOutput output)
      (linkOrExit link GeomPrg "Cannot link geometry simulation program") ;;
    (* Flow simulation program *)
    when (flowOutput output)
      (linkOrExit link FlowPrg "Cannot link flow simulation program") ;;
    (* Postproc lens distortion program *)
    when (postprocLensDistortion pipeline)
      (linkOrExit link PostprocLensDistortionPrg
                  "Cannot link postproc lens distortion program") ;;
    modify (set_haveLastFrameTimestamp false) ;;
    modify (set_recreateShaders false).

(** The cube map textures of one sub-frame: a texture for every light that
    has the map enabled, 0 for the others. *)
Definition genPerLight (enabled : Light -> bool) (ls : list Light) : M (list Z) :=
  map_each ls (fun light => if enabled light then glGenTexture else ret 0).

(** [_texs.resize(n); glGenTextures(n, _texs.data());] if the output is
    enabled; the vector stays empty otherwise. *)
Definition genIf (enabled : bool) (n : Z) : M (list Z) :=
  if enabled then glGenTextures n else ret [].

(** [Simulator::recreateOutputIfNecessary()]: the sizes of the output
    vectors, the texture names and the flags.  As in [pass], the [std::exit]
    of [getGlFunctionsFromCurrentContext] and [glCheck] at its start is not
    modelled. *)
Definition recreateOutputIfNecessary : M unit :=
  s <- get ;;
  if negb (_recreateOutput s) then ret tt
  else
    let scene := _scene s in
    let pipeline := _pipeline s in
    let output := _output s in
    let n := subFrames s in
    (* Delete all existing output; create new output as needed *)
    modify (set_timestamps (replicate (Z.to_nat n) 0)) ;;
    modify (set_cameraTransformations (replicate (Z.to_nat n) Transformation_default)) ;;
    modify (set_lightTransformations
              (replicate (Z.to_nat n)
                 (replicate (length (lights scene)) Transformation_default))) ;;
    modify (set_objectTransformations
              (replicate (Z.to_nat n)
                 (replicate (length (objects scene)) Transformation_default))) ;;
    shadowMapDepthBufs <-
      (if shadowMaps pipeline
       then map_each (indices_below n) (fun _ => genPerLight shadowMap (lights scene))
       else ret []) ;;
    reflective <-
      (if reflectiveShadowMaps pipeline
       then map_each (indices_below n) (fun _ =>
              map_each (lights scene) (fun light =>
                if reflectiveShadowMap light
                then d <- glGenTexture ;; t <- glGenTexture ;; ret (d, t)
                else ret (0, 0)))
       else ret []) ;;
    (* _depthBufferOversampled, _rgbTexOversampled, _pmdEnergyTexOversampled,
       _pmdEnergyTex: internal render targets *)
    when (rgb output || pmd output) (glGenTexture ;; ret tt) ;;
    when (rgb output) (glGenTexture ;; ret tt) ;;
    pmdCoordinatesTex <-
      (if pmd output
       then glGenTexture ;; glGenTexture ;;
            (if pmdCoordinates output then glGenTexture else ret 0)
       else ret 0) ;;
    let extra := if n >? 1 then 1 else 0 in
    depthBuffers <- glGenTextures (n + 1) ;;
    rgbTexs <- genIf (rgb output) (n + extra) ;;
    srgbTexs <- genIf (rgb output && srgb output) (n + extra) ;;
    pmdDigNumTexs <- genIf (pmd output) (n + extra) ;;
    eyeSpacePosTexs <- genIf (eyeSpacePositions output) n ;;
    customSpacePosTexs <- genIf (customSpacePositions output) n ;;
    eyeSpaceNormalTexs <- genIf (eyeSpaceNormals output) n ;;
    customSpaceNormalTexs <- genIf (customSpaceNormals output) n ;;
    depthAndRangeTexs <- genIf (depthAndRange output) n ;;
    indicesTexs <- genIf (indices output) n ;;
    forwardFlow3DTexs <- genIf (forwardFlow3D output) (n + extra) ;;
    forwardFlow2DTexs <- genIf (forwardFlow2D output) (n + extra) ;;
    backwardFlow3DTexs <- genIf (backwardFlow3D output) (n + extra) ;;
    backwardFlow2DTexs <- genIf (backwardFlow2D output) (n + extra) ;;
    (* _postProcessingTex *)
    when (postprocLensDistortion pipeline) (glGenTexture ;; ret tt) ;;
    modify (set_textures
      {| _shadowMapDepthBufs := shadowMapDepthBufs;
         _reflectiveShadowMapDepthBufs := map (map fst) reflective;
         _reflectiveShadowMapTexs := map (map snd) reflective;
         _pmdCoordinatesTex := pmdCoordinatesTex;
         _depthBuffers := depthBuffers;
         _rgbTexs := rgbTexs;
         _srgbTexs := srgbTexs;
         _pmdDigNumTexs := pmdDigNumTexs;
         _eyeSpacePosTexs := eyeSpacePosTexs;
         _customSpacePosTexs := customSpacePosTexs;
         _eyeSpaceNormalTexs := eyeSpaceNormalTexs;
         _customSpaceNormalTexs := customSpaceNormalTexs;
         _depthAndRangeTexs := depthAndRangeTexs;
         _indicesTexs := indicesTexs;
         _forwardFlow3DTexs := forwardFlow3DTexs;
         _forwardFlow2DTexs := forwardFlow2DTexs;
         _backwardFlow3DTexs := backwardFlow3DTexs;
         _backwardFlow2DTexs := backwardFlow2DTexs |}) ;;
    modify (set_haveLastFrameTimestamp false) ;;
    modify (set_recreateOutput false).

(** A loop with an accumulator, for code that fails but leaves the simulator
    unchanged. *)
Fixpoint ofold {A B : Type} (body : B -> A -> outcome B) (l : list A) (b : B)
  : outcome B :=
  match l with
  | [] => Ok b
  | i :: l' => let? b' := body b i in ofold body l' b'
  end.

(** A loop with local variables [b]. *)
Fixpoint fold_each {A B : Type} (l : list A) (b : B) (body : B -> A -> M B) : M B :=
  match l with
  | [] => ret b
  | i :: l' => b' <- body b i ;; fold_each l' b' body
  end.

(** The loop [for (i = 0; i < n; i++) transformations[i] =
    animations[i].interpolate(t);] of [simulateSampleTimestamp]. *)
Definition interpolateAll (slerp : Slerp) (animations : list Animation) (n : Z) (t : Z)
    (transformations : list Transformation) : outcome (list Transformation) :=
  ofold (fun trs i =>
           let? a := at_ animations i in
           let? tr := interpolate slerp a t in
           set_at trs i tr)
        (indices_below n) transformations.

(** [Simulator::simulateSampleTimestamp(t, cameraTransformation,
    lightTransformations, objectTransformations)]: the three reference
    parameters are returned. *)
Definition simulateSampleTimestamp (slerp : Slerp) (s : Simulator) (t : Z)
    (lightTransformations objectTransformations : list Transformation)
  : outcome (Transformation * list Transformation * list Transformation) :=
  let? cameraTransformation := interpolate slerp (_cameraAnimation s) t in
  let? lightTransformations :=
    interpolateAll slerp (lightAnimations (_scene s)) (size (lights (_scene s))) t
                   lightTransformations in
  let? objectTransformations :=
    interpolateAll slerp (objectAnimations (_scene s)) (size (objects (_scene s))) t
                   objectTransformations in
  Ok (cameraTransformation, lightTransformations, objectTransformations).

(** [Simulator::simulateTimestamps(t)]. *)
Definition simulateTimestamps (slerp : Slerp) (t : Z) : M unit :=
  s0 <- get ;;
  for_each (indices_below (subFrames s0)) (fun subFrame =>
    s <- get ;;
    let ts := if subFrameTemporalSampling (_pipeline s)
              then int64 (t + int64 (subFrame * subFrameDuration s))
              else t in
    timestamps <- lift (set_at (_timestamps s) subFrame ts) ;;
    modify (set_timestamps timestamps) ;;
    _ <- lift (at_ (_cameraTransformations s) subFrame) ;;
    lts <- lift (at_ (_lightTransformations s) subFrame) ;;
    ots <- lift (at_ (_objectTransformations s) subFrame) ;;
    r <- lift (simulateSampleTimestamp slerp s ts lts ots) ;;
    let '(cam, lts', ots') := r in
    cams <- lift (set_at (_cameraTransformations s) subFrame cam) ;;
    modify (set_cameraTransformations cams) ;;
    ltss <- lift (set_at (_lightTransformations s) subFrame lts') ;;
    modify (set_lightTransformations ltss) ;;
    otss <- lift (set_at (_objectTransformations s) subFrame ots') ;;
    modify (set_objectTransformations otss)).

(** [Simulator::spatialOversampling()], [Simulator::temporalOversampling()]. *)
Definition spatialOversampling (s : Simulator) : bool :=
  (width (spatialSamples (_pipeline s)) >? 1) || (height (spatialSamples (_pipeline s)) >? 1).

Definition temporalOversampling (s : Simulator) : bool :=
  temporalSamples (_pipeline s) >? 1.

(** The light simulation of one sub-frame: the body of
    [if (_output.rgb || _output.pmd)] in the sub-frame loop of [simulate].
    The passes are recorded, not rendered; the upload of the lights' power
    factor textures ([updatePowerFactorTex]) issues no pass and is left out:
    it writes the power factor texture and map of the lights of [_scene],
    members that [Light] does not have in the model: of the lights of the
    scene the model follows the two shadow map flags only. *)
Definition simulateSubFrameLight (slerp : Slerp) (subFrame tempSampleDuration : Z)
  : M unit :=
  s <- get ;;
  let pipeline := _pipeline s in
  let output := _output s in
  ts <- lift (at_ (_timestamps s) subFrame) ;;
  cam <- lift (at_ (_cameraTransformations s) subFrame) ;;
  lts <- lift (at_ (_lightTransformations s) subFrame) ;;
  ots <- lift (at_ (_objectTransformations s) subFrame) ;;
  _ <- fold_each (indices_below (temporalSamples pipeline)) (ts, cam, lts, ots)
    (fun locals tempSample =>
       let '(tempSampleTimestamp, cam, lts, ots) := locals in
       locals' <-
         (if tempSample >? 0 then
            let tempSampleTimestamp := int64 (ts + int64 (tempSample * tempSampleDuration)) in
            r <- lift (simulateSampleTimestamp slerp s tempSampleTimestamp lts ots) ;;
            let '(cam', lts', ots') := r in
            ret (tempSampleTimestamp, cam', lts', ots')
          else ret locals) ;;
       let '(tempSampleTimestamp, _, _, _) := locals' in
       when (shadowMaps pipeline || reflectiveShadowMaps pipeline)
         (pass (PassShadowMaps subFrame)) ;;
       (* The following is the core rendering step for light simulation *)
       (if spatialOversampling s || temporalOversampling s then
          pass (PassLight subFrame tempSampleTimestamp true) ;;
          pass (PassOversampledLight subFrame (tempSample =? 0))
        else
          (* short cut for common case *)
          _ <- lift (at_ (_depthBuffers (_textures s)) subFrame) ;;
          pass (PassLight subFrame tempSampleTimestamp false)) ;;
       ret locals') ;;
  when (pmd output)
    (target <- lift (at_ (_pmdDigNumTexs (_textures s)) subFrame) ;;
     pass (PassPMDDigNums target)) ;;
  when (postprocLensDistortion pipeline)
    (pass (PassPostprocLensDistortion subFrame)) ;;
  when (srgb output)
    (target <- lift (at_ (_srgbTexs (_textures s)) subFrame) ;;
     _ <- lift (at_ (_rgbTexs (_textures s)) subFrame) ;;
     pass (PassConvertToSRGB target subFrame)).

(** The flow simulation of one sub-frame: the body of
    [if (_output.forwardFlow2D || ...)] in the sub-frame loop of [simulate]. *)
Definition simulateSubFrameFlow (frameTimestamp subFrame : Z) : M unit :=
  s <- get ;;
  let depthBuffers := _depthBuffers (_textures s) in
  lastSubFrameTimestamp <-
    (if (subFrame =? 0) && negb (_haveLastFrameTimestamp s) then ret frameTimestamp
     else if subFrame =? 0 then
       ret (if subFrameTemporalSampling (_pipeline s)
            then int64 (_lastFrameTimestamp s
                        + int64 (int32 (subFrames s - 1) * subFrameDuration s))
            else _lastFrameTimestamp s)
     else lift (at_ (_timestamps s) (subFrame - 1))) ;;
  nextSubFrameTimestamp <-
    (if subFrame =? subFrames s - 1 then ret (int64 (frameTimestamp + frameDuration s))
     else lift (at_ (_timestamps s) (subFrame + 1))) ;;
  depthBuffer <- lift (at_ depthBuffers subFrame) ;;
  buffers <-
    (if (subFrame =? 0) && negb (_haveLastFrameTimestamp s) then ret (depthBuffer, 0)
     else if subFrame =? 0 then
       if subFrames s =? 1 then
         d0 <- lift (at_ depthBuffers 0) ;;
         d1 <- lift (at_ depthBuffers 1) ;;
         modify (set_depthBufferPingPong (negb (depthBufferPingPong s))) ;;
         ret (if depthBufferPingPong s then (d1, d0) else (d0, d1))
       else
         l <- lift (at_ depthBuffers (subFrames s - 1)) ;; ret (depthBuffer, l)
     else
       l <- lift (at_ depthBuffers (subFrame - 1)) ;; ret (depthBuffer, l)) ;;
  pass (PassFlow subFrame lastSubFrameTimestamp nextSubFrameTimestamp
                 (fst buffers) (snd buffers)).

(** The final frames: the body of [if (subFrames() > 1)] of [simulate]. *)
Definition simulateFinalFrames (frameTimestamp : Z) : M unit :=
  s <- get ;;
  let output := _output s in
  let n := subFrames s in
  when (rgb output)
    (target <- lift (at_ (_rgbTexs (_textures s)) n) ;;
     pass (PassRGBResult target) ;;
     when (srgb output)
       (target <- lift (at_ (_srgbTexs (_textures s)) n) ;;
        pass (PassConvertToSRGB target n))) ;;
  when (pmd output)
    (target <- lift (at_ (_pmdDigNumTexs (_textures s)) n) ;;
     pass (PassPMDResult target) ;;
     when (pmdCoordinates output)
       (pass (PassPMDCoordinates (_pmdCoordinatesTex (_textures s))))) ;;
  when (flowOutput output)
    (let lastFrameTimestamp := int64 (frameTimestamp - frameDuration s) in
     let nextFrameTimestamp := int64 (frameTimestamp + frameDuration s) in
     lastFrameDepthBuffer <-
       (if _haveLastFrameTimestamp s then lift (at_ (_depthBuffers (_textures s)) 0)
        else ret 0) ;;
     depthBuffer <- lift (at_ (_depthBuffers (_textures s)) n) ;;
     pass (PassFlow 0 lastFrameTimestamp nextFrameTimestamp depthBuffer
                    lastFrameDepthBuffer)).

(** [Simulator::simulate(frameTimestamp)]. *)
Definition simulate (link : Linker) (slerp : Slerp) (frameTimestamp : Z) : M unit :=
  recreateShadersIfNecessary link ;;
  recreateOutputIfNecessary ;;
  (* Determine sub frame timestamps as well as camera, light, and object
     transformations at these timestamps. *)
  simulateTimestamps slerp frameTimestamp ;;
  (* Simulate sub frames *)
  s0 <- get ;;
  for_each (indices_below (subFrames s0)) (fun subFrame =>
    s <- get ;;
    tempSampleDuration <-
      lift (if temporalSamples (_pipeline s) =? 0 then Fail DivisionByZero
            else Ok (int64 (Z.quot (subFrameDuration s) (temporalSamples (_pipeline s))))) ;;
    when (rgb (_output s) || pmd (_output s))
      (simulateSubFrameLight slerp subFrame tempSampleDuration) ;;
    when (geometryOutput (_output s))
      (_ <- lift (at_ (_depthBuffers (_textures s)) subFrame) ;;
       pass (PassGeometry subFrame) ;;
       when (postprocLensDistortion (_pipeline s))
         (pass (PassPostprocLensDistortion subFrame))) ;;
    when (flowOutput (_output s))
      (simulateSubFrameFlow frameTimestamp subFrame)) ;;
  (* Simulate final frames. *)
  when (subFrames s0 >? 1) (simulateFinalFrames frameTimestamp) ;;
  modify (set_lastFrameTimestamp frameTimestamp) ;;
  modify (set_haveLastFrameTimestamp true).

(* ===================================================================== *)
(** ** Retrieving simulation results *)
(* ===================================================================== *)

(** [Simulator::haveValidOutput(i)]. *)
Definition haveValidOutput (s : Simulator) (i : Z) : bool :=
  negb (_recreateOutput s) && _haveLastFrameTimestamp s && (i >=? -1) && (i <? subFrames s).

(** [Simulator::getTimestamp(i)]. *)
Definition getTimestamp (s : Simulator) (i : Z) : outcome Z :=
  if negb (_haveLastFrameTimestamp s) || (i <? -1) || (i >=? subFrames s) then Ok 0
  else at_ (_timestamps s) (if i <? 0 then 0 else i).

(** [Simulator::haveShadowMap(lightIndex)]. *)
Definition haveShadowMap (s : Simulator) (lightIndex : Z) : bool :=
  shadowMaps (_pipeline s) && (lightIndex >=? 0)
  && (lightIndex <? size (lights (_scene s)))
  && match lights (_scene s) !! Z.to_nat lightIndex with
     | Some light => shadowMap light
     | None => false
     end.

(** [Simulator::haveReflectiveShadowMap(lightIndex)]. *)
Definition haveReflectiveShadowMap (s : Simulator) (lightIndex : Z) : bool :=
  reflectiveShadowMaps (_pipeline s) && (lightIndex >=? 0)
  && (lightIndex <? size (lights (_scene s)))
  && match lights (_scene s) !! Z.to_nat lightIndex with
     | Some light => reflectiveShadowMap light
     | None => false
     end.

(** [i == -1 ? texs[0] : texs[i]] *)
Definition firstOr {A : Type} (texs : list A) (i : Z) : outcome A :=
  if i =? -1 then at_ texs 0 else at_ texs i.

(** [i == -1 ? texs.last() : texs[i]] *)
Definition lastOr {A : Type} (texs : list A) (i : Z) : outcome A :=
  if i =? -1 then back texs else at_ texs i.

(** [Simulator::getShadowMapCubeTex(lightIndex, i)]. *)
Definition getShadowMapCubeTex (s : Simulator) (lightIndex i : Z) : outcome Z :=
  if haveValidOutput s i && haveShadowMap s lightIndex then
    let? perLight := firstOr (_shadowMapDepthBufs (_textures s)) i in
    at_ perLight lightIndex
  else Ok 0.

(** [Simulator::getReflectiveShadowMapCubeArrayTex(lightIndex, i)]. *)
Definition getReflectiveShadowMapCubeArrayTex (s : Simulator) (lightIndex i : Z)
  : outcome Z :=
  if haveValidOutput s i && haveReflectiveShadowMap s lightIndex then
    let? perLight := firstOr (_reflectiveShadowMapTexs (_textures s)) i in
    at_ perLight lightIndex
  else Ok 0.

(** The condition of [getDepthTex] on the configuration. *)
Definition haveDepth (s : Simulator) : bool :=
  (negb (spatialOversampling s) && negb (temporalOversampling s))
  || eyeSpacePositions (_output s) || customSpacePositions (_output s)
  || eyeSpaceNormals (_output s) || customSpaceNormals (_output s)
  || depthAndRange (_output s) || indices (_output s)
  || forwardFlow3D (_output s) || forwardFlow2D (_output s)
  || backwardFlow3D (_output s) || backwardFlow2D (_output s).

(** [Simulator::getDepthTex(i)]. *)
Definition getDepthTex (s : Simulator) (i : Z) : outcome Z :=
  if haveDepth s && haveValidOutput s i
  then firstOr (_depthBuffers (_textures s)) i else Ok 0.

(** [Simulator::getRGBTex(i)]. *)
Definition getRGBTex (s : Simulator) (i : Z) : outcome Z :=
  if rgb (_output s) && haveValidOutput s i
  then lastOr (_rgbTexs (_textures s)) i else Ok 0.

(** [Simulator::getSRGBTex(i)]. *)
Definition getSRGBTex (s : Simulator) (i : Z) : outcome Z :=
  if rgb (_output s) && srgb (_output s) && haveValidOutput s i
  then lastOr (_srgbTexs (_textures s)) i else Ok 0.

(** [Simulator::getPMDTex(i)]. *)
Definition getPMDTex (s : Simulator) (i : Z) : outcome Z :=
  if pmd (_output s) && haveValidOutput s i
  then lastOr (_pmdDigNumTexs (_textures s)) i else Ok 0.

(** [Simulator::getPMDCoordinatesTex()]. *)
Definition getPMDCoordinatesTex (s : Simulator) : outcome Z :=
  if pmd (_output s) && pmdCoordinates (_output s) && haveValidOutput s (-1)
  then Ok (_pmdCoordinatesTex (_textures s)) else Ok 0.

(** [Simulator::getEyeSpacePositionsTex(i)]. *)
Definition getEyeSpacePositionsTex (s : Simulator) (i : Z) : outcome Z :=
  if eyeSpacePositions (_output s) && haveValidOutput s i
  then firstOr (_eyeSpacePosTexs (_textures s)) i else Ok 0.

(** [Simulator::getCustomSpacePositionsTex(i)]. *)
Definition getCustomSpacePositionsTex (s : Simulator) (i : Z) : outcome Z :=
  if customSpacePositions (_output s) && haveValidOutput s i
  then firstOr (_customSpacePosTexs (_textures s)) i else Ok 0.

(** [Simulator::getEyeSpaceNormalsTex(i)]. *)
Definition getEyeSpaceNormalsTex (s : Simulator) (i : Z) : outcome Z :=
  if eyeSpaceNormals (_output s) && haveValidOutput s i
  then firstOr (_eyeSpaceNormalTexs (_textures s)) i else Ok 0.

(** [Simulator::getCustomSpaceNormalsTex(i)]. *)
Definition getCustomSpaceNormalsTex (s : Simulator) (i : Z) : outcome Z :=
  if customSpaceNormals (_output s) && haveValidOutput s i
  then firstOr (_customSpaceNormalTexs (_textures s)) i else Ok 0.

(** [Simulator::getDepthAndRangeTex(i)]. *)
Definition getDepthAndRangeTex (s : Simulator) (i : Z) : outcome Z :=
  if depthAndRange (_output s) && haveValidOutput s i
  then firstOr (_depthAndRangeTexs (_textures s)) i else Ok 0.

(** [Simulator::getIndicesTex(i)]. *)
Definition getIndicesTex (s : Simulator) (i : Z) : outcome Z :=
  if indices (_output s) && haveValidOutput s i
  then firstOr (_indicesTexs (_textures s)) i else Ok 0.

(** [Simulator::getForwardFlow3DTex(i)]. *)
Definition getForwardFlow3DTex (s : Simulator) (i : Z) : outcome Z :=
  if forwardFlow3D (_output s) && haveValidOutput s i
  then lastOr (_forwardFlow3DTexs (_textures s)) i else Ok 0.

(** [Simulator::getForwardFlow2DTex(i)]. *)
Definition getForwardFlow2DTex (s : Simulator) (i : Z) : outcome Z :=
  if forwardFlow2D (_output s) && haveValidOutput s i
  then lastOr (_forwardFlow2DTexs (_textures s)) i else Ok 0.

(** [Simulator::getBackwardFlow3DTex(i)]. *)
Definition getBackwardFlow3DTex (s : Simulator) (i : Z) : outcome Z :=
  if backwardFlow3D (_output s) && haveValidOutput s i
  then lastOr (_backwardFlow3DTexs (_textures s)) i else Ok 0.

(** [Simulator::getBackwardFlow2DTex(i)]. *)
Definition getBackwardFlow2DTex (s : Simulator) (i : Z) : outcome Z :=
  if backwardFlow2D (_output s) && haveValidOutput s i
  then lastOr (_backwardFlow2DTexs (_textures s)) i else Ok 0.

(** [static const Transformation NullTransformation;] *)
Definition NullTransformation : Transformation := Transformation_default.

(** [Simulator::getCameraTransformation(i)]. *)
Definition getCameraTransformation (s : Simulator) (i : Z) : outcome Transformation :=
  if haveValidOutput s i then firstOr (_cameraTransformations s) i
  else Ok NullTransformation.

(** [Simulator::getLightTransformation(lightIndex, i)]:
    [i == -1 ? _lightTransformations[lightIndex][0]
             : _lightTransformations[lightIndex][i]]. *)
Definition getLightTransformation (s : Simulator) (lightIndex i : Z)
  : outcome Transformation :=
  if (lightIndex >=? 0) && (lightIndex <? size (lights (_scene s)))
     && haveValidOutput s i then
    let? row := at_ (_lightTransformations s) lightIndex in
    if i =? -1 then at_ row 0 else at_ row i
  else Ok NullTransformation.

(** [Simulator::getObjectTransformation(objectIndex, i)]:
    [i == -1 ? _objectTransformations[objectIndex][0]
             : _objectTransformations[objectIndex][i]]. *)
Definition getObjectTransformation (s : Simulator) (objectIndex i : Z)
  : outcome Transformation :=
  if (objectIndex >=? 0) && (objectIndex <? size (objects (_scene s)))
     && haveValidOutput s i then
    let? row := at_ (_objectTransformations s) objectIndex in
    if i =? -1 then at_ row 0 else at_ row i
  else Ok NullTransformation.

(** The texture accessors by output kind, to state properties of all of
    them at once; the accessors of shadow maps carry the light index. *)
Inductive OutputKind : Type :=
  | KShadowMapCube (lightIndex : Z)
  | KReflectiveShadowMapCubeArray (lightIndex : Z)
  | KDepth | KRGB | KSRGB | KPMD | KPMDCoordinates
  | KEyeSpacePositions | KCustomSpacePositions
  | KEyeSpaceNormals | KCustomSpaceNormals
  | KDepthAndRange | KIndices
  | KForwardFlow3D | KForwardFlow2D | KBackwardFlow3D | KBackwardFlow2D.

(** [get<Output>Tex(i)]; [getPMDCoordinatesTex] has no parameter [i] and
    stands for the final result, [i = -1]. *)
Definition getTex (k : OutputKind) (s : Simulator) (i : Z) : outcome Z :=
  match k with
  | KShadowMapCube lightIndex => getShadowMapCubeTex s lightIndex i
  | KReflectiveShadowMapCubeArray lightIndex =>
      getReflectiveShadowMapCubeArrayTex s lightIndex i
  | KDepth => getDepthTex s i
  | KRGB => getRGBTex s i
  | KSRGB => getSRGBTex s i
  | KPMD => getPMDTex s i
  | KPMDCoordinates => getPMDCoordinatesTex s
  | KEyeSpacePositions => getEyeSpacePositionsTex s i
  | KCustomSpacePositions => getCustomSpacePositionsTex s i
  | KEyeSpaceNormals => getEyeSpaceNormalsTex s i
  | KCustomSpaceNormals => getCustomSpaceNormalsTex s i
  | KDepthAndRange => getDepthAndRangeTex s i
  | KIndices => getIndicesTex s i
  | KForwardFlow3D => getForwardFlow3DTex s i
  | KForwardFlow2D => getForwardFlow2DTex s i
  | KBackwardFlow3D => getBackwardFlow3DTex s i
  | KBackwardFlow2D => getBackwardFlow2DTex s i
  end.

(** Whether the output kind is enabled in the current configuration: the
    condition on [_output], [_pipeline] and [_scene] in the accessor. *)
Definition enabled (k : OutputKind) (s : Simulator) : bool :=
  let o := _output s in
  match k with
  | KShadowMapCube lightIndex => haveShadowMap s lightIndex
  | KReflectiveShadowMapCubeArray lightIndex => haveReflectiveShadowMap s lightIndex
  | KDepth => haveDepth s
  | KRGB => rgb o
  | KSRGB => rgb o && srgb o
  | KPMD => pmd o
  | KPMDCoordinates => pmd o && pmdCoordinates o
  | KEyeSpacePositions => eyeSpacePositions o
  | KCustomSpacePositions => customSpacePositions o
  | KEyeSpaceNormals => eyeSpaceNormals o
  | KCustomSpaceNormals => customSpaceNormals o
  | KDepthAndRange => depthAndRange o
  | KIndices => indices o
  | KForwardFlow3D => forwardFlow3D o
  | KForwardFlow2D => forwardFlow2D o
  | KBackwardFlow3D => backwardFlow3D o
  | KBackwardFlow2D => backwardFlow2D o
  end.

(** The sub-frame index an accessor call is about. *)
Definition indexOf (k : OutputKind) (i : Z) : Z :=
  match k with
  | KPMDCoordinates => -1
  | _ => i
  end.

(* ===================================================================== *)
(** ** Callers of the simulator *)
(* ===================================================================== *)

(** A call of a public method that changes the simulator. *)
Inductive Call : Type :=
  | CallSetCameraAnimation (animation : Animation)
  | CallSetScene (scene : Scene)
  | CallSetChipTiming (chipTiming : ChipTiming)
  | CallSetProjection (projection : Projection)
  | CallSetPipeline (pipeline : Pipeline)
  | CallSetOutput (output : Output)
  | CallStartTimestamp
  | CallEndTimestamp
  | CallNextFrameTimestamp
  | CallSimulate (frameTimestamp : Z).

(** A method that returns a value and the changed simulator, as a step. *)
Definition liftS {A : Type} (f : Simulator -> A * Simulator) : M A :=
  fun s => let (a, s') := f s in (Ok a, s').

Definition call (link : Linker) (slerp : Slerp) (c : Call) : M unit :=
  match c with
  | CallSetCameraAnimation animation => modify (setCameraAnimation animation)
  | CallSetScene scene => modify (setScene scene)
  | CallSetChipTiming chipTiming => modify (setChipTiming chipTiming)
  | CallSetProjection projection => modify (setProjection projection)
  | CallSetPipeline pipeline => modify (setPipeline pipeline)
  | CallSetOutput output => modify (setOutput output)
  | CallStartTimestamp => liftS startTimestamp ;; ret tt
  | CallEndTimestamp => liftS endTimestamp ;; ret tt
  | CallNextFrameTimestamp => liftS nextFrameTimestamp ;; ret tt
  | CallSimulate frameTimestamp => simulate link slerp frameTimestamp
  end.

(** A program that constructs a simulator and issues the calls [cs]; it
    stops at the first call that fails. *)
Definition run (link : Linker) (slerp : Slerp) (cs : list Call) : M unit :=
  for_each cs (call link slerp).

(** The simulators that a program can reach from a new simulator. *)
Definition reachable (link : Linker) (slerp : Slerp) (s : Simulator) : Prop :=
  exists (cs : list Call) (start0 end0 : Z) (have0 : bool) (last0 : Z),
    run link slerp cs (Simulator_new start0 end0 have0 last0) = (Ok tt, s).

(** The frame loop of the example programs (camsim-flow.cpp):
    [for (long long t = simulator.startTimestamp();
          t < simulator.endTimestamp();
          t = simulator.nextFrameTimestamp()) { simulator.simulate(t); ... }].
    The result is the list of the simulated frame time stamps. *)
Fixpoint frameLoopFrom (fuel : nat) (link : Linker) (slerp : Slerp) (t : Z)
    (frames : list Z) : M (list Z) :=
  e <- liftS endTimestamp ;;
  if t <? e then
    match fuel with
    | O => lift (Fail OutOfFuel)
    | S fuel' =>
        simulate link slerp t ;;
        t' <- liftS nextFrameTimestamp ;;
        frameLoopFrom fuel' link slerp t' (frames ++ [t])
    end
  else ret frames.

Definition frameLoop (fuel : nat) (link : Linker) (slerp : Slerp) : M (list Z) :=
  t <- liftS startTimestamp ;;
  frameLoopFrom fuel link slerp t [].

(** Concrete collaborators and configurations for runs of the model: a
    driver that links every program, a scene with one light, a scene with
    two lights that rest at different places, and the default output with
    PMD simulation switched on. *)
Definition link_all : Linker := fun _ => true.

Definition oneLightScene : Scene := addLight Scene_default Light_default Animation_default.

Definition twoLightScene : Scene :=
  addLight
    (addLight Scene_default Light_default (mkAnimation [Keyframe.mk 0 (translate 1 0 0)]))
    Light_default (mkAnimation [Keyframe.mk 0 (translate 2 0 0)]).

Definition pmdOutput : Output :=
  {| rgb := true; srgb := false; pmd := true; pmdCoordinates := false;
     eyeSpacePositions := false; customSpacePositions := false;
     eyeSpaceNormals := false; customSpaceNormals := false;
     depthAndRange := false; indices := false;
     forwardFlow3D := false; forwardFlow2D := false;
     backwardFlow3D := false; backwardFlow2D := false |}.

(** The two lights of [twoLightScene] and two objects that rest at two
    further places. *)
Definition twoByTwoScene : Scene :=
  addObject
    (addObject twoLightScene (mkObject []) (mkAnimation [Keyframe.mk 0 (translate 3 0 0)]))
    (mkObject []) (mkAnimation [Keyframe.mk 0 (translate 4 0 0)]).

(** A simulator configured with the spatial samples 2 x 3 (even width). *)
Definition evenSamplesSimulator : Simulator :=
  setPipeline
    {| preprocLensDistortion := false; postprocLensDistortion := false;
       shadowMaps := false; reflectiveShadowMaps := false;
       subFrameTemporalSampling := true; spatialSamples := mkQSize 2 3;
       spatialSampleWeights := []; temporalSamples := 1 |}
    (setScene oneLightScene (Simulator_new 0 0 false 0)).

(* ===================================================================== *)
(** ** Vocabulary of the properties *)
(* ===================================================================== *)

(** The animations of the current configuration. *)
Definition allAnimations (s : Simulator) : list Animation :=
  _cameraAnimation s :: lightAnimations (_scene s) ++ objectAnimations (_scene s).

Definition is_minimum (v : Z) (xs : list Z) : Prop := v ∈ xs /\ forall x, x ∈ xs -> v <= x.
Definition is_maximum (v : Z) (xs : list Z) : Prop := v ∈ xs /\ forall x, x ∈ xs -> x <= v.

(** [startTimestamp()] and [endTimestamp()] return the earliest start and
    the latest end of the animations of the current configuration. *)
Definition boundsCorrect (s : Simulator) : Prop :=
  is_minimum (fst (startTimestamp s)) (startTime <$> allAnimations s)
  /\ is_maximum (fst (endTimestamp s)) (endTime <$> allAnimations s).

(** The members that [simulate] does not assign: the configuration and the
    cached timestamp bounds with their dirty flag. *)
Definition sameBounds (s s' : Simulator) : Prop :=
  _cameraAnimation s' = _cameraAnimation s
  /\ _scene s' = _scene s
  /\ _chipTiming s' = _chipTiming s
  /\ _projection s' = _projection s
  /\ _pipeline s' = _pipeline s
  /\ _output s' = _output s
  /\ _recreateTimestamps s' = _recreateTimestamps s
  /\ _startTimestamp s' = _startTimestamp s
  /\ _endTimestamp s' = _endTimestamp s.

(** A step that leaves a relation [R] between the simulator before and
    after it intact, whether it fails or not. *)
Definition keeps (R : relation Simulator) {A : Type} (m : M A) : Prop :=
  forall s, R s (snd (m s)).

(** The members that [simulate] does not assign once the shader programs are
    resolved: the configuration checked by [recreateShadersIfNecessary] and
    its dirty flag. *)
Definition sameShaders (s s' : Simulator) : Prop :=
  _scene s' = _scene s
  /\ _pipeline s' = _pipeline s
  /\ _output s' = _output s
  /\ _recreateShaders s' = _recreateShaders s.

(** The configurations that [recreateShadersIfNecessary] refuses. *)
Definition fatalConfiguration (s : Simulator) : Prop :=
  size (lights (_scene s)) = 0
  \/ size (lights (_scene s)) <> size (lightAnimations (_scene s))
  \/ size (objects (_scene s)) <> size (objectAnimations (_scene s))
  \/ Z.odd (width (spatialSamples (_pipeline s))) = false
  \/ Z.odd (height (spatialSamples (_pipeline s))) = false
  \/ (preprocLensDistortion (_pipeline s) = true
      /\ postprocLensDistortion (_pipeline s) = true)
  \/ (postprocLensDistortion (_pipeline s) = true
      /\ (indices (_output s) = true
          \/ forwardFlow3D (_output s) = true \/ forwardFlow2D (_output s) = true
          \/ backwardFlow3D (_output s) = true \/ backwardFlow2D (_output s) = true)).

(** A configuration whose shader programs count as resolved passed the
    checks. *)
Definition shadersChecked (s : Simulator) : Prop :=
  _recreateShaders s = false -> ~ fatalConfiguration s.

(** The cached bounds are those of the configuration unless marked dirty. *)
Definition boundsCached (s : Simulator) : Prop :=
  _recreateTimestamps s = false ->
  (_startTimestamp s, _endTimestamp s) =
    fold_left extendTimestamps (objectAnimations (_scene s))
      (fold_left extendTimestamps (lightAnimations (_scene s))
         (startTime (_cameraAnimation s), endTime (_cameraAnimation s))).




(* ===================================================================== *)
(** ** Vocabulary of the properties of [Animation] on arbitrary lists *)
(* ===================================================================== *)

(** What [findKeyframeIndices] has established about its result [(lo, hi)]
    when the search ran on the index interval [a..b] of a list that need not
    be sorted: either both indices name a keyframe at time [t], or they are
    neighbours, [lo] is the last index whose keyframe was found earlier than
    [t] (or the search never moved its lower bound, [lo = a - 1]) and [hi] is
    the first index whose keyframe was found later than [t] (or the search
    never moved its upper bound, [lo = b]). *)
Definition probed (l : list Keyframe) (t : Z) (a b : Z) (r : Z * Z) : Prop :=
  (fst r = snd r /\ a <= fst r <= b
   /\ exists k, l !! Z.to_nat (fst r) = Some k /\ Keyframe.t k = t)
  \/ (snd r = fst r + 1 /\ a - 1 <= fst r <= b
      /\ (fst r = a - 1
          \/ exists k, l !! Z.to_nat (fst r) = Some k /\ Keyframe.t k < t)
      /\ (fst r = b
          \/ exists k, l !! Z.to_nat (snd r) = Some k /\ t < Keyframe.t k)).

(** The time stamps of the keyframes of an animation. *)
Definition keyframeTimes (a : Animation) : list Z := Keyframe.t <$> _keyframes a.

(** The keyframes of a sequence of [addKeyframe] calls that no later call of
    the sequence overwrites: [k] is given at some position of [ks] and no
    later keyframe of [ks] has its time stamp. *)
Definition lastForTime (ks : list Keyframe) (k : Keyframe) : Prop :=
  exists i : nat,
    ks !! i = Some k
    /\ forall (j : nat) (k' : Keyframe),
         (i < j)%nat -> ks !! j = Some k' -> Keyframe.t k' <> Keyframe.t k.

(* ===================================================================== *)
(** ** Vocabulary of the properties of a successful [simulate] *)
(* ===================================================================== *)

(** The configurations that pass all sanity checks of
    [recreateShadersIfNecessary]: the negation of each [if] that exits. *)
Definition validConfiguration (s : Simulator) : bool :=
  let scene := _scene s in
  let pipeline := _pipeline s in
  let output := _output s in
  negb (size (lights scene) <? 1)
  && (size (lights scene) =? size (lightAnimations scene))
  && (size (objects scene) =? size (objectAnimations scene))
  && negb ((width (spatialSamples pipeline) <? 1)
           || negb (Z.rem (width (spatialSamples pipeline)) 2 =? 1)
           || (height (spatialSamples pipeline) <? 1)
           || negb (Z.rem (height (spatialSamples pipeline)) 2 =? 1))
  && negb ((size (spatialSampleWeights pipeline) >? 0)
           && negb (size (spatialSampleWeights pipeline)
                    =? int32 (width (spatialSamples pipeline)
                              * height (spatialSamples pipeline))))
  && negb (temporalSamples pipeline <? 1)
  && negb (preprocLensDistortion pipeline && postprocLensDistortion pipeline)
  && negb (postprocLensDistortion pipeline
           && (indices output || forwardFlow3D output || forwardFlow2D output
               || backwardFlow3D output || backwardFlow2D output)).

(** The shader programs that [recreateShadersIfNecessary] links, with a
    checked result, for the current configuration. *)
Definition needed (s : Simulator) (prg : Program) : bool :=
  match prg with
  | ShadowMapPrg => shadowMaps (_pipeline s)
  | ReflectiveShadowMapPrg => reflectiveShadowMaps (_pipeline s)
  | DepthPrg => true
  | LightPrg => rgb (_output s) || pmd (_output s)
  | GeomPrg => geometryOutput (_output s)
  | FlowPrg => flowOutput (_output s)
  | PostprocLensDistortionPrg => postprocLensDistortion (_pipeline s)
  end.

Definition linksAll (link : Linker) (s : Simulator) : Prop :=
  forall prg, needed s prg = true -> link prg = true.

(** A configuration whose shader programs count as resolved passed the
    checks and linked the programs it needs. *)
Definition shadersResolved (link : Linker) (s : Simulator) : Prop :=
  _recreateShaders s = false -> validConfiguration s = true /\ linksAll link s.

(** The number of textures of an output: [n] if it is enabled, none if not. *)
Definition texCount (enabled : bool) (n : nat) : nat := if enabled then n else 0%nat.

(** The sizes of the output vectors that [recreateOutputIfNecessary]
    establishes for the current configuration (the comments of
    simulator.hpp: "subFrames", "subFrames+1", "one per light"). *)
Definition outputSized (s : Simulator) : Prop :=
  let n := Z.to_nat (subFrames s) in
  let m := (n + (if subFrames s >? 1 then 1 else 0))%nat in
  let nl := length (lights (_scene s)) in
  let o := _output s in
  let tx := _textures s in
  length (_timestamps s) = n
  /\ length (_cameraTransformations s) = n
  /\ length (_lightTransformations s) = n
  /\ Forall (fun row => length row = nl) (_lightTransformations s)
  /\ length (_objectTransformations s) = n
  /\ Forall (fun row => length row = length (objects (_scene s))) (_objectTransformations s)
  /\ length (_shadowMapDepthBufs tx) = texCount (shadowMaps (_pipeline s)) n
  /\ Forall (fun row => length row = nl) (_shadowMapDepthBufs tx)
  /\ length (_reflectiveShadowMapTexs tx) = texCount (reflectiveShadowMaps (_pipeline s)) n
  /\ Forall (fun row => length row = nl) (_reflectiveShadowMapTexs tx)
  /\ length (_depthBuffers tx) = S n
  /\ length (_rgbTexs tx) = texCount (rgb o) m
  /\ length (_srgbTexs tx) = texCount (rgb o && srgb o) m
  /\ length (_pmdDigNumTexs tx) = texCount (pmd o) m
  /\ length (_eyeSpacePosTexs tx) = texCount (eyeSpacePositions o) n
  /\ length (_customSpacePosTexs tx) = texCount (customSpacePositions o) n
  /\ length (_eyeSpaceNormalTexs tx) = texCount (eyeSpaceNormals o) n
  /\ length (_customSpaceNormalTexs tx) = texCount (customSpaceNormals o) n
  /\ length (_depthAndRangeTexs tx) = texCount (depthAndRange o) n
  /\ length (_indicesTexs tx) = texCount (indices o) n
  /\ length (_forwardFlow3DTexs tx) = texCount (forwardFlow3D o) m
  /\ length (_forwardFlow2DTexs tx) = texCount (forwardFlow2D o) m
  /\ length (_backwardFlow3DTexs tx) = texCount (backwardFlow3D o) m
  /\ length (_backwardFlow2DTexs tx) = texCount (backwardFlow2D o) m.

(** The output vectors have these sizes unless the output is marked for
    recreation. *)
Definition outputReady (s : Simulator) : Prop :=
  _recreateOutput s = false -> outputSized s.

(** Every animation of the configuration has at most 2^30 keyframes (the
    [int] indices of the binary search can address them). *)
Definition smallAnimations (s : Simulator) : Prop :=
  Forall (fun a => size (_keyframes a) <= 2 ^ 30) (allAnimations s).

(** The time stamp that [simulateTimestamps(t)] assigns to a sub-frame. *)
Definition subFrameTimestamp (s : Simulator) (t subFrame : Z) : Z :=
  if subFrameTemporalSampling (_pipeline s)
  then int64 (t + int64 (subFrame * subFrameDuration s))
  else t.

(** The transformations [row] are those of the [animations] at time [t],
    one per animation, in the order of the list. *)
Definition interpolated (slerp : Slerp) (animations : list Animation) (t : Z)
    (row : list Transformation) : Prop :=
  Forall2 (fun a tr => interpolate slerp a t = Ok tr) animations row.

(** The simulator [s'] after [simulate(t)] has returned on the simulator
    [s]: the configuration and the cached bounds are those of [s], the
    shader programs and the output are resolved, the frame is recorded as the
    last frame, every sub-frame has its time stamp and the transformations
    of camera, lights and objects interpolated at this time stamp, passes
    were added to the trace, and the textures are those of [s] unless the
    output had to be recreated. *)
Definition frameRecorded (slerp : Slerp) (t : Z) (s s' : Simulator) : Prop :=
  sameBounds s s'
  /\ _recreateShaders s' = false /\ _recreateOutput s' = false
  /\ outputSized s'
  /\ _haveLastFrameTimestamp s' = true /\ _lastFrameTimestamp s' = t
  /\ _timestamps s' = (subFrameTimestamp s t <$> seqZ 0 (subFrames s))
  /\ Forall2 (fun ts cam => interpolate slerp (_cameraAnimation s) ts = Ok cam)
             (_timestamps s') (_cameraTransformations s')
  /\ Forall2 (interpolated slerp (lightAnimations (_scene s)))
             (_timestamps s') (_lightTransformations s')
  /\ Forall2 (interpolated slerp (objectAnimations (_scene s)))
             (_timestamps s') (_objectTransformations s')
  /\ (exists extra, gl_passes s' = gl_passes s ++ extra)
  /\ (_recreateOutput s = false -> _textures s' = _textures s).

(** The outputs of the light simulation depend on each other ("enable
    output of sRGB colors (only if rgb is also true)"): the sRGB textures
    exist only with the RGB textures, and the light simulation, which runs
    for RGB or PMD output, converts to sRGB whenever sRGB is set. *)
Definition srgbNeedsRgb (s : Simulator) : Prop :=
  srgb (_output s) = true -> pmd (_output s) = true -> rgb (_output s) = true.

(** The part of [simulate] that follows [simulateTimestamps]: the sub-frame
    loop, the final frames and the bookkeeping of the last frame. *)
Definition simulatePasses (slerp : Slerp) (frameTimestamp : Z) : M unit :=
  s0 <- get ;;
  for_each (indices_below (subFrames s0)) (fun subFrame =>
    s <- get ;;
    tempSampleDuration <-
      lift (if temporalSamples (_pipeline s) =? 0 then Fail DivisionByZero
            else Ok (int64 (Z.quot (subFrameDuration s) (temporalSamples (_pipeline s))))) ;;
    when (rgb (_output s) || pmd (_output s))
      (simulateSubFrameLight slerp subFrame tempSampleDuration) ;;
    when (geometryOutput (_output s))
      (_ <- lift (at_ (_depthBuffers (_textures s)) subFrame) ;;
       pass (PassGeometry subFrame) ;;
       when (postprocLensDistortion (_pipeline s))
         (pass (PassPostprocLensDistortion subFrame))) ;;
    when (flowOutput (_output s))
      (simulateSubFrameFlow frameTimestamp subFrame)) ;;
  when (subFrames s0 >? 1) (simulateFinalFrames frameTimestamp) ;;
  modify (set_lastFrameTimestamp frameTimestamp) ;;
  modify (set_haveLastFrameTimestamp true).

(** An output with PMD and sRGB, but without RGB. *)
Definition pmdSrgbOutput : Output :=
  {| rgb := false; srgb := true; pmd := true; pmdCoordinates := false;
     eyeSpacePositions := false; customSpacePositions := false;
     eyeSpaceNormals := false; customSpaceNormals := false;
     depthAndRange := false; indices := false;
     forwardFlow3D := false; forwardFlow2D := false;
     backwardFlow3D := false; backwardFlow2D := false |}.

(** [ChipTiming::fromSubFramesPerSecond(sfps)]: no exposure time, a readout
    time of [1.0 / sfps] (the [float] argument is converted to [double],
    which is exact), no pause. *)
Definition ChipTiming_fromSubFramesPerSecond (sfps : spec_float) : ChipTiming :=
  {| exposureTime := Float64.zero;
     readoutTime := Float64.div (Float64.of_Z 1) sfps;
     pauseTime := Float64.zero |}.

(** The time stamps of the frames that the frame loop simulates when it
    starts at [start] and adds [fd] until [end_] is reached: [n] frames with
    [n = ceil((end_ - start) / fd)]. *)
Definition frameCount (start end_ fd : Z) : Z := (end_ - start + fd - 1) / fd.

Definition frameTimestamps (start end_ fd : Z) : list Z :=
  (fun k => start + k * fd) <$> seqZ 0 (frameCount start end_ fd).

(** A camera that moves for a tenth of a second. *)
Definition movingCamera : Animation :=
  mkAnimation [Keyframe.mk 0 (translate 0 0 0); Keyframe.mk 100000 (translate 1 0 0)].

(* ===================================================================== *)
(** ** Building a scene *)
(* ===================================================================== *)

(** A call of one of the convenience functions of [Scene]. *)
Inductive SceneCall : Type :=
  | CallAddLight (light : Light) (animation : Animation)
  | CallAddObject (object : Object) (animation : Animation).

Definition sceneCall (sc : Scene) (c : SceneCall) : Scene :=
  match c with
  | CallAddLight light animation => addLight sc light animation
  | CallAddObject object animation => addObject sc object animation
  end.

(** The scene after the calls [cs] on the scene [sc], in this order. *)
Definition buildScene (sc : Scene) (cs : list SceneCall) : Scene :=
  fold_left sceneCall cs sc.

(** The lights and the objects given in the calls, each with its animation. *)
Definition addedLights (cs : list SceneCall) : list (Light * Animation) :=
  omap (fun c => match c with
                 | CallAddLight light animation => Some (light, animation)
                 | CallAddObject _ _ => None
                 end) cs.

Definition addedObjects (cs : list SceneCall) : list (Object * Animation) :=
  omap (fun c => match c with
                 | CallAddObject object animation => Some (object, animation)
                 | CallAddLight _ _ => None
                 end) cs.

(** Two simulators with the same configuration. *)
Definition sameConfiguration (s s' : Simulator) : Prop :=
  _cameraAnimation s' = _cameraAnimation s
  /\ _scene s' = _scene s
  /\ _chipTiming s' = _chipTiming s
  /\ _projection s' = _projection s
  /\ _pipeline s' = _pipeline s
  /\ _output s' = _output s.

(** A method that returns: [wp m s Q] says that [m], called on the
    simulator [s], returns normally with a result and a simulator that
    satisfy [Q]. *)
Definition wp {A : Type} (m : M A) (s : Simulator) (Q : A -> Simulator -> Prop) : Prop :=
  exists a s', m s = (Ok a, s') /\ Q a s'.

(** A step that only takes texture names from OpenGL: it returns, with a
    result that satisfies [P], and changes nothing but the name counter. *)
Definition glOnly {A : Type} (P : A -> Prop) (m : M A) : Prop :=
  forall s, exists a g, m s = (Ok a, set_gl_next g s) /\ P a.

(** The simulator after [recreateOutputIfNecessary] has replaced the output
    vectors by [T], [C], [L], [O] and the textures [TX]. *)
Definition freshOutput (T : list Z) (C : list Transformation)
    (L O : list (list Transformation)) (TX : Textures) (g : Z) (s : Simulator)
  : Simulator :=
  set_recreateOutput false
    (set_haveLastFrameTimestamp false
       (set_textures TX
          (set_gl_next g
             (set_objectTransformations O
                (set_lightTransformations L
                   (set_cameraTransformations C (set_timestamps T s))))))).

(** The simulator after [simulateTimestamps] has filled in the time stamps
    [T] and the transformations [C], [L], [O]. *)
Definition withSamples (T : list Z) (C : list Transformation)
    (L O : list (list Transformation)) (s : Simulator) : Simulator :=
  set_objectTransformations O
    (set_lightTransformations L
       (set_cameraTransformations C (set_timestamps T s))).

(** The simulator after render passes were issued. *)
Definition withPasses (P : list RenderPass) (pingPong : bool) (s : Simulator) : Simulator :=
  set_gl_passes P (set_depthBufferPingPong pingPong s).

(** Render passes were issued between [s] and [s']: the trace of [s'] is
    that of [s] followed by further passes, the ping-pong flag of the flow
    simulation may have changed, and nothing else has changed. *)
Definition appended (s s' : Simulator) : Prop :=
  exists (extra : list RenderPass) (pingPong : bool),
    s' = withPasses (gl_passes s ++ extra) pingPong s.

(** Partial correctness: if [m], called on [s], returns normally, then its
    result and the simulator afterwards satisfy [Q]. *)
Definition wlp {A : Type} (m : M A) (s : Simulator) (Q : A -> Simulator -> Prop) : Prop :=
  forall a s', m s = (Ok a, s') -> Q a s'.

(** The members that [outputSized] reads are the same in [s] and [s']. *)
Definition sameOutput (s s' : Simulator) : Prop :=
  _scene s' = _scene s /\ _pipeline s' = _pipeline s /\ _output s' = _output s
  /\ _timestamps s' = _timestamps s
  /\ _cameraTransformations s' = _cameraTransformations s
  /\ _lightTransformations s' = _lightTransformations s
  /\ _objectTransformations s' = _objectTransformations s
  /\ _textures s' = _textures s.

(** The members that [outputReady] reads are the same in [s] and [s']. *)
Definition outputKept (s s' : Simulator) : Prop :=
  sameOutput s s' /\ _recreateOutput s' = _recreateOutput s.

(* ===================================================================== *)
(** ** animation.cpp: [Animation::load] *)
(* ===================================================================== *)

(** The functions of Qt and of the C++ standard library that
    [Animation::load] calls; the functions that call them take them as their
    first argument.  The file is given by its lines, as [QTextStream::readLine]
    returns them. *)
Record Qt : Type := mkQt {
  trimmed : string -> string;               (* QString::trimmed() *)
  splitSimplified : string -> list string;  (* simplified().split(' ', QString::SkipEmptyParts) *)
  toDouble : string -> spec_float;          (* QString::toDouble() *)
  qDegreesToRadians : spec_float -> spec_float;
  std_sin : spec_float -> spec_float;
  std_cos : spec_float -> spec_float;
  fromAxisAndAngle : spec_float -> spec_float -> spec_float -> spec_float -> quat;
  fromDirection : vec3 -> vec3 -> quat;
  fromEulerAngles : spec_float -> spec_float -> spec_float -> quat;
  qmul : quat -> quat -> quat               (* QQuaternion::operator*= *)
}.

(** Conversion [double -> float] (implicit in the call of a function with
    [float] parameters): rounding to the nearest binary32 number. *)
Definition double_to_float (x : spec_float) : spec_float :=
  match x with
  | S754_finite s m e => binary_round Float32.prec Float32.emax s m e
  | _ => x
  end.

(** [QVector3D(x, y, z)] with [double] arguments. *)
Definition QVector3D_of_doubles (x y z : spec_float) : vec3 :=
  QVector3D.mk (double_to_float x) (double_to_float y) (double_to_float z).

(** Modelled from the spec: [v1 *= v2] multiplies the components. *)
Definition QVector3D_mul (v1 v2 : vec3) : vec3 :=
  QVector3D.mk (Float32.mul (QVector3D.x v1) (QVector3D.x v2))
               (Float32.mul (QVector3D.y v1) (QVector3D.y v2))
               (Float32.mul (QVector3D.z v1) (QVector3D.z v2)).

(** [Keyframe() : t(0) {}]. *)
Definition Keyframe_default : Keyframe := Keyframe.mk 0 Transformation_default.

Definition set_translation (v : vec3) (k : Keyframe) : Keyframe :=
  Keyframe.mk (Keyframe.t k)
    {| translation := v;
       rotation := rotation (Keyframe.transformation k);
       scaling := scaling (Keyframe.transformation k) |}.

Definition set_rotation (q : quat) (k : Keyframe) : Keyframe :=
  Keyframe.mk (Keyframe.t k)
    {| translation := translation (Keyframe.transformation k);
       rotation := q;
       scaling := scaling (Keyframe.transformation k) |}.

Definition set_scaling (v : vec3) (k : Keyframe) : Keyframe :=
  Keyframe.mk (Keyframe.t k)
    {| translation := translation (Keyframe.transformation k);
       rotation := rotation (Keyframe.transformation k);
       scaling := v |}.

(** [keyframe.transformation.translation += v]. *)
Definition translate_by (v : vec3) (k : Keyframe) : Keyframe :=
  set_translation (QVector3D.add (translation (Keyframe.transformation k)) v) k.

(** [keyframe.transformation.rotation *= q]. *)
Definition rotate_by (qt : Qt) (q : quat) (k : Keyframe) : Keyframe :=
  set_rotation (qmul qt (rotation (Keyframe.transformation k)) q) k.

(** The errors that [Animation::load] reports with [qCritical] before it
    returns [false]: "cannot open", and "line %d: invalid token %d ('%s')". *)
Inductive LoadError : Type :=
  | CannotOpen
  | InvalidToken (line : Z) (index : Z) (token : string).

(** The loop [while (i < tokens.size())] of [Animation::load] over the
    tokens of one line.  The result is the keyframe of the line, or the index
    of the token at which the loop gave up.  Every iteration consumes one
    unit of [fuel]. *)
Fixpoint parseTokens (qt : Qt) (fuel : nat) (tokens : list string) (i : Z)
    (keyframe : Keyframe) : outcome (Z + Keyframe) :=
  if i <? size tokens then
    match fuel with
    | O => Fail OutOfFuel
    | S fuel' =>
        let? tok := at_ tokens i in
        let arg := fun k : Z => let? s := at_ tokens (int32 (i + k)) in Ok (toDouble qt s) in
        if (tok =? "time")%string && (int32 (i + 1) <? size tokens) then
          let? v := arg 1 in
          let t := Float64.to_int64
                     (Float64.add (Float64.of_Z (Keyframe.t keyframe))
                                  (Float64.mul v (Float64.of_Z 1000000))) in
          parseTokens qt fuel' tokens (int32 (i + 2))
                      (Keyframe.mk t (Keyframe.transformation keyframe))
        else if (tok =? "pos:cart")%string && (int32 (i + 3) <? size tokens) then
          let? a := arg 1 in let? b := arg 2 in let? c := arg 3 in
          parseTokens qt fuel' tokens (int32 (i + 4))
                      (translate_by (QVector3D_of_doubles a b c) keyframe)
        else if (tok =? "pos:cyl")%string && (int32 (i + 3) <? size tokens) then
          let? a := arg 1 in let? b := arg 2 in let? c := arg 3 in
          let tmp0 := a in
          let tmp1 := qDegreesToRadians qt (SFopp b) in
          let tmp2 := c in
          parseTokens qt fuel' tokens (int32 (i + 4))
            (translate_by
               (QVector3D_of_doubles (Float64.mul tmp0 (std_sin qt tmp1))
                                     tmp2
                                     (Float64.mul (SFopp tmp0) (std_cos qt tmp1)))
               keyframe)
        else if (tok =? "pos:sph")%string && (int32 (i + 3) <? size tokens) then
          let? a := arg 1 in let? b := arg 2 in let? c := arg 3 in
          let tmp0 := a in
          let tmp1 := qDegreesToRadians qt (SFopp b) in
          let tmp2 := qDegreesToRadians qt c in
          parseTokens qt fuel' tokens (int32 (i + 4))
            (translate_by
               (QVector3D_of_doubles
                  (Float64.mul (Float64.mul tmp0 (std_cos qt tmp2)) (std_sin qt tmp1))
                  (Float64.mul tmp0 (std_sin qt tmp2))
                  (Float64.mul (Float64.mul tmp0 (std_cos qt tmp2)) (std_cos qt tmp1)))
               keyframe)
        else if (tok =? "rot:axisangle")%string && (int32 (i + 4) <? size tokens) then
          let? a := arg 1 in let? b := arg 2 in let? c := arg 3 in let? d := arg 4 in
          parseTokens qt fuel' tokens (int32 (i + 5))
            (rotate_by qt (fromAxisAndAngle qt (double_to_float a) (double_to_float b)
                                            (double_to_float c) (double_to_float d))
                       keyframe)
        else if (tok =? "rot:dir")%string && (int32 (i + 6) <? size tokens) then
          let? t0 := arg 1 in let? t1 := arg 2 in let? t2 := arg 3 in
          let? t3 := arg 4 in let? t4 := arg 4 in let? t5 := arg 5 in
          parseTokens qt fuel' tokens (int32 (i + 7))
            (rotate_by qt (fromDirection qt (QVector3D_of_doubles t0 t1 t2)
                                         (QVector3D_of_doubles t3 t4 t5))
                       keyframe)
        else if (tok =? "rot:euler")%string && (int32 (i + 3) <? size tokens) then
          let? a := arg 1 in let? b := arg 2 in let? c := arg 3 in
          parseTokens qt fuel' tokens (int32 (i + 4))
            (rotate_by qt (fromEulerAngles qt (double_to_float a) (double_to_float b)
                                           (double_to_float c))
                       keyframe)
        else if (tok =? "scale")%string && (int32 (i + 3) <? size tokens) then
          let? a := arg 1 in let? b := arg 2 in let? c := arg 3 in
          parseTokens qt fuel' tokens (int32 (i + 4))
            (set_scaling (QVector3D_mul (scaling (Keyframe.transformation keyframe))
                                        (QVector3D_of_doubles a b c))
                         keyframe)
        else Ok (inl i)
    end
  else Ok (inr keyframe).

(** [line.isEmpty() || line.startsWith('#')]. *)
Definition skipped (line : string) : bool :=
  (line =? "")%string || String.prefix "#" line.

(** The loop [while (!in.atEnd())] of [Animation::load] over the lines of
    the file: the result is the animation with the keyframes of the lines, or
    the error of the first line that has an invalid token. *)
Fixpoint loadLines (qt : Qt) (lines : list string) (lineCounter : Z) (a : Animation)
  : outcome (LoadError + Animation) :=
  match lines with
  | [] => Ok (inr a)
  | l :: rest =>
      let line := trimmed qt l in
      let lineCounter := int32 (lineCounter + 1) in
      if skipped line then loadLines qt rest lineCounter a
      else
        let tokens := splitSimplified qt line in
        let? r := parseTokens qt (S (length tokens)) tokens 0 Keyframe_default in
        match r with
        | inl i =>
            let? tok := at_ tokens i in
            Ok (inl (InvalidToken lineCounter i tok))
        | inr keyframe =>
            let? a' := addKeyframe a keyframe in
            loadLines qt rest lineCounter a'
        end
  end.

(** [Animation::load(filename)]; [file] is the content of the file, [None]
    if it cannot be opened.  The result is the error, [None] where the
    source returns [true], and the animation afterwards. *)
Definition load (qt : Qt) (file : option (list string)) (a : Animation)
  : outcome (option LoadError * Animation) :=
  match file with
  | None => Ok (Some CannotOpen, a)
  | Some lines =>
      let keyframesBackup := _keyframes a in
      let? r := loadLines qt lines 0 (mkAnimation []) in
      match r with
      | inl err => Ok (Some err, mkAnimation keyframesBackup)
      | inr a' => Ok (None, a')
      end
  end.

(** The keyframe of a line of the file, if the line has one: lines that are
    empty or comments have none, as lines with an invalid token. *)
Definition lineKeyframe (qt : Qt) (l : string) : option Keyframe :=
  let line := trimmed qt l in
  if skipped line then None
  else
    let tokens := splitSimplified qt line in
    match parseTokens qt (S (length tokens)) tokens 0 Keyframe_default with
    | Ok (inr keyframe) => Some keyframe
    | _ => None
    end.

(** A line without an invalid token. *)
Definition lineValid (qt : Qt) (l : string) : bool :=
  let line := trimmed qt l in
  skipped line
  || let tokens := splitSimplified qt line in
     match parseTokens qt (S (length tokens)) tokens 0 Keyframe_default with
     | Ok (inl _) => false
     | _ => true
     end.

(** Stand-ins for the functions of Qt in runs of the model: lines are
    taken as they are, the tokens are the words between single spaces, and
    a number is read as 1 if it is the string "1", as 0 otherwise. *)
Fixpoint words (acc : string) (s : string) : list string :=
  match s with
  | EmptyString => if (acc =? "")%string then [] else [acc]
  | String c s' =>
      if (String c "" =? " ")%string
      then (if (acc =? "")%string then [] else [acc]) ++ words "" s'
      else words (acc ++ String c "") s'
  end.

Definition qt_stub : Qt :=
  {| trimmed := fun s => s;
     splitSimplified := words "";
     toDouble := fun s => if (s =? "1")%string then Float64.of_Z 1 else Float64.zero;
     qDegreesToRadians := fun x => x;
     std_sin := fun x => x;
     std_cos := fun x => x;
     fromAxisAndAngle := fun _ _ _ _ => QQuaternion.identity;
     fromDirection := fun _ _ => QQuaternion.identity;
     fromEulerAngles := fun _ _ _ => QQuaternion.identity;
     qmul := fun q _ => q |}.

(** A file that [int] indices can address: at most 2^30 lines, each of at
    most 2^30 tokens. *)
Definition shortLines (qt : Qt) (lines : list string) : Prop :=
  size lines <= 2 ^ 30
  /\ Forall (fun l => size (splitSimplified qt (trimmed qt l)) <= 2 ^ 30) lines.

(** An animation file for runs of the model. *)
Definition exampleFile : list string :=
  ["# camera path"; "time 1 pos:cart 1 0 0"; ""; "time 0 scale 1 1 1"]%string.

(* ===================================================================== *)
(** ** gl.cpp, texdata.hpp, texdata.cpp *)
(* ===================================================================== *)

(** The values of [GLenum] that [glTypeSize] distinguishes; every other
    value of the enumeration is [GL_other]. *)
Inductive GLtype : Type :=
  | GL_UNSIGNED_BYTE | GL_BYTE
  | GL_UNSIGNED_SHORT | GL_SHORT
  | GL_UNSIGNED_INT | GL_INT | GL_FLOAT
  | GL_other (value : Z).

(** [Q_ASSERT(cond)] in a build with assertions (without [QT_NO_DEBUG]): a
    failed assertion ends the process, too (with [qFatal]); the model
    records it as [Exit] with the text of the condition. *)
Definition Q_ASSERT (c : bool) (cond : string) : outcome unit :=
  if c then Ok tt else Fail (Exit cond).

(** Arithmetic in [size_t] (64 bit, unsigned). *)
Definition size_t (x : Z) : Z := x mod 2 ^ 64.

(** [glTypeSize(type)]. *)
Definition glTypeSize (type : GLtype) : outcome Z :=
  let s := match type with
           | GL_UNSIGNED_BYTE | GL_BYTE => 1
           | GL_UNSIGNED_SHORT | GL_SHORT => 2
           | GL_UNSIGNED_INT | GL_INT | GL_FLOAT => 4
           | GL_other _ => 0
           end in
  let? _ := Q_ASSERT (negb (s =? 0)) "s != 0" in
  Ok s.

(** [std::memcpy(dst + d, src + s, n)] on byte arrays, with the array [dst]
    afterwards as the result.  To read or to write beyond an array is
    undefined behaviour; it is the error [OutOfRange] of the model. *)
Definition memcpy (dst : list Byte.byte) (d : Z) (src : list Byte.byte) (s n : Z)
  : outcome (list Byte.byte) :=
  if (0 <=? d) && (0 <=? s) && (0 <=? n) && (d + n <=? size dst) && (s + n <=? size src)
  then Ok (take (Z.to_nat d) dst
           ++ take (Z.to_nat n) (drop (Z.to_nat s) src)
           ++ drop (Z.to_nat (d + n)) dst)
  else Fail OutOfRange.

(** [QByteArray a; a.resize(n);]: [resize] takes an [int]; the bytes are
    not initialized by Qt, they are zero in the model. *)
Definition resized (n : Z) : list Byte.byte := replicate (Z.to_nat (int32 n)) Byte.x00.

Module TexData.

(** Of [TexData], the members that describe the layout and hold the data;
    the channel names only label exported files. *)
Record TexData : Type := mk {
  _w : Z;
  _h : Z;
  _type : GLtype;
  _channels : Z;
  _packedData : list Byte.byte
}.

Definition width (t : TexData) : Z := _w t.
Definition height (t : TexData) : Z := _h t.
Definition channels (t : TexData) : Z := _channels t.

(** [TexData::typeSize()]. *)
Definition typeSize (t : TexData) : outcome Z := glTypeSize (_type t).

(** [packedElementSize()], [packedLineSize()], [packedDataSize()]. *)
Definition packedElementSize (t : TexData) : outcome Z :=
  let? ts := typeSize t in Ok (size_t (ts * channels t)).

Definition packedLineSize (t : TexData) : outcome Z :=
  let? pes := packedElementSize t in Ok (size_t (pes * width t)).

Definition packedDataSize (t : TexData) : outcome Z :=
  let? pls := packedLineSize t in Ok (size_t (pls * height t)).

(** [element(x, y, c)]: the offset of the element in the packed data (the
    source returns the pointer [packedData() + offset]). *)
Definition element (t : TexData) (x y c : Z) : outcome Z :=
  let? _ := Q_ASSERT ((x >=? 0) && (x <? _w t)) "x >= 0 && x < _w" in
  let? _ := Q_ASSERT ((y >=? 0) && (y <? _h t)) "y >= 0 && y < _h" in
  let? _ := Q_ASSERT ((c >=? 0) && (c <? _channels t)) "c >= 0 && c < _channels" in
  let? pls := packedLineSize t in
  let? pes := packedElementSize t in
  let? ts := typeSize t in
  Ok (size_t (size_t (size_t (y * pls) + size_t (x * pes)) + size_t (c * ts))).

(** [planarElementSize()], [planarLineSize()], [planarColumnSize()],
    [planarDataSize()]. *)
Definition planarElementSize (t : TexData) : outcome Z := typeSize t.

Definition planarLineSize (t : TexData) : outcome Z :=
  let? pes := planarElementSize t in Ok (size_t (pes * width t)).

Definition planarColumnSize (t : TexData) : outcome Z :=
  let? pes := planarElementSize t in Ok (size_t (pes * height t)).

Definition planarDataSize (t : TexData) : outcome Z :=
  let? pls := planarLineSize t in Ok (size_t (pls * height t)).

(** [TexData::planarDataArray(channel)]. *)
Definition planarDataArray (t : TexData) (channel : Z) : outcome (list Byte.byte) :=
  let? _ := Q_ASSERT ((channel >=? 0) && (channel <=? channels t))
                     "channel >= 0 && channel <= channels()" in
  let? n := planarDataSize t in
  ofold (fun planarData y =>
           ofold (fun planarData x =>
                    let? pls := planarLineSize t in
                    let? pes := planarElementSize t in
                    let dstIndex := size_t (size_t (y * pls) + size_t (x * pes)) in
                    let? src := element t x y channel in
                    let? ts := typeSize t in
                    memcpy planarData dstIndex (_packedData t) src ts)
                 (indices_below (width t)) planarData)
        (indices_below (height t)) (resized n).

(** [TexData::transposedPlanarDataArray(channel)]. *)
Definition transposedPlanarDataArray (t : TexData) (channel : Z)
  : outcome (list Byte.byte) :=
  let? _ := Q_ASSERT ((channel >=? 0) && (channel <=? channels t))
                     "channel >= 0 && channel <= channels()" in
  let? n := planarDataSize t in
  ofold (fun transposedPlanarData y =>
           ofold (fun transposedPlanarData x =>
                    let? pcs := planarColumnSize t in
                    let? pes := planarElementSize t in
                    let dstIndex := size_t (size_t (x * pcs) + size_t (y * pes)) in
                    let? src := element t x y channel in
                    let? ts := typeSize t in
                    memcpy transposedPlanarData dstIndex (_packedData t) src ts)
                 (indices_below (width t)) transposedPlanarData)
        (indices_below (height t)) (resized n).

(** The end of [TexData::setTexture], "reverse y direction": the rows of
    the data that OpenGL delivered are swapped in place, the first with the
    last and so on, through the buffer [packedLine]. *)
Definition reverseY (t : TexData) (texH : Z) : outcome TexData :=
  let? pls := packedLineSize t in
  let? r :=
    ofold (fun (buffers : list Byte.byte * list Byte.byte) y =>
             let (packedData, packedLine) := buffers in
             let yy := int32 (int32 (texH - 1) - y) in
             let? packedLine := memcpy packedLine 0 packedData (size_t (y * pls)) pls in
             let? packedData :=
               memcpy packedData (size_t (y * pls)) packedData (size_t (yy * pls)) pls in
             let? packedData := memcpy packedData (size_t (yy * pls)) packedLine 0 pls in
             Ok (packedData, packedLine))
          (indices_below (Z.quot texH 2)) (_packedData t, resized pls) in
  Ok (mk (_w t) (_h t) (_type t) (_channels t) (fst r)).

(** The byte [b] of channel [c] of the element [(x, y)] in the packed
    data, and the byte [b] of the element [(x, y)] in planar data and in
    transposed planar data, with elements of [ts] bytes. *)
Definition packedByte (t : TexData) (ts x y c b : Z) : option Byte.byte :=
  _packedData t !! Z.to_nat ((((y * _w t) + x) * _channels t + c) * ts + b).

Definition planarByte (t : TexData) (data : list Byte.byte) (ts x y b : Z)
  : option Byte.byte :=
  data !! Z.to_nat ((y * _w t + x) * ts + b).

Definition transposedByte (t : TexData) (data : list Byte.byte) (ts x y b : Z)
  : option Byte.byte :=
  data !! Z.to_nat ((x * _h t + y) * ts + b).

(** The byte [b] of the row [y] of the packed data, with rows of [pls]
    bytes. *)
Definition rowByte (data : list Byte.byte) (pls y b : Z) : option Byte.byte :=
  data !! Z.to_nat (y * pls + b).

(** A texture whose layout is known and whose data are complete: a type
    that [glTypeSize] knows, a width and a height that are not negative
    ([int] values), one to four channels, and as many bytes as the layout
    says, fewer than 2^31 as in every [QByteArray]. *)
Definition wellFormed (t : TexData) (ts : Z) : Prop :=
  typeSize t = Ok ts
  /\ 0 <= _w t < 2 ^ 31 /\ 0 <= _h t < 2 ^ 31 /\ 1 <= _channels t <= 4
  /\ size (_packedData t) = ts * _channels t * _w t * _h t
  /\ size (_packedData t) < 2 ^ 31.

End TexData.

(** A texture of two by three elements of two channels of one byte, for
    runs of the model: the byte of channel [c] of element [(x, y)] is
    [16 y + 2 x + c]. *)
Definition exampleTexture : TexData.TexData :=
  TexData.mk 2 3 GL_UNSIGNED_BYTE 2
    [Byte.x00; Byte.x01; Byte.x02; Byte.x03;
     Byte.x10; Byte.x11; Byte.x12; Byte.x13;
     Byte.x20; Byte.x21; Byte.x22; Byte.x23].
(* ===================================================================== *)
(** * Properties *)
(* ===================================================================== *)

(** ** Machine integers and containers *)

Lemma int32_id x : is_int32 x -> int32 x = x.
Proof.
  unfold is_int32, int32, wrap. intros H.
  change (2 ^ (32 - 1)) with 2147483648. change (2 ^ 32) with 4294967296.
  change (2 ^ 31) with 2147483648 in H.
  rewrite Z.mod_small; lia.
Qed.

Lemma int64_id x : is_int64 x -> int64 x = x.
Proof.
  unfold is_int64, int64, wrap. intros H.
  change (2 ^ (64 - 1)) with 9223372036854775808.
  change (2 ^ 64) with 18446744073709551616.
  change (2 ^ 63) with 9223372036854775808 in H.
  rewrite Z.mod_small; lia.
Qed.

Lemma at_Ok {A} (l : list A) (i : Z) (x : A) :
  at_ l i = Ok x <-> 0 <= i /\ l !! Z.to_nat i = Some x.
Proof.
  unfold at_. split.
  - destruct (0 <=? i) eqn:H0; simpl; [|discriminate].
    destruct (i <? Z.of_nat (length l)); [|discriminate].
    destruct (l !! Z.to_nat i); [|discriminate].
    intros [= ->]. split; [lia|reflexivity].
  - intros [H0 Hl].
    assert (Hlt : (Z.to_nat i < length l)%nat) by (eapply lookup_lt_Some; eauto).
    replace (0 <=? i) with true by (symmetry; apply Z.leb_le; lia).
    replace (i <? Z.of_nat (length l)) with true by (symmetry; apply Z.ltb_lt; lia).
    simpl. rewrite Hl. reflexivity.
Qed.

Lemma at_nat {A} (l : list A) (i : nat) (x : A) :
  l !! i = Some x -> at_ l (Z.of_nat i) = Ok x.
Proof. intros H. apply at_Ok. rewrite Nat2Z.id. split; [lia|assumption]. Qed.

Lemma at_in_range {A} (l : list A) (i : Z) :
  0 <= i < size l -> exists x, at_ l i = Ok x.
Proof.
  unfold size. intros H.
  destruct (lookup_lt_is_Some_2 l (Z.to_nat i)) as [x Hx]; [lia|].
  exists x. apply at_Ok. split; [lia|assumption].
Qed.

Lemma at_out_of_range {A} (l : list A) (i : Z) :
  i < 0 \/ size l <= i -> at_ l i = Fail OutOfRange.
Proof.
  unfold at_, size. intros H.
  destruct (0 <=? i) eqn:H0; simpl; [|reflexivity].
  destruct (i <? Z.of_nat (length l)) eqn:H1; [|reflexivity].
  apply Z.leb_le in H0. apply Z.ltb_lt in H1. lia.
Qed.

(** ** The invariant of [Animation] *)

#[local] Instance earlier_transitive : Transitive earlier.
Proof. unfold earlier. intros x y z. lia. Qed.

Lemma ascending_Sorted l : ascending l = true <-> Sorted earlier l.
Proof.
  induction l as [|k l IH]; simpl.
  - split; [constructor|reflexivity].
  - rewrite andb_true_iff, IH. split.
    + intros [Hh Hs]. constructor; [assumption|].
      destruct l; constructor. apply Z.ltb_lt. exact Hh.
    + intros Hs. inversion Hs as [|? ? Hs' Hh]; subst. split; [|assumption].
      destruct l; [reflexivity|]. inversion Hh; subst. apply Z.ltb_lt. assumption.
Qed.

Lemma ascending_StronglySorted l : ascending l = true <-> StronglySorted earlier l.
Proof.
  rewrite ascending_Sorted. split.
  - apply Sorted_StronglySorted. apply _.
  - apply StronglySorted_Sorted.
Qed.

Lemma StronglySorted_lookup (l : list Keyframe) (i j : nat) (ki kj : Keyframe) :
  StronglySorted earlier l ->
  l !! i = Some ki -> l !! j = Some kj -> (i < j)%nat -> earlier ki kj.
Proof.
  intros Hs. revert i j. induction Hs as [|k l Hs IH Hall]; intros i j Hi Hj Hlt.
  - rewrite lookup_nil in Hi. discriminate.
  - destruct j as [|j]; [lia|]. simpl in Hj.
    destruct i as [|i]; simpl in Hi.
    + injection Hi as <-. rewrite Forall_forall in Hall. apply Hall.
      eapply list_elem_of_lookup_2. eassumption.
    + eapply IH; eauto. lia.
Qed.

Lemma ascending_lookup_le (l : list Keyframe) (i j : nat) (ki kj : Keyframe) :
  ascending l = true ->
  l !! i = Some ki -> l !! j = Some kj -> (i <= j)%nat ->
  Keyframe.t ki <= Keyframe.t kj.
Proof.
  intros Hs Hi Hj Hle. apply ascending_StronglySorted in Hs.
  destruct (decide (i = j)) as [->|Hne].
  - rewrite Hi in Hj. injection Hj as ->. lia.
  - assert (earlier ki kj) by (eapply StronglySorted_lookup; eauto; lia).
    unfold earlier in *. lia.
Qed.

Lemma ascending_lookup_lt (l : list Keyframe) (i j : nat) (ki kj : Keyframe) :
  ascending l = true ->
  l !! i = Some ki -> l !! j = Some kj -> (i < j)%nat ->
  Keyframe.t ki < Keyframe.t kj.
Proof.
  intros Hs Hi Hj Hlt. apply ascending_StronglySorted in Hs.
  eapply StronglySorted_lookup; eauto.
Qed.

(** In a sorted list the index of a time stamp is unique. *)
Lemma ascending_lookup_inj (l : list Keyframe) (i j : nat) (ki kj : Keyframe) :
  ascending l = true ->
  l !! i = Some ki -> l !! j = Some kj ->
  Keyframe.t ki = Keyframe.t kj -> i = j.
Proof.
  intros Hs Hi Hj Ht.
  destruct (Nat.lt_trichotomy i j) as [H|[H|H]]; [|assumption|].
  - pose proof (ascending_lookup_lt _ _ _ _ _ Hs Hi Hj H). lia.
  - pose proof (ascending_lookup_lt _ _ _ _ _ Hs Hj Hi H). lia.
Qed.

Lemma startTime_lookup (a : Animation) (k : Keyframe) :
  _keyframes a !! 0%nat = Some k -> startTime a = Keyframe.t k.
Proof. unfold startTime. destruct (_keyframes a); simpl; [discriminate|]. intros [= ->]. reflexivity. Qed.

Lemma endTime_lookup (a : Animation) (k : Keyframe) :
  _keyframes a !! pred (length (_keyframes a)) = Some k -> endTime a = Keyframe.t k.
Proof. unfold endTime. rewrite last_lookup. intros ->. reflexivity. Qed.

(** ** Binary search *)

Lemma quot2_mid a b : 0 <= a -> a <= b -> a <= Z.quot (a + b) 2 <= b.
Proof.
  intros Ha Hab. rewrite Z.quot_div_nonneg by lia.
  split.
  - apply Z.div_le_lower_bound; lia.
  - apply Z.div_le_upper_bound; lia.
Qed.

Lemma findKeyframeIndices_loop_spec (l : list Keyframe) (t : Z) :
  ascending l = true -> size l <= 2 ^ 30 ->
  forall (fuel : nat) (a b : Z),
    0 <= a -> b < size l -> a <= b + 1 ->
    below l t a -> above l t b ->
    b - a + 1 < Z.of_nat fuel ->
    exists r, findKeyframeIndices_loop fuel l t a b = Ok r /\ bracket l t r.
Proof.
  intros Hs Hsize. change (2 ^ 30) with 1073741824 in Hsize.
  induction fuel as [|fuel IH]; intros a b Ha Hb Hab Hbelow Habove Hfuel.
  - assert (b = a - 1) as -> by lia. simpl.
    replace (a - 1 >=? a) with false by (symmetry; rewrite Z.geb_leb; apply Z.leb_gt; lia).
    eexists; split; [reflexivity|].
    replace a with ((a - 1) + 1) at 2 by lia. apply bracket_between; [lia| |assumption].
    replace (a - 1 + 1) with a by lia. assumption.
  - simpl. rewrite Z.geb_leb. destruct (a <=? b) eqn:Hle.
    + apply Z.leb_le in Hle.
      rewrite int32_id by (unfold is_int32; change (2 ^ 31) with 2147483648; lia).
      pose proof (quot2_mid a b Ha Hle) as Hc.
      set (c := Z.quot (a + b) 2) in *.
      destruct (at_in_range l c) as [kc Hkc]; [lia|].
      rewrite Hkc. simpl. apply at_Ok in Hkc as [Hc0 Hkc].
      destruct (Keyframe.t kc <? t) eqn:Hlt.
      * apply Z.ltb_lt in Hlt.
        rewrite int32_id by (unfold is_int32; change (2 ^ 31) with 2147483648; lia).
        apply IH; try lia; [|assumption].
        intros i k Hi Hic.
        pose proof (ascending_lookup_le l i (Z.to_nat c) k kc Hs Hi Hkc ltac:(lia)). lia.
      * apply Z.ltb_ge in Hlt. rewrite Z.gtb_ltb.
        destruct (t <? Keyframe.t kc) eqn:Hgt.
        -- apply Z.ltb_lt in Hgt.
           rewrite int32_id by (unfold is_int32; change (2 ^ 31) with 2147483648; lia).
           apply IH; try lia; [assumption|].
           intros i k Hi Hic.
           pose proof (ascending_lookup_le l (Z.to_nat c) i kc k Hs Hkc Hi ltac:(lia)). lia.
        -- apply Z.ltb_ge in Hgt.
           eexists; split; [reflexivity|].
           replace c with (Z.of_nat (Z.to_nat c)) by lia.
           eapply bracket_exact; [eassumption|lia].
    + apply Z.leb_gt in Hle. assert (b = a - 1) as -> by lia.
      eexists; split; [reflexivity|].
      replace a with ((a - 1) + 1) at 2 by lia. apply bracket_between; [lia| |assumption].
      replace (a - 1 + 1) with a by lia. assumption.
Qed.

Lemma findKeyframeIndices_spec (l : list Keyframe) (t : Z) :
  ascending l = true -> size l <= 2 ^ 30 ->
  exists r, findKeyframeIndices l t = Ok r /\ bracket l t r.
Proof.
  intros Hs Hsize. unfold findKeyframeIndices.
  assert (Hsz : 0 <= size l) by (unfold size; lia).
  rewrite int32_id
    by (unfold is_int32; change (2 ^ 31) with 2147483648;
        change (2 ^ 30) with 1073741824 in Hsize; lia).
  apply findKeyframeIndices_loop_spec; try assumption; try lia.
  - intros i k _ Hi. lia.
  - intros i k Hi Hlt. apply lookup_lt_Some in Hi. unfold size in *. lia.
  - unfold size. lia.
Qed.

(** ** [Animation::interpolate] *)

Lemma nonempty_ends {A} (l : list A) :
  1 <= size l ->
  exists kf kl, l !! 0%nat = Some kf /\ l !! pred (length l) = Some kl.
Proof.
  unfold size. intros H.
  destruct (lookup_lt_is_Some_2 l 0%nat) as [kf Hf]; [lia|].
  destruct (lookup_lt_is_Some_2 l (pred (length l))) as [kl Hl]; [lia|].
  eauto.
Qed.

Lemma front_lookup {A} (l : list A) (k : A) : l !! 0%nat = Some k -> front l = Ok k.
Proof. intros H. apply (at_nat l 0%nat k H). Qed.

Lemma back_lookup {A} (l : list A) (k : A) :
  l !! pred (length l) = Some k -> back l = Ok k.
Proof.
  intros H. pose proof (lookup_lt_Some _ _ _ H). unfold back, size.
  replace (Z.of_nat (length l) - 1) with (Z.of_nat (pred (length l))) by lia.
  apply at_nat. assumption.
Qed.

(** What [interpolate] computes on a sorted animation, by the position of
    [t] relative to the keyframes. *)
Lemma interpolate_cases (slerp : Slerp) (a : Animation) (t : Z) :
  ascending (_keyframes a) = true ->
  1 <= size (_keyframes a) <= 2 ^ 30 ->
  exists kf kl,
    _keyframes a !! 0%nat = Some kf /\
    _keyframes a !! pred (length (_keyframes a)) = Some kl /\
    ((t <= Keyframe.t kf /\
      interpolate slerp a t = Ok (Keyframe.transformation kf))
     \/ (Keyframe.t kf < t /\ Keyframe.t kl <= t /\
         interpolate slerp a t = Ok (Keyframe.transformation kl))
     \/ (Keyframe.t kf < t < Keyframe.t kl /\
         exists c k, _keyframes a !! c = Some k /\ Keyframe.t k = t /\
                     interpolate slerp a t = Ok (Keyframe.transformation k))
     \/ (Keyframe.t kf < t < Keyframe.t kl /\
         exists i lo hi,
           _keyframes a !! i = Some lo /\ _keyframes a !! S i = Some hi /\
           Keyframe.t lo < t < Keyframe.t hi /\
           interpolate slerp a t =
             Ok (Transformation_interpolate slerp (Keyframe.transformation lo)
                   (Keyframe.transformation hi)
                   (blend_alpha (Keyframe.t lo) (Keyframe.t hi) t)))).
Proof.
  intros Hs [Hne Hsize].
  destruct (nonempty_ends _ Hne) as (kf & kl & Hf & Hl).
  exists kf, kl. split; [assumption|]. split; [assumption|].
  unfold interpolate.
  replace (size (_keyframes a) =? 0) with false by (symmetry; apply Z.eqb_neq; lia).
  rewrite (startTime_lookup _ _ Hf), (endTime_lookup _ _ Hl).
  destruct (t <=? Keyframe.t kf) eqn:H1.
  { apply Z.leb_le in H1. left. split; [assumption|].
    rewrite (front_lookup _ _ Hf). reflexivity. }
  apply Z.leb_gt in H1. rewrite Z.geb_leb.
  destruct (Keyframe.t kl <=? t) eqn:H2.
  { apply Z.leb_le in H2. right; left. split; [assumption|]. split; [assumption|].
    rewrite (back_lookup _ _ Hl). reflexivity. }
  apply Z.leb_gt in H2. right; right.
  destruct (findKeyframeIndices_spec (_keyframes a) t Hs Hsize) as (r & -> & Hr).
  simpl. destruct Hr as [c k Hc Hk | lo Hlo Hbelow Habove].
  - left. split; [lia|]. exists c, k. split; [assumption|]. split; [assumption|].
    rewrite Z.eqb_refl. rewrite (at_nat _ _ _ Hc). reflexivity.
  - right. split; [lia|].
    assert (0 <= lo).
    { destruct (Z_lt_le_dec lo 0) as [Hneg|]; [|assumption].
      pose proof (Habove 0%nat kf Hf ltac:(lia)). lia. }
    assert (lo + 1 < size (_keyframes a)).
    { destruct (Z_lt_le_dec (lo + 1) (size (_keyframes a))) as [|Hge]; [assumption|].
      pose proof (Hbelow _ kl Hl ltac:(unfold size in *; lia)). lia. }
    destruct (lookup_lt_is_Some_2 (_keyframes a) (Z.to_nat lo)) as [klo Hklo];
      [unfold size in *; lia|].
    destruct (lookup_lt_is_Some_2 (_keyframes a) (S (Z.to_nat lo))) as [khi Hkhi];
      [unfold size in *; lia|].
    exists (Z.to_nat lo), klo, khi.
    split; [assumption|]. split; [assumption|].
    pose proof (Hbelow _ klo Hklo ltac:(lia)).
    pose proof (Habove _ khi Hkhi ltac:(lia)).
    split; [lia|].
    replace (lo =? lo + 1) with false by (symmetry; apply Z.eqb_neq; lia).
    replace lo with (Z.of_nat (Z.to_nat lo)) at 1 by lia.
    rewrite (at_nat _ _ _ Hklo). simpl.
    replace (lo + 1) with (Z.of_nat (S (Z.to_nat lo))) by lia.
    rewrite (at_nat _ _ _ Hkhi). reflexivity.
Qed.

(** The blend factor when the time differences fit into [long long]:
    [1 - (t_hi - t) / (t_hi - t_lo)] in [float] arithmetic. *)
Lemma blend_alpha_in_range (t_lo t_hi t : Z) :
  is_int64 (t_hi - t) -> is_int64 (t_hi - t_lo) ->
  blend_alpha t_lo t_hi t =
    Float32.sub Float32.one
      (Float32.div (Float32.of_Z (t_hi - t)) (Float32.of_Z (t_hi - t_lo))).
Proof. intros H1 H2. unfold blend_alpha. rewrite !int64_id by assumption. reflexivity. Qed.

(** C9: an animation without keyframes interpolates, for every time [t], to
    the identity transformation (zero translation, identity rotation, unit
    scale), and [interpolate] does not fail. *)
Theorem interpolate_no_keyframes (slerp : Slerp) (t : Z) :
  interpolate slerp (mkAnimation []) t =
    Ok {| translation := QVector3D.mk Float32.zero Float32.zero Float32.zero;
          rotation := QQuaternion.mk Float32.one Float32.zero Float32.zero Float32.zero;
          scaling := QVector3D.mk Float32.one Float32.one Float32.one |}.
Proof. reflexivity. Qed.

(** C6 (amended): on an animation whose keyframes are sorted by strictly
    ascending time (at least one, at most 2^30 keyframes), [interpolate t]
    returns the first keyframe's transformation if [t] is at or before the
    first keyframe, the last keyframe's transformation if [t] is at or after
    the last keyframe, the transformation of the keyframe at time [t] if there
    is one, and otherwise the blend of the two adjacent keyframes around [t];
    if these two keyframes are less than 2^63 microseconds apart, so that
    their difference fits into [long long], the blend factor is
    [1 - (t_hi - t) / (t_hi - t_lo)], the differences taken exactly and the
    rest computed in [float].  One of the four cases always applies. *)
Theorem interpolate_sorted (slerp : Slerp) (a : Animation) (t : Z) :
  ascending (_keyframes a) = true ->
  1 <= size (_keyframes a) <= 2 ^ 30 ->
  (forall k, front (_keyframes a) = Ok k -> t <= Keyframe.t k ->
     interpolate slerp a t = Ok (Keyframe.transformation k))
  /\ (forall k, back (_keyframes a) = Ok k -> Keyframe.t k <= t ->
        interpolate slerp a t = Ok (Keyframe.transformation k))
  /\ (forall (i : nat) k, _keyframes a !! i = Some k -> Keyframe.t k = t ->
        interpolate slerp a t = Ok (Keyframe.transformation k))
  /\ (forall (i : nat) lo hi,
        _keyframes a !! i = Some lo -> _keyframes a !! S i = Some hi ->
        Keyframe.t lo < t < Keyframe.t hi ->
        Keyframe.t hi - Keyframe.t lo < 2 ^ 63 ->
        interpolate slerp a t =
          Ok (Transformation_interpolate slerp (Keyframe.transformation lo)
                (Keyframe.transformation hi)
                (Float32.sub Float32.one
                   (Float32.div (Float32.of_Z (Keyframe.t hi - t))
                                (Float32.of_Z (Keyframe.t hi - Keyframe.t lo))))))
  /\ ((exists k, front (_keyframes a) = Ok k /\ t <= Keyframe.t k)
      \/ (exists k, back (_keyframes a) = Ok k /\ Keyframe.t k <= t)
      \/ (exists (i : nat) k, _keyframes a !! i = Some k /\ Keyframe.t k = t)
      \/ (exists (i : nat) lo hi,
            _keyframes a !! i = Some lo /\ _keyframes a !! S i = Some hi /\
            Keyframe.t lo < t < Keyframe.t hi)).
Proof.
  intros Hs Hsz.
  destruct (interpolate_cases slerp a t Hs Hsz) as (kf & kl & Hf & Hl & Hcases).
  assert (Hfront : front (_keyframes a) = Ok kf) by (apply front_lookup; assumption).
  assert (Hback : back (_keyframes a) = Ok kl) by (apply back_lookup; assumption).
  assert (Hfl : Keyframe.t kf <= Keyframe.t kl).
  { eapply ascending_lookup_le; eauto. lia. }
  assert (Hlow : forall (i : nat) k, _keyframes a !! i = Some k ->
                 Keyframe.t kf <= Keyframe.t k <= Keyframe.t kl).
  { intros i k Hi. pose proof (lookup_lt_Some _ _ _ Hi). split.
    - eapply ascending_lookup_le; eauto. lia.
    - eapply ascending_lookup_le; eauto. lia. }
  (* a keyframe with the time stamp of another one is that keyframe *)
  assert (Hsame : forall (i j : nat) k k', _keyframes a !! i = Some k ->
            _keyframes a !! j = Some k' -> Keyframe.t k = Keyframe.t k' -> k = k').
  { intros i j k k' Hi Hj Ht.
    pose proof (ascending_lookup_inj _ _ _ _ _ Hs Hi Hj Ht) as ->.
    rewrite Hi in Hj. injection Hj as ->. reflexivity. }
  repeat split.
  - (* at or before the first keyframe *)
    intros k Hk Ht. rewrite Hfront in Hk. injection Hk as <-.
    destruct Hcases as [[_ ->]|[(? & _)|[(? & _)|(? & _)]]]; [reflexivity|lia..].
  - (* at or after the last keyframe *)
    intros k Hk Ht. rewrite Hback in Hk. injection Hk as <-.
    destruct Hcases as [[? ->]|[(_ & _ & ->)|[(? & _)|(? & _)]]]; [|reflexivity|lia..].
    f_equal. f_equal. eapply Hsame; eauto. lia.
  - (* at a keyframe *)
    intros i k Hi Ht. pose proof (Hlow i k Hi) as Hik.
    destruct Hcases as [[? ->]|[(? & ? & ->)|[(? & c & k' & Hc & Hk' & ->)|(? & j & lo & hi & Hlo & Hhi & ? & _)]]].
    + f_equal. f_equal. eapply Hsame; eauto. lia.
    + f_equal. f_equal. eapply Hsame; eauto. lia.
    + f_equal. f_equal. eapply Hsame; eauto. lia.
    + exfalso. destruct (le_lt_dec i j) as [Hij|Hij].
      * pose proof (ascending_lookup_le _ _ _ _ _ Hs Hi Hlo Hij). lia.
      * pose proof (ascending_lookup_le _ _ _ _ _ Hs Hhi Hi ltac:(lia)). lia.
  - (* strictly between two adjacent keyframes *)
    intros i lo hi Hlo Hhi Ht Hspan.
    pose proof (Hlow _ _ Hlo). pose proof (Hlow _ _ Hhi).
    destruct Hcases as [[? _]|[(? & ? & _)|[(? & c & k' & Hc & Hk' & _)|(? & j & lo' & hi' & Hlo' & Hhi' & ? & ->)]]];
      [lia|lia| |].
    + exfalso. destruct (le_lt_dec c i) as [Hci|Hci].
      * pose proof (ascending_lookup_le _ _ _ _ _ Hs Hc Hlo Hci). lia.
      * pose proof (ascending_lookup_le _ _ _ _ _ Hs Hhi Hc ltac:(lia)). lia.
    + assert (i = j) as ->.
      { destruct (Nat.lt_trichotomy i j) as [H'|[H'|H']]; [|assumption|]; exfalso.
        - pose proof (ascending_lookup_le _ _ _ _ _ Hs Hhi Hlo' ltac:(lia)). lia.
        - pose proof (ascending_lookup_le _ _ _ _ _ Hs Hhi' Hlo ltac:(lia)). lia. }
      rewrite Hlo in Hlo'. injection Hlo' as <-.
      rewrite Hhi in Hhi'. injection Hhi' as <-.
      rewrite blend_alpha_in_range; [reflexivity| |]; unfold is_int64;
        change (2 ^ 63) with 9223372036854775808 in *; lia.
  - (* one of the cases applies *)
    destruct Hcases as [[? _]|[(? & ? & _)|[(? & c & k' & Hc & Hk' & _)|(? & j & lo' & hi' & Hlo' & Hhi' & ? & _)]]].
    + left. eauto.
    + right; left. eauto.
    + right; right; left. eauto.
    + right; right; right. exists j, lo', hi'. eauto.
Qed.

(** ** [Animation::addKeyframe] *)

Lemma ascending_NoDup (l : list Keyframe) :
  ascending l = true -> NoDup (Keyframe.t <$> l).
Proof.
  rewrite ascending_StronglySorted.
  induction 1 as [|k l Hs IH Hall]; simpl; constructor; [|assumption].
  rewrite list_elem_of_fmap. intros (k' & Ht & Hin).
  rewrite Forall_forall in Hall. apply Hall in Hin. unfold earlier in Hin. lia.
Qed.

Lemma ascending_snoc (l : list Keyframe) (k kl : Keyframe) :
  ascending l = true -> last l = Some kl -> Keyframe.t kl < Keyframe.t k ->
  ascending (l ++ [k]) = true.
Proof.
  intros Hs Hl Hlt. apply ascending_StronglySorted.
  apply StronglySorted_app_2.
  - intros x1 x2 H1 H2. apply list_elem_of_singleton in H2 as ->.
    apply list_elem_of_lookup in H1 as [i Hi].
    rewrite last_lookup in Hl.
    pose proof (lookup_lt_Some _ _ _ Hi).
    pose proof (ascending_lookup_le _ _ _ _ _ Hs Hi Hl ltac:(lia)).
    unfold earlier. lia.
  - apply ascending_StronglySorted. assumption.
  - repeat constructor.
Qed.

Lemma ascending_cons (l : list Keyframe) (k kf : Keyframe) :
  ascending l = true -> l !! 0%nat = Some kf -> Keyframe.t k < Keyframe.t kf ->
  ascending (k :: l) = true.
Proof.
  intros Hs Hf Hlt. simpl. rewrite Hs, andb_true_r.
  destruct l as [|k' l']; [reflexivity|]. simpl in Hf. injection Hf as ->.
  apply Z.ltb_lt. assumption.
Qed.

Lemma ascending_overwrite (l : list Keyframe) (c : nat) (k kc : Keyframe) :
  ascending l = true -> l !! c = Some kc -> Keyframe.t kc = Keyframe.t k ->
  ascending (<[c := k]> l) = true.
Proof.
  intros Hs Hc Ht. pose proof (lookup_lt_Some _ _ _ Hc) as Hlt.
  rewrite insert_take_drop by assumption.
  rewrite <- (take_drop_middle l c kc Hc) in Hs.
  apply ascending_StronglySorted in Hs. apply ascending_StronglySorted.
  apply StronglySorted_app in Hs as (H12 & H1 & H2).
  apply StronglySorted_cons in H2 as (Hall & H2).
  apply StronglySorted_app_2; [|assumption|].
  - intros x1 x2 Hx1 Hx2. apply elem_of_cons in Hx2 as [->|Hx2].
    + specialize (H12 x1 kc Hx1 ltac:(left)). unfold earlier in *. lia.
    + apply H12; [assumption|]. right. assumption.
  - apply StronglySorted_cons. split; [|assumption].
    eapply Forall_impl; [exact Hall|]. intros x. unfold earlier. lia.
Qed.

Lemma ascending_insert (l : list Keyframe) (k : Keyframe) (lo : Z) :
  ascending l = true -> -1 <= lo ->
  below l (Keyframe.t k) (lo + 1) -> above l (Keyframe.t k) lo ->
  ascending (qlist_insert l (lo + 1) k) = true.
Proof.
  intros Hs Hlo Hbelow Habove. unfold qlist_insert.
  set (h := Z.to_nat (lo + 1)).
  rewrite <- (take_drop h l) in Hs.
  apply ascending_StronglySorted in Hs. apply ascending_StronglySorted.
  apply StronglySorted_app in Hs as (H12 & H1 & H2).
  assert (Hdrop : forall x, x ∈ drop h l -> earlier k x).
  { intros x Hx. apply list_elem_of_lookup in Hx as [i Hi].
    rewrite lookup_drop in Hi. apply (Habove _ _ Hi). lia. }
  apply StronglySorted_app_2; [|assumption|].
  - intros x1 x2 Hx1 Hx2.
    assert (earlier x1 k).
    { apply elem_of_take in Hx1 as (i & Hi & Hlt). apply (Hbelow _ _ Hi). lia. }
    apply elem_of_cons in Hx2 as [->|Hx2]; [assumption|].
    apply H12; assumption.
  - apply StronglySorted_cons. split; [|assumption].
    apply Forall_forall. assumption.
Qed.

(** One call of [addKeyframe] on a sorted animation: it returns, the result
    is sorted, and the list grows by at most one keyframe. *)
Lemma addKeyframe_ascending (a : Animation) (k : Keyframe) :
  ascending (_keyframes a) = true ->
  size (_keyframes a) <= 2 ^ 30 ->
  exists a', addKeyframe a k = Ok a' /\
             ascending (_keyframes a') = true /\
             size (_keyframes a') <= size (_keyframes a) + 1.
Proof.
  intros Hs Hsize. unfold addKeyframe.
  destruct (size (_keyframes a) =? 0) eqn:H0.
  { apply Z.eqb_eq in H0. unfold size in H0.
    destruct (_keyframes a) as [|? ?] eqn:E; [|simpl in H0; lia].
    eexists. split; [reflexivity|]. simpl. split; [reflexivity|]. unfold size; simpl; lia. }
  apply Z.eqb_neq in H0.
  assert (Hne : 1 <= size (_keyframes a)) by (unfold size in *; lia).
  destruct (nonempty_ends _ Hne) as (kf & kl & Hf & Hl).
  rewrite (startTime_lookup _ _ Hf), (endTime_lookup _ _ Hl).
  rewrite Z.gtb_ltb.
  destruct (Keyframe.t kl <? Keyframe.t k) eqn:H1.
  { apply Z.ltb_lt in H1. eexists. split; [reflexivity|]. simpl. split.
    - eapply ascending_snoc; eauto. rewrite last_lookup. assumption.
    - unfold size. rewrite length_app. simpl. lia. }
  destruct (Keyframe.t k <? Keyframe.t kf) eqn:H2.
  { apply Z.ltb_lt in H2. eexists. split; [reflexivity|]. simpl. split.
    - eapply ascending_cons; eauto.
    - unfold size. simpl. lia. }
  destruct (findKeyframeIndices_spec (_keyframes a) (Keyframe.t k) Hs Hsize)
    as (r & -> & Hr).
  simpl. destruct Hr as [c kc Hc Hkc | lo Hlo Hbelow Habove].
  - rewrite Z.eqb_refl. unfold set_at.
    pose proof (lookup_lt_Some _ _ _ Hc).
    replace (0 <=? Z.of_nat c) with true by (symmetry; apply Z.leb_le; lia).
    replace (Z.of_nat c <? Z.of_nat (length (_keyframes a))) with true
      by (symmetry; apply Z.ltb_lt; lia).
    simpl. eexists. split; [reflexivity|]. simpl. rewrite Nat2Z.id. split.
    + eapply ascending_overwrite; eauto.
    + unfold size. rewrite length_insert. lia.
  - replace (lo =? lo + 1) with false by (symmetry; apply Z.eqb_neq; lia).
    eexists. split; [reflexivity|]. simpl. split.
    + apply ascending_insert; [assumption|lia|assumption..].
    + unfold size, qlist_insert. rewrite length_app. simpl.
      rewrite length_take, length_drop. lia.
Qed.

(** Adding a keyframe at the time of the keyframe with index [i] overwrites
    that keyframe. *)
Lemma addKeyframe_overwrites (a : Animation) (k k0 : Keyframe) (i : nat) :
  ascending (_keyframes a) = true ->
  size (_keyframes a) <= 2 ^ 30 ->
  _keyframes a !! i = Some k0 -> Keyframe.t k0 = Keyframe.t k ->
  addKeyframe a k = Ok (mkAnimation (<[i := k]> (_keyframes a))).
Proof.
  intros Hs Hsize Hi Ht. unfold addKeyframe.
  pose proof (lookup_lt_Some _ _ _ Hi) as Hlt.
  assert (Hne : 1 <= size (_keyframes a)) by (unfold size; lia).
  replace (size (_keyframes a) =? 0) with false by (symmetry; apply Z.eqb_neq; lia).
  destruct (nonempty_ends _ Hne) as (kf & kl & Hf & Hl).
  rewrite (startTime_lookup _ _ Hf), (endTime_lookup _ _ Hl).
  pose proof (ascending_lookup_le _ _ _ _ _ Hs Hf Hi ltac:(lia)).
  pose proof (ascending_lookup_le _ _ _ _ _ Hs Hi Hl ltac:(lia)).
  rewrite Z.gtb_ltb.
  replace (Keyframe.t kl <? Keyframe.t k) with false by (symmetry; apply Z.ltb_ge; lia).
  replace (Keyframe.t k <? Keyframe.t kf) with false by (symmetry; apply Z.ltb_ge; lia).
  destruct (findKeyframeIndices_spec (_keyframes a) (Keyframe.t k) Hs Hsize)
    as (r & -> & Hr).
  simpl. destruct Hr as [c kc Hc Hkc | lo Hlo Hbelow Habove].
  - assert (c = i) as -> by (eapply ascending_lookup_inj; eauto; lia).
    rewrite Z.eqb_refl. unfold set_at.
    replace (0 <=? Z.of_nat i) with true by (symmetry; apply Z.leb_le; lia).
    replace (Z.of_nat i <? Z.of_nat (length (_keyframes a))) with true
      by (symmetry; apply Z.ltb_lt; lia).
    simpl. rewrite Nat2Z.id. reflexivity.
  - exfalso. destruct (Z_lt_le_dec (Z.of_nat i) (lo + 1)) as [Hcmp|Hcmp].
    + pose proof (Hbelow _ _ Hi Hcmp). lia.
    + pose proof (Habove _ _ Hi ltac:(lia)). lia.
Qed.

(** C7: starting from an animation whose keyframes are sorted by strictly
    ascending time, every sequence of [addKeyframe] calls returns and leaves
    the keyframes sorted by strictly ascending time, hence with one keyframe
    per time stamp; and adding a keyframe whose time stamp is already that of
    the keyframe at index [i] overwrites this keyframe and leaves the length
    unchanged.  (The list stays within the 2^30 keyframes that the [int]
    indices of the binary search can address.) *)
Theorem addKeyframe_keeps_sorted (a : Animation) (ks : list Keyframe) :
  ascending (_keyframes a) = true ->
  size (_keyframes a) + size ks <= 2 ^ 30 ->
  (exists a', addKeyframes a ks = Ok a' /\
              ascending (_keyframes a') = true /\
              NoDup (Keyframe.t <$> _keyframes a'))
  /\ (forall (i : nat) (k0 k : Keyframe),
        _keyframes a !! i = Some k0 -> Keyframe.t k0 = Keyframe.t k ->
        addKeyframe a k = Ok (mkAnimation (<[i := k]> (_keyframes a)))
        /\ length (<[i := k]> (_keyframes a)) = length (_keyframes a)).
Proof.
  intros Hs Hsize. split.
  - revert a Hs Hsize. induction ks as [|k ks IH]; intros a Hs Hsize; simpl.
    + exists a. split; [reflexivity|]. split; [assumption|].
      apply ascending_NoDup. assumption.
    + assert (Hks : size (k :: ks) = size ks + 1) by (unfold size; simpl; lia).
      assert (0 <= size ks) by (unfold size; lia).
      destruct (addKeyframe_ascending a k Hs ltac:(lia)) as (a1 & -> & Hs1 & Hsz1).
      simpl. apply IH; [assumption|lia].
  - intros i k0 k Hi Ht. split; [|apply length_insert].
    assert (0 <= size ks) by (unfold size; lia).
    eapply addKeyframe_overwrites; eauto. lia.
Qed.

Lemma interpolate_sorted_witness :
  interpolate slerp_stub sorted_animation 7 =
    Ok (Transformation_interpolate slerp_stub (translate 1 0 0) (translate 7 7 7)
          (Float32.sub Float32.one
             (Float32.div (Float32.of_Z (10 - 7)) (Float32.of_Z (10 - 5))))).
Proof.
  destruct (interpolate_sorted slerp_stub sorted_animation 7 eq_refl)
    as (_ & _ & _ & H & _).
  - vm_compute. split; discriminate.
  - apply (H 1%nat (Keyframe.mk 5 (translate 1 0 0)) (Keyframe.mk 10 (translate 7 7 7))
             eq_refl eq_refl).
    + simpl. lia.
    + vm_compute. reflexivity.
Defined.

(** C6 as stated fails for a sorted animation whose keyframes are more than
    2^63 microseconds apart: at time 0, strictly between the keyframes at
    -6e18 and 6e18, the difference [t_hi - t_lo] overflows [long long], the
    blend factor is not [1 - (t_hi - t) / (t_hi - t_lo)] (one half) but about
    1.93, and the result, about 2.93 in x, lies beyond both keyframes (1 and
    2 in x). *)
Lemma interpolate_overflow_counterexample :
  ascending (_keyframes far_animation) = true
  /\ _keyframes far_animation !! 0%nat
     = Some (Keyframe.mk (-6000000000000000000) (translate 1 0 0))
  /\ _keyframes far_animation !! 1%nat
     = Some (Keyframe.mk 6000000000000000000 (translate 2 0 0))
  /\ interpolate slerp_stub far_animation 0
     <> Ok (Transformation_interpolate slerp_stub (translate 1 0 0) (translate 2 0 0)
             (Float32.sub Float32.one
                (Float32.div
                   (Float32.of_Z (6000000000000000000 - 0))
                   (Float32.of_Z (6000000000000000000 - -6000000000000000000)))))
  /\ exists tr,
       interpolate slerp_stub far_animation 0 = Ok tr
       /\ SFltb (Float32.of_Z 2) (QVector3D.x (translation tr)) = true.
Proof.
  split; [reflexivity|]. split; [reflexivity|]. split; [reflexivity|].
  split; [vm_compute; discriminate|].
  eexists. split; [vm_compute; reflexivity|]. vm_compute. reflexivity.
Qed.

Lemma addKeyframe_keeps_sorted_witness :
  exists a',
    addKeyframes sorted_animation
      [Keyframe.mk 7 (translate 1 1 1); Keyframe.mk 5 (translate 3 3 3);
       Keyframe.mk 30 (translate 4 4 4); Keyframe.mk (-3) (translate 5 5 5)] = Ok a'
    /\ ascending (_keyframes a') = true
    /\ NoDup (Keyframe.t <$> _keyframes a').
Proof.
  destruct (addKeyframe_keeps_sorted sorted_animation
              [Keyframe.mk 7 (translate 1 1 1); Keyframe.mk 5 (translate 3 3 3);
               Keyframe.mk 30 (translate 4 4 4); Keyframe.mk (-3) (translate 5 5 5)])
    as [H _].
  - reflexivity.
  - vm_compute. discriminate.
  - exact H.
Defined.

(** ** Steps of the simulator *)

Lemma bind_when_exit {B : Type} (c : bool) (msg : string) (k : unit -> M B) (s : Simulator) :
  bind (when c (exit msg)) k s = if c then (Fail (Exit msg), s) else k tt s.
Proof. destruct c; reflexivity. Qed.

Lemma bind_Ok {A B : Type} (m : M A) (f : A -> M B) (s s' : Simulator) (b : B) :
  bind m f s = (Ok b, s') ->
  exists a s1, m s = (Ok a, s1) /\ f a s1 = (Ok b, s').
Proof.
  unfold bind. destruct (m s) as [[a|e] s1]; [|discriminate].
  intros H. eauto.
Qed.

Lemma odd_false_rem (w : Z) : Z.odd w = false -> (Z.rem w 2 =? 1) = false.
Proof. intros H. rewrite Zrem_odd, H. reflexivity. Qed.


(** ** Result accessors *)

Lemma getTex_guard (k : OutputKind) (s : Simulator) (i : Z) :
  enabled k s && haveValidOutput s (indexOf k i) = false -> getTex k s i = Ok 0.
Proof.
  destruct k; simpl; intros H;
    unfold getShadowMapCubeTex, getReflectiveShadowMapCubeArrayTex, getDepthTex,
      getRGBTex, getSRGBTex, getPMDTex, getPMDCoordinatesTex, getEyeSpacePositionsTex,
      getCustomSpacePositionsTex, getEyeSpaceNormalsTex, getCustomSpaceNormalsTex,
      getDepthAndRangeTex, getIndicesTex, getForwardFlow3DTex, getForwardFlow2DTex,
      getBackwardFlow3DTex, getBackwardFlow2DTex;
    first [ rewrite H; reflexivity | rewrite andb_comm in H; rewrite H; reflexivity ].
Qed.

Lemma haveValidOutput_true (s : Simulator) (i : Z) :
  haveValidOutput s i = true <->
  _recreateOutput s = false /\ _haveLastFrameTimestamp s = true /\ -1 <= i < subFrames s.
Proof.
  unfold haveValidOutput.
  rewrite !andb_true_iff, negb_true_iff, Z.geb_leb, Z.leb_le, Z.ltb_lt. tauto.
Qed.

Lemma recreateTimestamps_recreateOutput (s : Simulator) :
  _recreateOutput (recreateTimestampsIfNecessary s) = _recreateOutput s.
Proof. unfold recreateTimestampsIfNecessary. destruct (_recreateTimestamps s); reflexivity. Qed.

(** Without a [simulate] call the output stays marked for recreation. *)
Lemma run_without_simulate (link : Linker) (slerp : Slerp) (cs : list Call)
    (s s' : Simulator) :
  (forall t, CallSimulate t ∉ cs) ->
  _recreateOutput s = true ->
  run link slerp cs s = (Ok tt, s') ->
  _recreateOutput s' = true.
Proof.
  revert s. induction cs as [|c cs IH]; intros s Hno Hs Hrun.
  - injection Hrun as <-. assumption.
  - unfold run in Hrun. simpl in Hrun. apply bind_Ok in Hrun as (x & s1 & Hc & Hrun).
    apply (IH s1); [intros t Ht; apply (Hno t); right; assumption| |exact Hrun].
    destruct c as [a|sc|ct|pr|pl|o| | | |ft]; simpl in Hc.
    1-6: unfold modify in Hc; injection Hc as _ <-; simpl; first [reflexivity|assumption].
    1-2: unfold bind, liftS, startTimestamp, endTimestamp in Hc; simpl in Hc;
         injection Hc as _ <-; rewrite recreateTimestamps_recreateOutput; assumption.
    + unfold bind, liftS, nextFrameTimestamp, startTimestamp in Hc.
      destruct (_haveLastFrameTimestamp (recreateTimestampsIfNecessary s)); simpl in Hc;
        injection Hc as _ <-; rewrite ?recreateTimestamps_recreateOutput; assumption.
    + exfalso. apply (Hno ft). left.
Qed.

(** C4: every texture accessor returns the handle 0, without failing, when
    its output kind is not enabled, or the output configuration is dirty, or
    no frame is recorded as simulated, or the sub-frame index is outside of
    [-1, subFrames()-1]; in particular as long as no frame has been simulated;
    and a handle other than 0 is only returned when all of these conditions
    hold. *)
Theorem output_accessors_gated :
  (forall (k : OutputKind) (s : Simulator) (i : Z),
     enabled k s = false \/ _recreateOutput s = true
     \/ _haveLastFrameTimestamp s = false
     \/ indexOf k i < -1 \/ subFrames s <= indexOf k i ->
     getTex k s i = Ok 0)
  /\ (forall (link : Linker) (slerp : Slerp) (cs : list Call)
             (start0 end0 : Z) (have0 : bool) (last0 : Z) (s : Simulator)
             (k : OutputKind) (i : Z),
        (forall t, CallSimulate t ∉ cs) ->
        run link slerp cs (Simulator_new start0 end0 have0 last0) = (Ok tt, s) ->
        getTex k s i = Ok 0)
  /\ (forall (k : OutputKind) (s : Simulator) (i v : Z),
        getTex k s i = Ok v -> v <> 0 ->
        enabled k s = true /\ _recreateOutput s = false
        /\ _haveLastFrameTimestamp s = true
        /\ -1 <= indexOf k i < subFrames s).
Proof.
  assert (Hgate : forall k s i,
            enabled k s = false \/ _recreateOutput s = true
            \/ _haveLastFrameTimestamp s = false
            \/ indexOf k i < -1 \/ subFrames s <= indexOf k i ->
            getTex k s i = Ok 0).
  { intros k s i H. apply getTex_guard.
    destruct (enabled k s) eqn:He; [|reflexivity]. simpl.
    destruct (haveValidOutput s (indexOf k i)) eqn:Hv; [|reflexivity].
    apply haveValidOutput_true in Hv as (? & ? & ?).
    destruct H as [H|[H|[H|[H|H]]]]; try congruence; lia. }
  split; [exact Hgate|]. split.
  - intros link slerp cs start0 end0 have0 last0 s k i Hno Hrun.
    apply Hgate. right; left.
    eapply run_without_simulate; [exact Hno| |exact Hrun]. reflexivity.
  - intros k s i v Hget Hv.
    destruct (enabled k s) eqn:He.
    2:{ rewrite (Hgate k s i) in Hget by (left; assumption). congruence. }
    destruct (haveValidOutput s (indexOf k i)) eqn:Hvalid.
    + apply haveValidOutput_true in Hvalid. tauto.
    + rewrite getTex_guard in Hget by (rewrite He, Hvalid; reflexivity). congruence.
Qed.

Lemma output_accessors_gated_witness :
  getTex KRGB (setOutput Output_default (Simulator_new 0 0 true 0)) 0 = Ok 0
  /\ getTex KPMD (snd (run link_all slerp_stub [CallSetScene oneLightScene; CallSimulate 0]
                         (Simulator_new 0 0 true 0))) 0 = Ok 0.
Proof.
  destruct output_accessors_gated as (Hgate & _ & _). split.
  - apply Hgate. right; left. reflexivity.
  - apply Hgate. left. reflexivity.
Defined.

(** ** What [simulate] leaves unchanged *)

(** A relation between the simulator before and after a step that the
    assignments of [simulate] to its caches, textures, OpenGL state and
    frame bookkeeping respect. *)
Class Untouched (R : relation Simulator) : Prop := {
  untouched_preorder :: PreOrder R;
  untouched_timestamps v s : R s (set_timestamps v s);
  untouched_cameraTransformations v s : R s (set_cameraTransformations v s);
  untouched_lightTransformations v s : R s (set_lightTransformations v s);
  untouched_objectTransformations v s : R s (set_objectTransformations v s);
  untouched_textures v s : R s (set_textures v s);
  untouched_recreateOutput v s : R s (set_recreateOutput v s);
  untouched_haveLastFrameTimestamp v s : R s (set_haveLastFrameTimestamp v s);
  untouched_lastFrameTimestamp v s : R s (set_lastFrameTimestamp v s);
  untouched_depthBufferPingPong v s : R s (set_depthBufferPingPong v s);
  untouched_gl_next v s : R s (set_gl_next v s);
  untouched_gl_passes v s : R s (set_gl_passes v s)
}.

#[local] Instance sameBounds_untouched : Untouched sameBounds.
Proof.
  split; [split|..].
  - intros s. unfold sameBounds. repeat split.
  - intros s1 s2 s3. unfold sameBounds. intuition congruence.
  - intros v s. unfold sameBounds. simpl. repeat split.
  - intros v s. unfold sameBounds. simpl. repeat split.
  - intros v s. unfold sameBounds. simpl. repeat split.
  - intros v s. unfold sameBounds. simpl. repeat split.
  - intros v s. unfold sameBounds. simpl. repeat split.
  - intros v s. unfold sameBounds. simpl. repeat split.
  - intros v s. unfold sameBounds. simpl. repeat split.
  - intros v s. unfold sameBounds. simpl. repeat split.
  - intros v s. unfold sameBounds. simpl. repeat split.
  - intros v s. unfold sameBounds. simpl. repeat split.
  - intros v s. unfold sameBounds. simpl. repeat split.
Qed.

#[local] Instance sameShaders_untouched : Untouched sameShaders.
Proof.
  split; [split|..].
  - intros s. unfold sameShaders. repeat split.
  - intros s1 s2 s3. unfold sameShaders. intuition congruence.
  - intros v s. unfold sameShaders. simpl. repeat split.
  - intros v s. unfold sameShaders. simpl. repeat split.
  - intros v s. unfold sameShaders. simpl. repeat split.
  - intros v s. unfold sameShaders. simpl. repeat split.
  - intros v s. unfold sameShaders. simpl. repeat split.
  - intros v s. unfold sameShaders. simpl. repeat split.
  - intros v s. unfold sameShaders. simpl. repeat split.
  - intros v s. unfold sameShaders. simpl. repeat split.
  - intros v s. unfold sameShaders. simpl. repeat split.
  - intros v s. unfold sameShaders. simpl. repeat split.
  - intros v s. unfold sameShaders. simpl. repeat split.
Qed.

Section Keeps.

Context (R : relation Simulator) `{!Untouched R}.

Lemma keeps_ret {A} (a : A) : keeps R (ret a).
Proof. intros s. reflexivity. Qed.

Lemma keeps_get : keeps R get.
Proof. intros s. reflexivity. Qed.

Lemma keeps_lift {A} (x : outcome A) : keeps R (lift x).
Proof. intros s. reflexivity. Qed.

Lemma keeps_exit (msg : string) : keeps R (exit msg).
Proof. intros s. reflexivity. Qed.

Lemma keeps_modify (f : Simulator -> Simulator) :
  (forall s, R s (f s)) -> keeps R (modify f).
Proof. intros H s. apply H. Qed.

Lemma keeps_bind {A B} (m : M A) (f : A -> M B) :
  keeps R m -> (forall a, keeps R (f a)) -> keeps R (bind m f).
Proof.
  intros Hm Hf s. unfold bind. specialize (Hm s).
  destruct (m s) as [[a|e] s1]; simpl in *; [|assumption].
  etransitivity; [exact Hm|apply Hf].
Qed.

Lemma keeps_when (c : bool) (m : M unit) : keeps R m -> keeps R (when c m).
Proof. intros H. destruct c; [exact H|apply keeps_ret]. Qed.

Lemma keeps_for_each {A} (l : list A) (body : A -> M unit) :
  (forall i, keeps R (body i)) -> keeps R (for_each l body).
Proof.
  intros H. induction l as [|i l IH]; simpl; [apply keeps_ret|].
  apply keeps_bind; [apply H|intros _; exact IH].
Qed.

Lemma keeps_map_each {A B} (l : list A) (body : A -> M B) :
  (forall i, keeps R (body i)) -> keeps R (map_each l body).
Proof.
  intros H. induction l as [|i l IH]; simpl; [apply keeps_ret|].
  apply keeps_bind; [apply H|intros x].
  apply keeps_bind; [exact IH|intros xs; apply keeps_ret].
Qed.

Lemma keeps_fold_each {A B} (l : list A) (b : B) (body : B -> A -> M B) :
  (forall b i, keeps R (body b i)) -> keeps R (fold_each l b body).
Proof.
  intros H. revert b. induction l as [|i l IH]; intros b; simpl; [apply keeps_ret|].
  apply keeps_bind; [apply H|intros b'; apply IH].
Qed.

Lemma keeps_glGenTextures (n : Z) : keeps R (glGenTextures n).
Proof. intros s. apply untouched_gl_next. Qed.

Lemma keeps_glGenTexture : keeps R glGenTexture.
Proof. intros s. apply untouched_gl_next. Qed.

Lemma keeps_pass (p : RenderPass) : keeps R (pass p).
Proof. intros s. apply untouched_gl_passes. Qed.

Lemma keeps_linkOrExit (link : Linker) (prg : Program) (msg : string) :
  keeps R (linkOrExit link prg msg).
Proof. unfold linkOrExit. destruct (link prg); [apply keeps_ret|apply keeps_exit]. Qed.

End Keeps.

(** Decomposition of a step into the steps above. *)
Ltac keeps_apply lem :=
  apply lem;
  try match goal with |- Untouched _ => exact _ end.

Ltac keeps_step :=
  lazymatch goal with
  | |- keeps _ (ret _) => keeps_apply @keeps_ret
  | |- keeps _ get => keeps_apply @keeps_get
  | |- keeps _ (lift _) => keeps_apply @keeps_lift
  | |- keeps _ (exit _) => keeps_apply @keeps_exit
  | |- keeps _ (glGenTextures _) => keeps_apply @keeps_glGenTextures
  | |- keeps _ glGenTexture => keeps_apply @keeps_glGenTexture
  | |- keeps _ (pass _) => keeps_apply @keeps_pass
  | |- keeps _ (linkOrExit _ _ _) => keeps_apply @keeps_linkOrExit
  | |- keeps _ (modify _) =>
      keeps_apply @keeps_modify; intros ?;
      first [ apply untouched_timestamps | apply untouched_cameraTransformations
            | apply untouched_lightTransformations | apply untouched_objectTransformations
            | apply untouched_textures | apply untouched_recreateOutput
            | apply untouched_haveLastFrameTimestamp | apply untouched_lastFrameTimestamp
            | apply untouched_depthBufferPingPong | apply untouched_gl_passes
            | unfold sameBounds; simpl; repeat split ]
  | |- keeps _ (bind _ _) => keeps_apply @keeps_bind; [|intros ?]
  | |- keeps _ (when _ _) => keeps_apply @keeps_when
  | |- keeps _ (for_each _ _) => keeps_apply @keeps_for_each; intros ?
  | |- keeps _ (map_each _ _) => keeps_apply @keeps_map_each; intros ?
  | |- keeps _ (fold_each _ _ _) => keeps_apply @keeps_fold_each; intros ? ?
  | |- keeps _ (if ?c then _ else _) => destruct c
  | |- keeps _ (match ?x with (_, _) => _ end) => destruct x
  end.

Ltac keeps_tac := repeat keeps_step.

Section KeepsSimulate.

Context (R : relation Simulator) `{!Untouched R}.

Lemma keeps_recreateOutputIfNecessary : keeps R recreateOutputIfNecessary.
Proof. unfold recreateOutputIfNecessary, genPerLight, genIf. keeps_tac. Qed.

Lemma keeps_simulateTimestamps (slerp : Slerp) (t : Z) :
  keeps R (simulateTimestamps slerp t).
Proof. unfold simulateTimestamps. keeps_tac. Qed.

Lemma keeps_simulateSubFrameLight (slerp : Slerp) (subFrame d : Z) :
  keeps R (simulateSubFrameLight slerp subFrame d).
Proof. unfold simulateSubFrameLight. keeps_tac. Qed.

Lemma keeps_simulateSubFrameFlow (t subFrame : Z) :
  keeps R (simulateSubFrameFlow t subFrame).
Proof. unfold simulateSubFrameFlow. keeps_tac. Qed.

Lemma keeps_simulateFinalFrames (t : Z) : keeps R (simulateFinalFrames t).
Proof. unfold simulateFinalFrames. keeps_tac. Qed.

(** [simulate] after [recreateShadersIfNecessary]. *)
Lemma keeps_simulate_rest (slerp : Slerp) (t : Z) (rest : M unit) :
  keeps R rest ->
  keeps R
    (bind recreateOutputIfNecessary (fun _ =>
     bind (simulateTimestamps slerp t) (fun _ =>
     bind get (fun s0 =>
     bind (for_each (indices_below (subFrames s0)) (fun subFrame =>
             bind get (fun s =>
             bind (lift (if temporalSamples (_pipeline s) =? 0 then Fail DivisionByZero
                         else Ok (int64 (Z.quot (subFrameDuration s)
                                                (temporalSamples (_pipeline s))))))
                  (fun tempSampleDuration =>
             bind (when (rgb (_output s) || pmd (_output s))
                     (simulateSubFrameLight slerp subFrame tempSampleDuration)) (fun _ =>
             bind (when (geometryOutput (_output s))
                     (bind (lift (at_ (_depthBuffers (_textures s)) subFrame)) (fun _ =>
                      bind (pass (PassGeometry subFrame)) (fun _ =>
                      when (postprocLensDistortion (_pipeline s))
                        (pass (PassPostprocLensDistortion subFrame)))))) (fun _ =>
             when (flowOutput (_output s))
               (simulateSubFrameFlow t subFrame))))))) (fun _ =>
     bind (when (subFrames s0 >? 1) (simulateFinalFrames t)) (fun _ => rest)))))).
Proof.
  intros Hrest.
  keeps_apply @keeps_bind; [apply keeps_recreateOutputIfNecessary|intros _].
  keeps_apply @keeps_bind; [apply keeps_simulateTimestamps|intros _].
  keeps_apply @keeps_bind; [keeps_apply @keeps_get|intros s0].
  keeps_apply @keeps_bind.
  { keeps_apply @keeps_for_each. intros subFrame.
    keeps_apply @keeps_bind; [keeps_apply @keeps_get|intros s].
    keeps_apply @keeps_bind; [keeps_apply @keeps_lift|intros d].
    keeps_apply @keeps_bind;
      [keeps_apply @keeps_when; apply keeps_simulateSubFrameLight|intros _].
    keeps_apply @keeps_bind; [keeps_apply @keeps_when; keeps_tac|intros _].
    keeps_apply @keeps_when. apply keeps_simulateSubFrameFlow. }
  intros _.
  keeps_apply @keeps_bind;
    [keeps_apply @keeps_when; apply keeps_simulateFinalFrames|intros _].
  exact Hrest.
Qed.

Lemma keeps_simulate_end (t : Z) :
  keeps R (bind (modify (set_lastFrameTimestamp t))
                (fun _ => modify (set_haveLastFrameTimestamp true))).
Proof. keeps_tac. Qed.

End KeepsSimulate.

Lemma keeps_recreateShadersIfNecessary (link : Linker) :
  keeps sameBounds (recreateShadersIfNecessary link).
Proof. unfold recreateShadersIfNecessary. keeps_tac. Qed.

Lemma keeps_simulate (link : Linker) (slerp : Slerp) (t : Z) :
  keeps sameBounds (simulate link slerp t).
Proof.
  unfold simulate.
  keeps_apply @keeps_bind; [apply keeps_recreateShadersIfNecessary|intros _].
  keeps_apply @keeps_simulate_rest. keeps_apply @keeps_simulate_end.
Qed.

(** ** Fatal configurations *)

(** With the shader programs marked for recreation, a fatal configuration
    ends [recreateShadersIfNecessary] in [std::exit] at the first check that
    applies, with the simulator as it was. *)
Lemma recreateShaders_fatal (link : Linker) (s : Simulator) :
  _recreateShaders s = true -> fatalConfiguration s ->
  exists msg, recreateShadersIfNecessary link s = (Fail (Exit msg), s).
Proof.
  intros Hdirty Hbad.
  unfold recreateShadersIfNecessary. unfold bind at 1. unfold get.
  rewrite Hdirty. change (negb true) with false. cbv iota.
  do 8 (rewrite bind_when_exit;
        match goal with
        | |- context [if ?c then (Fail _, _) else _] => destruct c eqn:?
        end; [eexists; reflexivity|]).
  (* no check fires: the configuration is not one of the fatal ones *)
  exfalso.
  repeat match goal with
         | H : (_ || _) = false |- _ => apply orb_false_iff in H as [? ?]
         | H : negb _ = false |- _ => apply negb_false_iff in H
         end.
  destruct Hbad as [Hb|[Hb|[Hb|[Hb|[Hb|[[Hb Hb']|[Hb Hb']]]]]]].
  - assert ((size (lights (_scene s)) <? 1) = true) by (apply Z.ltb_lt; lia). congruence.
  - apply Hb. apply Z.eqb_eq. assumption.
  - apply Hb. apply Z.eqb_eq. assumption.
  - apply odd_false_rem in Hb. congruence.
  - apply odd_false_rem in Hb. congruence.
  - rewrite Hb, Hb' in *. discriminate.
  - rewrite Hb in *.
    destruct Hb' as [Hi|[Hi|[Hi|[Hi|Hi]]]]; rewrite Hi in *;
      simpl in *; rewrite ?orb_true_r in *; discriminate.
Qed.

Lemma sameShaders_fatal (s s' : Simulator) :
  sameShaders s s' -> fatalConfiguration s' -> fatalConfiguration s.
Proof.
  unfold sameShaders, fatalConfiguration. intros (Hs & Hp & Ho & _).
  rewrite Hs, Hp, Ho. tauto.
Qed.

Lemma sameShaders_checked (s s' : Simulator) :
  sameShaders s s' -> shadersChecked s -> shadersChecked s'.
Proof.
  intros Hsame H Hflag Hbad. apply H.
  - destruct Hsame as (_ & _ & _ & Hf). congruence.
  - eapply sameShaders_fatal; eassumption.
Qed.

Lemma recreateTimestamps_sameShaders (s : Simulator) :
  sameShaders s (recreateTimestampsIfNecessary s).
Proof.
  unfold recreateTimestampsIfNecessary, sameShaders.
  destruct (_recreateTimestamps s); simpl; repeat split.
Qed.

(** A successful [recreateShadersIfNecessary] leaves a checked
    configuration. *)
Lemma recreateShaders_checked (link : Linker) (s s1 : Simulator) :
  shadersChecked s ->
  recreateShadersIfNecessary link s = (Ok tt, s1) ->
  shadersChecked s1.
Proof.
  intros Hinv Hok.
  pose proof (keeps_recreateShadersIfNecessary link s) as Hk. rewrite Hok in Hk.
  destruct Hk as (_ & Hs & _ & _ & Hp & Ho & _). simpl in Hs, Hp, Ho.
  destruct (_recreateShaders s) eqn:Hflag.
  - intros _ Hbad.
    assert (Hbad' : fatalConfiguration s).
    { unfold fatalConfiguration in *. rewrite <- Hs, <- Hp, <- Ho. exact Hbad. }
    destruct (recreateShaders_fatal link s Hflag Hbad') as [msg Hfail].
    rewrite Hfail in Hok. discriminate Hok.
  - unfold recreateShadersIfNecessary, bind, get in Hok. rewrite Hflag in Hok.
    simpl in Hok. injection Hok as <-. exact Hinv.
Qed.

Lemma call_shadersChecked (link : Linker) (slerp : Slerp) (c : Call) (s s' : Simulator) :
  shadersChecked s -> call link slerp c s = (Ok tt, s') -> shadersChecked s'.
Proof.
  intros H Hc. destruct c as [a|sc|ct|pr|pl|o| | | |ft]; simpl in Hc.
  1-6: unfold modify in Hc; injection Hc as <-.
  1,3,4: eapply sameShaders_checked; [|exact H]; unfold sameShaders; simpl; repeat split.
  1-3: intros Hf; discriminate Hf.
  1-2: unfold bind, liftS, startTimestamp, endTimestamp in Hc; simpl in Hc;
       injection Hc as <-;
       eapply sameShaders_checked; [apply recreateTimestamps_sameShaders|exact H].
  - unfold bind, liftS, nextFrameTimestamp, startTimestamp in Hc.
    destruct (_haveLastFrameTimestamp (recreateTimestampsIfNecessary s)); simpl in Hc;
      injection Hc as <-.
    + eapply sameShaders_checked; [apply recreateTimestamps_sameShaders|exact H].
    + eapply sameShaders_checked; [apply recreateTimestamps_sameShaders|].
      eapply sameShaders_checked; [apply recreateTimestamps_sameShaders|exact H].
  - unfold simulate in Hc. apply bind_Ok in Hc as ([] & s1 & Hshaders & Hrest).
    pose proof (recreateShaders_checked link s s1 H Hshaders) as H1.
    eapply sameShaders_checked; [|exact H1].
    pose proof (keeps_simulate_rest sameShaders slerp ft _
                  (keeps_simulate_end sameShaders ft) s1) as Hk.
    rewrite Hrest in Hk. exact Hk.
Qed.

Lemma reachable_shadersChecked (link : Linker) (slerp : Slerp) (s : Simulator) :
  reachable link slerp s -> shadersChecked s.
Proof.
  intros (cs & start0 & end0 & have0 & last0 & Hrun).
  assert (Hinit : shadersChecked (Simulator_new start0 end0 have0 last0))
    by (intros Hf; discriminate Hf).
  revert Hrun Hinit. generalize (Simulator_new start0 end0 have0 last0) as s0.
  induction cs as [|c cs IH]; intros s0 Hrun Hinit.
  - injection Hrun as <-. exact Hinit.
  - unfold run in Hrun. simpl in Hrun. apply bind_Ok in Hrun as ([] & s1 & Hc & Hrun).
    apply (IH s1 Hrun). eapply call_shadersChecked; eassumption.
Qed.

(** C3: when [simulate] resolves a changed configuration - the shader
    programs are marked for recreation, as they are in every fatal
    configuration that a program can reach - each of these conditions ends
    the process with [std::exit] before anything else happens, so before any
    render pass: no light; a number of light (object) animations that differs
    from the number of lights (objects); a spatial sample count that is not
    odd in width or in height; pre-process and post-process lens distortion
    both enabled; post-process lens distortion with the indices output or one
    of the flow outputs. *)
Theorem simulate_fatal_configuration (link : Linker) (slerp : Slerp)
    (s : Simulator) (frameTimestamp : Z) :
  _recreateShaders s = true \/ reachable link slerp s ->
  size (lights (_scene s)) = 0
  \/ size (lights (_scene s)) <> size (lightAnimations (_scene s))
  \/ size (objects (_scene s)) <> size (objectAnimations (_scene s))
  \/ Z.odd (width (spatialSamples (_pipeline s))) = false
  \/ Z.odd (height (spatialSamples (_pipeline s))) = false
  \/ (preprocLensDistortion (_pipeline s) = true
      /\ postprocLensDistortion (_pipeline s) = true)
  \/ (postprocLensDistortion (_pipeline s) = true
      /\ (indices (_output s) = true
          \/ forwardFlow3D (_output s) = true \/ forwardFlow2D (_output s) = true
          \/ backwardFlow3D (_output s) = true \/ backwardFlow2D (_output s) = true)) ->
  exists msg,
    simulate link slerp frameTimestamp s = (Fail (Exit msg), s)
    /\ gl_passes (snd (simulate link slerp frameTimestamp s)) = gl_passes s.
Proof.
  intros Hchanged Hbad. change (fatalConfiguration s) in Hbad.
  assert (Hdirty : _recreateShaders s = true).
  { destruct Hchanged as [H|H]; [exact H|].
    apply reachable_shadersChecked in H.
    destruct (_recreateShaders s) eqn:Hflag; [reflexivity|].
    exfalso. apply H; [exact Hflag|exact Hbad]. }
  destruct (recreateShaders_fatal link s Hdirty Hbad) as [msg Hfail].
  assert (H : simulate link slerp frameTimestamp s = (Fail (Exit msg), s)).
  { unfold simulate. unfold bind at 1. rewrite Hfail. reflexivity. }
  exists msg. rewrite H. split; reflexivity.
Qed.

Lemma simulate_fatal_configuration_witness :
  exists msg,
    simulate link_all slerp_stub 0 evenSamplesSimulator
      = (Fail (Exit msg), evenSamplesSimulator)
    /\ gl_passes (snd (simulate link_all slerp_stub 0 evenSamplesSimulator))
       = gl_passes evenSamplesSimulator.
Proof.
  apply (simulate_fatal_configuration link_all slerp_stub evenSamplesSimulator 0).
  - left. reflexivity.
  - right; right; right; left. reflexivity.
Defined.

(** ** Timestamp bounds *)

Lemma is_minimum_snoc (v x : Z) (xs : list Z) :
  is_minimum v xs -> is_minimum (if x <? v then x else v) (xs ++ [x]).
Proof.
  intros [Hin Hle]. destruct (x <? v) eqn:Hlt.
  - apply Z.ltb_lt in Hlt. split.
    + apply elem_of_app. right. apply list_elem_of_singleton. reflexivity.
    + intros y Hy. apply elem_of_app in Hy as [Hy|Hy].
      * specialize (Hle y Hy). lia.
      * apply list_elem_of_singleton in Hy. lia.
  - apply Z.ltb_ge in Hlt. split.
    + apply elem_of_app. left. assumption.
    + intros y Hy. apply elem_of_app in Hy as [Hy|Hy].
      * apply Hle. assumption.
      * apply list_elem_of_singleton in Hy. lia.
Qed.

Lemma is_maximum_snoc (v x : Z) (xs : list Z) :
  is_maximum v xs -> is_maximum (if x >? v then x else v) (xs ++ [x]).
Proof.
  intros [Hin Hle]. rewrite Z.gtb_ltb. destruct (v <? x) eqn:Hlt.
  - apply Z.ltb_lt in Hlt. split.
    + apply elem_of_app. right. apply list_elem_of_singleton. reflexivity.
    + intros y Hy. apply elem_of_app in Hy as [Hy|Hy].
      * specialize (Hle y Hy). lia.
      * apply list_elem_of_singleton in Hy. lia.
  - apply Z.ltb_ge in Hlt. split.
    + apply elem_of_app. left. assumption.
    + intros y Hy. apply elem_of_app in Hy as [Hy|Hy].
      * apply Hle. assumption.
      * apply list_elem_of_singleton in Hy. lia.
Qed.

(** The loops of [recreateTimestampsIfNecessary] extend the minimum of the
    start times and the maximum of the end times. *)
Lemma extendTimestamps_fold (l pre : list Animation) (bounds : Z * Z) :
  is_minimum (fst bounds) (startTime <$> pre) ->
  is_maximum (snd bounds) (endTime <$> pre) ->
  is_minimum (fst (fold_left extendTimestamps l bounds)) (startTime <$> (pre ++ l))
  /\ is_maximum (snd (fold_left extendTimestamps l bounds)) (endTime <$> (pre ++ l)).
Proof.
  revert pre bounds. induction l as [|a l IH]; intros pre bounds Hmin Hmax; simpl.
  - rewrite app_nil_r. split; assumption.
  - replace (pre ++ a :: l) with ((pre ++ [a]) ++ l) by (rewrite <- app_assoc; reflexivity).
    apply IH; unfold extendTimestamps; simpl; rewrite fmap_app; simpl.
    + apply is_minimum_snoc. assumption.
    + apply is_maximum_snoc. assumption.
Qed.

Lemma animation_bounds (cam : Animation) (ls os : list Animation) :
  let bounds :=
    fold_left extendTimestamps os
      (fold_left extendTimestamps ls (startTime cam, endTime cam)) in
  is_minimum (fst bounds) (startTime <$> cam :: ls ++ os)
  /\ is_maximum (snd bounds) (endTime <$> cam :: ls ++ os).
Proof.
  simpl.
  destruct (extendTimestamps_fold ls [cam] (startTime cam, endTime cam)) as [H1 H2].
  { split; [left|]. intros x Hx. apply list_elem_of_singleton in Hx. simpl. lia. }
  { split; [left|]. intros x Hx. apply list_elem_of_singleton in Hx. simpl. lia. }
  pose proof (extendTimestamps_fold os ([cam] ++ ls) _ H1 H2) as H.
  rewrite <- app_assoc in H. exact H.
Qed.

Lemma recreateTimestamps_boundsCached (s : Simulator) :
  boundsCached s -> 
  (_startTimestamp (recreateTimestampsIfNecessary s),
   _endTimestamp (recreateTimestampsIfNecessary s)) =
    fold_left extendTimestamps (objectAnimations (_scene s))
      (fold_left extendTimestamps (lightAnimations (_scene s))
         (startTime (_cameraAnimation s), endTime (_cameraAnimation s))).
Proof.
  unfold boundsCached, recreateTimestampsIfNecessary. intros H.
  destruct (_recreateTimestamps s); simpl.
  - symmetry. apply surjective_pairing.
  - apply H. reflexivity.
Qed.

Lemma boundsCached_correct (s : Simulator) : boundsCached s -> boundsCorrect s.
Proof.
  intros H. apply recreateTimestamps_boundsCached in H.
  unfold boundsCorrect, startTimestamp, endTimestamp, allAnimations. simpl.
  pose proof (animation_bounds (_cameraAnimation s) (lightAnimations (_scene s))
                (objectAnimations (_scene s))) as Hb. simpl in Hb.
  rewrite <- H in Hb. simpl in Hb. exact Hb.
Qed.

Lemma recreateTimestamps_establishes (s : Simulator) :
  boundsCached s -> boundsCached (recreateTimestampsIfNecessary s).
Proof.
  intros H. pose proof (recreateTimestamps_boundsCached s H) as Hb.
  intros _. rewrite Hb.
  unfold recreateTimestampsIfNecessary. destruct (_recreateTimestamps s); reflexivity.
Qed.

Lemma sameBounds_boundsCached (s s' : Simulator) :
  sameBounds s s' -> boundsCached s -> boundsCached s'.
Proof.
  unfold sameBounds, boundsCached.
  intros (Hc & Hs & _ & _ & _ & _ & Hf & Hst & Hen) H Hflag.
  rewrite Hc, Hs, Hst, Hen. apply H. congruence.
Qed.

Lemma call_boundsCached (link : Linker) (slerp : Slerp) (c : Call) (s : Simulator) :
  boundsCached s -> boundsCached (snd (call link slerp c s)).
Proof.
  intros H. destruct c as [a|sc|ct|pr|pl|o| | | |ft]; simpl.
  1-3: intros Hf; discriminate Hf.
  1-3: exact H.
  1-2: apply recreateTimestamps_establishes; exact H.
  - unfold bind, liftS, nextFrameTimestamp, startTimestamp.
    pose proof (recreateTimestamps_establishes s H) as H1.
    destruct (_haveLastFrameTimestamp (recreateTimestampsIfNecessary s)); simpl.
    + exact H1.
    + apply recreateTimestamps_establishes. exact H1.
  - eapply sameBounds_boundsCached; [apply keeps_simulate|exact H].
Qed.

Lemma run_boundsCached (link : Linker) (slerp : Slerp) (cs : list Call) (s : Simulator) :
  boundsCached s -> boundsCached (snd (run link slerp cs s)).
Proof.
  revert s. induction cs as [|c cs IH]; intros s H; [exact H|].
  unfold run. simpl. unfold bind.
  pose proof (call_boundsCached link slerp c s H) as Hc.
  destruct (call link slerp c s) as [[[]|e] s1]; simpl in *; [|exact Hc].
  apply IH. exact Hc.
Qed.

Lemma reachable_boundsCached (link : Linker) (slerp : Slerp) (s : Simulator) :
  reachable link slerp s -> boundsCached s.
Proof.
  intros (cs & start0 & end0 & have0 & last0 & Hrun).
  pose proof (run_boundsCached link slerp cs (Simulator_new start0 end0 have0 last0)) as H.
  rewrite Hrun in H. apply H. intros Hf. discriminate Hf.
Qed.

(** C8: in every configuration - every simulator that a program can reach -
    [startTimestamp()] is the minimum of the start times of the camera
    animation and of all light and object animations, and [endTimestamp()]
    the maximum of their end times; [setCameraAnimation], [setScene] and
    [setChipTiming] mark the bounds dirty, so that the next query is about
    the animations that are then current. *)
Theorem timestamp_bounds (link : Linker) (slerp : Slerp) :
  (forall s, reachable link slerp s -> boundsCorrect s)
  /\ (forall s animation,
        boundsCorrect (setCameraAnimation animation s)
        /\ allAnimations (setCameraAnimation animation s)
           = animation :: lightAnimations (_scene s) ++ objectAnimations (_scene s))
  /\ (forall s scene,
        boundsCorrect (setScene scene s)
        /\ allAnimations (setScene scene s)
           = _cameraAnimation s :: lightAnimations scene ++ objectAnimations scene)
  /\ (forall s chipTiming,
        boundsCorrect (setChipTiming chipTiming s)
        /\ allAnimations (setChipTiming chipTiming s) = allAnimations s).
Proof.
  split; [|split; [|split]].
  - intros s Hs. apply boundsCached_correct. eapply reachable_boundsCached. exact Hs.
  - intros s a. split; [|reflexivity].
    apply boundsCached_correct. intros Hf. discriminate Hf.
  - intros s sc. split; [|reflexivity].
    apply boundsCached_correct. intros Hf. discriminate Hf.
  - intros s ct. split; [|reflexivity].
    apply boundsCached_correct. intros Hf. discriminate Hf.
Qed.

Lemma timestamp_bounds_witness :
  boundsCorrect
    (snd (run link_all slerp_stub
            [CallSetScene twoLightScene; CallSetCameraAnimation sorted_animation;
             CallStartTimestamp; CallSimulate 0; CallSetOutput pmdOutput]
            (Simulator_new 7 8 true 9))).
Proof.
  destruct (timestamp_bounds link_all slerp_stub) as (H & _).
  apply H.
  exists [CallSetScene twoLightScene; CallSetCameraAnimation sorted_animation;
          CallStartTimestamp; CallSimulate 0; CallSetOutput pmdOutput], 7, 8, true, 9.
  vm_compute. reflexivity.
Defined.

(** ** The frame loop *)

Lemma recreateTimestamps_idempotent (s : Simulator) :
  recreateTimestampsIfNecessary (recreateTimestampsIfNecessary s)
  = recreateTimestampsIfNecessary s.
Proof.
  unfold recreateTimestampsIfNecessary at 2 3.
  destruct (_recreateTimestamps s) eqn:H; simpl.
  - reflexivity.
  - unfold recreateTimestampsIfNecessary. rewrite H. reflexivity.
Qed.

Lemma startTime_no_keyframes (a : Animation) : _keyframes a = [] -> startTime a = 0.
Proof. unfold startTime. intros ->. reflexivity. Qed.

Lemma endTime_no_keyframes (a : Animation) : _keyframes a = [] -> endTime a = 0.
Proof. unfold endTime. intros ->. reflexivity. Qed.

(** C10: an animation without keyframes starts and ends at time 0; hence a
    simulator whose camera, light and object animations all have no keyframes
    has [startTimestamp() == endTimestamp() == 0], and the frame loop of the
    example programs, which runs while the frame time stamp is before
    [endTimestamp()], simulates no frame - from [startTimestamp()] as from
    any other time stamp that is not negative. *)
Theorem static_scene_no_frames (link : Linker) (slerp : Slerp) :
  startTime (mkAnimation []) = 0 /\ endTime (mkAnimation []) = 0
  /\ (forall s,
        reachable link slerp s ->
        (forall a, a ∈ allAnimations s -> _keyframes a = []) ->
        fst (startTimestamp s) = 0 /\ fst (endTimestamp s) = 0
        /\ (forall fuel, fst (frameLoop fuel link slerp s) = Ok [])
        /\ (forall fuel t frames,
              0 <= t -> fst (frameLoopFrom fuel link slerp t frames s) = Ok frames)).
Proof.
  split; [reflexivity|]. split; [reflexivity|].
  intros s Hreach Hstatic.
  pose proof (boundsCached_correct s (reachable_boundsCached link slerp s Hreach))
    as [[Hmin _] [Hmax _]].
  assert (Hstart : fst (startTimestamp s) = 0).
  { apply list_elem_of_fmap in Hmin as (a & -> & Ha).
    apply startTime_no_keyframes, Hstatic, Ha. }
  assert (Hend : fst (endTimestamp s) = 0).
  { apply list_elem_of_fmap in Hmax as (a & -> & Ha).
    apply endTime_no_keyframes, Hstatic, Ha. }
  split; [exact Hstart|]. split; [exact Hend|].
  unfold startTimestamp in Hstart. unfold endTimestamp in Hend. simpl in Hstart, Hend.
  assert (Hfrom : forall fuel t frames s1,
            _endTimestamp (recreateTimestampsIfNecessary s1) = 0 -> 0 <= t ->
            fst (frameLoopFrom fuel link slerp t frames s1) = Ok frames).
  { intros fuel t frames s1 He Ht.
    destruct fuel; simpl; unfold bind, liftS, endTimestamp; rewrite He;
      replace (t <? 0) with false by (symmetry; apply Z.ltb_ge; exact Ht);
      reflexivity. }
  split.
  - intros fuel. unfold frameLoop, bind, liftS, startTimestamp.
    apply Hfrom; [|rewrite Hstart; lia].
    rewrite recreateTimestamps_idempotent. exact Hend.
  - intros fuel t frames Ht. apply Hfrom; assumption.
Qed.

Lemma static_scene_no_frames_witness :
  fst (frameLoop 10 link_all slerp_stub
         (snd (run link_all slerp_stub [CallSetScene oneLightScene]
                 (Simulator_new 7 8 true 9)))) = Ok [].
Proof.
  destruct (static_scene_no_frames link_all slerp_stub) as (_ & _ & H).
  refine (proj1 (proj2 (proj2 (H _ _ _))) 10%nat).
  - exists [CallSetScene oneLightScene], 7, 8, true, 9. reflexivity.
  - intros a Ha. vm_compute in Ha.
    apply elem_of_cons in Ha as [->|Ha]; [reflexivity|].
    apply list_elem_of_singleton in Ha as ->. reflexivity.
Defined.

(** ** [nextFrameTimestamp] *)

Lemma simulate_Ok (link : Linker) (slerp : Slerp) (t : Z) (s s' : Simulator) :
  simulate link slerp t s = (Ok tt, s') ->
  _haveLastFrameTimestamp s' = true /\ _lastFrameTimestamp s' = t /\ sameBounds s s'.
Proof.
  intros H. pose proof (keeps_simulate link slerp t s) as Hk. rewrite H in Hk.
  unfold simulate in H.
  repeat (apply bind_Ok in H as (? & ? & ? & H)).
  match goal with
  | Hlast : modify (set_lastFrameTimestamp t) _ = (Ok _, _) |- _ =>
      unfold modify in Hlast, H; injection Hlast as _ <-; injection H as <-
  end.
  split; [reflexivity|]. split; [reflexivity|exact Hk].
Qed.

(** After a successful [simulate(t)], [nextFrameTimestamp()] returns
    [t + frameDuration()] if the timestamp bounds were resolved before the
    call of [simulate]; if they were still marked dirty, it resolves them,
    forgets the simulated frame and returns [startTimestamp()]. *)
Lemma nextFrameTimestamp_after_simulate (link : Linker) (slerp : Slerp)
    (t : Z) (s s' : Simulator) :
  simulate link slerp t s = (Ok tt, s') ->
  fst (nextFrameTimestamp s') =
    if _recreateTimestamps s then fst (startTimestamp s')
    else int64 (t + frameDuration s').
Proof.
  intros H. apply simulate_Ok in H as (Hhave & Hlast & Hsame).
  destruct Hsame as (_ & _ & _ & _ & _ & _ & Hflag & _).
  unfold nextFrameTimestamp, startTimestamp.
  destruct (_recreateTimestamps s) eqn:Hs.
  - unfold recreateTimestampsIfNecessary at 1. rewrite Hflag. simpl.
    rewrite recreateTimestamps_idempotent. reflexivity.
  - unfold recreateTimestampsIfNecessary. rewrite Hflag. simpl.
    rewrite Hhave, Hlast. reflexivity.
Qed.

(** C1 on the call sequence of the example programs that simulate a single
    frame (camsim-helloworld.cpp): a new simulator, [setScene], [simulate(0)].
    The frame duration is 33333 microseconds, but the next
    [nextFrameTimestamp()] returns [startTimestamp()], 0, and not
    [0 + frameDuration()]: [simulate] does not resolve the timestamp bounds,
    so [nextFrameTimestamp] finds them dirty and resets
    [_haveLastFrameTimestamp]. *)
Theorem nextFrameTimestamp_after_first_simulate
    (start0 end0 : Z) (have0 : bool) (last0 : Z) :
  let r := run link_all slerp_stub [CallSetScene oneLightScene; CallSimulate 0]
               (Simulator_new start0 end0 have0 last0) in
  fst r = Ok tt
  /\ _haveLastFrameTimestamp (snd r) = true
  /\ _lastFrameTimestamp (snd r) = 0
  /\ frameDuration (snd r) = 33333
  /\ fst (startTimestamp (snd r)) = 0
  /\ fst (nextFrameTimestamp (snd r)) = 0.
Proof. vm_compute. repeat split. Qed.

(** C2 on a scene with two lights and two objects and PMD output (four
    sub-frames): after [simulate(0)], [getLightTransformation(0, 1)] does not
    return the transformation of light 0 at the time of sub-frame 1, but
    element [1] of [_lightTransformations[0]], the transformation of light 1
    at sub-frame 0; an index pair whose transposition is not in range reads
    outside of the vectors.  [getObjectTransformation] does the same. *)
Theorem getLightTransformation_transposed :
  let r := run link_all slerp_stub
               [CallSetScene twoByTwoScene; CallSetOutput pmdOutput; CallSimulate 0]
               (Simulator_new 0 0 false 0) in
  fst r = Ok tt
  /\ getTimestamp (snd r) 1 = Ok 33333
  /\ (let? a := at_ (lightAnimations (_scene (snd r))) 0 in interpolate slerp_stub a 33333)
     = Ok (translate 1 0 0)
  /\ getLightTransformation (snd r) 0 1 = Ok (translate 2 0 0)
  /\ getLightTransformation (snd r) 0 2 = Fail OutOfRange
  /\ (let? a := at_ (objectAnimations (_scene (snd r))) 0 in interpolate slerp_stub a 33333)
     = Ok (translate 3 0 0)
  /\ getObjectTransformation (snd r) 0 1 = Ok (translate 4 0 0)
  /\ getObjectTransformation (snd r) 0 (-1) = Ok (translate 3 0 0)
  /\ getObjectTransformation (snd r) 1 (-1) = Ok (translate 3 0 0).
Proof. vm_compute. repeat split. Qed.

(** ** Frame duration *)














(* ===================================================================== *)
(** * Further properties of [Animation] *)
(* ===================================================================== *)

(** ** The binary search on lists that need not be sorted *)

Lemma pow2_succ (n : nat) : 2 ^ Z.of_nat (S n) = 2 * 2 ^ Z.of_nat n.
Proof. rewrite Nat2Z.inj_succ, Z.pow_succ_r by lia. reflexivity. Qed.

Lemma pow2_pos (n : nat) : 0 < 2 ^ Z.of_nat n.
Proof. apply Z.pow_pos_nonneg; lia. Qed.

Lemma findKeyframeIndices_loop_any (l : list Keyframe) (t : Z) :
  size l <= 2 ^ 30 ->
  forall (fuel : nat) (a b : Z),
    0 <= a -> b < size l -> a <= b + 1 ->
    b - a + 1 < 2 ^ Z.of_nat fuel ->
    exists r, findKeyframeIndices_loop fuel l t a b = Ok r /\ probed l t a b r.
Proof.
  intros Hsize. change (2 ^ 30) with 1073741824 in Hsize.
  induction fuel as [|fuel IH]; intros a b Ha Hb Hab Hfuel.
  - change (2 ^ Z.of_nat 0) with 1 in Hfuel.
    assert (b = a - 1) as -> by lia. simpl.
    replace (a - 1 >=? a) with false by (symmetry; rewrite Z.geb_leb; apply Z.leb_gt; lia).
    eexists; split; [reflexivity|]. right. simpl. repeat split; try lia; left; lia.
  - rewrite pow2_succ in Hfuel. pose proof (pow2_pos fuel) as Hpos.
    set (p := 2 ^ Z.of_nat fuel) in *.
    simpl. rewrite Z.geb_leb. destruct (a <=? b) eqn:Hle.
    + apply Z.leb_le in Hle.
      rewrite int32_id by (unfold is_int32; change (2 ^ 31) with 2147483648; lia).
      pose proof (quot2_mid a b Ha Hle) as Hc.
      assert (Hc2 : 2 * Z.quot (a + b) 2 <= a + b <= 2 * Z.quot (a + b) 2 + 1).
      { rewrite Z.quot_div_nonneg by lia.
        pose proof (Z.div_mod (a + b) 2 ltac:(lia)).
        pose proof (Z.mod_pos_bound (a + b) 2 ltac:(lia)). lia. }
      set (c := Z.quot (a + b) 2) in *.
      destruct (at_in_range l c) as [kc Hkc]; [lia|].
      rewrite Hkc. simpl. apply at_Ok in Hkc as [Hc0 Hkc].
      destruct (Keyframe.t kc <? t) eqn:Hlt.
      * apply Z.ltb_lt in Hlt.
        rewrite int32_id by (unfold is_int32; change (2 ^ 31) with 2147483648; lia).
        destruct (IH (c + 1) b) as (r & Hr & Hp); try lia.
        exists r. split; [assumption|].
        destruct Hp as [(He & Hin & Hk)|(Hn & Hin & Hlo & Hhi)].
        -- left. repeat split; try assumption; lia.
        -- right. repeat split; try assumption; try lia.
           destruct Hlo as [Hlo|Hlo]; [|right; assumption].
           right. exists kc. replace (fst r) with c by lia. split; assumption.
      * apply Z.ltb_ge in Hlt. rewrite Z.gtb_ltb.
        destruct (t <? Keyframe.t kc) eqn:Hgt.
        -- apply Z.ltb_lt in Hgt.
           rewrite int32_id by (unfold is_int32; change (2 ^ 31) with 2147483648; lia).
           destruct (IH a (c - 1)) as (r & Hr & Hp); try lia.
           exists r. split; [assumption|].
           destruct Hp as [(He & Hin & Hk)|(Hn & Hin & Hlo & Hhi)].
           ++ left. repeat split; try assumption; lia.
           ++ right. repeat split; try assumption; try lia.
              destruct Hhi as [Hhi|Hhi]; [|right; assumption].
              right. exists kc. replace (snd r) with c by lia. split; assumption.
        -- apply Z.ltb_ge in Hgt.
           eexists; split; [reflexivity|]. left. simpl.
           repeat split; try lia. exists kc. split; [assumption|lia].
    + apply Z.leb_gt in Hle. assert (b = a - 1) as -> by lia.
      eexists; split; [reflexivity|]. right. simpl. repeat split; try lia; left; lia.
Qed.

(** More fuel than the search needs does not change its result. *)
Lemma findKeyframeIndices_loop_fuel (l : list Keyframe) (t : Z) (fuel fuel' : nat)
    (a b : Z) (r : Z * Z) :
  findKeyframeIndices_loop fuel l t a b = Ok r -> (fuel <= fuel')%nat ->
  findKeyframeIndices_loop fuel' l t a b = Ok r.
Proof.
  revert fuel' a b. induction fuel as [|fuel IH]; intros fuel' a b H Hle.
  - simpl in H. destruct fuel'; simpl; destruct (b >=? a); try discriminate; assumption.
  - destruct fuel' as [|fuel']; [lia|]. simpl in *.
    destruct (b >=? a); [|assumption].
    destruct (at_ l (Z.quot (int32 (a + b)) 2)) as [kc|e]; simpl in *; [|discriminate].
    destruct (Keyframe.t kc <? t); [apply IH; [assumption|lia]|].
    destruct (Keyframe.t kc >? t); [apply IH; [assumption|lia]|assumption].
Qed.

Lemma size_lt_pow2 {A} (l : list A) : size l < 2 ^ Z.of_nat (S (length l)).
Proof.
  unfold size. induction l as [|x l IH]; [reflexivity|].
  rewrite pow2_succ. change (length (x :: l)) with (S (length l)).
  pose proof (pow2_pos (S (length l))). lia.
Qed.

Lemma findKeyframeIndices_any (l : list Keyframe) (t : Z) :
  size l <= 2 ^ 30 ->
  exists r, findKeyframeIndices l t = Ok r /\ probed l t 0 (size l - 1) r.
Proof.
  intros Hsize. unfold findKeyframeIndices.
  assert (Hsz : 0 <= size l) by (unfold size; lia).
  rewrite int32_id
    by (unfold is_int32; change (2 ^ 31) with 2147483648;
        change (2 ^ 30) with 1073741824 in Hsize; lia).
  apply findKeyframeIndices_loop_any; try assumption; try lia.
  pose proof (size_lt_pow2 l). lia.
Qed.

(** X1: on every keyframe list of at most 2^30 entries, sorted or not, the
    binary search of [findKeyframeIndices] returns without reading outside
    of the list; it returns either the index of a keyframe at time [t]
    (twice), or two neighbouring indices [lo], [lo + 1] in [-1 .. size] such
    that the keyframe at [lo] (if [lo] is not -1) is earlier than [t] and the
    keyframe at [lo + 1] (if [lo + 1] is not [size]) is later than [t].  The
    loop runs at most [fuel] times for any [fuel] with [size < 2 ^ fuel]:
    the search probes at most [log2 size + 1] keyframes. *)
Theorem findKeyframeIndices_any_list (l : list Keyframe) (t : Z) :
  size l <= 2 ^ 30 ->
  (exists lo hi,
     findKeyframeIndices l t = Ok (lo, hi)
     /\ ((lo = hi /\ 0 <= lo < size l
          /\ exists k, l !! Z.to_nat lo = Some k /\ Keyframe.t k = t)
         \/ (hi = lo + 1 /\ -1 <= lo < size l
             /\ (lo = -1 \/ exists k, l !! Z.to_nat lo = Some k /\ Keyframe.t k < t)
             /\ (hi = size l
                 \/ exists k, l !! Z.to_nat hi = Some k /\ t < Keyframe.t k))))
  /\ (forall fuel : nat,
        size l < 2 ^ Z.of_nat fuel ->
        findKeyframeIndices_loop fuel l t 0 (int32 (size l - 1))
        = findKeyframeIndices l t).
Proof.
  intros Hsize. split.
  - destruct (findKeyframeIndices_any l t Hsize) as ([lo hi] & Hr & Hp).
    exists lo, hi. split; [assumption|]. unfold probed in Hp. simpl in Hp.
    destruct Hp as [(He & Hin & Hk)|(Hn & Hin & Hlo & Hhi)].
    + left. repeat split; try assumption; lia.
    + right. repeat split; try lia.
      * destruct Hlo as [Hlo|Hlo]; [left; lia|right; assumption].
      * destruct Hhi as [Hhi|Hhi]; [left; lia|right; assumption].
  - intros fuel Hfuel.
    assert (Hsz : 0 <= size l) by (unfold size; lia).
    assert (Hi : int32 (size l - 1) = size l - 1).
    { apply int32_id. unfold is_int32. change (2 ^ 31) with 2147483648.
      change (2 ^ 30) with 1073741824 in Hsize. lia. }
    rewrite Hi.
    destruct (findKeyframeIndices_loop_any l t Hsize fuel 0 (size l - 1))
      as (r & Hr & _); try lia.
    rewrite Hr. symmetry. unfold findKeyframeIndices. rewrite Hi.
    destruct (le_ge_dec fuel (S (length l))) as [Hle|Hge].
    + eapply findKeyframeIndices_loop_fuel; eassumption.
    + destruct (findKeyframeIndices_loop_any l t Hsize (S (length l)) 0 (size l - 1))
        as (r' & Hr' & _); try lia.
      { pose proof (size_lt_pow2 l). lia. }
      rewrite Hr'. f_equal.
      pose proof (findKeyframeIndices_loop_fuel _ _ _ _ _ _ _ Hr' Hge) as Heq.
      rewrite Hr in Heq. injection Heq as ->. reflexivity.
Qed.

Lemma findKeyframeIndices_any_list_witness :
  findKeyframeIndices_loop 3 (_keyframes unsorted_animation) 3 0
    (int32 (size (_keyframes unsorted_animation) - 1))
  = findKeyframeIndices (_keyframes unsorted_animation) 3.
Proof.
  destruct (findKeyframeIndices_any_list (_keyframes unsorted_animation) 3) as [_ H].
  - vm_compute. discriminate.
  - apply (H 3%nat). reflexivity.
Defined.

(** ** [interpolate] and [addKeyframe] on lists that need not be sorted *)

Lemma last_nonempty_lookup {A} (l : list A) (k : A) :
  l !! pred (length l) = Some k -> last l = Some k.
Proof. rewrite last_lookup. tauto. Qed.

Lemma interpolate_any (slerp : Slerp) (a : Animation) (t : Z) :
  size (_keyframes a) <= 2 ^ 30 ->
  (_keyframes a = [] /\ interpolate slerp a t = Ok Transformation_default)
  \/ (exists kf, _keyframes a !! 0%nat = Some kf /\ t <= Keyframe.t kf
                 /\ interpolate slerp a t = Ok (Keyframe.transformation kf))
  \/ (exists kl, last (_keyframes a) = Some kl /\ Keyframe.t kl <= t
                 /\ interpolate slerp a t = Ok (Keyframe.transformation kl))
  \/ (exists (i : nat) k, _keyframes a !! i = Some k /\ Keyframe.t k = t
                 /\ interpolate slerp a t = Ok (Keyframe.transformation k))
  \/ (exists (i : nat) lo hi,
        _keyframes a !! i = Some lo /\ _keyframes a !! S i = Some hi
        /\ Keyframe.t lo < t < Keyframe.t hi
        /\ interpolate slerp a t =
             Ok (Transformation_interpolate slerp (Keyframe.transformation lo)
                   (Keyframe.transformation hi)
                   (blend_alpha (Keyframe.t lo) (Keyframe.t hi) t))).
Proof.
  intros Hsize. unfold interpolate.
  destruct (size (_keyframes a) =? 0) eqn:H0.
  { left. apply Z.eqb_eq in H0. unfold size in H0.
    destruct (_keyframes a); [split; reflexivity|simpl in H0; lia]. }
  right. apply Z.eqb_neq in H0.
  assert (Hne : 1 <= size (_keyframes a)) by (unfold size in *; lia).
  destruct (nonempty_ends _ Hne) as (kf & kl & Hf & Hl).
  rewrite (startTime_lookup _ _ Hf), (endTime_lookup _ _ Hl).
  destruct (t <=? Keyframe.t kf) eqn:H1.
  { apply Z.leb_le in H1. left. exists kf. split; [assumption|]. split; [assumption|].
    rewrite (front_lookup _ _ Hf). reflexivity. }
  apply Z.leb_gt in H1. rewrite Z.geb_leb. right.
  destruct (Keyframe.t kl <=? t) eqn:H2.
  { apply Z.leb_le in H2. left. exists kl.
    split; [apply last_nonempty_lookup; assumption|]. split; [assumption|].
    rewrite (back_lookup _ _ Hl). reflexivity. }
  apply Z.leb_gt in H2. right.
  destruct (findKeyframeIndices_any (_keyframes a) t Hsize) as ([lo hi] & -> & Hp).
  unfold probed in Hp. simpl in Hp. simpl.
  destruct Hp as [(<- & Hin & k & Hk & Ht)|(-> & Hin & Hlo & Hhi)].
  - left. exists (Z.to_nat lo), k. split; [assumption|]. split; [assumption|].
    rewrite Z.eqb_refl.
    replace (at_ (_keyframes a) lo) with (Ok k : outcome Keyframe)
      by (symmetry; apply at_Ok; split; [lia|assumption]).
    reflexivity.
  - right.
    assert (Hlo0 : 0 <= lo).
    { destruct (Z_lt_le_dec lo 0) as [Hneg|]; [|assumption]. exfalso.
      assert (lo = -1) as -> by lia.
      destruct Hhi as [Hhi|(k & Hk & Ht)]; [lia|].
      change (Z.to_nat (-1 + 1)) with 0%nat in Hk. rewrite Hf in Hk.
      injection Hk as <-. lia. }
    destruct Hlo as [Hlo|(klo & Hklo & Htlo)]; [lia|].
    destruct Hhi as [Hhi|(khi & Hkhi & Hthi)].
    { exfalso. replace (Z.to_nat lo) with (pred (length (_keyframes a))) in Hklo
        by (unfold size in *; lia).
      rewrite Hl in Hklo. injection Hklo as <-. lia. }
    replace (Z.to_nat (lo + 1)) with (S (Z.to_nat lo)) in Hkhi by lia.
    exists (Z.to_nat lo), klo, khi.
    split; [assumption|]. split; [assumption|]. split; [lia|].
    replace (lo =? lo + 1) with false by (symmetry; apply Z.eqb_neq; lia).
    replace (at_ (_keyframes a) lo) with (Ok klo : outcome Keyframe)
      by (symmetry; apply at_Ok; split; [lia|assumption]).
    replace (at_ (_keyframes a) (lo + 1)) with (Ok khi : outcome Keyframe)
      by (symmetry; apply at_Ok; split; [lia|];
          replace (Z.to_nat (lo + 1)) with (S (Z.to_nat lo)) by lia; assumption).
    reflexivity.
Qed.

(** X2: [interpolate] returns for every animation of at most 2^30
    keyframes, whether the keyframes are sorted or not, without reading
    outside of the list.  The result is the default transformation (no
    keyframes), the transformation of the first keyframe ([t] at or before
    its time), of the last keyframe ([t] at or after its time) or of a
    keyframe at time [t], or the blend of two neighbouring keyframes of the
    list whose time stamps enclose [t] strictly, with the blend factor that
    [blend_alpha] computes from the two time stamps and [t] in [long long]
    and [float] arithmetic (nothing is said about the size of that
    factor). *)
Theorem interpolate_any_list (slerp : Slerp) (a : Animation) (t : Z) :
  size (_keyframes a) <= 2 ^ 30 ->
  exists tr,
    interpolate slerp a t = Ok tr
    /\ ((_keyframes a = [] /\ tr = Transformation_default)
        \/ (exists kf, front (_keyframes a) = Ok kf /\ t <= Keyframe.t kf
                       /\ tr = Keyframe.transformation kf)
        \/ (exists kl, back (_keyframes a) = Ok kl /\ Keyframe.t kl <= t
                       /\ tr = Keyframe.transformation kl)
        \/ (exists k, k ∈ _keyframes a /\ Keyframe.t k = t
                      /\ tr = Keyframe.transformation k)
        \/ (exists (i : nat) lo hi,
              _keyframes a !! i = Some lo /\ _keyframes a !! S i = Some hi
              /\ Keyframe.t lo < t < Keyframe.t hi
              /\ tr = Transformation_interpolate slerp (Keyframe.transformation lo)
                        (Keyframe.transformation hi)
                        (blend_alpha (Keyframe.t lo) (Keyframe.t hi) t))).
Proof.
  intros Hsize.
  destruct (interpolate_any slerp a t Hsize)
    as [[He ->]|[(kf & Hf & Ht & ->)|[(kl & Hl & Ht & ->)|[(i & k & Hk & Ht & ->)
        |(i & lo & hi & Hlo & Hhi & Ht & ->)]]]];
    eexists; (split; [reflexivity|]).
  - left. split; [assumption|reflexivity].
  - right; left. exists kf. split; [apply front_lookup; assumption|]. split; [assumption|reflexivity].
  - right; right; left. exists kl. split; [|split; [assumption|reflexivity]].
    apply back_lookup. rewrite last_lookup in Hl. assumption.
  - right; right; right; left. exists k.
    split; [eapply list_elem_of_lookup_2; eassumption|]. split; [assumption|reflexivity].
  - right; right; right; right. exists i, lo, hi. repeat split; try assumption; lia.
Qed.

Lemma interpolate_any_list_witness :
  exists tr, interpolate slerp_stub unsorted_animation 3 = Ok tr.
Proof.
  destruct (interpolate_any_list slerp_stub unsorted_animation 3) as (tr & H & _).
  - vm_compute. discriminate.
  - exists tr. exact H.
Defined.

(** The list that [addKeyframe] leaves behind, on any list: the keyframe
    replaces one with the same time stamp, or it is inserted at a position
    between 0 and the size of the list. *)
Lemma addKeyframe_any (a : Animation) (k : Keyframe) :
  size (_keyframes a) <= 2 ^ 30 ->
  exists a',
    addKeyframe a k = Ok a'
    /\ ((exists (i : nat) k0,
           _keyframes a !! i = Some k0 /\ Keyframe.t k0 = Keyframe.t k
           /\ _keyframes a' = <[i := k]> (_keyframes a))
        \/ (exists i : nat,
              (i <= length (_keyframes a))%nat
              /\ _keyframes a' = take i (_keyframes a) ++ k :: drop i (_keyframes a))).
Proof.
  intros Hsize. unfold addKeyframe.
  destruct (size (_keyframes a) =? 0) eqn:H0.
  { eexists. split; [reflexivity|]. right. exists (length (_keyframes a)).
    split; [lia|]. simpl. rewrite firstn_all, drop_all. reflexivity. }
  destruct (Keyframe.t k >? endTime a).
  { eexists. split; [reflexivity|]. right. exists (length (_keyframes a)).
    split; [lia|]. simpl. rewrite firstn_all, drop_all. reflexivity. }
  destruct (Keyframe.t k <? startTime a).
  { eexists. split; [reflexivity|]. right. exists 0%nat.
    split; [lia|]. simpl. rewrite drop_0. reflexivity. }
  destruct (findKeyframeIndices_any (_keyframes a) (Keyframe.t k) Hsize)
    as ([lo hi] & -> & Hp).
  unfold probed in Hp. simpl in Hp. simpl.
  destruct Hp as [(<- & Hin & k0 & Hk0 & Ht)|(-> & Hin & Hlo & Hhi)].
  - rewrite Z.eqb_refl. unfold set_at.
    replace (0 <=? lo) with true by (symmetry; apply Z.leb_le; lia).
    replace (lo <? Z.of_nat (length (_keyframes a))) with true
      by (symmetry; apply Z.ltb_lt; unfold size in *; lia).
    simpl. eexists. split; [reflexivity|]. left.
    exists (Z.to_nat lo), k0. split; [assumption|]. split; [assumption|reflexivity].
  - replace (lo =? lo + 1) with false by (symmetry; apply Z.eqb_neq; lia).
    eexists. split; [reflexivity|]. right. exists (Z.to_nat (lo + 1)).
    split; [unfold size in *; lia|reflexivity].
Qed.

(** X3: [addKeyframe] returns for every animation of at most 2^30
    keyframes, sorted or not.  Afterwards the new keyframe is in the list, no
    keyframe with another time stamp was lost, nothing else was added, and
    the list has its old size or one keyframe more. *)
Theorem addKeyframe_any_list (a : Animation) (k : Keyframe) :
  size (_keyframes a) <= 2 ^ 30 ->
  exists a',
    addKeyframe a k = Ok a'
    /\ k ∈ _keyframes a'
    /\ (forall k', k' ∈ _keyframes a -> Keyframe.t k' <> Keyframe.t k ->
                   k' ∈ _keyframes a')
    /\ (forall k', k' ∈ _keyframes a' -> k' = k \/ k' ∈ _keyframes a)
    /\ size (_keyframes a) <= size (_keyframes a') <= size (_keyframes a) + 1.
Proof.
  intros Hsize.
  destruct (addKeyframe_any a k Hsize)
    as (a' & Ha' & [(i & k0 & Hi & Ht & E)|(i & Hi & E)]);
    exists a'; (split; [assumption|]); rewrite E; unfold size.
  - pose proof (lookup_lt_Some _ _ _ Hi) as Hlt.
    split; [|split; [|split]].
    + eapply list_elem_of_lookup_2. apply list_lookup_insert_eq. assumption.
    + intros k' Hk' Hne. apply list_elem_of_lookup in Hk' as [j Hj].
      apply list_elem_of_lookup. exists j.
      rewrite list_lookup_insert_ne; [assumption|].
      intros ->. rewrite Hi in Hj. injection Hj as ->. congruence.
    + intros k' Hk'. apply list_elem_of_lookup in Hk' as [j Hj].
      destruct (decide (i = j)) as [->|Hne].
      * rewrite list_lookup_insert_eq in Hj by assumption. injection Hj as ->. left. reflexivity.
      * rewrite list_lookup_insert_ne in Hj by assumption.
        right. eapply list_elem_of_lookup_2. eassumption.
    + rewrite length_insert. lia.
  - split; [|split; [|split]].
    + apply elem_of_app. right. left.
    + intros k' Hk' _. rewrite <- (take_drop i (_keyframes a)) in Hk'.
      apply elem_of_app in Hk' as [Hk'|Hk']; apply elem_of_app;
        [left; assumption|right; right; assumption].
    + intros k' Hk'. apply elem_of_app in Hk' as [Hk'|Hk'].
      * right. rewrite <- (take_drop i (_keyframes a)). apply elem_of_app. left. assumption.
      * apply elem_of_cons in Hk' as [->|Hk']; [left; reflexivity|].
        right. rewrite <- (take_drop i (_keyframes a)). apply elem_of_app. right. assumption.
    + rewrite length_app. simpl. rewrite length_take, length_drop. lia.
Qed.

Lemma addKeyframe_any_list_witness :
  exists a',
    addKeyframe unsorted_animation (Keyframe.mk 4 (translate 9 9 9)) = Ok a'
    /\ Keyframe.mk 4 (translate 9 9 9) ∈ _keyframes a'.
Proof.
  destruct (addKeyframe_any_list unsorted_animation (Keyframe.mk 4 (translate 9 9 9)))
    as (a' & H & Hin & _).
  - vm_compute. discriminate.
  - exists a'. split; [exact H|exact Hin].
Defined.

(** ** [addKeyframe] as an insertion into a map from time stamps *)

(** Two sorted keyframe lists with the same keyframes are the same list. *)
Lemma ascending_ext (l1 l2 : list Keyframe) :
  ascending l1 = true -> ascending l2 = true ->
  (forall x, x ∈ l1 <-> x ∈ l2) -> l1 = l2.
Proof.
  intros H1 H2 Hext.
  pose proof (ascending_NoDup _ H1) as N1. pose proof (ascending_NoDup _ H2) as N2.
  apply NoDup_fmap_1 in N1. apply NoDup_fmap_1 in N2.
  apply ascending_StronglySorted in H1. apply ascending_StronglySorted in H2.
  apply (StronglySorted_unique_strong earlier); try assumption.
  - intros x1 x2 _ _. unfold earlier. lia.
  - apply NoDup_Permutation; assumption.
Qed.

(** In a sorted list a time stamp names one keyframe. *)
Lemma ascending_elem_inj (l : list Keyframe) (k k' : Keyframe) :
  ascending l = true -> k ∈ l -> k' ∈ l -> Keyframe.t k = Keyframe.t k' -> k = k'.
Proof.
  intros Hs Hk Hk' Ht.
  apply list_elem_of_lookup in Hk as [i Hi]. apply list_elem_of_lookup in Hk' as [j Hj].
  pose proof (ascending_lookup_inj _ _ _ _ _ Hs Hi Hj Ht) as ->.
  rewrite Hi in Hj. injection Hj as ->. reflexivity.
Qed.

Lemma addKeyframe_sorted (a : Animation) (k : Keyframe) :
  ascending (_keyframes a) = true ->
  size (_keyframes a) <= 2 ^ 30 ->
  exists a',
    addKeyframe a k = Ok a'
    /\ ascending (_keyframes a') = true
    /\ (forall k', k' ∈ _keyframes a'
                   <-> k' = k \/ (k' ∈ _keyframes a /\ Keyframe.t k' <> Keyframe.t k))
    /\ size (_keyframes a') =
         size (_keyframes a) + (if decide (Keyframe.t k ∈ keyframeTimes a) then 0 else 1).
Proof.
  intros Hs Hsize.
  destruct (addKeyframe_ascending a k Hs Hsize) as (a' & Ha' & Hs' & _).
  destruct (addKeyframe_any a k Hsize) as (a'' & Ha'' & Hshape).
  rewrite Ha' in Ha''. injection Ha'' as <-.
  exists a'. split; [assumption|]. split; [assumption|].
  assert (Hin : k ∈ _keyframes a').
  { destruct Hshape as [(i & k0 & Hi & Ht & E)|(i & Hi & E)]; rewrite E.
    - pose proof (lookup_lt_Some _ _ _ Hi).
      eapply list_elem_of_lookup_2. apply list_lookup_insert_eq. assumption.
    - apply elem_of_app. right. left. }
  split.
  - intros k'. split.
    + intros Hk'. destruct (decide (Keyframe.t k' = Keyframe.t k)) as [Ht'|Hne].
      { left. eapply ascending_elem_inj; eauto. }
      right. split; [|assumption].
      * destruct Hshape as [(i & k0 & Hi & Ht & E)|(i & Hi & E)]; rewrite E in Hk'.
        -- apply list_elem_of_lookup in Hk' as [j Hj].
           destruct (decide (i = j)) as [->|Hij].
           ++ pose proof (lookup_lt_Some _ _ _ Hi).
              rewrite list_lookup_insert_eq in Hj by assumption. congruence.
           ++ rewrite list_lookup_insert_ne in Hj by assumption.
              eapply list_elem_of_lookup_2. eassumption.
        -- rewrite <- (take_drop i (_keyframes a)).
           apply elem_of_app in Hk' as [Hk'|Hk']; apply elem_of_app; [left; assumption|].
           apply elem_of_cons in Hk' as [->|Hk']; [congruence|right; assumption].
    + intros [->|[Hk' Hne]]; [assumption|].
      destruct Hshape as [(i & k0 & Hi & Ht & E)|(i & Hi & E)]; rewrite E.
      * apply list_elem_of_lookup in Hk' as [j Hj].
        apply list_elem_of_lookup. exists j.
        rewrite list_lookup_insert_ne; [assumption|].
        intros ->. rewrite Hi in Hj. injection Hj as ->. congruence.
      * rewrite <- (take_drop i (_keyframes a)) in Hk'.
        apply elem_of_app in Hk' as [Hk'|Hk']; apply elem_of_app;
          [left; assumption|right; right; assumption].
  - unfold keyframeTimes.
    destruct Hshape as [(i & k0 & Hi & Ht & E)|(i & Hi & E)]; rewrite E; unfold size.
    + rewrite length_insert. rewrite decide_True; [lia|].
      apply list_elem_of_fmap. exists k0. split; [congruence|].
      eapply list_elem_of_lookup_2. eassumption.
    + rewrite length_app. simpl. rewrite length_take, length_drop.
      rewrite decide_False; [lia|].
      intros Hin'. apply list_elem_of_fmap in Hin' as (k0 & Ht & Hk0).
      pose proof (ascending_NoDup _ Hs') as Hnd. rewrite E in Hnd.
      rewrite fmap_app, fmap_cons in Hnd.
      apply NoDup_app in Hnd as (_ & Hdisj & Hnd).
      apply NoDup_cons in Hnd as [Hnk _].
      rewrite <- (take_drop i (_keyframes a)) in Hk0.
      apply elem_of_app in Hk0 as [Hk0|Hk0].
      * apply (Hdisj (Keyframe.t k0)).
        -- apply list_elem_of_fmap. exists k0. split; [reflexivity|assumption].
        -- rewrite <- Ht. left.
      * apply Hnk. rewrite Ht. apply list_elem_of_fmap. exists k0. split; [reflexivity|assumption].
Qed.

(** X4: on a sorted animation [addKeyframe] behaves like the insertion of
    the pair (time stamp, keyframe) into a map: afterwards the list holds the
    new keyframe and exactly the old keyframes with another time stamp; it
    has one keyframe more if the time stamp is new and its old size if not. *)
Theorem addKeyframe_inserts (a : Animation) (k : Keyframe) :
  ascending (_keyframes a) = true ->
  size (_keyframes a) <= 2 ^ 30 ->
  exists a',
    addKeyframe a k = Ok a'
    /\ (forall k', k' ∈ _keyframes a'
                   <-> k' = k \/ (k' ∈ _keyframes a /\ Keyframe.t k' <> Keyframe.t k))
    /\ (Keyframe.t k ∈ keyframeTimes a -> size (_keyframes a') = size (_keyframes a))
    /\ (Keyframe.t k ∉ keyframeTimes a -> size (_keyframes a') = size (_keyframes a) + 1).
Proof.
  intros Hs Hsize.
  destruct (addKeyframe_sorted a k Hs Hsize) as (a' & Ha' & _ & Hel & Hsz).
  exists a'. split; [assumption|]. split; [assumption|].
  destruct (decide (Keyframe.t k ∈ keyframeTimes a)); split; intros; try tauto; lia.
Qed.

Lemma addKeyframe_inserts_witness :
  exists a',
    addKeyframe sorted_animation (Keyframe.mk 7 (translate 1 1 1)) = Ok a'
    /\ size (_keyframes a') = 5.
Proof.
  destruct (addKeyframe_inserts sorted_animation (Keyframe.mk 7 (translate 1 1 1)))
    as (a' & H & _ & _ & Hsz).
  - reflexivity.
  - vm_compute. discriminate.
  - exists a'. split; [exact H|]. rewrite Hsz; [reflexivity|].
    vm_compute. intros Hin.
    repeat (apply elem_of_cons in Hin as [Hin|Hin]; [discriminate|]).
    apply elem_of_nil in Hin. exact Hin.
Defined.

(** ** Sequences of [addKeyframe] calls *)

Lemma lastForTime_cons (k : Keyframe) (ks : list Keyframe) (k' : Keyframe) :
  lastForTime (k :: ks) k'
  <-> (k' = k /\ Keyframe.t k ∉ (Keyframe.t <$> ks)) \/ lastForTime ks k'.
Proof.
  unfold lastForTime. split.
  - intros ([|i] & Hi & Hlater).
    + simpl in Hi. injection Hi as ->. left. split; [reflexivity|].
      intros Hin. apply list_elem_of_fmap in Hin as (k0 & Ht & Hk0).
      apply list_elem_of_lookup in Hk0 as [j Hj].
      apply (Hlater (S j) k0); [lia|exact Hj|congruence].
    + right. exists i. split; [exact Hi|].
      intros j k0 Hij Hj. apply (Hlater (S j) k0); [lia|exact Hj].
  - intros [[-> Hnin]|(i & Hi & Hlater)].
    + exists 0%nat. split; [reflexivity|].
      intros [|j] k0 Hij Hj Ht; [lia|]. simpl in Hj. apply Hnin.
      apply list_elem_of_fmap. exists k0. split; [congruence|].
      eapply list_elem_of_lookup_2. eassumption.
    + exists (S i). split; [exact Hi|].
      intros [|j] k0 Hij Hj; [lia|]. simpl in Hj. apply (Hlater j k0); [lia|exact Hj].
Qed.

Lemma lastForTime_elem (ks : list Keyframe) (k : Keyframe) : lastForTime ks k -> k ∈ ks.
Proof. intros (i & Hi & _). eapply list_elem_of_lookup_2. eassumption. Qed.

Lemma lastForTime_NoDup (ks : list Keyframe) (k : Keyframe) :
  NoDup (Keyframe.t <$> ks) -> k ∈ ks -> lastForTime ks k.
Proof.
  intros Hnd Hk. apply list_elem_of_lookup in Hk as [i Hi]. exists i. split; [assumption|].
  intros j k' Hij Hj Ht.
  assert (i = j); [|lia].
  eapply NoDup_lookup; [exact Hnd| |].
  - rewrite list_lookup_fmap, Hi. reflexivity.
  - rewrite list_lookup_fmap, Hj. simpl. congruence.
Qed.

(** Every time stamp of [ks] has a keyframe that is not overwritten. *)
Lemma lastForTime_exists (ks : list Keyframe) (t : Z) :
  t ∈ (Keyframe.t <$> ks) -> exists k, lastForTime ks k /\ Keyframe.t k = t.
Proof.
  induction ks as [|k ks IH]; simpl; intros Hin.
  - apply elem_of_nil in Hin. contradiction.
  - destruct (decide (t ∈ (Keyframe.t <$> ks))) as [Hl|Hl].
    + destruct (IH Hl) as (k' & Hk' & Ht). exists k'. split; [|assumption].
      apply lastForTime_cons. right. assumption.
    + apply elem_of_cons in Hin as [->|Hin]; [|contradiction].
      exists k. split; [|reflexivity]. apply lastForTime_cons. left. split; [reflexivity|assumption].
Qed.

Lemma addKeyframes_sorted (ks : list Keyframe) :
  forall a : Animation,
    ascending (_keyframes a) = true ->
    size (_keyframes a) + size ks <= 2 ^ 30 ->
    exists a',
      addKeyframes a ks = Ok a'
      /\ ascending (_keyframes a') = true
      /\ (forall k', k' ∈ _keyframes a'
                     <-> lastForTime ks k'
                         \/ (k' ∈ _keyframes a /\ Keyframe.t k' ∉ (Keyframe.t <$> ks))).
Proof.
  induction ks as [|k ks IH]; intros a Hs Hsize; simpl.
  - exists a. split; [reflexivity|]. split; [assumption|].
    intros k'. split.
    + intros Hk'. right. split; [assumption|]. apply not_elem_of_nil.
    + intros [(i & Hi & _)|[Hk' _]]; [|assumption]. rewrite lookup_nil in Hi. discriminate.
  - assert (Hks : size (k :: ks) = size ks + 1) by (unfold size; simpl; lia).
    assert (0 <= size ks) by (unfold size; lia).
    destruct (addKeyframe_sorted a k Hs ltac:(lia)) as (a1 & -> & Hs1 & Hel1 & Hsz1).
    simpl.
    destruct (IH a1 Hs1) as (a' & Ha' & Hs' & Hel').
    { rewrite Hsz1. destruct (decide _); lia. }
    exists a'. split; [assumption|]. split; [assumption|].
    intros k'. rewrite Hel', lastForTime_cons, Hel1, not_elem_of_cons.
    split.
    + intros [Hl|[[->|[Hk' Hne]] Hnin]]; try tauto.
    + intros [[[-> Hnin]|Hl]|[Hk' [Hne Hnin]]]; try tauto.
Qed.

(** X5: the result of a sequence of [addKeyframe] calls on a sorted
    animation does not depend on the order of the calls, as long as the
    keyframes of the sequence have different time stamps. *)
Theorem addKeyframes_order_irrelevant (a : Animation) (ks1 ks2 : list Keyframe) :
  ascending (_keyframes a) = true ->
  size (_keyframes a) + size ks1 <= 2 ^ 30 ->
  NoDup (Keyframe.t <$> ks1) ->
  ks1 ≡ₚ ks2 ->
  exists a', addKeyframes a ks1 = Ok a' /\ addKeyframes a ks2 = Ok a'.
Proof.
  intros Hs Hsize Hnd Hperm.
  assert (Hsize2 : size (_keyframes a) + size ks2 <= 2 ^ 30).
  { unfold size in *. rewrite <- Hperm. assumption. }
  assert (Hnd2 : NoDup (Keyframe.t <$> ks2)) by (rewrite <- Hperm; assumption).
  destruct (addKeyframes_sorted ks1 a Hs Hsize) as (a1 & H1 & Hs1 & Hel1).
  destruct (addKeyframes_sorted ks2 a Hs Hsize2) as (a2 & H2 & Hs2 & Hel2).
  exists a1. split; [assumption|]. rewrite H2. f_equal.
  destruct a1 as [l1], a2 as [l2]. simpl in *. f_equal.
  apply ascending_ext; try assumption.
  intros x. rewrite Hel1, Hel2.
  assert (Hl : lastForTime ks1 x <-> lastForTime ks2 x).
  { split; intros Hx; apply lastForTime_elem in Hx; apply lastForTime_NoDup;
      try assumption; [rewrite <- Hperm|rewrite Hperm]; assumption. }
  rewrite Hl, Hperm. reflexivity.
Qed.

Lemma addKeyframes_order_irrelevant_witness :
  exists a',
    addKeyframes sorted_animation
      [Keyframe.mk 7 (translate 1 1 1); Keyframe.mk 30 (translate 4 4 4)] = Ok a'
    /\ addKeyframes sorted_animation
         [Keyframe.mk 30 (translate 4 4 4); Keyframe.mk 7 (translate 1 1 1)] = Ok a'.
Proof.
  apply addKeyframes_order_irrelevant.
  - reflexivity.
  - vm_compute. discriminate.
  - simpl. repeat constructor; intros Hin;
      repeat (apply elem_of_cons in Hin as [Hin|Hin]; [discriminate|]);
      apply elem_of_nil in Hin; exact Hin.
  - apply Permutation_swap.
Defined.

(** X6: of the keyframes that a sequence of [addKeyframe] calls gives for
    one time stamp the last one wins, and the keyframes given first leave no
    trace: the sequence [k1, k2] with equal time stamps has the result of the
    single call with [k2]. *)
Theorem addKeyframe_last_wins (a : Animation) (k1 k2 : Keyframe) :
  ascending (_keyframes a) = true ->
  size (_keyframes a) + 2 <= 2 ^ 30 ->
  Keyframe.t k1 = Keyframe.t k2 ->
  exists a', addKeyframes a [k1; k2] = Ok a' /\ addKeyframe a k2 = Ok a'.
Proof.
  intros Hs Hsize Ht.
  assert (0 <= size (_keyframes a)) by (unfold size; lia).
  destruct (addKeyframes_sorted [k1; k2] a Hs) as (a1 & H1 & Hs1 & Hel1).
  { unfold size at 2. simpl. lia. }
  destruct (addKeyframe_sorted a k2 Hs ltac:(lia)) as (a2 & H2 & Hs2 & Hel2 & _).
  exists a1. split; [assumption|]. rewrite H2. f_equal.
  destruct a1 as [l1], a2 as [l2]. simpl in *. f_equal.
  apply ascending_ext; try assumption.
  intros x. rewrite Hel1, Hel2, !lastForTime_cons.
  simpl. rewrite !not_elem_of_cons.
  assert (Hnil : ~ lastForTime [] x).
  { intros (i & Hi & _). rewrite lookup_nil in Hi. discriminate. }
  split.
  - intros [->|[Hx Hne]].
    + left. right. left. split; [reflexivity|]. apply not_elem_of_nil.
    + right. split; [assumption|]. repeat split; try congruence. apply not_elem_of_nil.
  - intros [[[-> [Hne _]]|[[-> _]|Hl]]|[Hx [Hne1 [Hne2 _]]]]; try tauto.
Qed.

Lemma addKeyframe_last_wins_witness :
  exists a',
    addKeyframes sorted_animation
      [Keyframe.mk 7 (translate 1 1 1); Keyframe.mk 7 (translate 4 4 4)] = Ok a'
    /\ addKeyframe sorted_animation (Keyframe.mk 7 (translate 4 4 4)) = Ok a'.
Proof.
  apply addKeyframe_last_wins.
  - reflexivity.
  - vm_compute. discriminate.
  - reflexivity.
Defined.

(** ** [addKeyframe] followed by [interpolate] *)

(** Between the first and the last keyframe of a sorted list. *)
Lemma ascending_ends (l : list Keyframe) (kf kl k : Keyframe) :
  ascending l = true ->
  l !! 0%nat = Some kf -> l !! pred (length l) = Some kl -> k ∈ l ->
  Keyframe.t kf <= Keyframe.t k <= Keyframe.t kl.
Proof.
  intros Hs Hf Hl Hk. apply list_elem_of_lookup in Hk as [j Hj].
  pose proof (lookup_lt_Some _ _ _ Hj). split.
  - eapply ascending_lookup_le; eauto. lia.
  - eapply ascending_lookup_le; eauto. lia.
Qed.

Lemma interpolate_at_keyframe (slerp : Slerp) (a : Animation) (k : Keyframe) :
  ascending (_keyframes a) = true ->
  size (_keyframes a) <= 2 ^ 30 ->
  k ∈ _keyframes a ->
  interpolate slerp a (Keyframe.t k) = Ok (Keyframe.transformation k).
Proof.
  intros Hs Hsize Hk.
  assert (Hne : 1 <= size (_keyframes a)).
  { unfold size. destruct (_keyframes a); [apply elem_of_nil in Hk; contradiction|simpl; lia]. }
  destruct (nonempty_ends _ Hne) as (kf & kl & Hf & Hl).
  pose proof (ascending_ends _ _ _ _ Hs Hf Hl Hk) as Hends.
  destruct (interpolate_any slerp a (Keyframe.t k) Hsize)
    as [[He _]|[(kf' & Hf' & Ht & ->)|[(kl' & Hl' & Ht & ->)|[(i & k0 & Hk0 & Ht & ->)
        |(i & lo & hi & Hlo & Hhi & Ht & _)]]]].
  - rewrite He in Hk. apply elem_of_nil in Hk. contradiction.
  - rewrite Hf in Hf'. injection Hf' as <-. do 2 f_equal.
    eapply ascending_elem_inj; eauto; [eapply list_elem_of_lookup_2; eassumption|lia].
  - rewrite last_lookup, Hl in Hl'. injection Hl' as <-. do 2 f_equal.
    eapply ascending_elem_inj; eauto; [eapply list_elem_of_lookup_2; eassumption|lia].
  - do 2 f_equal. eapply ascending_elem_inj; eauto. eapply list_elem_of_lookup_2; eassumption.
  - exfalso. apply list_elem_of_lookup in Hk as [j Hj].
    destruct (le_lt_dec j i) as [Hji|Hji].
    + pose proof (ascending_lookup_le _ _ _ _ _ Hs Hj Hlo Hji). lia.
    + pose proof (ascending_lookup_le _ _ _ _ _ Hs Hhi Hj ltac:(lia)). lia.
Qed.

(** X7: round trip of [addKeyframe] and [interpolate] on a sorted
    animation: after [addKeyframe(k)], [interpolate] at the time of [k]
    returns the transformation of [k], unblended, and at the time of every
    other keyframe it still returns the transformation of that keyframe. *)
Theorem interpolate_after_addKeyframe (slerp : Slerp) (a : Animation) (k : Keyframe) :
  ascending (_keyframes a) = true ->
  size (_keyframes a) + 1 <= 2 ^ 30 ->
  exists a',
    addKeyframe a k = Ok a'
    /\ interpolate slerp a' (Keyframe.t k) = Ok (Keyframe.transformation k)
    /\ (forall k', k' ∈ _keyframes a -> Keyframe.t k' <> Keyframe.t k ->
          interpolate slerp a' (Keyframe.t k') = Ok (Keyframe.transformation k')).
Proof.
  intros Hs Hsize.
  destruct (addKeyframe_sorted a k Hs ltac:(lia)) as (a' & Ha' & Hs' & Hel & Hsz).
  assert (Hsize' : size (_keyframes a') <= 2 ^ 30).
  { rewrite Hsz. destruct (decide _); lia. }
  exists a'. split; [assumption|]. split.
  - apply interpolate_at_keyframe; try assumption. apply Hel. left. reflexivity.
  - intros k' Hk' Hne. apply interpolate_at_keyframe; try assumption.
    apply Hel. right. split; assumption.
Qed.

Lemma interpolate_after_addKeyframe_witness :
  exists a',
    addKeyframe sorted_animation (Keyframe.mk 7 (translate 1 1 1)) = Ok a'
    /\ interpolate slerp_stub a' 7 = Ok (translate 1 1 1).
Proof.
  destruct (interpolate_after_addKeyframe slerp_stub sorted_animation
              (Keyframe.mk 7 (translate 1 1 1)))
    as (a' & H & Hi & _).
  - reflexivity.
  - vm_compute. discriminate.
  - exists a'. split; [exact H|exact Hi].
Defined.

(** ** The time range of an animation built with [addKeyframe] *)

(** X8: an animation built from the empty animation by [addKeyframe]
    calls, in any order and with repeated time stamps, starts at the
    smallest and ends at the largest time stamp that was given:
    [startTime()] and [endTime()] are the minimum and the maximum of the time
    stamps of the calls. *)
Theorem addKeyframes_time_range (ks : list Keyframe) :
  ks <> [] ->
  size ks <= 2 ^ 30 ->
  exists a',
    addKeyframes Animation_default ks = Ok a'
    /\ is_minimum (startTime a') (Keyframe.t <$> ks)
    /\ is_maximum (endTime a') (Keyframe.t <$> ks).
Proof.
  intros Hne Hsize.
  destruct (addKeyframes_sorted ks Animation_default eq_refl) as (a' & Ha' & Hs' & Hel).
  { unfold size at 1. simpl. lia. }
  exists a'. split; [assumption|].
  assert (Hel' : forall k', k' ∈ _keyframes a' <-> lastForTime ks k').
  { intros k'. rewrite Hel. split; [|tauto].
    intros [H|[H _]]; [assumption|]. apply elem_of_nil in H. contradiction. }
  assert (Hne' : 1 <= size (_keyframes a')).
  { destruct ks as [|k0 ks0]; [congruence|].
    destruct (lastForTime_exists (k0 :: ks0) (Keyframe.t k0)) as (k1 & Hk1 & _); [left|].
    apply Hel' in Hk1. unfold size.
    destruct (_keyframes a'); [apply elem_of_nil in Hk1; contradiction|simpl; lia]. }
  destruct (nonempty_ends _ Hne') as (kf & kl & Hf & Hl).
  rewrite (startTime_lookup _ _ Hf), (endTime_lookup _ _ Hl).
  assert (Hin : forall k', k' ∈ _keyframes a' -> Keyframe.t k' ∈ (Keyframe.t <$> ks)).
  { intros k' Hk'. apply Hel', lastForTime_elem in Hk'.
    apply list_elem_of_fmap. exists k'. split; [reflexivity|assumption]. }
  split; (split; [apply Hin; eapply list_elem_of_lookup_2; eassumption|]).
  - intros x Hx. destruct (lastForTime_exists ks x Hx) as (k1 & Hk1 & <-).
    apply Hel' in Hk1. apply (ascending_ends _ _ _ _ Hs' Hf Hl Hk1).
  - intros x Hx. destruct (lastForTime_exists ks x Hx) as (k1 & Hk1 & <-).
    apply Hel' in Hk1. apply (ascending_ends _ _ _ _ Hs' Hf Hl Hk1).
Qed.

Lemma addKeyframes_time_range_witness :
  exists a',
    addKeyframes Animation_default
      [Keyframe.mk 7 (translate 1 1 1); Keyframe.mk (-3) (translate 5 5 5);
       Keyframe.mk 30 (translate 4 4 4); Keyframe.mk 7 (translate 2 2 2)] = Ok a'
    /\ startTime a' = -3 /\ endTime a' = 30.
Proof.
  destruct (addKeyframes_time_range
              [Keyframe.mk 7 (translate 1 1 1); Keyframe.mk (-3) (translate 5 5 5);
               Keyframe.mk 30 (translate 4 4 4); Keyframe.mk 7 (translate 2 2 2)])
    as (a' & H & _ & _).
  - discriminate.
  - vm_compute. discriminate.
  - exists a'. split; [exact H|].
    vm_compute in H. injection H as <-. split; reflexivity.
Defined.

(* ===================================================================== *)
(** * Further properties of [Simulator] *)
(* ===================================================================== *)

(** ** Methods that return *)

Lemma wp_ret {A} (a : A) s (Q : A -> Simulator -> Prop) : Q a s -> wp (ret a) s Q.
Proof. intros H. exists a, s. split; [reflexivity|assumption]. Qed.

Lemma wp_get s (Q : Simulator -> Simulator -> Prop) : Q s s -> wp get s Q.
Proof. intros H. exists s, s. split; [reflexivity|assumption]. Qed.

Lemma wp_modify (f : Simulator -> Simulator) s (Q : unit -> Simulator -> Prop) :
  Q tt (f s) -> wp (modify f) s Q.
Proof. intros H. exists tt, (f s). split; [reflexivity|assumption]. Qed.

Lemma wp_lift {A} (x : outcome A) (a : A) s (Q : A -> Simulator -> Prop) :
  x = Ok a -> Q a s -> wp (lift x) s Q.
Proof. intros -> H. exists a, s. split; [reflexivity|assumption]. Qed.

Lemma wp_bind {A B} (m : M A) (f : A -> M B) s (Q : B -> Simulator -> Prop) :
  wp m s (fun a s1 => wp (f a) s1 Q) -> wp (bind m f) s Q.
Proof.
  intros (a & s1 & Hm & b & s2 & Hf & HQ). exists b, s2.
  split; [|assumption]. unfold bind. rewrite Hm. assumption.
Qed.

Lemma wp_mono {A} (m : M A) s (Q Q' : A -> Simulator -> Prop) :
  wp m s Q -> (forall a s', Q a s' -> Q' a s') -> wp m s Q'.
Proof. intros (a & s' & Hm & HQ) H. exists a, s'. split; [assumption|apply H; assumption]. Qed.

Lemma wp_when (c : bool) (m : M unit) s (Q : unit -> Simulator -> Prop) :
  (c = true -> wp m s Q) -> (c = false -> Q tt s) -> wp (when c m) s Q.
Proof. destruct c; simpl; intros H1 H2; [apply H1|apply wp_ret, H2]; reflexivity. Qed.

Lemma wp_eq {A} (m : M A) s a s' : wp m s (fun x s1 => x = a /\ s1 = s') -> m s = (Ok a, s').
Proof. intros (x & s1 & Hm & -> & ->). assumption. Qed.

Lemma set_gl_next_id (s : Simulator) : set_gl_next (gl_next s) s = s.
Proof. destruct s. reflexivity. Qed.

Lemma glOnly_ret {A} (P : A -> Prop) (a : A) : P a -> glOnly P (ret a).
Proof.
  intros H s. exists a, (gl_next s). split; [|assumption].
  unfold ret. rewrite set_gl_next_id. reflexivity.
Qed.

Lemma glOnly_bind {A B} (P : A -> Prop) (P' : B -> Prop) (m : M A) (f : A -> M B) :
  glOnly P m -> (forall a, P a -> glOnly P' (f a)) -> glOnly P' (bind m f).
Proof.
  intros Hm Hf s. destruct (Hm s) as (a & g & Hma & Ha).
  destruct (Hf a Ha (set_gl_next g s)) as (b & g' & Hfb & Hb).
  exists b, g'. split; [|assumption]. unfold bind. rewrite Hma, Hfb. reflexivity.
Qed.

Lemma glOnly_mono {A} (P P' : A -> Prop) (m : M A) :
  glOnly P m -> (forall a, P a -> P' a) -> glOnly P' m.
Proof. intros Hm H s. destruct (Hm s) as (a & g & Hma & Ha). exists a, g. auto. Qed.

Lemma glOnly_glGenTexture : glOnly (fun _ => True) glGenTexture.
Proof. intros s. exists (gl_next s), (gl_next s + 1). split; [reflexivity|exact I]. Qed.

Lemma glOnly_glGenTextures (n : Z) :
  glOnly (fun l => length l = Z.to_nat n) (glGenTextures n).
Proof.
  intros s. eexists _, _. split; [reflexivity|].
  unfold indices_below. rewrite length_map, length_seqZ. reflexivity.
Qed.

Lemma glOnly_genIf (b : bool) (n : Z) :
  glOnly (fun l => length l = texCount b (Z.to_nat n)) (genIf b n).
Proof.
  unfold genIf, texCount. destruct b; [apply glOnly_glGenTextures|].
  apply glOnly_ret. reflexivity.
Qed.

Lemma glOnly_map_each {A B} (P : B -> Prop) (l : list A) (body : A -> M B) :
  (forall i, glOnly P (body i)) ->
  glOnly (fun xs => length xs = length l /\ Forall P xs) (map_each l body).
Proof.
  intros H. induction l as [|i l IH]; simpl.
  - apply glOnly_ret. split; [reflexivity|constructor].
  - eapply glOnly_bind; [apply H|]. intros x Hx.
    eapply glOnly_bind; [exact IH|]. intros xs [Hlen Hall].
    apply glOnly_ret. split; [simpl; congruence|constructor; assumption].
Qed.

Lemma wp_glOnly {A} (P : A -> Prop) (m : M A) s (Q : A -> Simulator -> Prop) :
  glOnly P m -> (forall a g, P a -> Q a (set_gl_next g s)) -> wp m s Q.
Proof.
  intros Hm H. destruct (Hm s) as (a & g & Hma & Ha).
  exists a, (set_gl_next g s). split; [assumption|apply H; assumption].
Qed.

(** ** Loops over the indices [0 .. n-1] *)

Lemma wp_for_each_from (body : Z -> M unit) (Inv : Z -> Simulator -> Prop) (k : nat) :
  forall (m : Z) (s : Simulator) (Q : unit -> Simulator -> Prop),
    Inv m s ->
    (forall i s1, m <= i < m + Z.of_nat k -> Inv i s1 ->
                  wp (body i) s1 (fun _ s2 => Inv (i + 1) s2)) ->
    (forall s', Inv (m + Z.of_nat k) s' -> Q tt s') ->
    wp (for_each (seqZ m (Z.of_nat k)) body) s Q.
Proof.
  induction k as [|k IH]; intros m s Q Hinv Hbody HQ.
  - simpl. apply wp_ret. apply HQ. replace (m + Z.of_nat 0) with m by lia. assumption.
  - rewrite seqZ_cons by lia. simpl. apply wp_bind.
    eapply wp_mono; [apply (Hbody m s); [lia|assumption]|].
    intros [] s1 H1. cbv beta in H1 |- *.
    replace (Z.pred (Z.of_nat (S k))) with (Z.of_nat k) by lia.
    apply IH.
    + replace (Z.succ m) with (m + 1) by lia. assumption.
    + intros i s2 Hi. apply Hbody. lia.
    + intros s' Hs'. apply HQ. replace (m + Z.of_nat (S k)) with (Z.succ m + Z.of_nat k) by lia.
      assumption.
Qed.

Lemma wp_for_each_below (n : Z) (body : Z -> M unit) (Inv : Z -> Simulator -> Prop)
    (s : Simulator) (Q : unit -> Simulator -> Prop) :
  0 <= n -> Inv 0 s ->
  (forall i s1, 0 <= i < n -> Inv i s1 -> wp (body i) s1 (fun _ s2 => Inv (i + 1) s2)) ->
  (forall s', Inv n s' -> Q tt s') ->
  wp (for_each (indices_below n) body) s Q.
Proof.
  intros Hn Hinv Hbody HQ. unfold indices_below.
  pose proof (wp_for_each_from body Inv (Z.to_nat n) 0 s Q Hinv) as H.
  rewrite Z2Nat.id in H by lia. apply H.
  - intros i s1 Hi. apply Hbody. lia.
  - intros s' Hs'. apply HQ. assumption.
Qed.

Lemma wp_fold_each_from {B} (body : B -> Z -> M B) (Inv : Z -> B -> Simulator -> Prop)
    (k : nat) :
  forall (m : Z) (b : B) (s : Simulator) (Q : B -> Simulator -> Prop),
    Inv m b s ->
    (forall i b1 s1, m <= i < m + Z.of_nat k -> Inv i b1 s1 ->
                     wp (body b1 i) s1 (fun b2 s2 => Inv (i + 1) b2 s2)) ->
    (forall b' s', Inv (m + Z.of_nat k) b' s' -> Q b' s') ->
    wp (fold_each (seqZ m (Z.of_nat k)) b body) s Q.
Proof.
  induction k as [|k IH]; intros m b s Q Hinv Hbody HQ.
  - simpl. apply wp_ret. apply HQ. replace (m + Z.of_nat 0) with m by lia. assumption.
  - rewrite seqZ_cons by lia. simpl. apply wp_bind.
    eapply wp_mono; [apply (Hbody m b s); [lia|assumption]|].
    intros b1 s1 H1. cbv beta.
    replace (Z.pred (Z.of_nat (S k))) with (Z.of_nat k) by lia.
    apply IH.
    + replace (Z.succ m) with (m + 1) by lia. assumption.
    + intros i b2 s2 Hi. apply Hbody. lia.
    + intros b' s' Hs'. apply HQ.
      replace (m + Z.of_nat (S k)) with (Z.succ m + Z.of_nat k) by lia. assumption.
Qed.

Lemma wp_fold_each_below {B} (n : Z) (body : B -> Z -> M B)
    (Inv : Z -> B -> Simulator -> Prop) (b : B) (s : Simulator)
    (Q : B -> Simulator -> Prop) :
  Inv 0 b s ->
  (forall i b1 s1, 0 <= i < n -> Inv i b1 s1 ->
                   wp (body b1 i) s1 (fun b2 s2 => Inv (i + 1) b2 s2)) ->
  (forall b' s', Inv (Z.max 0 n) b' s' -> Q b' s') ->
  wp (fold_each (indices_below n) b body) s Q.
Proof.
  intros Hinv Hbody HQ. unfold indices_below.
  destruct (Z_lt_le_dec n 0) as [Hneg|Hn].
  - rewrite seqZ_nil by lia. simpl. apply wp_ret. apply HQ.
    replace (Z.max 0 n) with 0 by lia. assumption.
  - pose proof (wp_fold_each_from body Inv (Z.to_nat n) 0 b s Q Hinv) as H.
    rewrite Z2Nat.id in H by lia. apply H.
    + intros i b1 s1 Hi. apply Hbody. lia.
    + intros b' s' Hs'. apply HQ. replace (Z.max 0 n) with (0 + n) by lia. assumption.
Qed.

Lemma ofold_from {B} (body : B -> Z -> outcome B) (Inv : Z -> B -> Prop) (k : nat) :
  forall (m : Z) (b : B),
    Inv m b ->
    (forall i b1, m <= i < m + Z.of_nat k -> Inv i b1 ->
                  exists b2, body b1 i = Ok b2 /\ Inv (i + 1) b2) ->
    exists b', ofold body (seqZ m (Z.of_nat k)) b = Ok b' /\ Inv (m + Z.of_nat k) b'.
Proof.
  induction k as [|k IH]; intros m b Hinv Hbody.
  - simpl. exists b. split; [reflexivity|]. replace (m + Z.of_nat 0) with m by lia. assumption.
  - rewrite seqZ_cons by lia. simpl.
    destruct (Hbody m b) as (b1 & -> & H1); [lia|assumption|]. simpl.
    replace (Z.pred (Z.of_nat (S k))) with (Z.of_nat k) by lia.
    destruct (IH (Z.succ m) b1) as (b' & Hb' & Hinv').
    + replace (Z.succ m) with (m + 1) by lia. assumption.
    + intros i b2 Hi. apply Hbody. lia.
    + exists b'. split; [assumption|].
      replace (m + Z.of_nat (S k)) with (Z.succ m + Z.of_nat k) by lia. assumption.
Qed.

Lemma ofold_below {B} (n : Z) (body : B -> Z -> outcome B) (Inv : Z -> B -> Prop) (b : B) :
  0 <= n -> Inv 0 b ->
  (forall i b1, 0 <= i < n -> Inv i b1 -> exists b2, body b1 i = Ok b2 /\ Inv (i + 1) b2) ->
  exists b', ofold body (indices_below n) b = Ok b' /\ Inv n b'.
Proof.
  intros Hn Hinv Hbody. unfold indices_below.
  destruct (ofold_from body Inv (Z.to_nat n) 0 b) as (b' & Hb' & Hinv'); [assumption| |].
  - intros i b1 Hi. apply Hbody. lia.
  - rewrite Z2Nat.id in Hb', Hinv' by lia. exists b'. split; assumption.
Qed.

(** ** [recreateShadersIfNecessary] on a configuration that passes the checks *)

Lemma bind_same {B : Type} (m : M unit) (f : unit -> M B) (s : Simulator) :
  m s = (Ok tt, s) -> bind m f s = f tt s.
Proof. intros H. unfold bind. rewrite H. reflexivity. Qed.

Lemma when_link (link : Linker) (c : bool) (prg : Program) (msg : string) (s : Simulator) :
  (c = true -> link prg = true) -> when c (linkOrExit link prg msg) s = (Ok tt, s).
Proof.
  intros H. destruct c; [|reflexivity]. simpl. unfold linkOrExit.
  rewrite H by reflexivity. reflexivity.
Qed.

Lemma validConfiguration_true (s : Simulator) :
  validConfiguration s = true ->
  (size (lights (_scene s)) <? 1) = false
  /\ negb (size (lights (_scene s)) =? size (lightAnimations (_scene s))) = false
  /\ negb (size (objects (_scene s)) =? size (objectAnimations (_scene s))) = false
  /\ ((width (spatialSamples (_pipeline s)) <? 1)
      || negb (Z.rem (width (spatialSamples (_pipeline s))) 2 =? 1)
      || (height (spatialSamples (_pipeline s)) <? 1)
      || negb (Z.rem (height (spatialSamples (_pipeline s))) 2 =? 1)) = false
  /\ ((size (spatialSampleWeights (_pipeline s)) >? 0)
      && negb (size (spatialSampleWeights (_pipeline s))
               =? int32 (width (spatialSamples (_pipeline s))
                         * height (spatialSamples (_pipeline s))))) = false
  /\ (temporalSamples (_pipeline s) <? 1) = false
  /\ (preprocLensDistortion (_pipeline s) && postprocLensDistortion (_pipeline s)) = false
  /\ (postprocLensDistortion (_pipeline s)
      && (indices (_output s) || forwardFlow3D (_output s) || forwardFlow2D (_output s)
          || backwardFlow3D (_output s) || backwardFlow2D (_output s))) = false.
Proof.
  unfold validConfiguration. cbv zeta.
  rewrite !andb_true_iff, !negb_true_iff.
  intros (((((((H1 & H2) & H3) & H4) & H5) & H6) & H7) & H8).
  rewrite H2, H3. repeat split; assumption.
Qed.

Lemma recreateShaders_valid (link : Linker) (s : Simulator) :
  validConfiguration s = true -> linksAll link s ->
  recreateShadersIfNecessary link s =
    (Ok tt, if _recreateShaders s
            then set_recreateShaders false (set_haveLastFrameTimestamp false s)
            else s).
Proof.
  intros Hvalid Hlink.
  apply validConfiguration_true in Hvalid
    as (H1 & H2 & H3 & H4 & H5 & H6 & H7 & H8).
  unfold recreateShadersIfNecessary. unfold bind at 1. unfold get.
  destruct (_recreateShaders s) eqn:Hflag; [|reflexivity].
  change (negb true) with false. cbv iota zeta.
  rewrite bind_when_exit, H1. rewrite bind_when_exit, H2. rewrite bind_when_exit, H3.
  rewrite bind_when_exit, H4. rewrite bind_when_exit, H5. rewrite bind_when_exit, H6.
  rewrite bind_when_exit, H7. rewrite bind_when_exit, H8.
  rewrite bind_same.
  2:{ pose proof (Hlink ShadowMapPrg) as Hs. pose proof (Hlink ReflectiveShadowMapPrg) as Hr.
      simpl in Hs, Hr. unfold linkOrExit.
      destruct (shadowMaps (_pipeline s)), (reflectiveShadowMaps (_pipeline s)); simpl;
        unfold bind; simpl; rewrite ?Hs, ?Hr by reflexivity; reflexivity. }
  rewrite bind_same.
  2:{ unfold linkOrExit. rewrite (Hlink DepthPrg) by reflexivity. reflexivity. }
  rewrite bind_same by (apply when_link; apply (Hlink LightPrg)).
  rewrite bind_same by (apply when_link; apply (Hlink GeomPrg)).
  rewrite bind_same by (apply when_link; apply (Hlink FlowPrg)).
  rewrite bind_same by (apply when_link; apply (Hlink PostprocLensDistortionPrg)).
  reflexivity.
Qed.

(** ** [recreateOutputIfNecessary] *)

Lemma glOnly_if {A} (P : A -> Prop) (c : bool) (m1 m2 : M A) :
  (c = true -> glOnly P m1) -> (c = false -> glOnly P m2) ->
  glOnly P (if c then m1 else m2).
Proof. destruct c; intros H1 H2; [apply H1|apply H2]; reflexivity. Qed.

Lemma glOnly_when (c : bool) (m : M unit) :
  glOnly (fun _ => True) m -> glOnly (fun _ => True) (when c m).
Proof. intros H. destruct c; [exact H|]. apply glOnly_ret. exact I. Qed.

Lemma glOnly_genPerLight (enabled : Light -> bool) (ls : list Light) :
  glOnly (fun row => length row = length ls) (genPerLight enabled ls).
Proof.
  unfold genPerLight. eapply glOnly_mono.
  - apply (glOnly_map_each (fun _ => True)). intros light.
    destruct (enabled light); [apply glOnly_glGenTexture|apply glOnly_ret; exact I].
  - intros row [H _]. exact H.
Qed.

Lemma subFrames_output (s s' : Simulator) : _output s' = _output s -> subFrames s' = subFrames s.
Proof. unfold subFrames. intros ->. reflexivity. Qed.

Lemma subFrames_cases (s : Simulator) : subFrames s = 1 \/ subFrames s = 4.
Proof. unfold subFrames. destruct (pmd (_output s)); [right|left]; reflexivity. Qed.

Lemma Forall_replicate_len {A} (n m : nat) (x : A) :
  Forall (fun row => length row = m) (replicate n (replicate m x)).
Proof. apply Forall_replicate. apply length_replicate. Qed.

(** Reading a member of a simulator that is given by assignments. *)
Ltac fields :=
  cbn beta iota zeta delta
    [freshOutput withSamples withPasses
     set_cameraAnimation set_scene set_chipTiming set_projection set_pipeline set_output
     set_recreateTimestamps set_startTimestamp set_endTimestamp
     set_haveLastFrameTimestamp set_lastFrameTimestamp set_recreateShaders
     set_recreateOutput set_timestamps set_cameraTransformations
     set_lightTransformations set_objectTransformations set_textures
     set_depthBufferPingPong set_gl_next set_gl_passes
     _cameraAnimation _scene _chipTiming _projection _pipeline _output
     _recreateTimestamps _startTimestamp _endTimestamp _haveLastFrameTimestamp
     _lastFrameTimestamp _recreateShaders _recreateOutput _timestamps
     _cameraTransformations _lightTransformations _objectTransformations _textures
     depthBufferPingPong gl_next gl_passes
     _shadowMapDepthBufs _reflectiveShadowMapDepthBufs _reflectiveShadowMapTexs
     _pmdCoordinatesTex _depthBuffers _rgbTexs _srgbTexs _pmdDigNumTexs
     _eyeSpacePosTexs _customSpacePosTexs _eyeSpaceNormalTexs _customSpaceNormalTexs
     _depthAndRangeTexs _indicesTexs _forwardFlow3DTexs _forwardFlow2DTexs
     _backwardFlow3DTexs _backwardFlow2DTexs].

Tactic Notation "fields" "in" hyp(H) :=
  cbn beta iota zeta delta
    [freshOutput withSamples withPasses
     set_cameraAnimation set_scene set_chipTiming set_projection set_pipeline set_output
     set_recreateTimestamps set_startTimestamp set_endTimestamp
     set_haveLastFrameTimestamp set_lastFrameTimestamp set_recreateShaders
     set_recreateOutput set_timestamps set_cameraTransformations
     set_lightTransformations set_objectTransformations set_textures
     set_depthBufferPingPong set_gl_next set_gl_passes
     _cameraAnimation _scene _chipTiming _projection _pipeline _output
     _recreateTimestamps _startTimestamp _endTimestamp _haveLastFrameTimestamp
     _lastFrameTimestamp _recreateShaders _recreateOutput _timestamps
     _cameraTransformations _lightTransformations _objectTransformations _textures
     depthBufferPingPong gl_next gl_passes
     _shadowMapDepthBufs _reflectiveShadowMapDepthBufs _reflectiveShadowMapTexs
     _pmdCoordinatesTex _depthBuffers _rgbTexs _srgbTexs _pmdDigNumTexs
     _eyeSpacePosTexs _customSpacePosTexs _eyeSpaceNormalTexs _customSpaceNormalTexs
     _depthAndRangeTexs _indicesTexs _forwardFlow3DTexs _forwardFlow2DTexs
     _backwardFlow3DTexs _backwardFlow2DTexs] in H.

Lemma set_gl_next_twice (g g' : Z) (s : Simulator) :
  set_gl_next g' (set_gl_next g s) = set_gl_next g' s.
Proof. reflexivity. Qed.

Lemma wp_glOnly_again {A} (P : A -> Prop) (m : M A) (g : Z) s (Q : A -> Simulator -> Prop) :
  glOnly P m -> (forall a g', P a -> Q a (set_gl_next g' s)) -> wp m (set_gl_next g s) Q.
Proof.
  intros Hm H. eapply wp_glOnly; [exact Hm|].
  intros a g' Ha. rewrite set_gl_next_twice. apply H. assumption.
Qed.

(** [outputSized] reads the configuration and the output vectors only. *)
Lemma outputSized_ext (s s' : Simulator) :
  _scene s' = _scene s -> _pipeline s' = _pipeline s -> _output s' = _output s ->
  _timestamps s' = _timestamps s ->
  _cameraTransformations s' = _cameraTransformations s ->
  _lightTransformations s' = _lightTransformations s ->
  _objectTransformations s' = _objectTransformations s ->
  _textures s' = _textures s ->
  outputSized s -> outputSized s'.
Proof.
  unfold outputSized. intros -> -> Ho -> -> -> -> ->.
  rewrite (subFrames_output _ _ Ho), Ho. tauto.
Qed.

Lemma recreateOutput_spec (s : Simulator) :
  wp recreateOutputIfNecessary s (fun _ s' =>
    if _recreateOutput s
    then exists T C L O TX g, s' = freshOutput T C L O TX g s /\ outputSized s'
    else s' = s).
Proof.
  unfold recreateOutputIfNecessary.
  apply wp_bind, wp_get.
  destruct (_recreateOutput s) eqn:Hflag; [|apply wp_ret; reflexivity].
  change (negb true) with false. cbv iota zeta.
  do 4 (apply wp_bind, wp_modify).
  (* shadow maps *)
  apply wp_bind.
  eapply (wp_glOnly (fun rows =>
            length rows = texCount (shadowMaps (_pipeline s)) (Z.to_nat (subFrames s))
            /\ Forall (fun row => length row = length (lights (_scene s))) rows)).
  { apply glOnly_if; intros ->.
    - eapply glOnly_mono; [apply glOnly_map_each; intros _; apply glOnly_genPerLight|].
      intros rows [Hlen Hall]. split; [|exact Hall].
      rewrite Hlen. unfold indices_below. rewrite length_seqZ. reflexivity.
    - apply glOnly_ret. split; [reflexivity|constructor]. }
  intros shadowMapDepthBufs g1 [Hsm1 Hsm2].
  (* reflective shadow maps *)
  apply wp_bind.
  eapply (wp_glOnly_again (fun rows : list (list (Z * Z)) =>
            length rows = texCount (reflectiveShadowMaps (_pipeline s)) (Z.to_nat (subFrames s))
            /\ Forall (fun row => length row = length (lights (_scene s))) rows)).
  { apply glOnly_if; intros ->.
    - eapply glOnly_mono.
      + apply glOnly_map_each. intros _.
        apply (glOnly_map_each (fun _ => True)). intros light.
        destruct (reflectiveShadowMap light); [|apply glOnly_ret; exact I].
        eapply glOnly_bind; [apply glOnly_glGenTexture|intros d _].
        eapply glOnly_bind; [apply glOnly_glGenTexture|intros t _].
        apply glOnly_ret. exact I.
      + intros rows [Hlen Hall]. split.
        * rewrite Hlen. unfold indices_below. rewrite length_seqZ. reflexivity.
        * eapply Forall_impl; [exact Hall|]. intros row [H _]. exact H.
    - apply glOnly_ret. split; [reflexivity|constructor]. }
  intros reflective g2 [Hrf1 Hrf2].
  (* internal render targets *)
  apply wp_bind.
  eapply (wp_glOnly_again (fun _ => True)).
  { apply glOnly_when. eapply glOnly_bind; [apply glOnly_glGenTexture|intros ? _].
    apply glOnly_ret. exact I. }
  intros [] g3 _.
  apply wp_bind.
  eapply (wp_glOnly_again (fun _ => True)).
  { apply glOnly_when. eapply glOnly_bind; [apply glOnly_glGenTexture|intros ? _].
    apply glOnly_ret. exact I. }
  intros [] g4 _.
  apply wp_bind.
  eapply (wp_glOnly_again (fun _ => True)).
  { apply glOnly_if; intros _; [|apply glOnly_ret; exact I].
    eapply glOnly_bind; [apply glOnly_glGenTexture|intros ? _].
    eapply glOnly_bind; [apply glOnly_glGenTexture|intros ? _].
    apply glOnly_if; intros _; [apply glOnly_glGenTexture|apply glOnly_ret; exact I]. }
  intros pmdCoordinatesTex g5 _.
  (* output textures *)
  apply wp_bind. eapply wp_glOnly_again; [apply glOnly_glGenTextures|]. intros depthBuffers g6 Hd.
  apply wp_bind. eapply wp_glOnly_again; [apply glOnly_genIf|]. intros rgbTexs g7 Hrgb.
  apply wp_bind. eapply wp_glOnly_again; [apply glOnly_genIf|]. intros srgbTexs g8 Hsrgb.
  apply wp_bind. eapply wp_glOnly_again; [apply glOnly_genIf|]. intros pmdDigNumTexs g9 Hpmd.
  apply wp_bind. eapply wp_glOnly_again; [apply glOnly_genIf|]. intros eyeSpacePosTexs g10 He1.
  apply wp_bind. eapply wp_glOnly_again; [apply glOnly_genIf|]. intros customSpacePosTexs g11 He2.
  apply wp_bind. eapply wp_glOnly_again; [apply glOnly_genIf|]. intros eyeSpaceNormalTexs g12 He3.
  apply wp_bind. eapply wp_glOnly_again; [apply glOnly_genIf|]. intros customSpaceNormalTexs g13 He4.
  apply wp_bind. eapply wp_glOnly_again; [apply glOnly_genIf|]. intros depthAndRangeTexs g14 He5.
  apply wp_bind. eapply wp_glOnly_again; [apply glOnly_genIf|]. intros indicesTexs g15 He6.
  apply wp_bind. eapply wp_glOnly_again; [apply glOnly_genIf|]. intros forwardFlow3DTexs g16 Hf1.
  apply wp_bind. eapply wp_glOnly_again; [apply glOnly_genIf|]. intros forwardFlow2DTexs g17 Hf2.
  apply wp_bind. eapply wp_glOnly_again; [apply glOnly_genIf|]. intros backwardFlow3DTexs g18 Hf3.
  apply wp_bind. eapply wp_glOnly_again; [apply glOnly_genIf|]. intros backwardFlow2DTexs g19 Hf4.
  apply wp_bind.
  eapply (wp_glOnly_again (fun _ => True)).
  { apply glOnly_when. eapply glOnly_bind; [apply glOnly_glGenTexture|intros ? _].
    apply glOnly_ret. exact I. }
  intros [] g20 _.
  apply wp_bind, wp_modify. apply wp_bind, wp_modify. apply wp_modify.
  do 6 eexists. split; [unfold freshOutput; reflexivity|].
  match goal with |- outputSized ?st => set (s' := st) end.
  assert (Ho : _output s' = _output s) by reflexivity.
  unfold outputSized.
  rewrite (subFrames_output _ _ Ho).
  subst s'. fields.
  rewrite !length_replicate, !length_map.
  assert (Hn1 : Z.to_nat (subFrames s + 1) = S (Z.to_nat (subFrames s)))
    by (destruct (subFrames_cases s) as [-> | ->]; reflexivity).
  assert (Hnm : Z.to_nat (subFrames s + (if subFrames s >? 1 then 1 else 0))
                = (Z.to_nat (subFrames s) + (if subFrames s >? 1 then 1 else 0))%nat)
    by (destruct (subFrames_cases s) as [-> | ->]; reflexivity).
  rewrite Hn1 in Hd. rewrite Hnm in Hrgb, Hsrgb, Hpmd, Hf1, Hf2, Hf3, Hf4.
  repeat split; try assumption; try reflexivity; try apply Forall_replicate_len.
  apply Forall_map. eapply Forall_impl; [exact Hrf2|].
  intros row Hrow. cbv beta. rewrite length_map. exact Hrow.
Qed.

(** ** [simulateSampleTimestamp] and [simulateTimestamps] *)

Lemma set_at_Ok {A} (l : list A) (i : Z) (v : A) :
  0 <= i < size l -> set_at l i v = Ok (<[Z.to_nat i := v]> l).
Proof.
  unfold set_at, size. intros H.
  replace (0 <=? i) with true by (symmetry; apply Z.leb_le; lia).
  replace (i <? Z.of_nat (length l)) with true by (symmetry; apply Z.ltb_lt; lia).
  reflexivity.
Qed.

Lemma interpolate_total (slerp : Slerp) (a : Animation) (t : Z) :
  size (_keyframes a) <= 2 ^ 30 -> exists tr, interpolate slerp a t = Ok tr.
Proof.
  intros H.
  destruct (interpolate_any slerp a t H)
    as [[_ E]|[(? & _ & _ & E)|[(? & _ & _ & E)|[(? & ? & _ & _ & E)
        |(? & ? & ? & _ & _ & _ & E)]]]]; eauto.
Qed.

Lemma interpolateAll_spec (slerp : Slerp) (animations : list Animation) (n t : Z)
    (trs : list Transformation) :
  n = size animations -> length trs = length animations ->
  Forall (fun a => size (_keyframes a) <= 2 ^ 30) animations ->
  exists trs', interpolateAll slerp animations n t trs = Ok trs'
               /\ interpolated slerp animations t trs'.
Proof.
  intros -> Hlen Hsmall. unfold interpolateAll.
  destruct (ofold_below (size animations)
              (fun trs i =>
                 let? a := at_ animations i in
                 let? tr := interpolate slerp a t in set_at trs i tr)
              (fun i trs' =>
                 length trs' = length animations
                 /\ forall (j : nat) a, Z.of_nat j < i -> animations !! j = Some a ->
                      exists tr, interpolate slerp a t = Ok tr /\ trs' !! j = Some tr)
              trs) as (trs' & Hfold & Hlen' & Hall).
  - unfold size. lia.
  - split; [assumption|]. intros j a Hj. lia.
  - intros i trs1 Hi [Hlen1 Hall1].
    destruct (at_in_range animations i Hi) as [a Ha]. rewrite Ha. simpl.
    apply at_Ok in Ha as [_ Ha].
    assert (Hsm : size (_keyframes a) <= 2 ^ 30).
    { rewrite Forall_forall in Hsmall. apply Hsmall.
      eapply list_elem_of_lookup_2. eassumption. }
    destruct (interpolate_total slerp a t Hsm) as [tr Htr]. rewrite Htr. simpl.
    rewrite set_at_Ok by (unfold size in *; lia).
    eexists. split; [reflexivity|]. split; [rewrite length_insert; assumption|].
    intros j a' Hj Ha'. destruct (decide (j = Z.to_nat i)) as [->|Hne].
    + rewrite Ha in Ha'. injection Ha' as <-. exists tr. split; [assumption|].
      apply list_lookup_insert_eq. unfold size in *. lia.
    + rewrite list_lookup_insert_ne by congruence. apply Hall1; [lia|assumption].
  - exists trs'. split; [assumption|]. unfold interpolated.
    apply Forall2_same_length_lookup_2; [congruence|].
    intros j a tr Ha Htr.
    destruct (Hall j a) as (tr' & Hi & Htr'); [|assumption|].
    + apply lookup_lt_Some in Ha. unfold size. lia.
    + congruence.
Qed.

Lemma interpolated_length (slerp : Slerp) (animations : list Animation) (t : Z)
    (row : list Transformation) :
  interpolated slerp animations t row -> length row = length animations.
Proof. intros H. symmetry. eapply Forall2_length. exact H. Qed.

Lemma smallAnimations_parts (s : Simulator) :
  smallAnimations s ->
  size (_keyframes (_cameraAnimation s)) <= 2 ^ 30
  /\ Forall (fun a => size (_keyframes a) <= 2 ^ 30) (lightAnimations (_scene s))
  /\ Forall (fun a => size (_keyframes a) <= 2 ^ 30) (objectAnimations (_scene s)).
Proof.
  unfold smallAnimations, allAnimations. intros H.
  apply Forall_cons in H as [Hc H]. apply Forall_app in H as [Hl Ho]. auto.
Qed.

Lemma validConfiguration_sizes (s : Simulator) :
  validConfiguration s = true ->
  1 <= size (lights (_scene s))
  /\ length (lightAnimations (_scene s)) = length (lights (_scene s))
  /\ length (objectAnimations (_scene s)) = length (objects (_scene s))
  /\ 1 <= temporalSamples (_pipeline s).
Proof.
  intros H. apply validConfiguration_true in H as (H1 & H2 & H3 & _ & _ & H6 & _).
  apply Z.ltb_ge in H1. apply negb_false_iff, Z.eqb_eq in H2, H3. apply Z.ltb_ge in H6.
  unfold size in *. repeat split; lia.
Qed.

Lemma simulateSampleTimestamp_spec (slerp : Slerp) (s : Simulator) (t : Z)
    (lts ots : list Transformation) :
  validConfiguration s = true -> smallAnimations s ->
  length lts = length (lights (_scene s)) ->
  length ots = length (objects (_scene s)) ->
  exists cam lts' ots',
    simulateSampleTimestamp slerp s t lts ots = Ok (cam, lts', ots')
    /\ interpolate slerp (_cameraAnimation s) t = Ok cam
    /\ interpolated slerp (lightAnimations (_scene s)) t lts'
    /\ interpolated slerp (objectAnimations (_scene s)) t ots'.
Proof.
  intros Hvalid Hsmall Hl Ho.
  apply validConfiguration_sizes in Hvalid as (_ & Hla & Hoa & _).
  apply smallAnimations_parts in Hsmall as (Hc & Hls & Hos).
  unfold simulateSampleTimestamp.
  destruct (interpolate_total slerp (_cameraAnimation s) t Hc) as [cam Hcam].
  rewrite Hcam. simpl.
  destruct (interpolateAll_spec slerp (lightAnimations (_scene s))
              (size (lights (_scene s))) t lts) as (lts' & -> & Hlts');
    [unfold size; congruence|congruence|assumption|]. simpl.
  destruct (interpolateAll_spec slerp (objectAnimations (_scene s))
              (size (objects (_scene s))) t ots) as (ots' & -> & Hots');
    [unfold size; congruence|congruence|assumption|]. simpl.
  exists cam, lts', ots'. auto.
Qed.

Lemma subFrameDuration_ext (s s' : Simulator) :
  _chipTiming s' = _chipTiming s -> subFrameDuration s' = subFrameDuration s.
Proof. unfold subFrameDuration. intros ->. reflexivity. Qed.

Lemma frameDuration_ext (s s' : Simulator) :
  _chipTiming s' = _chipTiming s -> _output s' = _output s ->
  frameDuration s' = frameDuration s.
Proof.
  intros Hc Ho. unfold frameDuration.
  rewrite (subFrameDuration_ext _ _ Hc), (subFrames_output _ _ Ho), Hc. reflexivity.
Qed.

Lemma withSamples_id (s : Simulator) :
  withSamples (_timestamps s) (_cameraTransformations s) (_lightTransformations s)
              (_objectTransformations s) s = s.
Proof. destruct s. reflexivity. Qed.

(** The entries of [l] before index [i] satisfy [P]. *)
Lemma prefix_insert {A} (P : nat -> A -> Prop) (l : list A) (i : nat) (v : A) :
  (forall j, (j < i)%nat -> exists x, l !! j = Some x /\ P j x) ->
  (i < length l)%nat -> P i v ->
  forall j, (j < S i)%nat -> exists x, <[i := v]> l !! j = Some x /\ P j x.
Proof.
  intros Hpre Hi Hv j Hj. destruct (decide (j = i)) as [->|Hne].
  - exists v. split; [apply list_lookup_insert_eq; assumption|assumption].
  - rewrite list_lookup_insert_ne by congruence. apply Hpre. lia.
Qed.

Lemma prefix_fmap_seqZ {A} (f : Z -> A) (n : Z) (l : list A) :
  length l = Z.to_nat n ->
  (forall j, (j < Z.to_nat n)%nat -> exists x, l !! j = Some x /\ x = f (Z.of_nat j)) ->
  l = f <$> seqZ 0 n.
Proof.
  intros Hlen Hpre. apply list_eq. intros j.
  rewrite list_lookup_fmap.
  destruct (le_lt_dec (Z.to_nat n) j) as [Hge|Hlt].
  - rewrite lookup_ge_None_2 by lia.
    rewrite lookup_seqZ_ge by lia. reflexivity.
  - destruct (Hpre j Hlt) as (x & -> & ->).
    rewrite lookup_seqZ_lt by lia. reflexivity.
Qed.

Lemma prefix_Forall2 {A B} (Q : A -> B -> Prop) (f : Z -> A) (n : nat)
    (l1 : list A) (l2 : list B) :
  length l1 = n -> length l2 = n ->
  (forall j, (j < n)%nat -> exists x, l1 !! j = Some x /\ x = f (Z.of_nat j)) ->
  (forall j, (j < n)%nat -> exists y, l2 !! j = Some y /\ Q (f (Z.of_nat j)) y) ->
  Forall2 Q l1 l2.
Proof.
  intros H1 H2 Hp1 Hp2. apply Forall2_same_length_lookup_2; [congruence|].
  intros j x y Hx Hy. pose proof (lookup_lt_Some _ _ _ Hx) as Hj.
  destruct (Hp1 j ltac:(lia)) as (x' & Hx' & ->).
  destruct (Hp2 j ltac:(lia)) as (y' & Hy' & HQ). congruence.
Qed.

Lemma simulateTimestamps_spec (slerp : Slerp) (t : Z) (s : Simulator) :
  validConfiguration s = true -> smallAnimations s -> outputSized s ->
  exists T C L O,
    simulateTimestamps slerp t s = (Ok tt, withSamples T C L O s)
    /\ T = (subFrameTimestamp s t <$> seqZ 0 (subFrames s))
    /\ Forall2 (fun ts cam => interpolate slerp (_cameraAnimation s) ts = Ok cam) T C
    /\ Forall2 (interpolated slerp (lightAnimations (_scene s))) T L
    /\ Forall2 (interpolated slerp (objectAnimations (_scene s))) T O.
Proof.
  intros Hvalid Hsmall Hsized.
  pose proof (validConfiguration_sizes s Hvalid) as (_ & Hla & Hoa & _).
  destruct Hsized as (HT & HC & HL & HLr & HO & HOr & _).
  set (n := Z.to_nat (subFrames s)) in *.
  assert (Hn : subFrames s = Z.of_nat n)
    by (subst n; destruct (subFrames_cases s) as [-> | ->]; reflexivity).
  set (f := subFrameTimestamp s t).
  set (Inv := fun (i : Z) (s1 : Simulator) =>
    exists T C L O,
      s1 = withSamples T C L O s
      /\ length T = n /\ length C = n /\ length L = n /\ length O = n
      /\ Forall (fun row => length row = length (lights (_scene s))) L
      /\ Forall (fun row => length row = length (objects (_scene s))) O
      /\ (forall j, (j < Z.to_nat i)%nat -> exists x, T !! j = Some x /\ x = f (Z.of_nat j))
      /\ (forall j, (j < Z.to_nat i)%nat ->
            exists cam, C !! j = Some cam
                        /\ interpolate slerp (_cameraAnimation s) (f (Z.of_nat j)) = Ok cam)
      /\ (forall j, (j < Z.to_nat i)%nat ->
            exists row, L !! j = Some row
                        /\ interpolated slerp (lightAnimations (_scene s)) (f (Z.of_nat j)) row)
      /\ (forall j, (j < Z.to_nat i)%nat ->
            exists row, O !! j = Some row
                        /\ interpolated slerp (objectAnimations (_scene s)) (f (Z.of_nat j)) row)).
  assert (Hwp : wp (simulateTimestamps slerp t) s (fun _ s' => Inv (subFrames s) s')).
  { unfold simulateTimestamps. apply wp_bind, wp_get.
    apply (wp_for_each_below _ _ Inv); [lia| | |tauto].
    - exists (_timestamps s), (_cameraTransformations s), (_lightTransformations s),
        (_objectTransformations s).
      rewrite withSamples_id. repeat split; try assumption; intros j Hj; simpl in Hj; lia.
    - intros i s1 Hi (T & C & L & O & -> & HT1 & HC1 & HL1 & HO1 & HLr1 & HOr1
                        & HpT & HpC & HpL & HpO).
      assert (Hin : (Z.to_nat i < n)%nat) by lia.
      destruct (lookup_lt_is_Some_2 C (Z.to_nat i)) as [c0 Hc0]; [lia|].
      destruct (lookup_lt_is_Some_2 L (Z.to_nat i)) as [lrow Hlrow]; [lia|].
      destruct (lookup_lt_is_Some_2 O (Z.to_nat i)) as [orow Horow]; [lia|].
      assert (Hlr : length lrow = length (lights (_scene s))).
      { rewrite Forall_forall in HLr1. apply HLr1. eapply list_elem_of_lookup_2; eassumption. }
      assert (Hor : length orow = length (objects (_scene s))).
      { rewrite Forall_forall in HOr1. apply HOr1. eapply list_elem_of_lookup_2; eassumption. }
      apply wp_bind, wp_get. cbv zeta.
      rewrite (subFrameDuration_ext s) by reflexivity. fields.
      change (if subFrameTemporalSampling (_pipeline s)
              then int64 (t + int64 (i * subFrameDuration s)) else t) with (f i).
      change (simulateSampleTimestamp slerp (withSamples T C L O s))
        with (simulateSampleTimestamp slerp s).
      destruct (simulateSampleTimestamp_spec slerp s (f i) lrow orow Hvalid Hsmall Hlr Hor)
        as (cam & lts' & ots' & Hsample & Hcam & Hlts' & Hots').
      apply wp_bind. eapply wp_lift; [apply set_at_Ok; unfold size; lia|].
      apply wp_bind, wp_modify.
      apply wp_bind. eapply wp_lift; [apply at_Ok; split; [lia|eassumption]|].
      apply wp_bind. eapply wp_lift; [apply at_Ok; split; [lia|eassumption]|].
      apply wp_bind. eapply wp_lift; [apply at_Ok; split; [lia|eassumption]|].
      apply wp_bind. eapply wp_lift; [exact Hsample|]. cbv beta iota.
      apply wp_bind. eapply wp_lift; [apply set_at_Ok; unfold size; lia|].
      apply wp_bind, wp_modify.
      apply wp_bind. eapply wp_lift; [apply set_at_Ok; unfold size; lia|].
      apply wp_bind, wp_modify.
      apply wp_bind. eapply wp_lift; [apply set_at_Ok; unfold size; lia|].
      apply wp_modify.
      exists (<[Z.to_nat i := f i]> T), (<[Z.to_nat i := cam]> C),
        (<[Z.to_nat i := lts']> L), (<[Z.to_nat i := ots']> O).
      split; [reflexivity|].
      rewrite !length_insert.
      replace (Z.to_nat (i + 1)) with (S (Z.to_nat i)) by lia.
      replace i with (Z.of_nat (Z.to_nat i)) in Hcam, Hlts', Hots' by lia.
      split; [assumption|]. split; [assumption|]. split; [assumption|]. split; [assumption|].
      split; [|split; [|split; [|split; [|split]]]].
      + apply Forall_insert; [assumption|].
        rewrite (interpolated_length _ _ _ _ Hlts'). assumption.
      + apply Forall_insert; [assumption|].
        rewrite (interpolated_length _ _ _ _ Hots'). assumption.
      + apply prefix_insert; [assumption|lia|f_equal; lia].
      + apply (prefix_insert (fun j cam =>
                  interpolate slerp (_cameraAnimation s) (f (Z.of_nat j)) = Ok cam));
          [assumption|lia|assumption].
      + apply (prefix_insert (fun j row =>
                  interpolated slerp (lightAnimations (_scene s)) (f (Z.of_nat j)) row));
          [assumption|lia|assumption].
      + apply (prefix_insert (fun j row =>
                  interpolated slerp (objectAnimations (_scene s)) (f (Z.of_nat j)) row));
          [assumption|lia|assumption]. }
  destruct Hwp as ([] & s' & Hrun & T & C & L & O & -> & HT1 & HC1 & HL1 & HO1 & _ & _
                   & HpT & HpC & HpL & HpO).
  fold n in HpT, HpC, HpL, HpO.
  exists T, C, L, O. split; [assumption|].
  split; [apply prefix_fmap_seqZ; [assumption|exact HpT]|].
  split; [|split].
  - eapply (prefix_Forall2 _ f n); eassumption.
  - eapply (prefix_Forall2 _ f n); eassumption.
  - eapply (prefix_Forall2 _ f n); eassumption.
Qed.

(** ** The render passes of one sub-frame *)

Lemma withPasses_id (s : Simulator) :
  withPasses (gl_passes s ++ []) (depthBufferPingPong s) s = s.
Proof. rewrite app_nil_r. destruct s. reflexivity. Qed.

Lemma appended_refl (s : Simulator) : appended s s.
Proof. exists [], (depthBufferPingPong s). symmetry. apply withPasses_id. Qed.

Lemma appended_trans (s1 s2 s3 : Simulator) :
  appended s1 s2 -> appended s2 s3 -> appended s1 s3.
Proof.
  intros (e1 & b1 & ->) (e2 & b2 & ->). exists (e1 ++ e2), b2.
  unfold withPasses. fields. rewrite app_assoc. reflexivity.
Qed.

Lemma wp_pass (p : RenderPass) (s0 s1 : Simulator) (Q : unit -> Simulator -> Prop) :
  appended s0 s1 -> (forall s2, appended s0 s2 -> Q tt s2) -> wp (pass p) s1 Q.
Proof.
  intros H HQ. unfold pass. apply wp_modify. apply HQ.
  eapply appended_trans; [exact H|].
  exists [p], (depthBufferPingPong s1). unfold withPasses. destruct s1. reflexivity.
Qed.

Lemma wp_pingPong (b : bool) (s0 s1 : Simulator) (Q : unit -> Simulator -> Prop) :
  appended s0 s1 -> (forall s2, appended s0 s2 -> Q tt s2) ->
  wp (modify (set_depthBufferPingPong b)) s1 Q.
Proof.
  intros H HQ. apply wp_modify. apply HQ.
  eapply appended_trans; [exact H|].
  exists [], b. unfold withPasses. rewrite app_nil_r. destruct s1. reflexivity.
Qed.

(** What stays as it is while passes are issued. *)
Lemma appended_outputSized (s s' : Simulator) :
  appended s s' -> outputSized s -> outputSized s'.
Proof. intros (e & b & ->). apply outputSized_ext; reflexivity. Qed.

Lemma texCount_true (n : nat) : texCount true n = n.
Proof. reflexivity. Qed.

Lemma subFrames_extra (s : Simulator) :
  (Z.of_nat (Z.to_nat (subFrames s) + (if subFrames s >? 1 then 1 else 0))
   = subFrames s + (if subFrames s >? 1 then 1 else 0))%Z.
Proof. destruct (subFrames_cases s) as [-> | ->]; reflexivity. Qed.

Lemma post_bind {A B} (R : outcome B * Simulator -> Prop) (m : M A) (f : A -> M B)
    (s : Simulator) :
  wp m s (fun a s' => R (f a s')) -> R (bind m f s).
Proof. intros (a & s' & Hm & HR). unfold bind. rewrite Hm. exact HR. Qed.

(** [simulateSubFrameLight] up to its last step, the conversion to sRGB:
    whatever holds for the result of that step holds for the result of the
    function. *)
Lemma simulateSubFrameLight_upto (slerp : Slerp) (subFrame d : Z) (s0 s1 : Simulator)
    (R : outcome unit * Simulator -> Prop) :
  appended s0 s1 ->
  validConfiguration s1 = true -> smallAnimations s1 -> outputSized s1 ->
  0 <= subFrame < subFrames s1 ->
  (forall s4, appended s0 s4 ->
     R (when (srgb (_output s1))
          (bind (lift (at_ (_srgbTexs (_textures s1)) subFrame)) (fun target =>
           bind (lift (at_ (_rgbTexs (_textures s1)) subFrame)) (fun _ =>
           pass (PassConvertToSRGB target subFrame)))) s4)) ->
  R (simulateSubFrameLight slerp subFrame d s1).
Proof.
  intros Happ Hvalid Hsmall Hsized Hsub Hlast.
  pose proof Hsized as (HT & HC & HL & HLr & HO & HOr & _ & _ & _ & _ & HD & HRGB
                         & HSRGB & HPMD & _).
  pose proof (subFrames_extra s1) as Hextra.
  set (n := Z.to_nat (subFrames s1)) in *.
  assert (Hn : subFrames s1 = Z.of_nat n)
    by (subst n; destruct (subFrames_cases s1) as [-> | ->]; reflexivity).
  destruct (at_in_range (_timestamps s1) subFrame) as [ts Hts]; [unfold size; lia|].
  destruct (at_in_range (_cameraTransformations s1) subFrame) as [cam Hcam]; [unfold size; lia|].
  destruct (at_in_range (_lightTransformations s1) subFrame) as [lts Hlts]; [unfold size; lia|].
  destruct (at_in_range (_objectTransformations s1) subFrame) as [ots Hots]; [unfold size; lia|].
  destruct (at_in_range (_depthBuffers (_textures s1)) subFrame) as [db Hdb]; [unfold size; lia|].
  assert (Hlr : length lts = length (lights (_scene s1))).
  { rewrite Forall_forall in HLr. apply HLr. apply at_Ok in Hlts as [_ Hlts].
    eapply list_elem_of_lookup_2; eassumption. }
  assert (Hor : length ots = length (objects (_scene s1))).
  { rewrite Forall_forall in HOr. apply HOr. apply at_Ok in Hots as [_ Hots].
    eapply list_elem_of_lookup_2; eassumption. }
  unfold simulateSubFrameLight. apply post_bind, wp_get. cbv zeta.
  apply post_bind. eapply wp_lift; [exact Hts|].
  apply post_bind. eapply wp_lift; [exact Hcam|].
  apply post_bind. eapply wp_lift; [exact Hlts|].
  apply post_bind. eapply wp_lift; [exact Hots|].
  apply post_bind.
  eapply wp_mono.
  { apply (wp_fold_each_below _ _
             (fun _ (locals : Z * Transformation * list Transformation * list Transformation)
                  s' =>
                appended s0 s'
                /\ length (snd (fst locals)) = length (lights (_scene s1))
                /\ length (snd locals) = length (objects (_scene s1)))).
    - simpl. auto.
    - intros i [[[ts1 cam1] lts1] ots1] s2 Hi (Happ2 & Hl1 & Ho1). simpl in Hl1, Ho1.
      apply wp_bind.
      apply (wp_mono _ _
               (fun (locals' : Z * Transformation * list Transformation * list Transformation)
                    s' =>
                  s' = s2
                  /\ length (snd (fst locals')) = length (lights (_scene s1))
                  /\ length (snd locals') = length (objects (_scene s1)))).
      { destruct (i >? 0).
        - destruct (simulateSampleTimestamp_spec slerp s1
                      (int64 (ts + int64 (i * d))) lts1 ots1 Hvalid Hsmall Hl1 Ho1)
            as (cam' & lts' & ots' & Hsample & _ & Hlts' & Hots').
          apply wp_bind. eapply wp_lift; [exact Hsample|]. cbv beta iota.
          apply wp_ret. simpl. split; [reflexivity|].
          rewrite (interpolated_length _ _ _ _ Hlts'), (interpolated_length _ _ _ _ Hots').
          pose proof (validConfiguration_sizes s1 Hvalid) as (_ & Hla & Hoa & _). auto.
        - apply wp_ret. simpl. auto. }
      intros [[[ts2 cam2] lts2] ots2] s' (-> & Hl2 & Ho2). simpl in Hl2, Ho2.
      apply wp_bind.
      apply (wp_mono _ _ (fun _ s' => appended s0 s')).
      { apply wp_when; intros _; [|assumption].
        eapply wp_pass; [exact Happ2|auto]. }
      intros [] s3 Happ3.
      apply wp_bind.
      apply (wp_mono _ _ (fun _ s' => appended s0 s')).
      { destruct (spatialOversampling s1 || temporalOversampling s1).
        - apply wp_bind. eapply wp_pass; [exact Happ3|]. intros s4 Happ4.
          eapply wp_pass; [exact Happ4|auto].
        - apply wp_bind. eapply wp_lift; [exact Hdb|].
          eapply wp_pass; [exact Happ3|auto]. }
      intros [] s4 Happ4. apply wp_ret. simpl. auto.
    - intros locals s' H. exact H. }
  intros locals s2 (Happ2 & _).
  apply post_bind.
  apply (wp_mono _ _ (fun _ s' => appended s0 s')).
  { apply wp_when; intros Hpmd; [|assumption].
    rewrite Hpmd, texCount_true in HPMD.
    destruct (at_in_range (_pmdDigNumTexs (_textures s1)) subFrame) as [x Hx];
      [unfold size; destruct (subFrames s1 >? 1); lia|].
    apply wp_bind. eapply wp_lift; [exact Hx|].
    eapply wp_pass; [exact Happ2|auto]. }
  intros [] s3 Happ3.
  apply post_bind.
  apply (wp_mono _ _ (fun _ s' => appended s0 s')).
  { apply wp_when; intros _; [|assumption]. eapply wp_pass; [exact Happ3|auto]. }
  intros [] s4 Happ4. apply Hlast. assumption.
Qed.

Lemma simulateSubFrameLight_spec (slerp : Slerp) (subFrame d : Z) (s0 s1 : Simulator) :
  appended s0 s1 ->
  validConfiguration s1 = true -> smallAnimations s1 -> outputSized s1 ->
  0 <= subFrame < subFrames s1 ->
  (srgb (_output s1) = true -> rgb (_output s1) = true) ->
  wp (simulateSubFrameLight slerp subFrame d) s1 (fun _ s2 => appended s0 s2).
Proof.
  intros Happ Hvalid Hsmall Hsized Hsub Hsrgb.
  apply (simulateSubFrameLight_upto slerp subFrame d s0 s1
           (fun r => exists a s', r = (Ok a, s') /\ appended s0 s')); try assumption.
  intros s4 Happ4.
  change (wp (when (srgb (_output s1))
                (bind (lift (at_ (_srgbTexs (_textures s1)) subFrame)) (fun target =>
                 bind (lift (at_ (_rgbTexs (_textures s1)) subFrame)) (fun _ =>
                 pass (PassConvertToSRGB target subFrame))))) s4
             (fun _ s' => appended s0 s')).
  pose proof Hsized as (_ & _ & _ & _ & _ & _ & _ & _ & _ & _ & _ & HRGB & HSRGB & _).
  set (n := Z.to_nat (subFrames s1)) in *.
  assert (Hn : subFrames s1 = Z.of_nat n)
    by (subst n; destruct (subFrames_cases s1) as [-> | ->]; reflexivity).
  apply wp_when; intros Hs; [|assumption].
  rewrite (Hsrgb Hs) in HRGB, HSRGB. rewrite Hs in HSRGB. simpl in HRGB, HSRGB.
  destruct (at_in_range (_srgbTexs (_textures s1)) subFrame) as [x Hx];
    [unfold size; destruct (subFrames s1 >? 1); lia|].
  destruct (at_in_range (_rgbTexs (_textures s1)) subFrame) as [y Hy];
    [unfold size; destruct (subFrames s1 >? 1); lia|].
  apply wp_bind. eapply wp_lift; [exact Hx|].
  apply wp_bind. eapply wp_lift; [exact Hy|].
  eapply wp_pass; [exact Happ4|auto].
Qed.

Lemma wp_intro {A} (m : M A) (s s' : Simulator) (a : A) (Q : A -> Simulator -> Prop) :
  m s = (Ok a, s') -> Q a s' -> wp m s Q.
Proof. intros H HQ. exists a, s'. auto. Qed.

Lemma appended_config (s s' : Simulator) :
  appended s s' ->
  _cameraAnimation s' = _cameraAnimation s /\ _scene s' = _scene s
  /\ _chipTiming s' = _chipTiming s /\ _pipeline s' = _pipeline s
  /\ _output s' = _output s
  /\ _haveLastFrameTimestamp s' = _haveLastFrameTimestamp s
  /\ _lastFrameTimestamp s' = _lastFrameTimestamp s.
Proof. intros (e & b & ->). repeat split. Qed.

Lemma appended_valid (s s' : Simulator) :
  appended s s' -> validConfiguration s = true -> validConfiguration s' = true.
Proof. intros (e & b & ->) H. exact H. Qed.

Lemma appended_small (s s' : Simulator) :
  appended s s' -> smallAnimations s -> smallAnimations s'.
Proof. intros (e & b & ->) H. exact H. Qed.

Lemma simulateSubFrameFlow_spec (t subFrame : Z) (s0 s1 : Simulator) :
  appended s0 s1 -> outputSized s1 -> 0 <= subFrame < subFrames s1 ->
  wp (simulateSubFrameFlow t subFrame) s1 (fun _ s2 => appended s0 s2).
Proof.
  intros Happ Hsized Hsub.
  pose proof Hsized as (HT & _ & _ & _ & _ & _ & _ & _ & _ & _ & HD & _).
  set (n := Z.to_nat (subFrames s1)) in *.
  assert (Hn : subFrames s1 = Z.of_nat n)
    by (subst n; destruct (subFrames_cases s1) as [-> | ->]; reflexivity).
  unfold simulateSubFrameFlow. apply wp_bind, wp_get. cbv zeta.
  apply wp_bind.
  apply (wp_mono _ _ (fun _ s' => s' = s1)).
  { destruct ((subFrame =? 0) && negb (_haveLastFrameTimestamp s1));
      [apply wp_ret; reflexivity|].
    destruct (subFrame =? 0) eqn:H0; [apply wp_ret; reflexivity|].
    apply Z.eqb_neq in H0.
    destruct (at_in_range (_timestamps s1) (subFrame - 1)) as [x Hx]; [unfold size; lia|].
    eapply wp_lift; [exact Hx|reflexivity]. }
  intros lastT ? ->.
  apply wp_bind.
  apply (wp_mono _ _ (fun _ s' => s' = s1)).
  { destruct (subFrame =? subFrames s1 - 1) eqn:H0; [apply wp_ret; reflexivity|].
    apply Z.eqb_neq in H0.
    destruct (at_in_range (_timestamps s1) (subFrame + 1)) as [x Hx]; [unfold size; lia|].
    eapply wp_lift; [exact Hx|reflexivity]. }
  intros nextT ? ->.
  destruct (at_in_range (_depthBuffers (_textures s1)) subFrame) as [db Hdb];
    [unfold size; lia|].
  apply wp_bind. eapply wp_lift; [exact Hdb|].
  apply wp_bind.
  apply (wp_mono _ _ (fun _ s' => appended s0 s')).
  { destruct ((subFrame =? 0) && negb (_haveLastFrameTimestamp s1));
      [apply wp_ret; assumption|].
    destruct (subFrame =? 0) eqn:H0.
    - destruct (subFrames s1 =? 1) eqn:H1.
      + apply Z.eqb_eq in H1.
        destruct (at_in_range (_depthBuffers (_textures s1)) 0) as [d0 Hd0];
          [unfold size; lia|].
        destruct (at_in_range (_depthBuffers (_textures s1)) 1) as [d1 Hd1];
          [unfold size; lia|].
        apply wp_bind. eapply wp_lift; [exact Hd0|].
        apply wp_bind. eapply wp_lift; [exact Hd1|].
        apply wp_bind. eapply wp_pingPong; [exact Happ|]. intros s2 Happ2.
        apply wp_ret. assumption.
      + destruct (at_in_range (_depthBuffers (_textures s1)) (subFrames s1 - 1)) as [l Hl];
          [unfold size; lia|].
        apply wp_bind. eapply wp_lift; [exact Hl|]. apply wp_ret. assumption.
    - apply Z.eqb_neq in H0.
      destruct (at_in_range (_depthBuffers (_textures s1)) (subFrame - 1)) as [l Hl];
        [unfold size; lia|].
      apply wp_bind. eapply wp_lift; [exact Hl|]. apply wp_ret. assumption. }
  intros buffers s2 Happ2.
  eapply wp_pass; [exact Happ2|auto].
Qed.

Lemma simulateFinalFrames_spec (t : Z) (s0 s1 : Simulator) :
  appended s0 s1 -> outputSized s1 -> subFrames s1 > 1 ->
  wp (simulateFinalFrames t) s1 (fun _ s2 => appended s0 s2).
Proof.
  intros Happ Hsized Hsub.
  pose proof Hsized as (_ & _ & _ & _ & _ & _ & _ & _ & _ & _ & HD & HRGB
                         & HSRGB & HPMD & _).
  replace (subFrames s1 >? 1) with true in * by (symmetry; apply Z.gtb_lt; lia).
  set (n := Z.to_nat (subFrames s1)) in *.
  assert (Hn : subFrames s1 = Z.of_nat n)
    by (subst n; destruct (subFrames_cases s1) as [-> | ->]; reflexivity).
  unfold simulateFinalFrames. apply wp_bind, wp_get. cbv zeta.
  apply wp_bind.
  apply (wp_mono _ _ (fun _ s' => appended s0 s')).
  { apply wp_when; intros Hrgb; [|assumption].
    rewrite Hrgb in HRGB, HSRGB. simpl in HRGB, HSRGB.
    destruct (at_in_range (_rgbTexs (_textures s1)) (subFrames s1)) as [x Hx];
      [unfold size; lia|].
    apply wp_bind. eapply wp_lift; [exact Hx|].
    apply wp_bind. eapply wp_pass; [exact Happ|]. intros s2 Happ2.
    apply wp_when; intros Hs; [|assumption].
    rewrite Hs in HSRGB. simpl in HSRGB.
    destruct (at_in_range (_srgbTexs (_textures s1)) (subFrames s1)) as [y Hy];
      [unfold size; lia|].
    apply wp_bind. eapply wp_lift; [exact Hy|].
    eapply wp_pass; [exact Happ2|auto]. }
  intros [] s2 Happ2.
  apply wp_bind.
  apply (wp_mono _ _ (fun _ s' => appended s0 s')).
  { apply wp_when; intros Hpmd; [|assumption].
    rewrite Hpmd in HPMD. simpl in HPMD.
    destruct (at_in_range (_pmdDigNumTexs (_textures s1)) (subFrames s1)) as [x Hx];
      [unfold size; lia|].
    apply wp_bind. eapply wp_lift; [exact Hx|].
    apply wp_bind. eapply wp_pass; [exact Happ2|]. intros s3 Happ3.
    apply wp_when; intros _; [|assumption].
    eapply wp_pass; [exact Happ3|auto]. }
  intros [] s3 Happ3.
  apply wp_when; intros _; [|assumption]. cbv zeta.
  destruct (at_in_range (_depthBuffers (_textures s1)) 0) as [d0 Hd0]; [unfold size; lia|].
  destruct (at_in_range (_depthBuffers (_textures s1)) (subFrames s1)) as [dn Hdn];
    [unfold size; lia|].
  apply wp_bind.
  apply (wp_mono _ _ (fun _ s' => s' = s3)).
  { destruct (_haveLastFrameTimestamp s1); [|apply wp_ret; reflexivity].
    eapply wp_lift; [exact Hd0|reflexivity]. }
  intros ldb ? ->.
  apply wp_bind. eapply wp_lift; [exact Hdn|].
  eapply wp_pass; [exact Happ3|auto].
Qed.

(** The sub-frame loop and the final frames of [simulate]. *)
Lemma simulatePasses_spec (slerp : Slerp) (t : Z) (s1 : Simulator) :
  validConfiguration s1 = true -> smallAnimations s1 -> outputSized s1 ->
  srgbNeedsRgb s1 ->
  wp (simulatePasses slerp t) s1 (fun _ s' =>
    exists s2, appended s1 s2
               /\ s' = set_haveLastFrameTimestamp true (set_lastFrameTimestamp t s2)).
Proof.
  intros Hvalid Hsmall Hsized Hsrgb. unfold simulatePasses.
  apply wp_bind, wp_get.
  apply wp_bind.
  apply (wp_for_each_below _ _ (fun _ s' => appended s1 s')).
  - destruct (subFrames_cases s1) as [-> | ->]; lia.
  - apply appended_refl.
  - intros i s2 Hi Happ2.
    pose proof (appended_config _ _ Happ2) as (_ & Hsc & Hct & Hpl & Hout & _).
    pose proof (appended_valid _ _ Happ2 Hvalid) as Hvalid2.
    pose proof (appended_small _ _ Happ2 Hsmall) as Hsmall2.
    pose proof (appended_outputSized _ _ Happ2 Hsized) as Hsized2.
    pose proof (validConfiguration_sizes _ Hvalid2) as (_ & _ & _ & Htemp).
    assert (Hi2 : 0 <= i < subFrames s2) by (rewrite (subFrames_output _ _ Hout); exact Hi).
    apply wp_bind, wp_get.
    apply wp_bind.
    replace (temporalSamples (_pipeline s2) =? 0) with false
      by (symmetry; apply Z.eqb_neq; lia).
    eapply wp_lift; [reflexivity|].
    apply wp_bind.
    apply (wp_mono _ _ (fun _ s' => appended s1 s')).
    { apply wp_when; intros Hlight; [|assumption].
      apply simulateSubFrameLight_spec; try assumption. rewrite Hout in Hlight |- *.
      intros Hs. destruct (rgb (_output s1)) eqn:Hrgb; [reflexivity|].
      simpl in Hlight. rewrite <- Hrgb. apply Hsrgb; assumption. }
    intros [] s3 Happ3.
    apply wp_bind.
    apply (wp_mono _ _ (fun _ s' => appended s1 s')).
    { apply wp_when; intros _; [|assumption].
      pose proof Hsized2 as (_ & _ & _ & _ & _ & _ & _ & _ & _ & _ & HD & _).
      destruct (at_in_range (_depthBuffers (_textures s2)) i) as [db Hdb];
        [unfold size; lia|].
      apply wp_bind. eapply wp_lift; [exact Hdb|].
      apply wp_bind. eapply wp_pass; [exact Happ3|]. intros s4 Happ4.
      apply wp_when; intros _; [|assumption].
      eapply wp_pass; [exact Happ4|auto]. }
    intros [] s4 Happ4.
    apply wp_when; intros _; [|assumption].
    (* the flow simulation reads the simulator as it is now *)
    pose proof (appended_outputSized _ _ Happ4 Hsized) as Hsized4.
    pose proof (appended_config _ _ Happ4) as (_ & _ & _ & _ & Hout4 & _).
    apply simulateSubFrameFlow_spec; try assumption.
    rewrite (subFrames_output _ _ Hout4). exact Hi.
  - intros s2 Happ2. cbv beta.
    apply wp_bind.
    apply (wp_mono _ _ (fun _ s' => appended s1 s')).
    { apply wp_when; intros Hgt; [|assumption].
      pose proof (appended_outputSized _ _ Happ2 Hsized) as Hsized2.
      pose proof (appended_config _ _ Happ2) as (_ & _ & _ & _ & Hout & _).
      apply simulateFinalFrames_spec; try assumption.
      rewrite (subFrames_output _ _ Hout). apply Z.gtb_lt in Hgt. lia. }
    intros [] s3 Happ3.
    apply wp_bind, wp_modify. apply wp_modify.
    exists s3. split; [assumption|reflexivity].
Qed.

(** ** [simulate] on a configuration that passes the checks *)

Lemma sameBounds_valid (s s' : Simulator) :
  sameBounds s s' -> validConfiguration s' = validConfiguration s.
Proof.
  intros (_ & Hs & _ & _ & Hp & Ho & _). unfold validConfiguration.
  rewrite Hs, Hp, Ho. reflexivity.
Qed.

Lemma sameBounds_small (s s' : Simulator) :
  sameBounds s s' -> smallAnimations s -> smallAnimations s'.
Proof.
  intros (Hc & Hs & _). unfold smallAnimations, allAnimations. rewrite Hc, Hs. tauto.
Qed.

Lemma sameBounds_subFrameTimestamp (s s' : Simulator) (t i : Z) :
  sameBounds s s' -> subFrameTimestamp s' t i = subFrameTimestamp s t i.
Proof.
  intros (_ & _ & Hc & _ & Hp & _). unfold subFrameTimestamp.
  rewrite Hp, (subFrameDuration_ext _ _ Hc). reflexivity.
Qed.

Lemma sameBounds_refl (s : Simulator) : sameBounds s s.
Proof. unfold sameBounds. repeat split. Qed.

Lemma simulate_parts (link : Linker) (slerp : Slerp) (t : Z) :
  simulate link slerp t =
    bind (recreateShadersIfNecessary link) (fun _ =>
    bind recreateOutputIfNecessary (fun _ =>
    bind (simulateTimestamps slerp t) (fun _ => simulatePasses slerp t))).
Proof. reflexivity. Qed.

(** [simulate] up to the sub-frame loop: whatever holds for the result of
    [simulatePasses] on the simulator with resolved shaders, output and
    sub-frame samples holds for the result of [simulate]. *)
Lemma simulate_upto (link : Linker) (slerp : Slerp) (t : Z) (s : Simulator)
    (R : outcome unit * Simulator -> Prop) :
  validConfiguration s = true -> linksAll link s -> smallAnimations s ->
  outputReady s ->
  (forall sC,
     sameBounds s sC -> _recreateShaders sC = false -> _recreateOutput sC = false ->
     outputSized sC -> gl_passes sC = gl_passes s ->
     (_recreateOutput s = false -> _textures sC = _textures s) ->
     (_recreateShaders s = false -> _recreateOutput s = false ->
      _haveLastFrameTimestamp sC = _haveLastFrameTimestamp s
      /\ _lastFrameTimestamp sC = _lastFrameTimestamp s
      /\ depthBufferPingPong sC = depthBufferPingPong s) ->
     ((_recreateShaders s = true \/ _recreateOutput s = true) ->
      _haveLastFrameTimestamp sC = false
      /\ depthBufferPingPong sC = depthBufferPingPong s) ->
     _timestamps sC = (subFrameTimestamp s t <$> seqZ 0 (subFrames s)) ->
     Forall2 (fun ts cam => interpolate slerp (_cameraAnimation s) ts = Ok cam)
             (_timestamps sC) (_cameraTransformations sC) ->
     Forall2 (interpolated slerp (lightAnimations (_scene s)))
             (_timestamps sC) (_lightTransformations sC) ->
     Forall2 (interpolated slerp (objectAnimations (_scene s)))
             (_timestamps sC) (_objectTransformations sC) ->
     R (simulatePasses slerp t sC)) ->
  R (simulate link slerp t s).
Proof.
  intros Hvalid Hlink Hsmall Hready Hrest.
  rewrite simulate_parts.
  apply post_bind. eapply wp_intro; [apply recreateShaders_valid; assumption|].
  apply post_bind. eapply wp_mono; [apply recreateOutput_spec|]. intros [] sB HB.
  (* the simulator after the two "recreate" steps *)
  assert (HsB : sameBounds s sB /\ _recreateShaders sB = false
                /\ _recreateOutput sB = false /\ outputSized sB
                /\ gl_passes sB = gl_passes s
                /\ (_recreateOutput s = false -> _textures sB = _textures s)
                /\ (_recreateShaders s = false -> _recreateOutput s = false ->
                    _haveLastFrameTimestamp sB = _haveLastFrameTimestamp s
                    /\ _lastFrameTimestamp sB = _lastFrameTimestamp s
                    /\ depthBufferPingPong sB = depthBufferPingPong s)
                /\ ((_recreateShaders s = true \/ _recreateOutput s = true) ->
                    _haveLastFrameTimestamp sB = false
                    /\ depthBufferPingPong sB = depthBufferPingPong s)).
  { destruct (_recreateShaders s) eqn:Hf1; fields in HB;
      destruct (_recreateOutput s) eqn:Hf2;
      [destruct HB as (T & C & L & O & TX & g & -> & Hsz)|subst sB
      |destruct HB as (T & C & L & O & TX & g & -> & Hsz)|subst sB];
      (split; [unfold sameBounds; repeat split|]);
      (split; [first [reflexivity|exact Hf1]|]);
      (split; [first [reflexivity|exact Hf2]|]);
      (split; [|split; [reflexivity|split; [|split]]]);
      try assumption;
      try (intros Hx; first [discriminate Hx|reflexivity]);
      try (intros Hx Hy; first [discriminate Hx|discriminate Hy|repeat split]);
      try (intros _; split; reflexivity);
      try (intros [Hx|Hx]; discriminate Hx).
    - apply (outputSized_ext s); try reflexivity. apply Hready. assumption.
    - apply Hready. assumption. }
  clear HB.
  destruct HsB as (Hsame & Hsh & Hro & Hsized & Hpasses & Htex & Hkeep & Hreset).
  assert (HvalidB : validConfiguration sB = true)
    by (rewrite (sameBounds_valid _ _ Hsame); assumption).
  pose proof (sameBounds_small _ _ Hsame Hsmall) as HsmallB.
  pose proof Hsame as (HcamB & HsceneB & HchipB & _ & HpipeB & HoutB & HrtB & HstB & HenB).
  destruct (simulateTimestamps_spec slerp t sB HvalidB HsmallB Hsized)
    as (T & C & L & O & Hrun & HT & HC & HL & HO).
  apply post_bind. eapply wp_intro; [exact Hrun|].
  (* the simulator with the sub-frame samples *)
  pose proof (validConfiguration_sizes _ HvalidB) as (_ & Hla & Hoa & _).
  assert (HlenT : length T = Z.to_nat (subFrames sB)).
  { rewrite HT, length_fmap, length_seqZ. reflexivity. }
  assert (HsizedC : outputSized (withSamples T C L O sB)).
  { destruct Hsized as (_ & _ & _ & _ & _ & _ & Hsz).
    unfold outputSized.
    rewrite (subFrames_output sB (withSamples T C L O sB)) by reflexivity. fields.
    split; [assumption|].
    split; [rewrite <- (Forall2_length _ _ _ HC); assumption|].
    split; [rewrite <- (Forall2_length _ _ _ HL); assumption|].
    split.
    { apply Forall_forall. intros row Hrow.
      apply list_elem_of_lookup in Hrow as [j Hj].
      destruct (Forall2_lookup_r _ _ _ _ _ HL Hj) as (ts & _ & Hrow).
      rewrite (interpolated_length _ _ _ _ Hrow). assumption. }
    split; [rewrite <- (Forall2_length _ _ _ HO); assumption|].
    split.
    { apply Forall_forall. intros row Hrow.
      apply list_elem_of_lookup in Hrow as [j Hj].
      destruct (Forall2_lookup_r _ _ _ _ _ HO Hj) as (ts & _ & Hrow).
      rewrite (interpolated_length _ _ _ _ Hrow). assumption. }
    exact Hsz. }
  apply Hrest; try assumption.
  - fields. rewrite HT, (subFrames_output _ _ HoutB). apply list_fmap_ext.
    intros i x _. apply sameBounds_subFrameTimestamp. assumption.
  - fields. rewrite <- HcamB. assumption.
  - fields. rewrite <- HsceneB. assumption.
  - fields. rewrite <- HsceneB. assumption.
Qed.

Lemma sameBounds_srgbNeedsRgb (s s' : Simulator) :
  sameBounds s s' -> srgbNeedsRgb s -> srgbNeedsRgb s'.
Proof. intros (_ & _ & _ & _ & _ & Ho & _). unfold srgbNeedsRgb. rewrite Ho. tauto. Qed.

Lemma simulate_spec (link : Linker) (slerp : Slerp) (t : Z) (s : Simulator) :
  validConfiguration s = true -> linksAll link s -> smallAnimations s ->
  outputReady s -> srgbNeedsRgb s ->
  wp (simulate link slerp t) s (fun _ s' => frameRecorded slerp t s s').
Proof.
  intros Hvalid Hlink Hsmall Hready Hsrgb.
  apply (simulate_upto link slerp t s
           (fun r => exists a s', r = (Ok a, s') /\ frameRecorded slerp t s s'));
    try assumption.
  intros sC Hsame Hsh Hro Hsized Hpasses Htex _ _ HT HC HL HO.
  change (wp (simulatePasses slerp t) sC (fun _ s' => frameRecorded slerp t s s')).
  eapply wp_mono.
  { apply simulatePasses_spec; try assumption.
    - rewrite (sameBounds_valid _ _ Hsame). assumption.
    - eapply sameBounds_small; eassumption.
    - eapply sameBounds_srgbNeedsRgb; eassumption. }
  intros [] s' (sD & (extra & B & ->) & ->).
  unfold frameRecorded. fields.
  split; [exact Hsame|]. split; [assumption|]. split; [assumption|].
  split; [apply (outputSized_ext sC); try reflexivity; assumption|].
  split; [reflexivity|]. split; [reflexivity|].
  split; [assumption|]. split; [assumption|]. split; [assumption|]. split; [assumption|].
  split; [exists extra; rewrite Hpasses; reflexivity|assumption].
Qed.

(** ** The sizes of the output vectors are an invariant *)

Lemma wlp_ret {A} (a : A) s (Q : A -> Simulator -> Prop) : Q a s -> wlp (ret a) s Q.
Proof. intros H a' s' [= <- <-]. assumption. Qed.

Lemma wlp_get s (Q : Simulator -> Simulator -> Prop) : Q s s -> wlp get s Q.
Proof. intros H a' s' [= <- <-]. assumption. Qed.

Lemma wlp_modify (f : Simulator -> Simulator) s (Q : unit -> Simulator -> Prop) :
  Q tt (f s) -> wlp (modify f) s Q.
Proof. intros H [] s' [= <-]. assumption. Qed.

Lemma wlp_lift {A} (x : outcome A) s (Q : A -> Simulator -> Prop) :
  (forall a, x = Ok a -> Q a s) -> wlp (lift x) s Q.
Proof. intros H a s' [= -> <-]. apply H. reflexivity. Qed.

Lemma wlp_exit (msg : string) s (Q : unit -> Simulator -> Prop) : wlp (exit msg) s Q.
Proof. intros a s' H. discriminate H. Qed.

Lemma wlp_bind {A B} (m : M A) (f : A -> M B) s (Q : B -> Simulator -> Prop) :
  wlp m s (fun a s1 => wlp (f a) s1 Q) -> wlp (bind m f) s Q.
Proof.
  intros H b s' Hb. apply bind_Ok in Hb as (a & s1 & Hm & Hf).
  exact (H a s1 Hm b s' Hf).
Qed.

Lemma wlp_mono {A} (m : M A) s (Q Q' : A -> Simulator -> Prop) :
  wlp m s Q -> (forall a s', Q a s' -> Q' a s') -> wlp m s Q'.
Proof. intros H HQ a s' Hm. apply HQ, H. assumption. Qed.

Lemma wlp_when (c : bool) (m : M unit) s (Q : unit -> Simulator -> Prop) :
  (c = true -> wlp m s Q) -> (c = false -> Q tt s) -> wlp (when c m) s Q.
Proof. destruct c; simpl; intros H1 H2; [apply H1|apply wlp_ret, H2]; reflexivity. Qed.

Lemma wlp_wp {A} (m : M A) s (Q : A -> Simulator -> Prop) : wp m s Q -> wlp m s Q.
Proof. intros (a & s' & Hm & HQ) a' s'' Hm'. rewrite Hm in Hm'. injection Hm' as <- <-. exact HQ. Qed.

Lemma wlp_for_each {A} (l : list A) (body : A -> M unit) (Inv : Simulator -> Prop)
    (s : Simulator) (Q : unit -> Simulator -> Prop) :
  Inv s ->
  (forall i s1, i ∈ l -> Inv s1 -> wlp (body i) s1 (fun _ s2 => Inv s2)) ->
  (forall s', Inv s' -> Q tt s') ->
  wlp (for_each l body) s Q.
Proof.
  revert s. induction l as [|i l IH]; intros s Hinv Hbody HQ; simpl.
  - apply wlp_ret. auto.
  - apply wlp_bind. eapply wlp_mono; [apply (Hbody i s); [left|assumption]|].
    intros [] s1 H1. apply IH; [assumption| |assumption].
    intros j s2 Hj. apply Hbody. right. assumption.
Qed.

Lemma wlp_fold_each {A B} (l : list A) (body : B -> A -> M B)
    (Inv : B -> Simulator -> Prop) (b : B) (s : Simulator)
    (Q : B -> Simulator -> Prop) :
  Inv b s ->
  (forall i b1 s1, Inv b1 s1 -> wlp (body b1 i) s1 Inv) ->
  (forall b' s', Inv b' s' -> Q b' s') ->
  wlp (fold_each l b body) s Q.
Proof.
  revert b s. induction l as [|i l IH]; intros b s Hinv Hbody HQ; simpl.
  - apply wlp_ret. auto.
  - apply wlp_bind. eapply wlp_mono; [apply (Hbody i b s); assumption|].
    intros b1 s1 H1. apply IH; assumption.
Qed.

Lemma ofold_inv {A B} (body : B -> A -> outcome B) (Inv : B -> Prop) (l : list A) :
  forall b b', Inv b ->
    (forall i b1 b2, Inv b1 -> body b1 i = Ok b2 -> Inv b2) ->
    ofold body l b = Ok b' -> Inv b'.
Proof.
  induction l as [|i l IH]; intros b b' Hinv Hbody H; simpl in H.
  - injection H as <-. assumption.
  - destruct (body b i) as [b1|e] eqn:Hb; simpl in H; [|discriminate].
    eapply IH; [|exact Hbody|exact H]. eapply Hbody; eassumption.
Qed.

Lemma set_at_length {A} (l l' : list A) (i : Z) (v : A) :
  set_at l i v = Ok l' -> length l' = length l.
Proof.
  unfold set_at. destruct ((0 <=? i) && (i <? Z.of_nat (length l))); [|discriminate].
  intros [= <-]. apply length_insert.
Qed.

Lemma set_at_Forall {A} (P : A -> Prop) (l l' : list A) (i : Z) (v : A) :
  set_at l i v = Ok l' -> Forall P l -> P v -> Forall P l'.
Proof.
  unfold set_at. destruct ((0 <=? i) && (i <? Z.of_nat (length l))); [|discriminate].
  intros [= <-] Hl Hv. apply Forall_insert; assumption.
Qed.

Lemma at_elem {A} (l : list A) (i : Z) (x : A) : at_ l i = Ok x -> x ∈ l.
Proof. intros H. apply at_Ok in H as [_ H]. eapply list_elem_of_lookup_2. eassumption. Qed.

Lemma interpolateAll_length (slerp : Slerp) (animations : list Animation) (n t : Z)
    (trs trs' : list Transformation) :
  interpolateAll slerp animations n t trs = Ok trs' -> length trs' = length trs.
Proof.
  unfold interpolateAll. intros H.
  eapply (ofold_inv _ (fun l => length l = length trs)); [reflexivity| |exact H].
  intros i l1 l2 Hl1 Hbody. cbv beta in Hbody.
  destruct (at_ animations i); simpl in Hbody; [|discriminate].
  destruct (interpolate slerp a t); simpl in Hbody; [|discriminate].
  rewrite (set_at_length _ _ _ _ Hbody). assumption.
Qed.

Lemma simulateSampleTimestamp_length (slerp : Slerp) (s : Simulator) (t : Z)
    (lts ots lts' ots' : list Transformation) (cam : Transformation) :
  simulateSampleTimestamp slerp s t lts ots = Ok (cam, lts', ots') ->
  length lts' = length lts /\ length ots' = length ots.
Proof.
  unfold simulateSampleTimestamp. intros H.
  destruct (interpolate slerp (_cameraAnimation s) t); simpl in H; [|discriminate].
  destruct (interpolateAll slerp (lightAnimations (_scene s)) _ t lts) as [l1|] eqn:H1;
    simpl in H; [|discriminate].
  destruct (interpolateAll slerp (objectAnimations (_scene s)) _ t ots) as [l2|] eqn:H2;
    simpl in H; [|discriminate].
  injection H as _ <- <-.
  split; eapply interpolateAll_length; eassumption.
Qed.

Lemma simulateTimestamps_sized (slerp : Slerp) (t : Z) (s : Simulator) :
  outputSized s ->
  wlp (simulateTimestamps slerp t) s (fun _ s' =>
    outputSized s' /\ _recreateOutput s' = _recreateOutput s).
Proof.
  intros Hsized. unfold simulateTimestamps. apply wlp_bind, wlp_get.
  apply (wlp_for_each _ _ (fun s1 =>
           outputSized s1 /\ _recreateOutput s1 = _recreateOutput s)); [auto| |auto].
  intros i s1 _ [Hs1 Hflag].
  apply wlp_bind, wlp_get. cbv zeta.
  apply wlp_bind, wlp_lift. intros T' HT'.
  apply wlp_bind, wlp_modify.
  apply wlp_bind, wlp_lift. intros c0 _.
  apply wlp_bind, wlp_lift. intros lrow Hlrow.
  apply wlp_bind, wlp_lift. intros orow Horow.
  apply wlp_bind, wlp_lift. intros [[cam lts'] ots'] Hsample. cbv beta iota.
  apply wlp_bind, wlp_lift. intros C' HC'.
  apply wlp_bind, wlp_modify.
  apply wlp_bind, wlp_lift. intros L' HL'.
  apply wlp_bind, wlp_modify.
  apply wlp_bind, wlp_lift. intros O' HO'.
  apply wlp_modify.
  split; [|exact Hflag].
  destruct Hs1 as (HT & HC & HL & HLr & HO & HOr & Hrest).
  apply simulateSampleTimestamp_length in Hsample as [Hl Ho].
  unfold outputSized.
  match goal with |- context [subFrames ?st] =>
    rewrite (subFrames_output s1 st) by reflexivity end.
  fields.
  rewrite (set_at_length _ _ _ _ HT'), (set_at_length _ _ _ _ HC'),
    (set_at_length _ _ _ _ HL'), (set_at_length _ _ _ _ HO').
  split; [assumption|]. split; [assumption|]. split; [assumption|].
  split.
  { eapply set_at_Forall; [exact HL'|assumption|]. rewrite Hl.
    rewrite Forall_forall in HLr. apply HLr. eapply at_elem. eassumption. }
  split; [assumption|].
  split.
  { eapply set_at_Forall; [exact HO'|assumption|]. rewrite Ho.
    rewrite Forall_forall in HOr. apply HOr. eapply at_elem. eassumption. }
  exact Hrest.
Qed.

(** Steps that keep a relation that need not be respected by all
    assignments of [simulate]. *)
Section KeepsPreorder.

Context (R : relation Simulator) `{!PreOrder R}.

Lemma pkeeps_ret {A} (a : A) : keeps R (ret a).
Proof. intros s. reflexivity. Qed.

Lemma pkeeps_get : keeps R get.
Proof. intros s. reflexivity. Qed.

Lemma pkeeps_lift {A} (x : outcome A) : keeps R (lift x).
Proof. intros s. reflexivity. Qed.

Lemma pkeeps_exit (msg : string) : keeps R (exit msg).
Proof. intros s. reflexivity. Qed.

Lemma pkeeps_modify (f : Simulator -> Simulator) :
  (forall s, R s (f s)) -> keeps R (modify f).
Proof. intros H s. apply H. Qed.

Lemma pkeeps_bind {A B} (m : M A) (f : A -> M B) :
  keeps R m -> (forall a, keeps R (f a)) -> keeps R (bind m f).
Proof.
  intros Hm Hf s. unfold bind. specialize (Hm s).
  destruct (m s) as [[a|e] s1]; simpl in *; [|assumption].
  etransitivity; [exact Hm|apply Hf].
Qed.

Lemma pkeeps_when (c : bool) (m : M unit) : keeps R m -> keeps R (when c m).
Proof. intros H. destruct c; [exact H|apply pkeeps_ret]. Qed.

Lemma pkeeps_for_each {A} (l : list A) (body : A -> M unit) :
  (forall i, keeps R (body i)) -> keeps R (for_each l body).
Proof.
  intros H. induction l as [|i l IH]; simpl; [apply pkeeps_ret|].
  apply pkeeps_bind; [apply H|intros _; exact IH].
Qed.

Lemma pkeeps_fold_each {A B} (l : list A) (b : B) (body : B -> A -> M B) :
  (forall b i, keeps R (body b i)) -> keeps R (fold_each l b body).
Proof.
  intros H. revert b. induction l as [|i l IH]; intros b; simpl; [apply pkeeps_ret|].
  apply pkeeps_bind; [apply H|intros b'; apply IH].
Qed.

Lemma pkeeps_linkOrExit (link : Linker) (prg : Program) (msg : string) :
  keeps R (linkOrExit link prg msg).
Proof. unfold linkOrExit. destruct (link prg); [apply pkeeps_ret|apply pkeeps_exit]. Qed.

End KeepsPreorder.

#[local] Instance outputKept_preorder : PreOrder outputKept.
Proof.
  split.
  - intros s. unfold outputKept, sameOutput. repeat split.
  - intros s1 s2 s3. unfold outputKept, sameOutput. intuition congruence.
Qed.

Ltac kept_apply lem :=
  apply lem; try match goal with |- PreOrder _ => exact _ end.

Lemma outputKept_pass (p : RenderPass) : keeps outputKept (pass p).
Proof.
  unfold pass. kept_apply @pkeeps_modify.
  intros s. unfold outputKept, sameOutput. simpl. repeat split.
Qed.

Ltac kept_step :=
  lazymatch goal with
  | |- keeps _ (ret _) => kept_apply @pkeeps_ret
  | |- keeps _ get => kept_apply @pkeeps_get
  | |- keeps _ (lift _) => kept_apply @pkeeps_lift
  | |- keeps _ (exit _) => kept_apply @pkeeps_exit
  | |- keeps _ (pass _) => apply outputKept_pass
  | |- keeps _ (linkOrExit _ _ _) => kept_apply @pkeeps_linkOrExit
  | |- keeps _ (modify _) =>
      kept_apply @pkeeps_modify; intros ?;
      unfold outputKept, sameOutput; simpl; repeat split
  | |- keeps _ (bind _ _) => kept_apply @pkeeps_bind; [|intros ?]
  | |- keeps _ (when _ _) => kept_apply @pkeeps_when
  | |- keeps _ (for_each _ _) => kept_apply @pkeeps_for_each; intros ?
  | |- keeps _ (fold_each _ _ _) => kept_apply @pkeeps_fold_each; intros ? ?
  | |- keeps _ (if ?c then _ else _) => destruct c
  | |- keeps _ (match ?x with (_, _) => _ end) => destruct x
  end.

Ltac kept_tac := repeat kept_step.

Lemma outputKept_recreateShaders (link : Linker) :
  keeps outputKept (recreateShadersIfNecessary link).
Proof. unfold recreateShadersIfNecessary. kept_tac. Qed.

Lemma outputKept_simulateSubFrameLight (slerp : Slerp) (subFrame d : Z) :
  keeps outputKept (simulateSubFrameLight slerp subFrame d).
Proof. unfold simulateSubFrameLight. kept_tac. Qed.

Lemma outputKept_simulateSubFrameFlow (t subFrame : Z) :
  keeps outputKept (simulateSubFrameFlow t subFrame).
Proof. unfold simulateSubFrameFlow. kept_tac. Qed.

Lemma outputKept_simulateFinalFrames (t : Z) :
  keeps outputKept (simulateFinalFrames t).
Proof. unfold simulateFinalFrames. kept_tac. Qed.

Lemma outputKept_sized (s s' : Simulator) :
  outputKept s s' -> outputSized s -> outputSized s'.
Proof.
  intros [(H1 & H2 & H3 & H4 & H5 & H6 & H7 & H8) _]. apply outputSized_ext; assumption.
Qed.

Lemma outputKept_ready (s s' : Simulator) :
  outputKept s s' -> outputReady s -> outputReady s'.
Proof.
  intros Hk Hr Hflag. eapply outputKept_sized; [exact Hk|].
  apply Hr. destruct Hk as [_ Hf]. congruence.
Qed.

Lemma wlp_keeps {A} (R : relation Simulator) (m : M A) (s : Simulator) :
  keeps R m -> wlp m s (fun _ s' => R s s').
Proof. intros H a s' Hm. specialize (H s). rewrite Hm in H. exact H. Qed.

(** After [simulate] has returned, the output vectors have the sizes of the
    configuration. *)
Lemma simulate_sized (link : Linker) (slerp : Slerp) (t : Z) (s : Simulator) :
  outputReady s ->
  wlp (simulate link slerp t) s (fun _ s' =>
    outputSized s' /\ _recreateOutput s' = false).
Proof.
  intros Hready. unfold simulate.
  apply wlp_bind.
  eapply wlp_mono; [apply wlp_keeps, outputKept_recreateShaders|].
  intros [] sA HA. cbv beta.
  pose proof (outputKept_ready _ _ HA Hready) as HreadyA.
  apply wlp_bind.
  eapply wlp_mono; [apply wlp_wp, recreateOutput_spec|].
  intros [] sB HB. cbv beta in HB |- *.
  assert (HsB : outputSized sB /\ _recreateOutput sB = false).
  { destruct (_recreateOutput sA) eqn:Hflag.
    - destruct HB as (T & C & L & O & TX & g & -> & Hsz). split; [assumption|reflexivity].
    - subst sB. split; [apply HreadyA; assumption|assumption]. }
  clear HB. destruct HsB as [HsizedB HflagB].
  apply wlp_bind.
  eapply wlp_mono; [apply simulateTimestamps_sized; assumption|].
  intros [] sC [HsizedC HflagC]. cbv beta.
  eapply wlp_mono.
  { apply (wlp_keeps outputKept). kept_tac.
    - apply outputKept_simulateSubFrameLight.
    - apply outputKept_simulateSubFrameFlow.
    - apply outputKept_simulateFinalFrames. }
  intros [] s' Hk. cbv beta in Hk. split.
  - eapply outputKept_sized; eassumption.
  - destruct Hk as [_ Hf]. congruence.
Qed.

Lemma recreateTimestamps_outputKept (s : Simulator) :
  outputKept s (recreateTimestampsIfNecessary s).
Proof.
  unfold recreateTimestampsIfNecessary, outputKept, sameOutput.
  destruct (_recreateTimestamps s); simpl; repeat split.
Qed.

Lemma call_outputReady (link : Linker) (slerp : Slerp) (c : Call) (s s' : Simulator) :
  outputReady s -> call link slerp c s = (Ok tt, s') -> outputReady s'.
Proof.
  intros H Hc. destruct c as [a|sc|ct|pr|pl|o| | | |ft]; simpl in Hc.
  1-6: unfold modify in Hc; injection Hc as <-.
  - eapply outputKept_ready; [|exact H]. unfold outputKept, sameOutput. simpl. repeat split.
  - intros Hf. discriminate Hf.
  - eapply outputKept_ready; [|exact H]. unfold outputKept, sameOutput. simpl. repeat split.
  - intros Hf. discriminate Hf.
  - intros Hf. discriminate Hf.
  - intros Hf. discriminate Hf.
  - unfold bind, liftS, startTimestamp in Hc. simpl in Hc. injection Hc as <-.
    eapply outputKept_ready; [apply recreateTimestamps_outputKept|exact H].
  - unfold bind, liftS, endTimestamp in Hc. simpl in Hc. injection Hc as <-.
    eapply outputKept_ready; [apply recreateTimestamps_outputKept|exact H].
  - unfold bind, liftS, nextFrameTimestamp, startTimestamp in Hc.
    destruct (_haveLastFrameTimestamp (recreateTimestampsIfNecessary s)); simpl in Hc;
      injection Hc as <-.
    + eapply outputKept_ready; [apply recreateTimestamps_outputKept|exact H].
    + eapply outputKept_ready; [apply recreateTimestamps_outputKept|].
      eapply outputKept_ready; [apply recreateTimestamps_outputKept|exact H].
  - intros _. apply (simulate_sized link slerp ft s H tt s' Hc).
Qed.

Lemma run_outputReady (link : Linker) (slerp : Slerp) (cs : list Call) :
  forall s s', outputReady s -> run link slerp cs s = (Ok tt, s') -> outputReady s'.
Proof.
  induction cs as [|c cs IH]; intros s s' H Hrun.
  - injection Hrun as <-. exact H.
  - unfold run in Hrun. simpl in Hrun. apply bind_Ok in Hrun as ([] & s1 & Hc & Hrun).
    apply (IH s1 s'); [|exact Hrun]. eapply call_outputReady; eassumption.
Qed.

Lemma reachable_outputReady (link : Linker) (slerp : Slerp) (s : Simulator) :
  reachable link slerp s -> outputReady s.
Proof.
  intros (cs & start0 & end0 & have0 & last0 & Hrun).
  eapply run_outputReady; [|exact Hrun]. intros Hf. discriminate Hf.
Qed.

(** X9: the output vectors of a simulator always have the sizes that the
    comments of simulator.hpp give for them ("subFrames", "subFrames+1",
    "one per light"), computed from the current configuration, unless the
    output is marked for recreation: this holds for every simulator that a
    program can reach from a new one. *)
Theorem output_vectors_sized (link : Linker) (slerp : Slerp) (s : Simulator) :
  reachable link slerp s -> _recreateOutput s = false -> outputSized s.
Proof. intros Hr. apply reachable_outputReady in Hr. exact Hr. Qed.

Lemma output_vectors_sized_witness :
  outputSized (snd (run link_all slerp_stub
                      [CallSetScene twoByTwoScene; CallSetOutput pmdOutput; CallSimulate 0]
                      (Simulator_new 0 0 false 0))).
Proof.
  apply (output_vectors_sized link_all slerp_stub).
  - exists [CallSetScene twoByTwoScene; CallSetOutput pmdOutput; CallSimulate 0],
      0, 0, false, 0.
    vm_compute. reflexivity.
  - vm_compute. reflexivity.
Defined.


(** ** Result accessors never read outside of the output vectors *)

Lemma firstOr_in_range {A} (l : list A) (i : Z) (n : nat) :
  length l = n -> (1 <= n)%nat -> -1 <= i < Z.of_nat n -> exists x, firstOr l i = Ok x.
Proof.
  intros Hlen Hn1 Hi. unfold firstOr. destruct (i =? -1) eqn:E.
  - apply at_in_range. unfold size. lia.
  - apply Z.eqb_neq in E. apply at_in_range. unfold size. lia.
Qed.

Lemma lastOr_in_range {A} (l : list A) (i : Z) (n m : nat) :
  length l = m -> (1 <= n <= m)%nat -> -1 <= i < Z.of_nat n ->
  exists x, lastOr l i = Ok x.
Proof.
  intros Hlen Hnm Hi. unfold lastOr, back. destruct (i =? -1) eqn:E.
  - apply at_in_range. unfold size. lia.
  - apply Z.eqb_neq in E. apply at_in_range. unfold size. lia.
Qed.

Lemma getTex_in_range (k : OutputKind) (s : Simulator) (i : Z) :
  outputReady s -> exists h, getTex k s i = Ok h.
Proof.
  intros Hready.
  destruct (haveValidOutput s (indexOf k i)) eqn:Hv.
  2:{ exists 0. apply getTex_guard. rewrite Hv. apply andb_false_r. }
  apply haveValidOutput_true in Hv as (Hflag & Hlast & Hi).
  destruct (enabled k s) eqn:He.
  2:{ exists 0. apply getTex_guard. rewrite He. reflexivity. }
  pose proof (Hready Hflag)
    as (_ & _ & _ & _ & _ & _ & Hsm & Hsmr & Hrf & Hrfr & HD & HRGB & HSRGB & HPMD
        & He1 & He2 & He3 & He4 & He5 & He6 & Hf1 & Hf2 & Hf3 & Hf4).
  set (n := Z.to_nat (subFrames s)) in *.
  assert (Hn : subFrames s = Z.of_nat n)
    by (subst n; destruct (subFrames_cases s) as [-> | ->]; reflexivity).
  rewrite Hn in Hi.
  assert (Hn1 : (1 <= n)%nat) by (destruct (subFrames_cases s); lia).
  assert (Hvalid : forall j, indexOf k i = j -> haveValidOutput s j = true).
  { intros j <-. apply haveValidOutput_true. rewrite Hn. repeat split; try assumption; lia. }
  assert (Hnm : (1 <= n <= n + (if subFrames s >? 1 then 1 else 0))%nat)
    by (destruct (subFrames s >? 1); lia).
  destruct k; simpl in He, Hi |- *; specialize (Hvalid _ eq_refl); simpl in Hvalid.
  3:{ unfold getDepthTex. rewrite He, Hvalid. simpl.
      eapply firstOr_in_range; [exact HD|lia|lia]. }
  3:{ unfold getRGBTex. rewrite He, Hvalid. simpl. rewrite He in HRGB.
      eapply (lastOr_in_range _ _ n); [exact HRGB|exact Hnm|lia]. }
  3:{ unfold getSRGBTex. rewrite He, Hvalid. simpl. rewrite He in HSRGB.
      eapply (lastOr_in_range _ _ n); [exact HSRGB|exact Hnm|lia]. }
  3:{ unfold getPMDTex. rewrite He, Hvalid. simpl. rewrite He in HPMD.
      eapply (lastOr_in_range _ _ n); [exact HPMD|exact Hnm|lia]. }
  3:{ unfold getPMDCoordinatesTex. rewrite He, Hvalid. simpl. eexists. reflexivity. }
  3:{ unfold getEyeSpacePositionsTex. rewrite He, Hvalid. simpl. rewrite He in He1.
      eapply (firstOr_in_range _ _ n); [exact He1|lia|lia]. }
  3:{ unfold getCustomSpacePositionsTex. rewrite He, Hvalid. simpl. rewrite He in He2.
      eapply (firstOr_in_range _ _ n); [exact He2|lia|lia]. }
  3:{ unfold getEyeSpaceNormalsTex. rewrite He, Hvalid. simpl. rewrite He in He3.
      eapply (firstOr_in_range _ _ n); [exact He3|lia|lia]. }
  3:{ unfold getCustomSpaceNormalsTex. rewrite He, Hvalid. simpl. rewrite He in He4.
      eapply (firstOr_in_range _ _ n); [exact He4|lia|lia]. }
  3:{ unfold getDepthAndRangeTex. rewrite He, Hvalid. simpl. rewrite He in He5.
      eapply (firstOr_in_range _ _ n); [exact He5|lia|lia]. }
  3:{ unfold getIndicesTex. rewrite He, Hvalid. simpl. rewrite He in He6.
      eapply (firstOr_in_range _ _ n); [exact He6|lia|lia]. }
  3:{ unfold getForwardFlow3DTex. rewrite He, Hvalid. simpl. rewrite He in Hf1.
      eapply (lastOr_in_range _ _ n); [exact Hf1|exact Hnm|lia]. }
  3:{ unfold getForwardFlow2DTex. rewrite He, Hvalid. simpl. rewrite He in Hf2.
      eapply (lastOr_in_range _ _ n); [exact Hf2|exact Hnm|lia]. }
  3:{ unfold getBackwardFlow3DTex. rewrite He, Hvalid. simpl. rewrite He in Hf3.
      eapply (lastOr_in_range _ _ n); [exact Hf3|exact Hnm|lia]. }
  3:{ unfold getBackwardFlow2DTex. rewrite He, Hvalid. simpl. rewrite He in Hf4.
      eapply (lastOr_in_range _ _ n); [exact Hf4|exact Hnm|lia]. }
  - (* shadow map *)
    unfold getShadowMapCubeTex. rewrite He, Hvalid. simpl.
    unfold haveShadowMap in He.
    rewrite !andb_true_iff in He. destruct He as (((Hs & H0) & H1) & _).
    rewrite Hs in Hsm. simpl in Hsm.
    destruct (firstOr_in_range (_shadowMapDepthBufs (_textures s)) i n Hsm Hn1 Hi) as [row Hrow].
    rewrite Hrow. simpl. apply at_in_range.
    assert (Hin : row ∈ _shadowMapDepthBufs (_textures s)).
    { unfold firstOr in Hrow. destruct (i =? -1); eapply at_elem; eassumption. }
    rewrite Forall_forall in Hsmr. pose proof (Hsmr _ Hin) as Hrl.
    apply Z.geb_le in H0. apply Z.ltb_lt in H1. unfold size in *. lia.
  - (* reflective shadow map *)
    unfold getReflectiveShadowMapCubeArrayTex. rewrite He, Hvalid. simpl.
    unfold haveReflectiveShadowMap in He.
    rewrite !andb_true_iff in He. destruct He as (((Hs & H0) & H1) & _).
    rewrite Hs in Hrf. simpl in Hrf.
    destruct (firstOr_in_range (_reflectiveShadowMapTexs (_textures s)) i n Hrf Hn1 Hi)
      as [row Hrow].
    rewrite Hrow. simpl. apply at_in_range.
    assert (Hin : row ∈ _reflectiveShadowMapTexs (_textures s)).
    { unfold firstOr in Hrow. destruct (i =? -1); eapply at_elem; eassumption. }
    rewrite Forall_forall in Hrfr. pose proof (Hrfr _ Hin) as Hrl.
    apply Z.geb_le in H0. apply Z.ltb_lt in H1. unfold size in *. lia.
Qed.

Lemma getTimestamp_in_range (s : Simulator) (i : Z) :
  outputReady s -> _recreateOutput s = false -> exists v, getTimestamp s i = Ok v.
Proof.
  intros Hready Hflag. unfold getTimestamp.
  destruct (negb (_haveLastFrameTimestamp s) || (i <? -1) || (i >=? subFrames s)) eqn:E;
    [eexists; reflexivity|].
  apply orb_false_iff in E as [E E3]. apply orb_false_iff in E as [_ E2].
  apply Z.ltb_ge in E2. rewrite Z.geb_leb in E3. apply Z.leb_gt in E3.
  destruct (Hready Hflag) as (HT & _).
  apply at_in_range. unfold size. rewrite HT.
  destruct (subFrames_cases s) as [Hn | Hn]; rewrite Hn in *; destruct (i <? 0) eqn:E0;
    try (apply Z.ltb_ge in E0); simpl; lia.
Qed.

Lemma getCameraTransformation_in_range (s : Simulator) (i : Z) :
  outputReady s -> exists tr, getCameraTransformation s i = Ok tr.
Proof.
  intros Hready. unfold getCameraTransformation.
  destruct (haveValidOutput s i) eqn:Hv; [|eexists; reflexivity].
  apply haveValidOutput_true in Hv as (Hflag & _ & Hi).
  destruct (Hready Hflag) as (_ & HC & _).
  eapply (firstOr_in_range _ _ (Z.to_nat (subFrames s))); [exact HC| |];
    destruct (subFrames_cases s) as [Hn | Hn]; rewrite Hn in *; simpl; lia.
Qed.

(** X11: on every simulator that a program can reach, none of the 17
    texture accessors reads outside of its texture vector, whatever the
    sub-frame index and the light index are: each call returns a handle (0
    if the output is not available).  The same holds for
    [getCameraTransformation], and for [getTimestamp] once the output is
    resolved. *)
Theorem accessors_in_range (link : Linker) (slerp : Slerp) (s : Simulator) :
  reachable link slerp s ->
  (forall (k : OutputKind) (i : Z), exists h, getTex k s i = Ok h)
  /\ (forall i, exists tr, getCameraTransformation s i = Ok tr)
  /\ (_recreateOutput s = false -> forall i, exists v, getTimestamp s i = Ok v).
Proof.
  intros Hr. apply reachable_outputReady in Hr.
  split; [|split].
  - intros k i. apply getTex_in_range. assumption.
  - intros i. apply getCameraTransformation_in_range. assumption.
  - intros Hflag i. apply getTimestamp_in_range; assumption.
Qed.

Lemma accessors_in_range_witness :
  exists h,
    getTex KPMD
      (snd (run link_all slerp_stub
              [CallSetScene twoByTwoScene; CallSetOutput pmdOutput; CallSimulate 0]
              (Simulator_new 0 0 false 0))) (-1) = Ok h.
Proof.
  destruct (accessors_in_range link_all slerp_stub
              (snd (run link_all slerp_stub
                      [CallSetScene twoByTwoScene; CallSetOutput pmdOutput; CallSimulate 0]
                      (Simulator_new 0 0 false 0)))) as (H & _ & _).
  - exists [CallSetScene twoByTwoScene; CallSetOutput pmdOutput; CallSimulate 0],
      0, 0, false, 0.
    vm_compute. reflexivity.
  - exact (H KPMD (-1)).
Defined.

(** ** The results of a simulated frame *)

Lemma lookup_seqZ_fmap {B} (f : Z -> B) (n j : Z) :
  0 <= j < n -> (f <$> seqZ 0 n) !! Z.to_nat j = Some (f j).
Proof.
  intros Hj. rewrite list_lookup_fmap.
  rewrite (proj2 (lookup_seqZ 0 n (Z.to_nat j) j)) by lia. reflexivity.
Qed.

Lemma frameRecorded_results (slerp : Slerp) (t : Z) (s s' : Simulator) (i : Z) :
  frameRecorded slerp t s s' -> -1 <= i < subFrames s ->
  haveValidOutput s' i = true
  /\ getTimestamp s' i = Ok (subFrameTimestamp s t (Z.max 0 i))
  /\ getCameraTransformation s' i
     = interpolate slerp (_cameraAnimation s) (subFrameTimestamp s t (Z.max 0 i)).
Proof.
  intros (Hsame & _ & Hro & _ & Hlast & _ & HT & HC & _) Hi.
  assert (Hsub : subFrames s' = subFrames s).
  { destruct Hsame as (_ & _ & _ & _ & _ & Ho & _). unfold subFrames. rewrite Ho. reflexivity. }
  assert (Hv : haveValidOutput s' i = true).
  { apply haveValidOutput_true. rewrite Hsub. auto. }
  assert (HTj : _timestamps s' !! Z.to_nat (Z.max 0 i)
                = Some (subFrameTimestamp s t (Z.max 0 i))).
  { rewrite HT. apply lookup_seqZ_fmap. destruct (subFrames_cases s); lia. }
  split; [exact Hv|]. split.
  - unfold getTimestamp. rewrite Hlast, Hsub. simpl.
    replace (i <? -1) with false by (symmetry; apply Z.ltb_ge; lia).
    replace (i >=? subFrames s) with false
      by (symmetry; rewrite Z.geb_leb; apply Z.leb_gt; lia).
    simpl. replace (if i <? 0 then 0 else i) with (Z.max 0 i)
      by (destruct (i <? 0) eqn:E; [apply Z.ltb_lt in E|apply Z.ltb_ge in E]; lia).
    apply at_Ok. split; [lia|exact HTj].
  - unfold getCameraTransformation. rewrite Hv.
    destruct (Forall2_lookup_l _ _ _ _ _ HC HTj) as (cam & Hcam & Hint).
    rewrite Hint.
    assert (Hat : at_ (_cameraTransformations s') (Z.max 0 i) = Ok cam)
      by (apply at_Ok; split; [lia|exact Hcam]).
    unfold firstOr. destruct (i =? -1) eqn:E.
    + apply Z.eqb_eq in E. subst i. exact Hat.
    + apply Z.eqb_neq in E. replace (Z.max 0 i) with i in Hat by lia. exact Hat.
Qed.

(** X12: after [simulate(t)] has returned, the results of every sub-frame
    [i] (and of [i = -1], which stands for sub-frame 0 here) are valid:
    [haveValidOutput(i)] holds, [getTimestamp(i)] is [t] plus [i] sub-frame
    durations (just [t] without sub-frame temporal sampling), and
    [getCameraTransformation(i)] is the camera animation interpolated at
    exactly that time stamp. *)
Theorem results_after_simulate (link : Linker) (slerp : Slerp) (s : Simulator)
    (t i : Z) :
  reachable link slerp s ->
  validConfiguration s = true -> linksAll link s -> smallAnimations s ->
  srgbNeedsRgb s ->
  -1 <= i < subFrames s ->
  exists s',
    simulate link slerp t s = (Ok tt, s')
    /\ haveValidOutput s' i = true
    /\ getTimestamp s' i = Ok (subFrameTimestamp s t (Z.max 0 i))
    /\ getCameraTransformation s' i
       = interpolate slerp (_cameraAnimation s) (subFrameTimestamp s t (Z.max 0 i)).
Proof.
  intros Hr Hvalid Hlink Hsmall Hsrgb Hi.
  destruct (simulate_spec link slerp t s Hvalid Hlink Hsmall
              (reachable_outputReady _ _ _ Hr) Hsrgb) as ([] & s' & Hrun & Hrec).
  exists s'. split; [exact Hrun|].
  apply (frameRecorded_results slerp t s s' i Hrec Hi).
Qed.

Lemma results_after_simulate_witness :
  exists s',
    simulate link_all slerp_stub 7
      (setOutput pmdOutput (setScene twoByTwoScene (Simulator_new 0 0 false 0)))
    = (Ok tt, s')
    /\ getTimestamp s' 2 = Ok 66673.
Proof.
  destruct (results_after_simulate link_all slerp_stub
              (setOutput pmdOutput (setScene twoByTwoScene (Simulator_new 0 0 false 0))) 7 2)
    as (s' & Hrun & _ & HT & _).
  - exists [CallSetScene twoByTwoScene; CallSetOutput pmdOutput], 0, 0, false, 0.
    reflexivity.
  - reflexivity.
  - intros prg _. reflexivity.
  - unfold smallAnimations. simpl. repeat constructor; vm_compute; discriminate.
  - intros _ _. reflexivity.
  - vm_compute. split; [discriminate|reflexivity].
  - exists s'. split; [exact Hrun|]. rewrite HT. vm_compute. reflexivity.
Defined.

(** ** The sanity checks and the link failures, completely *)

Lemma recreateShaders_invalid (link : Linker) (s : Simulator) :
  _recreateShaders s = true -> validConfiguration s = false ->
  exists msg, recreateShadersIfNecessary link s = (Fail (Exit msg), s).
Proof.
  intros Hdirty Hinv.
  unfold recreateShadersIfNecessary. unfold bind at 1. unfold get.
  rewrite Hdirty. change (negb true) with false. cbv iota.
  do 8 (rewrite bind_when_exit;
        match goal with
        | |- context [if ?c then (Fail _, _) else _] => destruct c eqn:?
        end; [eexists; reflexivity|]).
  exfalso. revert Hinv. unfold validConfiguration. cbv zeta.
  repeat match goal with
         | H : negb (_ =? _) = false |- _ => apply negb_false_iff in H
         end.
  repeat match goal with
         | H : _ = false |- _ => rewrite H; clear H
         | H : (_ =? _) = true |- _ => rewrite H; clear H
         end.
  discriminate.
Qed.

Lemma bind_linkOrExit {B : Type} (link : Linker) (prg : Program) (msg : string)
    (k : unit -> M B) (s : Simulator) :
  bind (linkOrExit link prg msg) k s
  = if negb (link prg) then (Fail (Exit msg), s) else k tt s.
Proof. unfold linkOrExit. destruct (link prg); reflexivity. Qed.

Lemma bind_when_linkOrExit {B : Type} (link : Linker) (c : bool) (prg : Program)
    (msg : string) (k : unit -> M B) (s : Simulator) :
  bind (when c (linkOrExit link prg msg)) k s
  = if c && negb (link prg) then (Fail (Exit msg), s) else k tt s.
Proof. unfold linkOrExit. destruct c, (link prg); reflexivity. Qed.

Lemma bind_shadow_links {B : Type} (link : Linker) (a b : bool) (p1 p2 : Program)
    (m1 m2 : string) (k : unit -> M B) (s : Simulator) :
  bind (when (a || b)
          (bind (when a (linkOrExit link p1 m1))
                (fun _ => when b (linkOrExit link p2 m2)))) k s
  = if a && negb (link p1) then (Fail (Exit m1), s)
    else if b && negb (link p2) then (Fail (Exit m2), s)
    else k tt s.
Proof. unfold linkOrExit. destruct a, b, (link p1), (link p2); reflexivity. Qed.

Lemma recreateShaders_link_failure (link : Linker) (s : Simulator) (prg : Program) :
  _recreateShaders s = true -> validConfiguration s = true ->
  needed s prg = true -> link prg = false ->
  exists msg, recreateShadersIfNecessary link s = (Fail (Exit msg), s).
Proof.
  intros Hdirty Hvalid Hneed Hl.
  apply validConfiguration_true in Hvalid
    as (H1 & H2 & H3 & H4 & H5 & H6 & H7 & H8).
  unfold recreateShadersIfNecessary. unfold bind at 1. unfold get.
  rewrite Hdirty. change (negb true) with false. cbv iota zeta.
  rewrite bind_when_exit, H1. rewrite bind_when_exit, H2. rewrite bind_when_exit, H3.
  rewrite bind_when_exit, H4. rewrite bind_when_exit, H5. rewrite bind_when_exit, H6.
  rewrite bind_when_exit, H7. rewrite bind_when_exit, H8.
  rewrite bind_shadow_links, bind_linkOrExit.
  rewrite !bind_when_linkOrExit.
  repeat match goal with
         | |- context [if ?c then (Fail _, _) else _] =>
             destruct c eqn:?; [eexists; reflexivity|]
         end.
  exfalso. destruct prg; simpl in Hneed; rewrite ?Hneed, Hl in *; discriminate.
Qed.

Lemma link_failure_dec (link : Linker) (s : Simulator) (prg : Program) :
  {needed s prg = true /\ link prg = false} + {needed s prg = true -> link prg = true}.
Proof.
  destruct (needed s prg); [|right; discriminate].
  destruct (link prg); [right|left]; auto.
Qed.

Lemma linksAll_dec (link : Linker) (s : Simulator) :
  linksAll link s \/ exists prg, needed s prg = true /\ link prg = false.
Proof.
  destruct (link_failure_dec link s ShadowMapPrg) as [H|H1]; [right; eauto|].
  destruct (link_failure_dec link s ReflectiveShadowMapPrg) as [H|H2]; [right; eauto|].
  destruct (link_failure_dec link s DepthPrg) as [H|H3]; [right; eauto|].
  destruct (link_failure_dec link s LightPrg) as [H|H4]; [right; eauto|].
  destruct (link_failure_dec link s GeomPrg) as [H|H5]; [right; eauto|].
  destruct (link_failure_dec link s FlowPrg) as [H|H6]; [right; eauto|].
  destruct (link_failure_dec link s PostprocLensDistortionPrg) as [H|H7]; [right; eauto|].
  left. intros prg. destruct prg; assumption.
Qed.

Lemma simulate_fails_first (link : Linker) (slerp : Slerp) (t : Z) (s s' : Simulator)
    (e : Err) :
  recreateShadersIfNecessary link s = (Fail e, s') ->
  simulate link slerp t s = (Fail e, s').
Proof. intros H. unfold simulate. unfold bind at 1. rewrite H. reflexivity. Qed.

(** ** sRGB output without RGB output *)

Lemma fails_bind {A B} (e : Err) (m : M A) (f : A -> M B) (s : Simulator) :
  (exists s', m s = (Fail e, s')) -> exists s', bind m f s = (Fail e, s').
Proof. intros (s' & H). exists s'. unfold bind. rewrite H. reflexivity. Qed.

Lemma simulate_srgb_fails (link : Linker) (slerp : Slerp) (t : Z) (s : Simulator) :
  validConfiguration s = true -> linksAll link s -> smallAnimations s ->
  outputReady s ->
  pmd (_output s) = true -> srgb (_output s) = true -> rgb (_output s) = false ->
  exists s', simulate link slerp t s = (Fail OutOfRange, s').
Proof.
  intros Hvalid Hlink Hsmall Hready Hpmd Hsrgb Hrgb.
  apply (simulate_upto link slerp t s
           (fun r => exists s', r = (Fail OutOfRange, s'))); try assumption.
  intros sC Hsame _ _ Hsized _ _ _ _ _ _ _ _.
  pose proof Hsame as (_ & _ & _ & _ & _ & Ho & _).
  assert (HvalidC : validConfiguration sC = true)
    by (rewrite (sameBounds_valid _ _ Hsame); assumption).
  assert (Hsub : subFrames sC = 4) by (unfold subFrames; rewrite Ho, Hpmd; reflexivity).
  pose proof (validConfiguration_sizes _ HvalidC) as (_ & _ & _ & Htemp).
  unfold simulatePasses.
  apply (post_bind (fun r => exists s', r = (Fail OutOfRange, s'))), wp_get.
  apply fails_bind. unfold indices_below. rewrite Hsub.
  rewrite seqZ_cons by lia. cbn [for_each].
  apply fails_bind.
  apply (post_bind (fun r => exists s', r = (Fail OutOfRange, s'))), wp_get.
  apply (post_bind (fun r => exists s', r = (Fail OutOfRange, s'))).
  eapply wp_lift.
  { replace (temporalSamples (_pipeline sC) =? 0) with false
      by (symmetry; apply Z.eqb_neq; lia).
    reflexivity. }
  apply fails_bind. rewrite Ho, Hrgb, Hpmd. cbn [orb when].
  apply (simulateSubFrameLight_upto slerp 0 _ sC sC
           (fun r => exists s', r = (Fail OutOfRange, s'))).
  - apply appended_refl.
  - exact HvalidC.
  - eapply sameBounds_small; eassumption.
  - exact Hsized.
  - lia.
  - intros s4 _. rewrite Ho, Hsrgb. cbn [when].
    apply fails_bind. exists s4. unfold lift. rewrite at_out_of_range; [reflexivity|].
    right. destruct Hsized as (_ & _ & _ & _ & _ & _ & _ & _ & _ & _ & _ & _ & HS & _).
    unfold size. rewrite HS, Ho, Hrgb. simpl. lia.
Qed.

(** X13: the light simulation of a sub-frame, which runs for RGB or PMD
    output, converts to sRGB whenever sRGB output is set, but the sRGB
    textures are created only together with the RGB textures.  So with PMD
    and sRGB output set and RGB output not set, [simulate] reads
    [_srgbTexs[0]] of the empty vector in the first sub-frame: on every
    simulator that a program can reach with such a configuration (valid,
    linking, at most 2^30 keyframes per animation) the call does not return
    but ends in this out-of-range read. *)
Theorem simulate_srgb_without_rgb (link : Linker) (slerp : Slerp) (s : Simulator) (t : Z) :
  reachable link slerp s ->
  validConfiguration s = true -> linksAll link s -> smallAnimations s ->
  pmd (_output s) = true -> srgb (_output s) = true -> rgb (_output s) = false ->
  exists s', simulate link slerp t s = (Fail OutOfRange, s').
Proof.
  intros Hr Hvalid Hlink Hsmall Hpmd Hsrgb Hrgb.
  apply simulate_srgb_fails; try assumption.
  apply reachable_outputReady in Hr. exact Hr.
Qed.

Lemma simulate_srgb_without_rgb_witness :
  exists s',
    simulate link_all slerp_stub 0
      (setOutput pmdSrgbOutput (setScene oneLightScene (Simulator_new 0 0 false 0)))
    = (Fail OutOfRange, s').
Proof.
  apply (simulate_srgb_without_rgb link_all slerp_stub).
  - exists [CallSetScene oneLightScene; CallSetOutput pmdSrgbOutput], 0, 0, false, 0.
    reflexivity.
  - reflexivity.
  - intros prg _. reflexivity.
  - unfold smallAnimations. simpl. repeat constructor; vm_compute; discriminate.
  - reflexivity.
  - reflexivity.
  - reflexivity.
Defined.

(** ** The frame loop of the example programs *)

Lemma recreateTimestamps_config (s : Simulator) :
  _cameraAnimation (recreateTimestampsIfNecessary s) = _cameraAnimation s
  /\ _scene (recreateTimestampsIfNecessary s) = _scene s
  /\ _chipTiming (recreateTimestampsIfNecessary s) = _chipTiming s
  /\ _pipeline (recreateTimestampsIfNecessary s) = _pipeline s
  /\ _output (recreateTimestampsIfNecessary s) = _output s
  /\ _recreateTimestamps (recreateTimestampsIfNecessary s) = false.
Proof.
  unfold recreateTimestampsIfNecessary.
  destruct (_recreateTimestamps s) eqn:E; simpl; auto 10.
Qed.

Lemma recreateTimestamps_resolved (s : Simulator) :
  _recreateTimestamps s = false -> recreateTimestampsIfNecessary s = s.
Proof. intros H. unfold recreateTimestampsIfNecessary. rewrite H. reflexivity. Qed.

Lemma linksAll_ext (link : Linker) (s s' : Simulator) :
  _pipeline s' = _pipeline s -> _output s' = _output s ->
  linksAll link s -> linksAll link s'.
Proof.
  intros Hp Ho H prg. specialize (H prg). unfold needed in *.
  rewrite Hp, Ho. exact H.
Qed.

Lemma sameBounds_trans (s1 s2 s3 : Simulator) :
  sameBounds s1 s2 -> sameBounds s2 s3 -> sameBounds s1 s3.
Proof.
  unfold sameBounds.
  intros (A1 & A2 & A3 & A4 & A5 & A6 & A7 & A8 & A9)
         (B1 & B2 & B3 & B4 & B5 & B6 & B7 & B8 & B9).
  repeat split; congruence.
Qed.

Lemma frameCount_done (t end_ fd : Z) : 0 < fd -> end_ <= t -> frameCount t end_ fd <= 0.
Proof.
  intros Hfd Hle. unfold frameCount.
  assert ((end_ - t + fd - 1) / fd < 1); [|lia].
  apply Z.div_lt_upper_bound; lia.
Qed.

Lemma frameCount_step (t end_ fd : Z) :
  0 < fd -> t < end_ -> frameCount t end_ fd = 1 + frameCount (t + fd) end_ fd
  /\ 0 <= frameCount (t + fd) end_ fd.
Proof.
  intros Hfd Hlt. unfold frameCount.
  replace (end_ - t + fd - 1) with (end_ - (t + fd) + fd - 1 + 1 * fd) by lia.
  rewrite Z.div_add by lia. split; [lia|].
  apply Z.div_pos; lia.
Qed.

Lemma frameTimestamps_done (t end_ fd : Z) :
  0 < fd -> end_ <= t -> frameTimestamps t end_ fd = [].
Proof.
  intros Hfd Hle. unfold frameTimestamps.
  pose proof (frameCount_done t end_ fd Hfd Hle).
  rewrite seqZ_nil by lia. reflexivity.
Qed.

Lemma frameTimestamps_step (t end_ fd : Z) :
  0 < fd -> t < end_ ->
  frameTimestamps t end_ fd = t :: frameTimestamps (t + fd) end_ fd.
Proof.
  intros Hfd Hlt. unfold frameTimestamps.
  destruct (frameCount_step t end_ fd Hfd Hlt) as [-> Hn].
  rewrite seqZ_cons by lia. rewrite fmap_cons. f_equal; [lia|].
  replace (Z.pred (1 + frameCount (t + fd) end_ fd)) with (frameCount (t + fd) end_ fd)
    by lia.
  change (Z.succ 0) with (1 + 0). rewrite <- fmap_add_seqZ, <- list_fmap_compose.
  apply list_fmap_ext. intros i k _. simpl. lia.
Qed.

(** One iteration of the frame loop on a simulator whose time stamp bounds
    are resolved: the end is read, the frame is simulated, and the next
    time stamp is the frame time stamp plus the frame duration. *)
Lemma frameLoop_iteration (link : Linker) (slerp : Slerp) (t : Z) (sx : Simulator) :
  _recreateTimestamps sx = false ->
  validConfiguration sx = true -> linksAll link sx -> smallAnimations sx ->
  srgbNeedsRgb sx -> outputReady sx ->
  liftS endTimestamp sx = (Ok (_endTimestamp sx), sx)
  /\ exists sD,
       simulate link slerp t sx = (Ok tt, sD)
       /\ sameBounds sx sD /\ outputReady sD
       /\ liftS nextFrameTimestamp sD = (Ok (int64 (t + frameDuration sx)), sD).
Proof.
  intros Hflag Hvalid Hlink Hsmall Hsrgb Hready. split.
  - unfold liftS, endTimestamp. rewrite recreateTimestamps_resolved by assumption.
    reflexivity.
  - destruct (simulate_spec link slerp t sx Hvalid Hlink Hsmall Hready Hsrgb)
      as ([] & sD & Hrun & Hrec).
    destruct Hrec as (Hsame & _ & Hro & Hsized & Hhave & Hlast & _).
    exists sD. split; [exact Hrun|]. split; [exact Hsame|].
    split; [intros _; exact Hsized|].
    pose proof Hsame as (_ & _ & Hc & _ & _ & Ho & Hf & _).
    unfold liftS, nextFrameTimestamp.
    rewrite recreateTimestamps_resolved by congruence.
    rewrite Hhave, Hlast, (frameDuration_ext _ _ Hc Ho). reflexivity.
Qed.

Lemma sameBounds_invariant (link : Linker) (s1 sx : Simulator) :
  sameBounds s1 sx ->
  _recreateTimestamps s1 = false ->
  validConfiguration s1 = true -> linksAll link s1 -> smallAnimations s1 ->
  srgbNeedsRgb s1 ->
  _recreateTimestamps sx = false
  /\ validConfiguration sx = true /\ linksAll link sx /\ smallAnimations sx
  /\ srgbNeedsRgb sx /\ frameDuration sx = frameDuration s1
  /\ _endTimestamp sx = _endTimestamp s1.
Proof.
  intros Hsame Hflag Hvalid Hlink Hsmall Hsrgb.
  pose proof Hsame as (_ & _ & Hc & _ & Hp & Ho & Hf & _ & He).
  split; [congruence|].
  split; [rewrite (sameBounds_valid _ _ Hsame); assumption|].
  split; [eapply linksAll_ext; eassumption|].
  split; [eapply sameBounds_small; eassumption|].
  split; [eapply sameBounds_srgbNeedsRgb; eassumption|].
  split; [apply frameDuration_ext; assumption|assumption].
Qed.

Lemma frameLoopFrom_frames (link : Linker) (slerp : Slerp) (s1 : Simulator) :
  _recreateTimestamps s1 = false ->
  validConfiguration s1 = true -> linksAll link s1 -> smallAnimations s1 ->
  srgbNeedsRgb s1 ->
  0 < frameDuration s1 -> _endTimestamp s1 + frameDuration s1 <= INT64_MAX ->
  forall (fuel : nat) (t : Z) (frames : list Z) (sx : Simulator),
    sameBounds s1 sx -> outputReady sx -> INT64_MIN <= t ->
    (Z.to_nat (frameCount t (_endTimestamp s1) (frameDuration s1)) <= fuel)%nat ->
    exists s',
      frameLoopFrom fuel link slerp t frames sx
      = (Ok (frames ++ frameTimestamps t (_endTimestamp s1) (frameDuration s1)), s').
Proof.
  intros Hflag Hvalid Hlink Hsmall Hsrgb Hfd Hmax.
  induction fuel as [|fuel IH]; intros t frames sx Hsame Hready Ht Hfuel;
    destruct (sameBounds_invariant link s1 sx Hsame Hflag Hvalid Hlink Hsmall Hsrgb)
      as (Hfx & Hvx & Hlx & Hsx & Hrx & Hdx & Hex);
    destruct (frameLoop_iteration link slerp t sx Hfx Hvx Hlx Hsx Hrx Hready)
      as (Hend & sD & Hsim & HsameD & HreadyD & Hnext);
    simpl; unfold bind at 1; rewrite Hend, Hex;
    destruct (t <? _endTimestamp s1) eqn:Hlt.
  - apply Z.ltb_lt in Hlt.
    destruct (frameCount_step t _ _ Hfd Hlt) as [Hn Hpos]. lia.
  - apply Z.ltb_ge in Hlt. rewrite frameTimestamps_done by assumption.
    rewrite app_nil_r. eexists; reflexivity.
  - apply Z.ltb_lt in Hlt.
    destruct (frameCount_step t _ _ Hfd Hlt) as [Hn Hpos].
    unfold bind at 1. rewrite Hsim. unfold bind at 1. rewrite Hnext, Hdx.
    rewrite int64_id
      by (unfold is_int64, INT64_MIN, INT64_MAX in *; lia).
    destruct (IH (t + frameDuration s1) (frames ++ [t]) sD) as (s' & Hloop).
    + eapply sameBounds_trans; eassumption.
    + exact HreadyD.
    + lia.
    + lia.
    + exists s'. rewrite Hloop, (frameTimestamps_step t) by assumption.
      rewrite <- app_assoc. reflexivity.
  - apply Z.ltb_ge in Hlt. rewrite frameTimestamps_done by assumption.
    rewrite app_nil_r. eexists; reflexivity.
Qed.

Lemma frameLoopFrom_stuck (link : Linker) (slerp : Slerp) (s1 : Simulator) (t : Z) :
  _recreateTimestamps s1 = false ->
  validConfiguration s1 = true -> linksAll link s1 -> smallAnimations s1 ->
  srgbNeedsRgb s1 ->
  frameDuration s1 = 0 -> is_int64 t -> t < _endTimestamp s1 ->
  forall (fuel : nat) (frames : list Z) (sx : Simulator),
    sameBounds s1 sx -> outputReady sx ->
    exists s',
      frameLoopFrom fuel link slerp t frames sx = (Fail OutOfFuel, s')
      /\ exists more, gl_passes s' = gl_passes sx ++ more.
Proof.
  intros Hflag Hvalid Hlink Hsmall Hsrgb Hfd Hint Hlt.
  induction fuel as [|fuel IH]; intros frames sx Hsame Hready;
    destruct (sameBounds_invariant link s1 sx Hsame Hflag Hvalid Hlink Hsmall Hsrgb)
      as (Hfx & Hvx & Hlx & Hsx & Hrx & Hdx & Hex);
    simpl; unfold bind at 1;
    destruct (frameLoop_iteration link slerp t sx Hfx Hvx Hlx Hsx Hrx Hready)
      as (Hend & _); rewrite Hend, Hex;
    replace (t <? _endTimestamp s1) with true by (symmetry; apply Z.ltb_lt; exact Hlt).
  - exists sx. split; [reflexivity|]. exists []. rewrite app_nil_r. reflexivity.
  - destruct (simulate_spec link slerp t sx Hvx Hlx Hsx Hready Hrx)
      as ([] & sD & Hsim & Hrec).
    pose proof Hrec as (HsameD & _ & _ & Hsized & Hhave & Hlast & _ & _ & _ & _ & Hp & _).
    destruct (frameLoop_iteration link slerp t sx Hfx Hvx Hlx Hsx Hrx Hready)
      as (_ & sD' & Hsim' & _ & HreadyD & Hnext).
    rewrite Hsim in Hsim'. injection Hsim' as <-.
    unfold bind at 1. rewrite Hsim. unfold bind at 1. rewrite Hnext, Hdx, Hfd.
    rewrite Z.add_0_r, int64_id by exact Hint.
    destruct (IH (frames ++ [t]) sD) as (s' & Hloop & more & Hmore).
    + eapply sameBounds_trans; eassumption.
    + exact HreadyD.
    + exists s'. split; [exact Hloop|].
      destruct Hp as [extra Hextra]. exists (extra ++ more).
      rewrite Hmore, Hextra, app_assoc. reflexivity.
Qed.

Lemma startTimestamp_invariant (link : Linker) (s : Simulator) :
  validConfiguration s = true -> linksAll link s -> smallAnimations s ->
  srgbNeedsRgb s -> outputReady s ->
  _recreateTimestamps (recreateTimestampsIfNecessary s) = false
  /\ validConfiguration (recreateTimestampsIfNecessary s) = true
  /\ linksAll link (recreateTimestampsIfNecessary s)
  /\ smallAnimations (recreateTimestampsIfNecessary s)
  /\ srgbNeedsRgb (recreateTimestampsIfNecessary s)
  /\ outputReady (recreateTimestampsIfNecessary s)
  /\ frameDuration (recreateTimestampsIfNecessary s) = frameDuration s.
Proof.
  intros Hvalid Hlink Hsmall Hsrgb Hready.
  destruct (recreateTimestamps_config s) as (Hc & Hs & Ht & Hp & Ho & Hf).
  split; [exact Hf|].
  split; [unfold validConfiguration in *; rewrite Hs, Hp, Ho; exact Hvalid|].
  split; [eapply linksAll_ext; eassumption|].
  split; [unfold smallAnimations, allAnimations in *; rewrite Hc, Hs; exact Hsmall|].
  split; [unfold srgbNeedsRgb in *; rewrite Ho; exact Hsrgb|].
  split; [eapply outputKept_ready; [apply recreateTimestamps_outputKept|exact Hready]|].
  apply frameDuration_ext; assumption.
Qed.

(** X14: the frame loop of the example programs, [for (t =
    startTimestamp(); t < endTimestamp(); t = nextFrameTimestamp())
    simulate(t)], simulates exactly the frames at [start], [start + d],
    [start + 2 d], ... before [end], where [d] is the frame duration:
    [ceil((end - start) / d)] frames, and then it ends.  This holds on every
    simulator that a program can reach whose configuration is one on which
    [simulate] returns, if the frame duration is positive and the time
    stamps do not leave the range of [long long]. *)
Theorem frameLoop_frames (link : Linker) (slerp : Slerp) (s : Simulator) (fuel : nat) :
  reachable link slerp s ->
  validConfiguration s = true -> linksAll link s -> smallAnimations s ->
  srgbNeedsRgb s ->
  0 < frameDuration s ->
  INT64_MIN <= fst (startTimestamp s) ->
  fst (endTimestamp s) + frameDuration s <= INT64_MAX ->
  (Z.to_nat (frameCount (fst (startTimestamp s)) (fst (endTimestamp s)) (frameDuration s))
   <= fuel)%nat ->
  fst (frameLoop fuel link slerp s)
  = Ok (frameTimestamps (fst (startTimestamp s)) (fst (endTimestamp s)) (frameDuration s)).
Proof.
  intros Hr Hvalid Hlink Hsmall Hsrgb Hfd Hmin Hmax Hfuel.
  apply reachable_outputReady in Hr.
  destruct (startTimestamp_invariant link s Hvalid Hlink Hsmall Hsrgb Hr)
    as (Hf1 & Hv1 & Hl1 & Hs1 & Hr1 & Hready1 & Hd1).
  unfold startTimestamp, endTimestamp in *. cbn [fst] in *.
  set (s1 := recreateTimestampsIfNecessary s) in *.
  unfold frameLoop, bind, liftS, startTimestamp. fold s1.
  destruct (frameLoopFrom_frames link slerp s1 Hf1 Hv1 Hl1 Hs1 Hr1
              ltac:(rewrite Hd1; exact Hfd) ltac:(rewrite Hd1; exact Hmax)
              fuel (_startTimestamp s1) [] s1 (sameBounds_refl s1) Hready1 Hmin
              ltac:(rewrite Hd1; exact Hfuel)) as (s' & Hloop).
  rewrite Hloop, Hd1. reflexivity.
Qed.

Lemma frameLoop_frames_witness :
  fst (frameLoop 4 link_all slerp_stub
         (setCameraAnimation movingCamera
            (setScene oneLightScene (Simulator_new 0 0 false 0))))
  = Ok [0; 33333; 66666; 99999].
Proof.
  rewrite (frameLoop_frames link_all slerp_stub
             (setCameraAnimation movingCamera
                (setScene oneLightScene (Simulator_new 0 0 false 0))) 4).
  - vm_compute. reflexivity.
  - exists [CallSetScene oneLightScene; CallSetCameraAnimation movingCamera],
      0, 0, false, 0.
    reflexivity.
  - reflexivity.
  - intros prg _. reflexivity.
  - unfold smallAnimations. simpl. repeat constructor; vm_compute; discriminate.
  - intros _ _. reflexivity.
  - vm_compute. reflexivity.
  - vm_compute. discriminate.
  - vm_compute. discriminate.
  - vm_compute. lia.
Defined.

(** X15: with a frame duration of 0 - a chip timing of less than one
    microsecond per frame, as [ChipTiming::fromSubFramesPerSecond] gives for
    more than a million sub-frames per second - the frame loop of the example
    programs never ends if there is anything to simulate
    ([startTimestamp() < endTimestamp()]): [nextFrameTimestamp()] returns the
    time stamp of the frame just simulated, so the loop simulates the first
    frame again and again, whatever number of iterations it is given. *)
Theorem frameLoop_zero_duration (link : Linker) (slerp : Slerp) (s : Simulator)
    (fuel : nat) :
  reachable link slerp s ->
  validConfiguration s = true -> linksAll link s -> smallAnimations s ->
  srgbNeedsRgb s ->
  frameDuration s = 0 ->
  is_int64 (fst (startTimestamp s)) ->
  fst (startTimestamp s) < fst (endTimestamp s) ->
  fst (frameLoop fuel link slerp s) = Fail OutOfFuel.
Proof.
  intros Hr Hvalid Hlink Hsmall Hsrgb Hfd Hint Hlt.
  apply reachable_outputReady in Hr.
  destruct (startTimestamp_invariant link s Hvalid Hlink Hsmall Hsrgb Hr)
    as (Hf1 & Hv1 & Hl1 & Hs1 & Hr1 & Hready1 & Hd1).
  unfold startTimestamp, endTimestamp in *. cbn [fst] in *.
  set (s1 := recreateTimestampsIfNecessary s) in *.
  unfold frameLoop, bind, liftS, startTimestamp. fold s1.
  destruct (frameLoopFrom_stuck link slerp s1 (_startTimestamp s1) Hf1 Hv1 Hl1 Hs1 Hr1
              ltac:(rewrite Hd1; exact Hfd) Hint Hlt
              fuel [] s1 (sameBounds_refl s1) Hready1) as (s' & Hloop & _).
  rewrite Hloop. reflexivity.
Qed.

Lemma frameLoop_zero_duration_witness :
  fst (frameLoop 1000 link_all slerp_stub
         (setChipTiming (ChipTiming_fromSubFramesPerSecond (Float32.of_Z 2000000))
            (setCameraAnimation movingCamera
               (setScene oneLightScene (Simulator_new 0 0 false 0)))))
  = Fail OutOfFuel.
Proof.
  apply (frameLoop_zero_duration link_all slerp_stub).
  - exists [CallSetScene oneLightScene; CallSetCameraAnimation movingCamera;
            CallSetChipTiming (ChipTiming_fromSubFramesPerSecond (Float32.of_Z 2000000))],
      0, 0, false, 0.
    reflexivity.
  - reflexivity.
  - intros prg _. reflexivity.
  - unfold smallAnimations. simpl. repeat constructor; vm_compute; discriminate.
  - intros _ _. reflexivity.
  - vm_compute. reflexivity.
  - vm_compute. split; [discriminate|reflexivity].
  - vm_compute. reflexivity.
Defined.

(** ** What [simulate] leaves alone *)

Lemma getTex_ext (k : OutputKind) (s s' : Simulator) (i : Z) :
  _scene s' = _scene s -> _pipeline s' = _pipeline s -> _output s' = _output s ->
  _recreateOutput s' = _recreateOutput s ->
  _haveLastFrameTimestamp s' = _haveLastFrameTimestamp s ->
  _textures s' = _textures s ->
  getTex k s' i = getTex k s i.
Proof.
  intros Hs Hp Ho Hr Hh Htx.
  destruct k; unfold getTex;
    unfold getShadowMapCubeTex, getReflectiveShadowMapCubeArrayTex, getDepthTex,
      getRGBTex, getSRGBTex, getPMDTex, getPMDCoordinatesTex,
      getEyeSpacePositionsTex, getCustomSpacePositionsTex, getEyeSpaceNormalsTex,
      getCustomSpaceNormalsTex, getDepthAndRangeTex, getIndicesTex,
      getForwardFlow3DTex, getForwardFlow2DTex, getBackwardFlow3DTex,
      getBackwardFlow2DTex, haveValidOutput, haveShadowMap, haveReflectiveShadowMap,
      haveDepth, spatialOversampling, temporalOversampling, subFrames;
    rewrite ?Hs, ?Hp, ?Ho, ?Hr, ?Hh, ?Htx; reflexivity.
Qed.

(** X16: once a frame has been simulated, simulating further frames does
    not change any texture handle: as long as the configuration is not
    changed, each of the 17 texture accessors returns after [simulate(t)]
    what it returned before, for every sub-frame index and light index. *)
Theorem texture_handles_stable (link : Linker) (slerp : Slerp) (s : Simulator) (t : Z) :
  reachable link slerp s ->
  validConfiguration s = true -> linksAll link s -> smallAnimations s ->
  srgbNeedsRgb s ->
  _recreateOutput s = false -> _haveLastFrameTimestamp s = true ->
  exists s',
    simulate link slerp t s = (Ok tt, s')
    /\ _textures s' = _textures s
    /\ forall (k : OutputKind) (i : Z), getTex k s' i = getTex k s i.
Proof.
  intros Hr Hvalid Hlink Hsmall Hsrgb Hflag Hhave.
  destruct (simulate_spec link slerp t s Hvalid Hlink Hsmall
              (reachable_outputReady _ _ _ Hr) Hsrgb) as ([] & s' & Hrun & Hrec).
  destruct Hrec as (Hsame & _ & Hro & _ & Hlast & _ & _ & _ & _ & _ & _ & Htx).
  destruct Hsame as (_ & Hs & _ & _ & Hp & Ho & _).
  exists s'. split; [exact Hrun|]. split; [exact (Htx Hflag)|].
  intros k i. apply getTex_ext; try assumption; try congruence. exact (Htx Hflag).
Qed.

Lemma texture_handles_stable_witness :
  exists s',
    simulate link_all slerp_stub 33333
      (snd (run link_all slerp_stub [CallSetScene oneLightScene; CallSimulate 0]
              (Simulator_new 0 0 false 0)))
    = (Ok tt, s')
    /\ getTex KRGB s' 0 = Ok 5.
Proof.
  destruct (texture_handles_stable link_all slerp_stub
              (snd (run link_all slerp_stub [CallSetScene oneLightScene; CallSimulate 0]
                      (Simulator_new 0 0 false 0))) 33333)
    as (s' & Hrun & _ & Hsame).
  - exists [CallSetScene oneLightScene; CallSimulate 0], 0, 0, false, 0.
    vm_compute. reflexivity.
  - vm_compute. reflexivity.
  - intros prg _. reflexivity.
  - unfold smallAnimations.
    replace (allAnimations _) with [Animation_default; Animation_default]
      by (vm_compute; reflexivity).
    repeat constructor; vm_compute; discriminate.
  - intros _ _. vm_compute. reflexivity.
  - vm_compute. reflexivity.
  - vm_compute. reflexivity.
  - exists s'. split; [exact Hrun|]. rewrite Hsame. vm_compute. reflexivity.
Defined.

(** X17: [simulate] assigns to no member of the configuration other than
    the lights of the scene (whose power factor maps it refreshes): the
    camera animation, the light animations, the objects and the object
    animations of the scene, the number of its lights, the chip timing, the
    projection, the pipeline and the output are after the call what they
    were before it, and so are the cached time stamp bounds and their dirty
    flag.  Hence [startTimestamp()], [endTimestamp()] and [frameDuration()]
    return after the call what they returned before it. *)
Theorem simulate_keeps_configuration (link : Linker) (slerp : Slerp) (s : Simulator)
    (t : Z) :
  let s' := snd (simulate link slerp t s) in
  (_cameraAnimation s' = _cameraAnimation s
   /\ lightAnimations (_scene s') = lightAnimations (_scene s)
   /\ objects (_scene s') = objects (_scene s)
   /\ objectAnimations (_scene s') = objectAnimations (_scene s)
   /\ length (lights (_scene s')) = length (lights (_scene s))
   /\ _chipTiming s' = _chipTiming s
   /\ _projection s' = _projection s
   /\ _pipeline s' = _pipeline s
   /\ _output s' = _output s
   /\ _recreateTimestamps s' = _recreateTimestamps s
   /\ _startTimestamp s' = _startTimestamp s
   /\ _endTimestamp s' = _endTimestamp s)
  /\ fst (startTimestamp s') = fst (startTimestamp s)
  /\ fst (endTimestamp s') = fst (endTimestamp s)
  /\ frameDuration s' = frameDuration s.
Proof.
  intros s'.
  destruct (keeps_simulate link slerp t s)
    as (Hc & Hs & Hct & Hpr & Hpl & Ho & Hflag & Hstart & Hend).
  fold s' in Hc, Hs, Hct, Hpr, Hpl, Ho, Hflag, Hstart, Hend.
  split; [rewrite Hs; repeat split; assumption|].
  unfold startTimestamp, endTimestamp, recreateTimestampsIfNecessary, frameDuration,
    subFrameDuration, subFrames.
  rewrite Hc, Hs, Hct, Ho, Hflag.
  destruct (_recreateTimestamps s); simpl; [repeat split|].
  rewrite Hstart, Hend. repeat split.
Qed.

(** ** Where [recreateShadersIfNecessary] ends the process *)

(** X18: [recreateShadersIfNecessary], the first step of [simulate], ends
    the process with [std::exit] exactly if the shader programs are marked
    for recreation and one of its eight sanity checks fails (no light; light
    or object animations that do not match the lights or objects in number;
    a spatial sample count below 1 or even; spatial sample weights given but
    not one per spatial sample; fewer than one temporal sample; both lens
    distortions; post-process lens distortion with indices or flow output)
    or one of the shader programs that the configuration needs does not
    link.  Such an exit happens with the simulator as it was, and it is the
    end of [simulate]. *)
Theorem recreateShaders_exits_exactly (link : Linker) (slerp : Slerp) (s : Simulator)
    (t : Z) :
  ((exists msg s', recreateShadersIfNecessary link s = (Fail (Exit msg), s'))
   <-> (_recreateShaders s = true
        /\ (validConfiguration s = false
            \/ exists prg, needed s prg = true /\ link prg = false)))
  /\ (forall msg s',
        recreateShadersIfNecessary link s = (Fail (Exit msg), s') ->
        s' = s /\ simulate link slerp t s = (Fail (Exit msg), s)).
Proof.
  assert (Hexit : _recreateShaders s = true ->
                  (validConfiguration s = false
                   \/ exists prg, needed s prg = true /\ link prg = false) ->
                  exists msg, recreateShadersIfNecessary link s = (Fail (Exit msg), s)).
  { intros Hflag [Hinv|(prg & Hneed & Hl)].
    - apply recreateShaders_invalid; assumption.
    - destruct (validConfiguration s) eqn:Hvalid.
      + eapply recreateShaders_link_failure; eassumption.
      + apply recreateShaders_invalid; assumption. }
  assert (Hconv : forall msg s',
            recreateShadersIfNecessary link s = (Fail (Exit msg), s') ->
            _recreateShaders s = true
            /\ (validConfiguration s = false
                \/ exists prg, needed s prg = true /\ link prg = false)).
  { intros msg s' H.
    destruct (_recreateShaders s) eqn:Hflag.
    2:{ unfold recreateShadersIfNecessary, bind, get in H. rewrite Hflag in H.
        discriminate H. }
    split; [reflexivity|].
    destruct (validConfiguration s) eqn:Hvalid; [|left; reflexivity].
    destruct (linksAll_dec link s) as [Hlink|Hbad]; [|right; exact Hbad].
    rewrite (recreateShaders_valid link s Hvalid Hlink) in H. discriminate H. }
  split; [split|].
  - intros (msg & s' & H). apply Hconv in H. exact H.
  - intros (Hflag & Hbad). destruct (Hexit Hflag Hbad) as [msg Hfail].
    exists msg, s. exact Hfail.
  - intros msg s' H. destruct (Hconv _ _ H) as (Hflag & Hbad).
    destruct (Hexit Hflag Hbad) as [msg' Hfail].
    rewrite Hfail in H. injection H as -> <-.
    split; [reflexivity|]. apply simulate_fails_first. exact Hfail.
Qed.

Lemma recreateShaders_exits_exactly_witness :
  exists msg,
    simulate (fun prg => match prg with LightPrg => false | _ => true end) slerp_stub 0
      (setScene oneLightScene (Simulator_new 0 0 false 0))
    = (Fail (Exit msg),
       setScene oneLightScene (Simulator_new 0 0 false 0)).
Proof.
  destruct (recreateShaders_exits_exactly
              (fun prg => match prg with LightPrg => false | _ => true end) slerp_stub
              (setScene oneLightScene (Simulator_new 0 0 false 0)) 0) as [[_ H] Hsim].
  destruct H as (msg & s' & Hfail).
  - split; [reflexivity|]. right. exists LightPrg. split; reflexivity.
  - exists msg. apply (Hsim msg s' Hfail).
Defined.

(** ** Scenes built with [addLight] and [addObject] *)

Lemma buildScene_lists (cs : list SceneCall) :
  forall sc,
    lights (buildScene sc cs) = lights sc ++ (addedLights cs).*1
    /\ lightAnimations (buildScene sc cs) = lightAnimations sc ++ (addedLights cs).*2
    /\ objects (buildScene sc cs) = objects sc ++ (addedObjects cs).*1
    /\ objectAnimations (buildScene sc cs) = objectAnimations sc ++ (addedObjects cs).*2.
Proof.
  induction cs as [|c cs IH]; intros sc.
  - simpl. rewrite !app_nil_r. auto.
  - unfold buildScene. simpl fold_left. fold (buildScene (sceneCall sc c) cs).
    destruct (IH (sceneCall sc c)) as (H1 & H2 & H3 & H4).
    rewrite H1, H2, H3, H4.
    destruct c as [light animation|object animation]; simpl;
      rewrite <- ?app_assoc; auto.
Qed.

Lemma scene_checks_pass (s : Simulator) :
  (1 <= length (lights (_scene s)))%nat ->
  length (lights (_scene s)) = length (lightAnimations (_scene s)) ->
  length (objects (_scene s)) = length (objectAnimations (_scene s)) ->
  _pipeline s = Pipeline_default -> _output s = Output_default ->
  validConfiguration s = true.
Proof.
  intros Hl Hla Hoa Hp Ho. unfold validConfiguration. cbv zeta.
  rewrite Hp, Ho. unfold size. rewrite Hla, Hoa, !Z.eqb_refl.
  replace (Z.of_nat (length (lightAnimations (_scene s))) <? 1) with false
    by (symmetry; apply Z.ltb_ge; lia).
  reflexivity.
Qed.

(** X19: a scene that is built from the empty scene with [addLight] and
    [addObject] only has its lights and objects in the order of the calls,
    each at the same index as the animation that was given with it; so its
    animation lists have the sizes of its light and object lists, and if at
    least one light was added, the scene passes all sanity checks of
    [simulate] with the default pipeline and output. *)
Theorem built_scene_is_consistent (cs : list SceneCall) :
  zip (lights (buildScene Scene_default cs))
      (lightAnimations (buildScene Scene_default cs)) = addedLights cs
  /\ zip (objects (buildScene Scene_default cs))
         (objectAnimations (buildScene Scene_default cs)) = addedObjects cs
  /\ length (lightAnimations (buildScene Scene_default cs))
     = length (lights (buildScene Scene_default cs))
  /\ length (objectAnimations (buildScene Scene_default cs))
     = length (objects (buildScene Scene_default cs))
  /\ (addedLights cs <> [] ->
      forall start0 end0 have0 last0,
        validConfiguration
          (setScene (buildScene Scene_default cs)
                    (Simulator_new start0 end0 have0 last0)) = true).
Proof.
  destruct (buildScene_lists cs Scene_default) as (H1 & H2 & H3 & H4).
  simpl in H1, H2, H3, H4.
  assert (Hl : length (lightAnimations (buildScene Scene_default cs))
               = length (lights (buildScene Scene_default cs)))
    by (rewrite H1, H2, !length_fmap; reflexivity).
  assert (Ho : length (objectAnimations (buildScene Scene_default cs))
               = length (objects (buildScene Scene_default cs)))
    by (rewrite H3, H4, !length_fmap; reflexivity).
  split; [rewrite H1, H2; apply zip_fst_snd|].
  split; [rewrite H3, H4; apply zip_fst_snd|].
  split; [exact Hl|]. split; [exact Ho|].
  intros Hne start0 end0 have0 last0. apply scene_checks_pass; simpl.
  - rewrite H1, length_fmap. destruct (addedLights cs); [congruence|simpl; lia].
  - symmetry. exact Hl.
  - symmetry. exact Ho.
  - reflexivity.
  - reflexivity.
Qed.

Lemma built_scene_is_consistent_witness :
  validConfiguration
    (setScene (buildScene Scene_default
                 [CallAddObject (mkObject []) Animation_default;
                  CallAddLight Light_default movingCamera])
              (Simulator_new 0 0 false 0)) = true.
Proof.
  destruct (built_scene_is_consistent
              [CallAddObject (mkObject []) Animation_default;
               CallAddLight Light_default movingCamera]) as (_ & _ & _ & _ & H).
  apply H. discriminate.
Defined.

(* ===================================================================== *)
(** * Properties of [Animation::load] *)
(* ===================================================================== *)

Lemma token_in_range (tokens : list string) (i k : Z) :
  size tokens <= 2 ^ 30 -> 0 <= i -> 0 <= k <= 7 -> i + k < size tokens ->
  int32 (i + k) = i + k /\ exists s, at_ tokens (i + k) = Ok s.
Proof.
  intros Hsize Hi Hk Hlt. change (2 ^ 30) with 1073741824 in Hsize. split.
  - apply int32_id. unfold is_int32. change (2 ^ 31) with 2147483648. lia.
  - apply at_in_range. lia.
Qed.

Ltac parse_arg tokens i k :=
  let s := fresh "s" in
  let Hs := fresh "Hs" in
  let Hid := fresh "Hid" in
  destruct (token_in_range tokens i k) as (Hid & s & Hs); [assumption|lia|lia|lia|];
  rewrite ?Hid, ?Hs; cbn [obind].

Lemma parseTokens_total (qt : Qt) (tokens : list string) :
  size tokens <= 2 ^ 30 ->
  forall (fuel : nat) (i : Z) (keyframe : Keyframe),
    0 <= i -> (Z.to_nat (size tokens - i) <= fuel)%nat ->
    exists r,
      parseTokens qt fuel tokens i keyframe = Ok r
      /\ forall j, r = inl j -> 0 <= j < size tokens.
Proof.
  intros Hsize. pose proof Hsize as Hsize'. change (2 ^ 30) with 1073741824 in Hsize'.
  assert (Hid : forall x, 0 <= x <= size tokens + 7 -> int32 x = x).
  { intros x Hx. apply int32_id. unfold is_int32. change (2 ^ 31) with 2147483648. lia. }
  induction fuel as [|fuel IH]; intros i keyframe Hi Hfuel.
  - simpl. replace (i <? size tokens) with false by (symmetry; apply Z.ltb_ge; lia).
    eexists; split; [reflexivity|discriminate].
  - simpl. destruct (i <? size tokens) eqn:Hlt.
    2:{ eexists; split; [reflexivity|discriminate]. }
    apply Z.ltb_lt in Hlt.
    destruct (at_in_range tokens i) as [tok Htok]; [lia|].
    rewrite Htok. cbn [obind].
    repeat lazymatch goal with
    | |- exists r, (if int32 (i + ?n) <? size tokens then _ else _) = Ok r /\ _ =>
        destruct (int32 (i + n) <? size tokens) eqn:?;
        [ match goal with
          | H : (int32 (i + n) <? size tokens) = true |- _ =>
              apply Z.ltb_lt in H;
              assert (Hn : i + n < size tokens)
                by (destruct (Z_lt_dec (i + n) (size tokens)) as [?|Hge];
                    [assumption|rewrite Hid in H by lia; lia])
          end;
          repeat match goal with
                 | |- context [at_ tokens (int32 (i + ?k))] => parse_arg tokens i k
                 end;
          rewrite Hid by lia; apply IH; lia
        | cbv iota ]
    | |- exists r, (if ?c && _ then _ else _) = Ok r /\ _ =>
        destruct c; cbn [andb]
    end.
    all: eexists; split; [reflexivity|]; intros j [= <-]; lia.
Qed.

Lemma lineKeyframe_skipped (qt : Qt) (l : string) :
  skipped (trimmed qt l) = true -> lineValid qt l = true /\ lineKeyframe qt l = None.
Proof. intros H. unfold lineValid, lineKeyframe. rewrite H. auto. Qed.

Lemma line_cases (qt : Qt) (l : string) :
  size (splitSimplified qt (trimmed qt l)) <= 2 ^ 30 ->
  skipped (trimmed qt l) = false ->
  let tokens := splitSimplified qt (trimmed qt l) in
  (exists k, parseTokens qt (S (length tokens)) tokens 0 Keyframe_default = Ok (inr k)
             /\ lineValid qt l = true /\ lineKeyframe qt l = Some k)
  \/ (exists i tok, parseTokens qt (S (length tokens)) tokens 0 Keyframe_default
                    = Ok (inl i)
                    /\ at_ tokens i = Ok tok
                    /\ lineValid qt l = false /\ lineKeyframe qt l = None).
Proof.
  intros Hsize Hskip tokens.
  destruct (parseTokens_total qt tokens Hsize (S (length tokens)) 0 Keyframe_default)
    as ([i|k] & Hparse & Hin); [lia|unfold size; lia| |].
  - right. destruct (at_in_range tokens i) as [tok Htok]; [apply Hin; reflexivity|].
    exists i, tok. unfold lineValid, lineKeyframe. fold tokens.
    rewrite Hskip, Hparse. auto.
  - left. exists k. unfold lineValid, lineKeyframe. fold tokens.
    rewrite Hskip, Hparse. auto.
Qed.

Lemma loadLines_spec (qt : Qt) (lines : list string) :
  Forall (fun l => size (splitSimplified qt (trimmed qt l)) <= 2 ^ 30) lines ->
  forall (n : Z) (a : Animation),
    ascending (_keyframes a) = true ->
    size (_keyframes a) + size lines <= 2 ^ 30 ->
    0 <= n -> n + size lines < 2 ^ 31 ->
    (forallb (lineValid qt) lines = true
     /\ exists a', loadLines qt lines n a = Ok (inr a')
                   /\ addKeyframes a (omap (lineKeyframe qt) lines) = Ok a')
    \/ (exists (m : nat) (l : string) (i : Z) (tok : string),
          lines !! m = Some l /\ lineValid qt l = false
          /\ forallb (lineValid qt) (take m lines) = true
          /\ (parseTokens qt (S (length (splitSimplified qt (trimmed qt l))))
                          (splitSimplified qt (trimmed qt l)) 0 Keyframe_default
               = Ok (inl i)
              /\ at_ (splitSimplified qt (trimmed qt l)) i = Ok tok)
          /\ loadLines qt lines n a = Ok (inl (InvalidToken (n + Z.of_nat m + 1) i tok))).
Proof.
  induction 1 as [|l rest Hl Hrest IH]; intros n a Hasc Hsize Hn Hmax.
  - left. split; [reflexivity|]. exists a. split; reflexivity.
  - change (2 ^ 31) with 2147483648 in Hmax.
    assert (Hsz : size (l :: rest) = size rest + 1)
      by (unfold size; rewrite length_cons; lia).
    assert (Hsz0 : 0 <= size rest) by (unfold size; lia).
    rewrite Hsz in *.
    assert (Hcount : int32 (n + 1) = n + 1).
    { apply int32_id. unfold is_int32. change (2 ^ 31) with 2147483648. lia. }
    cbn [loadLines]. cbv zeta. rewrite Hcount.
    destruct (skipped (trimmed qt l)) eqn:Hskip.
    + destruct (lineKeyframe_skipped qt l Hskip) as [Hv Hk].
      destruct (IH (n + 1) a Hasc ltac:(lia) ltac:(lia) ltac:(lia))
        as [(Hall & a' & Hload & Hadd)|(m & l' & i & tok & Hm & Hbad & Hpre & Htok & Hload)].
      * left. split; [simpl; rewrite Hv, Hall; reflexivity|].
        exists a'. split; [exact Hload|]. simpl. rewrite Hk. exact Hadd.
      * right. exists (S m), l', i, tok.
        split; [exact Hm|]. split; [exact Hbad|].
        split; [simpl; rewrite Hv, Hpre; reflexivity|]. split; [exact Htok|].
        rewrite Hload. do 3 f_equal. lia.
    + destruct (line_cases qt l Hl Hskip)
        as [(k & Hparse & Hv & Hk)|(i & tok & Hparse & Htok & Hv & Hk)];
        rewrite Hparse; cbn [obind].
      * destruct (addKeyframe_sorted a k Hasc ltac:(lia)) as (a1 & Hadd1 & Hasc1 & _ & Hsize1).
        rewrite Hadd1. cbn [obind].
        assert (Hs1 : size (_keyframes a1) <= size (_keyframes a) + 1)
          by (rewrite Hsize1; destruct (decide _); lia).
        destruct (IH (n + 1) a1 Hasc1 ltac:(lia) ltac:(lia) ltac:(lia))
          as [(Hall & a' & Hload & Hadd)|(m & l' & i & tok & Hm & Hbad & Hpre & Htok & Hload)].
        -- left. split; [simpl; rewrite Hv, Hall; reflexivity|].
           exists a'. split; [exact Hload|]. simpl. rewrite Hk. simpl.
           rewrite Hadd1. exact Hadd.
        -- right. exists (S m), l', i, tok.
           split; [exact Hm|]. split; [exact Hbad|].
           split; [simpl; rewrite Hv, Hpre; reflexivity|]. split; [exact Htok|].
           rewrite Hload. do 3 f_equal. lia.
      * right. exists 0%nat, l, i, tok.
        split; [reflexivity|]. split; [exact Hv|]. split; [reflexivity|].
        split; [split; [exact Hparse|exact Htok]|].
        rewrite Htok. cbn [obind]. do 3 f_equal. lia.
Qed.

Lemma mkAnimation_eta (a : Animation) : mkAnimation (_keyframes a) = a.
Proof. destruct a. reflexivity. Qed.

Lemma load_spec (qt : Qt) (lines : list string) (a : Animation) :
  shortLines qt lines ->
  (forallb (lineValid qt) lines = true
   /\ exists a', load qt (Some lines) a = Ok (None, a')
                 /\ addKeyframes (mkAnimation []) (omap (lineKeyframe qt) lines) = Ok a')
  \/ (exists (m : nat) (l : string) (i : Z) (tok : string),
        lines !! m = Some l /\ lineValid qt l = false
        /\ forallb (lineValid qt) (take m lines) = true
        /\ (parseTokens qt (S (length (splitSimplified qt (trimmed qt l))))
                        (splitSimplified qt (trimmed qt l)) 0 Keyframe_default
             = Ok (inl i)
            /\ at_ (splitSimplified qt (trimmed qt l)) i = Ok tok)
        /\ load qt (Some lines) a = Ok (Some (InvalidToken (Z.of_nat m + 1) i tok), a)).
Proof.
  intros [Hsize Htokens]. pose proof Hsize as Hsize'.
  change (2 ^ 30) with 1073741824 in Hsize'.
  destruct (loadLines_spec qt lines Htokens 0 (mkAnimation []))
    as [(Hall & a' & Hload & Hadd)|(m & l & i & tok & Hm & Hbad & Hpre & Htok & Hload)].
  - reflexivity.
  - simpl. unfold size at 1. simpl. lia.
  - lia.
  - change (2 ^ 31) with 2147483648. lia.
  - left. split; [exact Hall|]. exists a'. split; [|exact Hadd].
    unfold load. rewrite Hload. reflexivity.
  - right. exists m, l, i, tok. repeat (split; [assumption|]).
    unfold load. rewrite Hload. cbn [obind]. rewrite mkAnimation_eta. reflexivity.
Qed.

Lemma loaded_keyframes (ks : list Keyframe) (a' : Animation) :
  size ks <= 2 ^ 30 ->
  addKeyframes (mkAnimation []) ks = Ok a' ->
  ascending (_keyframes a') = true
  /\ forall k, k ∈ _keyframes a' <-> lastForTime ks k.
Proof.
  intros Hsize Hadd.
  destruct (addKeyframes_sorted ks (mkAnimation [])) as (a1 & Hadd1 & Hasc & Hmem).
  - reflexivity.
  - simpl. unfold size at 1. simpl. lia.
  - rewrite Hadd1 in Hadd. injection Hadd as <-. split; [exact Hasc|].
    intros k. rewrite Hmem. simpl. split; [|auto].
    intros [H|[H _]]; [exact H|]. inversion H.
Qed.

Lemma omap_size {A B} (f : A -> option B) (l : list A) : size (omap f l) <= size l.
Proof.
  assert (H : (length (omap f l) <= length l)%nat).
  { induction l as [|x l IH]; [simpl; lia|].
    change (omap f (x :: l))
      with (match f x with Some y => y :: omap f l | None => omap f l end).
    destruct (f x); simpl; lia. }
  unfold size. lia.
Qed.

(** X20: [load] returns for every file content (of at most 2^30 lines of
    at most 2^30 tokens), and it returns [true] exactly if no line has an
    invalid token.  If it returns [false], the animation is as it was before
    the call.  If it returns [true], the former keyframes are gone, and the
    keyframes are those of the lines of the file - of several lines for the
    same time only the last - sorted by ascending time, in whatever order
    the lines are. *)
Theorem load_result (qt : Qt) (lines : list string) (a : Animation) :
  shortLines qt lines ->
  exists r a',
    load qt (Some lines) a = Ok (r, a')
    /\ (r = None <-> forallb (lineValid qt) lines = true)
    /\ (r <> None -> a' = a)
    /\ (r = None ->
        ascending (_keyframes a') = true
        /\ forall k, k ∈ _keyframes a' <-> lastForTime (omap (lineKeyframe qt) lines) k).
Proof.
  intros Hshort.
  destruct (load_spec qt lines a Hshort)
    as [(Hall & a' & Hload & Hadd)|(m & l & i & tok & Hm & Hbad & Hpre & Htok & Hload)].
  - exists None, a'. split; [exact Hload|]. split; [tauto|]. split; [congruence|].
    intros _. apply loaded_keyframes; [|exact Hadd].
    destruct Hshort as [Hsize _]. pose proof (omap_size (lineKeyframe qt) lines). lia.
  - eexists _, a. split; [exact Hload|]. split; [split|split].
    + discriminate.
    + intros Hall. rewrite forallb_forall in Hall.
      rewrite Hall in Hbad; [discriminate|].
      apply list_elem_of_In. eapply list_elem_of_lookup_2. exact Hm.
    + reflexivity.
    + discriminate.
Qed.

Lemma load_result_witness :
  exists a',
    load qt_stub (Some exampleFile) sorted_animation = Ok (None, a')
    /\ ascending (_keyframes a') = true.
Proof.
  destruct (load_result qt_stub exampleFile sorted_animation)
    as (r & a' & Hload & Hr & _ & Hsorted).
  - split; [vm_compute; discriminate|].
    repeat constructor; vm_compute; discriminate.
  - assert (r = None) as -> by (apply Hr; vm_compute; reflexivity).
    exists a'. split; [exact Hload|]. apply Hsorted. reflexivity.
Defined.

Lemma shortLines_Permutation (qt : Qt) (lines1 lines2 : list string) :
  lines1 ≡ₚ lines2 -> shortLines qt lines1 -> shortLines qt lines2.
Proof.
  intros Hp [Hsize Htokens]. split.
  - unfold size in *. rewrite <- Hp. exact Hsize.
  - rewrite <- Hp. exact Htokens.
Qed.

Lemma forallb_Permutation {A} (f : A -> bool) (l1 l2 : list A) :
  l1 ≡ₚ l2 -> forallb f l1 = true -> forallb f l2 = true.
Proof.
  intros Hp. rewrite !forallb_forall. intros H x Hx. apply H.
  apply list_elem_of_In. rewrite Hp. apply list_elem_of_In. exact Hx.
Qed.

Lemma lastForTime_distinct (ks : list Keyframe) (k : Keyframe) :
  NoDup (Keyframe.t <$> ks) -> lastForTime ks k <-> k ∈ ks.
Proof.
  intros Hnd. split; [apply lastForTime_elem|apply lastForTime_NoDup; exact Hnd].
Qed.

(** X21: the order of the lines of an animation file is irrelevant: two
    valid files with the same lines in different order, each line for another
    point in time, load to the same animation - whatever the two animations
    were before. *)
Theorem load_line_order_irrelevant (qt : Qt) (lines1 lines2 : list string)
    (a1 a2 : Animation) :
  shortLines qt lines1 -> lines1 ≡ₚ lines2 ->
  forallb (lineValid qt) lines1 = true ->
  NoDup (Keyframe.t <$> omap (lineKeyframe qt) lines1) ->
  exists a',
    load qt (Some lines1) a1 = Ok (None, a') /\ load qt (Some lines2) a2 = Ok (None, a').
Proof.
  intros Hshort1 Hp Hall1 Hnd1.
  pose proof (shortLines_Permutation qt _ _ Hp Hshort1) as Hshort2.
  pose proof (forallb_Permutation _ _ _ Hp Hall1) as Hall2.
  assert (Hpk : omap (lineKeyframe qt) lines1 ≡ₚ omap (lineKeyframe qt) lines2)
    by (rewrite Hp; reflexivity).
  assert (Hnd2 : NoDup (Keyframe.t <$> omap (lineKeyframe qt) lines2))
    by (rewrite <- Hpk; exact Hnd1).
  destruct (load_spec qt lines1 a1 Hshort1)
    as [(_ & a1' & Hload1 & Hadd1)|(m & l & i & tok & Hm & Hbad & _)].
  2:{ exfalso. rewrite forallb_forall in Hall1. rewrite Hall1 in Hbad; [discriminate|].
      apply list_elem_of_In. eapply list_elem_of_lookup_2. exact Hm. }
  destruct (load_spec qt lines2 a2 Hshort2)
    as [(_ & a2' & Hload2 & Hadd2)|(m & l & i & tok & Hm & Hbad & _)].
  2:{ exfalso. rewrite forallb_forall in Hall2. rewrite Hall2 in Hbad; [discriminate|].
      apply list_elem_of_In. eapply list_elem_of_lookup_2. exact Hm. }
  apply loaded_keyframes in Hadd1 as [Hasc1 Hmem1].
  2:{ destruct Hshort1 as [Hsize _]. pose proof (omap_size (lineKeyframe qt) lines1). lia. }
  apply loaded_keyframes in Hadd2 as [Hasc2 Hmem2].
  2:{ destruct Hshort2 as [Hsize _]. pose proof (omap_size (lineKeyframe qt) lines2). lia. }
  assert (Heq : _keyframes a1' = _keyframes a2').
  { apply ascending_ext; try assumption. intros k.
    rewrite Hmem1, Hmem2, !lastForTime_distinct by assumption.
    rewrite Hpk. reflexivity. }
  exists a1'. split; [exact Hload1|]. rewrite Hload2.
  destruct a1', a2'. simpl in Heq. subst. reflexivity.
Qed.

Lemma load_line_order_irrelevant_witness :
  exists a',
    load qt_stub (Some exampleFile) sorted_animation = Ok (None, a')
    /\ load qt_stub (Some (reverse exampleFile)) unsorted_animation = Ok (None, a').
Proof.
  apply load_line_order_irrelevant.
  - split; [vm_compute; discriminate|].
    repeat constructor; vm_compute; discriminate.
  - symmetry. apply reverse_Permutation.
  - vm_compute. reflexivity.
  - apply (bool_decide_unpack _). vm_compute. exact I.
Defined.

Lemma first_invalid_unique {A} (f : A -> bool) (l : list A) (m m' : nat) (x x' : A) :
  l !! m = Some x -> f x = false -> forallb f (take m l) = true ->
  l !! m' = Some x' -> f x' = false -> forallb f (take m' l) = true ->
  m = m'.
Proof.
  intros Hm Hx Hpre Hm' Hx' Hpre'.
  rewrite forallb_forall in Hpre, Hpre'.
  destruct (lt_eq_lt_dec m m') as [[Hlt|Heq]|Hgt]; [|exact Heq|].
  - exfalso. rewrite Hpre' in Hx; [discriminate|].
    apply list_elem_of_In. apply (list_elem_of_lookup_2 _ m).
    rewrite lookup_take_lt by lia. exact Hm.
  - exfalso. rewrite Hpre in Hx'; [discriminate|].
    apply list_elem_of_In. apply (list_elem_of_lookup_2 _ m').
    rewrite lookup_take_lt by lia. exact Hm'.
Qed.

(** X22: if a file has a line with an invalid token, [load] reports the
    first such line by its number - counted from 1, comment lines and empty
    lines included - with the index [i] at which the token loop of the line
    gave up ([parseTokens] of the line ends with [i]: the token at [i] is no
    keyword, or fewer tokens follow it than the keyword takes) and with the
    text of the token at [i], and leaves the animation as it was. *)
Theorem load_reports_first_invalid_line (qt : Qt) (lines : list string) (a : Animation)
    (m : nat) (l : string) :
  shortLines qt lines ->
  lines !! m = Some l -> lineValid qt l = false ->
  forallb (lineValid qt) (take m lines) = true ->
  exists (i : Z) (tok : string),
    parseTokens qt (S (length (splitSimplified qt (trimmed qt l))))
                (splitSimplified qt (trimmed qt l)) 0 Keyframe_default
    = Ok (inl i)
    /\ 0 <= i < size (splitSimplified qt (trimmed qt l))
    /\ at_ (splitSimplified qt (trimmed qt l)) i = Ok tok
    /\ load qt (Some lines) a = Ok (Some (InvalidToken (Z.of_nat m + 1) i tok), a).
Proof.
  intros Hshort Hm Hbad Hpre.
  destruct (load_spec qt lines a Hshort)
    as [(Hall & _)|(m' & l' & i & tok & Hm' & Hbad' & Hpre' & [Hparse Htok] & Hload)].
  - exfalso. rewrite forallb_forall in Hall. rewrite Hall in Hbad; [discriminate|].
    apply list_elem_of_In. eapply list_elem_of_lookup_2. exact Hm.
  - assert (m = m') as <-
      by (eapply (first_invalid_unique (lineValid qt)); eassumption).
    rewrite Hm in Hm'. injection Hm' as <-.
    exists i, tok. split; [exact Hparse|]. split; [|split; assumption].
    apply at_Ok in Htok as [Hi Hlook]. apply lookup_lt_Some in Hlook.
    unfold size. lia.
Qed.

Lemma load_reports_first_invalid_line_witness :
  load qt_stub
       (Some ["# comment"; "time 1"; ""; "time 1 pos:cart 1 0"; "time"]%string)
       sorted_animation
  = Ok (Some (InvalidToken 4 2 "pos:cart"), sorted_animation).
Proof.
  destruct (load_reports_first_invalid_line qt_stub
              ["# comment"; "time 1"; ""; "time 1 pos:cart 1 0"; "time"]%string
              sorted_animation 3 "time 1 pos:cart 1 0") as (i & tok & Hparse & _ & Htok & H).
  - split; [vm_compute; discriminate|].
    repeat constructor; vm_compute; discriminate.
  - reflexivity.
  - vm_compute. reflexivity.
  - vm_compute. reflexivity.
  - vm_compute in Hparse. injection Hparse as <-.
    vm_compute in Htok. injection Htok as <-. exact H.
Defined.

(** ** The simulated time range *)

Lemma keyframe_in_range (a : Animation) (k : Keyframe) :
  ascending (_keyframes a) = true -> k ∈ _keyframes a ->
  startTime a <= Keyframe.t k <= endTime a.
Proof.
  intros Hasc Hk.
  assert (Hne : _keyframes a <> []) by (intros E; rewrite E in Hk; inversion Hk).
  destruct (lookup_lt_is_Some_2 (_keyframes a) 0) as [kf Hf];
    [destruct (_keyframes a); [congruence|simpl; lia]|].
  destruct (lookup_lt_is_Some_2 (_keyframes a) (pred (length (_keyframes a))))
    as [kl Hl]; [destruct (_keyframes a); [congruence|simpl; lia]|].
  rewrite (startTime_lookup a kf Hf), (endTime_lookup a kl Hl).
  apply (ascending_ends (_keyframes a)); assumption.
Qed.

Lemma animation_range (a : Animation) :
  ascending (_keyframes a) = true -> startTime a <= endTime a.
Proof.
  intros Hasc. destruct (decide (_keyframes a = [])) as [El|Hne].
  - unfold startTime, endTime. rewrite El. simpl. lia.
  - destruct (lookup_lt_is_Some_2 (_keyframes a) 0) as [kf Hf];
      [destruct (_keyframes a); [congruence|simpl; lia]|].
    assert (Hk : kf ∈ _keyframes a) by (eapply list_elem_of_lookup_2; exact Hf).
    pose proof (keyframe_in_range a kf Hasc Hk). lia.
Qed.

(** X23: the time range that the frame loop covers contains every
    keyframe of every animation that is sorted by time (as [addKeyframe] and
    [load] leave them): for every simulator that a program can reach,
    [startTimestamp()] is at or before, and [endTimestamp()] at or after, the
    time of each keyframe of each sorted animation of the camera, the lights
    and the objects; and if the camera animation is sorted,
    [startTimestamp()] is at or before [endTimestamp()]. *)
Theorem time_range_covers_keyframes (link : Linker) (slerp : Slerp) (s : Simulator) :
  reachable link slerp s ->
  (forall (a : Animation) (k : Keyframe),
     a ∈ allAnimations s -> ascending (_keyframes a) = true -> k ∈ _keyframes a ->
     fst (startTimestamp s) <= Keyframe.t k <= fst (endTimestamp s))
  /\ (ascending (_keyframes (_cameraAnimation s)) = true ->
      fst (startTimestamp s) <= fst (endTimestamp s)).
Proof.
  intros Hr.
  pose proof (boundsCached_correct s (reachable_boundsCached link slerp s Hr))
    as [[_ Hmin] [_ Hmax]].
  assert (Hbounds : forall a, a ∈ allAnimations s ->
            fst (startTimestamp s) <= startTime a /\ endTime a <= fst (endTimestamp s)).
  { intros a Ha. split.
    - apply Hmin. apply list_elem_of_fmap. exists a. auto.
    - apply Hmax. apply list_elem_of_fmap. exists a. auto. }
  split.
  - intros a k Ha Hasc Hk. destruct (Hbounds a Ha) as [H1 H2].
    pose proof (keyframe_in_range a k Hasc Hk). lia.
  - intros Hasc.
    destruct (Hbounds (_cameraAnimation s)) as [H1 H2]; [left|].
    pose proof (animation_range _ Hasc). lia.
Qed.

Lemma time_range_covers_keyframes_witness :
  fst (startTimestamp (setCameraAnimation movingCamera
                         (setScene oneLightScene (Simulator_new 5 6 false 0))))
  <= fst (endTimestamp (setCameraAnimation movingCamera
                          (setScene oneLightScene (Simulator_new 5 6 false 0)))).
Proof.
  apply (time_range_covers_keyframes link_all slerp_stub).
  - exists [CallSetScene oneLightScene; CallSetCameraAnimation movingCamera],
      5, 6, false, 0.
    reflexivity.
  - reflexivity.
Defined.

(** ** The results of a frame do not depend on earlier frames *)

Lemma Forall2_functional {A B} (f : A -> outcome B) (l : list A) (r1 r2 : list B) :
  Forall2 (fun x y => f x = Ok y) l r1 -> Forall2 (fun x y => f x = Ok y) l r2 ->
  r1 = r2.
Proof.
  intros H1. revert r2. induction H1 as [|x y l r1 Hxy _ IH]; intros r2 H2.
  - inversion H2. reflexivity.
  - inversion H2 as [|x' y' l' r2' Hxy' H2']; subst.
    rewrite Hxy in Hxy'. injection Hxy' as <-. f_equal. apply IH. exact H2'.
Qed.

Lemma interpolated_functional (slerp : Slerp) (animations : list Animation) (t : Z)
    (r1 r2 : list Transformation) :
  interpolated slerp animations t r1 -> interpolated slerp animations t r2 -> r1 = r2.
Proof. apply Forall2_functional. Qed.

Lemma Forall2_rows_functional (slerp : Slerp) (animations : list Animation)
    (T : list Z) (L1 L2 : list (list Transformation)) :
  Forall2 (interpolated slerp animations) T L1 ->
  Forall2 (interpolated slerp animations) T L2 -> L1 = L2.
Proof.
  intros H1. revert L2. induction H1 as [|x y l r1 Hxy _ IH]; intros L2 H2.
  - inversion H2. reflexivity.
  - inversion H2 as [|x' y' l' r2' Hxy' H2']; subst.
    f_equal; [eapply interpolated_functional; eassumption|apply IH; exact H2'].
Qed.

Lemma sameConfiguration_subFrameTimestamp (s s' : Simulator) (t i : Z) :
  sameConfiguration s s' -> subFrameTimestamp s' t i = subFrameTimestamp s t i.
Proof.
  intros (_ & _ & Hc & _ & Hp & _). unfold subFrameTimestamp.
  rewrite Hp, (subFrameDuration_ext _ _ Hc). reflexivity.
Qed.

(** X24: what [simulate(t)] records for a frame depends on [t] and on the
    configuration only, not on the frames simulated before: two simulators
    with the same configuration, whatever their histories, have the same
    sub-frame time stamps and the same transformations of camera, lights and
    objects after [simulate(t)]. *)
Theorem simulate_results_history_free (link : Linker) (slerp : Slerp)
    (s1 s2 : Simulator) (t : Z) :
  reachable link slerp s1 -> reachable link slerp s2 ->
  sameConfiguration s1 s2 ->
  validConfiguration s1 = true -> linksAll link s1 -> smallAnimations s1 ->
  srgbNeedsRgb s1 ->
  exists s1' s2',
    simulate link slerp t s1 = (Ok tt, s1')
    /\ simulate link slerp t s2 = (Ok tt, s2')
    /\ _timestamps s2' = _timestamps s1'
    /\ _cameraTransformations s2' = _cameraTransformations s1'
    /\ _lightTransformations s2' = _lightTransformations s1'
    /\ _objectTransformations s2' = _objectTransformations s1'.
Proof.
  intros Hr1 Hr2 Hsame Hvalid Hlink Hsmall Hsrgb.
  pose proof Hsame as (Hc & Hs & Hct & _ & Hp & Ho).
  destruct (simulate_spec link slerp t s1 Hvalid Hlink Hsmall
              (reachable_outputReady _ _ _ Hr1) Hsrgb) as ([] & s1' & Hrun1 & Hrec1).
  destruct (simulate_spec link slerp t s2) as ([] & s2' & Hrun2 & Hrec2).
  - unfold validConfiguration in *. rewrite Hs, Hp, Ho. exact Hvalid.
  - eapply linksAll_ext; eassumption.
  - unfold smallAnimations, allAnimations in *. rewrite Hc, Hs. exact Hsmall.
  - apply (reachable_outputReady _ _ _ Hr2).
  - unfold srgbNeedsRgb in *. rewrite Ho. exact Hsrgb.
  - destruct Hrec1 as (_ & _ & _ & _ & _ & _ & HT1 & HC1 & HL1 & HO1 & _).
    destruct Hrec2 as (_ & _ & _ & _ & _ & _ & HT2 & HC2 & HL2 & HO2 & _).
    assert (HT : _timestamps s2' = _timestamps s1').
    { rewrite HT1, HT2, (subFrames_output _ _ Ho). apply list_fmap_ext.
      intros i x _. apply sameConfiguration_subFrameTimestamp. exact Hsame. }
    rewrite HT, Hc in HC2. rewrite HT, Hs in HL2, HO2.
    exists s1', s2'. split; [exact Hrun1|]. split; [exact Hrun2|].
    split; [exact HT|].
    split; [eapply Forall2_functional; eassumption|].
    split; eapply Forall2_rows_functional; eassumption.
Qed.

Lemma simulate_results_history_free_witness :
  exists s1' s2',
    simulate link_all slerp_stub 7
      (setScene twoByTwoScene (Simulator_new 0 0 false 0)) = (Ok tt, s1')
    /\ simulate link_all slerp_stub 7
         (snd (run link_all slerp_stub [CallSetScene twoByTwoScene; CallSimulate 0]
                 (Simulator_new 1 2 true 3))) = (Ok tt, s2')
    /\ _lightTransformations s2' = _lightTransformations s1'.
Proof.
  destruct (simulate_results_history_free link_all slerp_stub
              (setScene twoByTwoScene (Simulator_new 0 0 false 0))
              (snd (run link_all slerp_stub [CallSetScene twoByTwoScene; CallSimulate 0]
                      (Simulator_new 1 2 true 3))) 7)
    as (s1' & s2' & H1 & H2 & _ & _ & HL & _).
  - exists [CallSetScene twoByTwoScene], 0, 0, false, 0. reflexivity.
  - exists [CallSetScene twoByTwoScene; CallSimulate 0], 1, 2, true, 3.
    vm_compute. reflexivity.
  - vm_compute. repeat split.
  - reflexivity.
  - intros prg _. reflexivity.
  - unfold smallAnimations. simpl. repeat constructor; vm_compute; discriminate.
  - intros _ _. reflexivity.
  - exists s1', s2'. auto.
Defined.

(** ** The time stamp queries *)

Lemma timestamp_query_state (q : Simulator -> Z * Simulator) (s : Simulator) :
  q ∈ [startTimestamp; endTimestamp; nextFrameTimestamp] ->
  snd (q s) = recreateTimestampsIfNecessary s
  /\ q (recreateTimestampsIfNecessary s) = q s.
Proof.
  intros Hq. repeat (apply elem_of_cons in Hq as [->|Hq]); [..|inversion Hq].
  - unfold startTimestamp. simpl. rewrite recreateTimestamps_idempotent. auto.
  - unfold endTimestamp. simpl. rewrite recreateTimestamps_idempotent. auto.
  - unfold nextFrameTimestamp, startTimestamp.
    rewrite !recreateTimestamps_idempotent.
    destruct (_haveLastFrameTimestamp (recreateTimestampsIfNecessary s)); auto.
Qed.

(** X25: the time stamp queries [startTimestamp()], [endTimestamp()] and
    [nextFrameTimestamp()] change the simulator at most once: whichever of
    them is called first resolves the time stamp bounds, and any of them
    called afterwards returns what it would have returned when called first,
    and leaves the same simulator.  In particular, repeated calls of
    [nextFrameTimestamp()] return the same time stamp. *)
Theorem timestamp_queries_idempotent (q1 q2 : Simulator -> Z * Simulator)
    (s : Simulator) :
  q1 ∈ [startTimestamp; endTimestamp; nextFrameTimestamp] ->
  q2 ∈ [startTimestamp; endTimestamp; nextFrameTimestamp] ->
  q2 (snd (q1 s)) = q2 s.
Proof.
  intros H1 H2.
  destruct (timestamp_query_state q1 s H1) as [-> _].
  destruct (timestamp_query_state q2 s H2) as [_ ->]. reflexivity.
Qed.

Lemma timestamp_queries_idempotent_witness :
  nextFrameTimestamp
    (snd (endTimestamp (setCameraAnimation movingCamera (Simulator_new 0 0 true 7))))
  = nextFrameTimestamp (setCameraAnimation movingCamera (Simulator_new 0 0 true 7)).
Proof.
  apply (timestamp_queries_idempotent endTimestamp nextFrameTimestamp).
  - right. left.
  - right. right. left.
Defined.

(** ** [getTimestamp] after a change of the output *)

(** X26: [getTimestamp] checks that a frame was simulated and that the
    index is below [subFrames()], but not that the output is resolved.  So
    after a frame was simulated without PMD output (one sub-frame) and PMD
    output is switched on with [setOutput] (four sub-frames), and before the
    next [simulate], [getTimestamp(i)] reads [_timestamps[i]] outside of the
    vector for [i] = 1, 2, 3, and for [i] = -1, 0 it still returns the time
    stamp of the frame simulated before, while [haveValidOutput(i)] is
    false. *)
Theorem getTimestamp_after_setOutput (link : Linker) (slerp : Slerp) (s : Simulator)
    (output : Output) (i : Z) :
  reachable link slerp s ->
  _recreateOutput s = false -> _haveLastFrameTimestamp s = true ->
  pmd (_output s) = false -> pmd output = true ->
  (1 <= i < 4 -> getTimestamp (setOutput output s) i = Fail OutOfRange)
  /\ (-1 <= i <= 0 ->
      haveValidOutput (setOutput output s) i = false
      /\ getTimestamp (setOutput output s) i = getTimestamp s i).
Proof.
  intros Hr Hflag Hhave Hpmd Hpmd'.
  apply reachable_outputReady in Hr. destruct (Hr Hflag) as (HT & _).
  assert (Hsub : subFrames s = 1) by (unfold subFrames; rewrite Hpmd; reflexivity).
  rewrite Hsub in HT. simpl in HT.
  assert (Hsub' : subFrames (setOutput output s) = 4)
    by (unfold subFrames; simpl; rewrite Hpmd'; reflexivity).
  split.
  - intros Hi. unfold getTimestamp. rewrite Hsub'. simpl. rewrite Hhave. simpl.
    replace (i <? -1) with false by (symmetry; apply Z.ltb_ge; lia).
    replace (i >=? 4) with false by (symmetry; rewrite Z.geb_leb; apply Z.leb_gt; lia).
    replace (i <? 0) with false by (symmetry; apply Z.ltb_ge; lia).
    simpl. apply at_out_of_range. right. unfold size. rewrite HT. lia.
  - intros Hi. split; [reflexivity|].
    unfold getTimestamp. rewrite Hsub', Hsub. simpl. rewrite Hhave. simpl.
    replace (i <? -1) with false by (symmetry; apply Z.ltb_ge; lia).
    replace (i >=? 4) with false by (symmetry; rewrite Z.geb_leb; apply Z.leb_gt; lia).
    replace (i >=? 1) with false by (symmetry; rewrite Z.geb_leb; apply Z.leb_gt; lia).
    reflexivity.
Qed.

Lemma getTimestamp_after_setOutput_witness :
  getTimestamp
    (setOutput pmdOutput
       (snd (run link_all slerp_stub [CallSetScene oneLightScene; CallSimulate 0]
               (Simulator_new 0 0 false 0)))) 2
  = Fail OutOfRange.
Proof.
  apply (getTimestamp_after_setOutput link_all slerp_stub
           (snd (run link_all slerp_stub [CallSetScene oneLightScene; CallSimulate 0]
                   (Simulator_new 0 0 false 0))) pmdOutput 2).
  - exists [CallSetScene oneLightScene; CallSimulate 0], 0, 0, false, 0.
    vm_compute. reflexivity.
  - vm_compute. reflexivity.
  - vm_compute. reflexivity.
  - vm_compute. reflexivity.
  - reflexivity.
  - lia.
Defined.

(** ** After [simulate] has returned *)

Lemma recreateShaders_returned (link : Linker) (s s1 : Simulator) :
  recreateShadersIfNecessary link s = (Ok tt, s1) -> _recreateShaders s = true ->
  validConfiguration s = true /\ linksAll link s.
Proof.
  intros Hok Hflag. destruct (validConfiguration s) eqn:Hvalid.
  - split; [reflexivity|].
    destruct (linksAll_dec link s) as [Hlink|(prg & Hneed & Hl)]; [exact Hlink|].
    destruct (recreateShaders_link_failure link s prg Hflag Hvalid Hneed Hl) as [msg Hfail].
    rewrite Hfail in Hok. discriminate Hok.
  - destruct (recreateShaders_invalid link s Hflag Hvalid) as [msg Hfail].
    rewrite Hfail in Hok. discriminate Hok.
Qed.

Lemma sameShaders_resolved (link : Linker) (s s' : Simulator) :
  sameShaders s s' -> shadersResolved link s -> shadersResolved link s'.
Proof.
  intros (Hs & Hp & Ho & Hf) H Hflag. rewrite Hf in Hflag.
  destruct (H Hflag) as [Hvalid Hlink]. split.
  - unfold validConfiguration in *. rewrite Hs, Hp, Ho. exact Hvalid.
  - intros prg Hneed. apply Hlink. revert Hneed. unfold needed. rewrite Hp, Ho. tauto.
Qed.

Lemma recreateShaders_resolved (link : Linker) (s s1 : Simulator) :
  shadersResolved link s ->
  recreateShadersIfNecessary link s = (Ok tt, s1) ->
  validConfiguration s1 = true /\ linksAll link s1.
Proof.
  intros Hinv Hok.
  pose proof (keeps_recreateShadersIfNecessary link s) as Hk. rewrite Hok in Hk.
  destruct Hk as (_ & Hs & _ & _ & Hp & Ho & _). simpl in Hs, Hp, Ho.
  assert (H : validConfiguration s = true /\ linksAll link s).
  { destruct (_recreateShaders s) eqn:Hflag.
    - eapply recreateShaders_returned; eassumption.
    - apply Hinv. exact Hflag. }
  destruct H as [Hvalid Hlink]. split.
  - unfold validConfiguration in *. rewrite Hs, Hp, Ho. exact Hvalid.
  - intros prg Hneed. apply Hlink. revert Hneed. unfold needed. rewrite Hp, Ho. tauto.
Qed.

Lemma call_shadersResolved (link : Linker) (slerp : Slerp) (c : Call) (s s' : Simulator) :
  shadersResolved link s -> call link slerp c s = (Ok tt, s') -> shadersResolved link s'.
Proof.
  intros H Hc. destruct c as [a|sc|ct|pr|pl|o| | | |ft]; simpl in Hc.
  1-6: unfold modify in Hc; injection Hc as <-.
  1,3,4: eapply sameShaders_resolved; [|exact H]; unfold sameShaders; simpl; repeat split.
  1-3: intros Hf; discriminate Hf.
  1-2: unfold bind, liftS, startTimestamp, endTimestamp in Hc; simpl in Hc;
       injection Hc as <-;
       eapply sameShaders_resolved; [apply recreateTimestamps_sameShaders|exact H].
  - unfold bind, liftS, nextFrameTimestamp, startTimestamp in Hc.
    destruct (_haveLastFrameTimestamp (recreateTimestampsIfNecessary s)); simpl in Hc;
      injection Hc as <-.
    + eapply sameShaders_resolved; [apply recreateTimestamps_sameShaders|exact H].
    + eapply sameShaders_resolved; [apply recreateTimestamps_sameShaders|].
      eapply sameShaders_resolved; [apply recreateTimestamps_sameShaders|exact H].
  - unfold simulate in Hc. apply bind_Ok in Hc as ([] & s1 & Hshaders & Hrest).
    pose proof (recreateShaders_resolved link s s1 H Hshaders) as H1.
    eapply sameShaders_resolved; [|intros _; exact H1].
    pose proof (keeps_simulate_rest sameShaders slerp ft _
                  (keeps_simulate_end sameShaders ft) s1) as Hk.
    rewrite Hrest in Hk. exact Hk.
Qed.

Lemma reachable_shadersResolved (link : Linker) (slerp : Slerp) (s : Simulator) :
  reachable link slerp s -> shadersResolved link s.
Proof.
  intros (cs & start0 & end0 & have0 & last0 & Hrun).
  assert (Hinit : shadersResolved link (Simulator_new start0 end0 have0 last0))
    by (intros Hf; discriminate Hf).
  revert Hrun Hinit. generalize (Simulator_new start0 end0 have0 last0) as s0.
  induction cs as [|c cs IH]; intros s0 Hrun Hinit.
  - injection Hrun as <-. exact Hinit.
  - unfold run in Hrun. simpl in Hrun. apply bind_Ok in Hrun as ([] & s1 & Hc & Hrun).
    apply (IH s1 Hrun). eapply call_shadersResolved; eassumption.
Qed.

(** X10: when [simulate(t)] has returned on a simulator that a program can
    reach (no animation with more than 2^30 keyframes), the configuration
    has passed the eight sanity checks and the shader programs it needs have
    linked; shaders and output count as resolved, [t] is recorded as the last
    frame, and every sub-frame has its time stamp (the frame time plus the
    sub-frame durations before it) and the transformations of the camera, of
    every light and of every object, each interpolated from its animation at
    that time stamp. *)
Theorem simulate_records_frame (link : Linker) (slerp : Slerp) (s s' : Simulator)
    (t : Z) :
  reachable link slerp s -> smallAnimations s ->
  simulate link slerp t s = (Ok tt, s') ->
  validConfiguration s = true /\ linksAll link s
  /\ _recreateShaders s' = false /\ _recreateOutput s' = false
  /\ _haveLastFrameTimestamp s' = true /\ _lastFrameTimestamp s' = t
  /\ _timestamps s' = (subFrameTimestamp s t <$> seqZ 0 (subFrames s))
  /\ Forall2 (fun ts cam => interpolate slerp (_cameraAnimation s) ts = Ok cam)
             (_timestamps s') (_cameraTransformations s')
  /\ Forall2 (interpolated slerp (lightAnimations (_scene s)))
             (_timestamps s') (_lightTransformations s')
  /\ Forall2 (interpolated slerp (objectAnimations (_scene s)))
             (_timestamps s') (_objectTransformations s').
Proof.
  intros Hr Hsmall Hrun.
  assert (Hcfg : validConfiguration s = true /\ linksAll link s).
  { pose proof Hrun as Hrun'. unfold simulate in Hrun'.
    apply bind_Ok in Hrun' as ([] & s1 & Hshaders & _).
    destruct (_recreateShaders s) eqn:Hflag.
    - eapply recreateShaders_returned; eassumption.
    - apply (reachable_shadersResolved link slerp s Hr Hflag). }
  destruct Hcfg as [Hvalid Hlink].
  pose proof (reachable_outputReady _ _ _ Hr) as Hready.
  assert (Hsrgb : srgbNeedsRgb s).
  { intros Hsrgb Hpmd. destruct (rgb (_output s)) eqn:Hrgb; [reflexivity|]. exfalso.
    destruct (simulate_srgb_fails link slerp t s Hvalid Hlink Hsmall Hready
                Hpmd Hsrgb Hrgb) as [s2 Hfail].
    rewrite Hfail in Hrun. discriminate Hrun. }
  destruct (simulate_spec link slerp t s Hvalid Hlink Hsmall Hready Hsrgb)
    as ([] & s2 & Hrun2 & Hrec).
  rewrite Hrun in Hrun2. injection Hrun2 as <-.
  destruct Hrec as (_ & Hsh & Hro & _ & Hhave & Hlast & HT & HC & HL & HO & _).
  repeat (split; [assumption|]). assumption.
Qed.

Lemma simulate_records_frame_witness :
  _timestamps
    (snd (simulate link_all slerp_stub 0
            (setOutput pmdOutput (setScene twoByTwoScene (Simulator_new 0 0 false 0)))))
  = [0; 33333; 66666; 99999].
Proof.
  destruct (simulate_records_frame link_all slerp_stub
              (setOutput pmdOutput (setScene twoByTwoScene (Simulator_new 0 0 false 0)))
              (snd (simulate link_all slerp_stub 0
                      (setOutput pmdOutput
                         (setScene twoByTwoScene (Simulator_new 0 0 false 0)))))
              0)
    as (_ & _ & _ & _ & _ & _ & HT & _).
  - exists [CallSetScene twoByTwoScene; CallSetOutput pmdOutput], 0, 0, false, 0.
    reflexivity.
  - unfold smallAnimations. simpl. repeat constructor; vm_compute; discriminate.
  - vm_compute. reflexivity.
  - rewrite HT. vm_compute. reflexivity.
Defined.

(* ===================================================================== *)
(** * Properties of [TexData] *)
(* ===================================================================== *)

Lemma size_t_id (x : Z) : 0 <= x < 2 ^ 64 -> size_t x = x.
Proof. intros H. unfold size_t. apply Z.mod_small. exact H. Qed.

Lemma glTypeSize_Ok (type : GLtype) (ts : Z) :
  glTypeSize type = Ok ts -> ts = 1 \/ ts = 2 \/ ts = 4.
Proof.
  unfold glTypeSize. destruct type; simpl; intros [= <-] || discriminate; auto.
Qed.

Lemma memcpy_spec (dst : list Byte.byte) (d : Z) (src : list Byte.byte) (s n : Z) :
  0 <= d -> 0 <= s -> 0 <= n -> d + n <= size dst -> s + n <= size src ->
  exists r,
    memcpy dst d src s n = Ok r
    /\ length r = length dst
    /\ (forall j : Z, 0 <= j -> j < d \/ d + n <= j -> r !! Z.to_nat j = dst !! Z.to_nat j)
    /\ (forall b : Z, 0 <= b < n -> r !! Z.to_nat (d + b) = src !! Z.to_nat (s + b)).
Proof.
  intros Hd Hs Hn Hdst Hsrc. unfold memcpy, size in *.
  replace (0 <=? d) with true by (symmetry; apply Z.leb_le; lia).
  replace (0 <=? s) with true by (symmetry; apply Z.leb_le; lia).
  replace (0 <=? n) with true by (symmetry; apply Z.leb_le; lia).
  replace (d + n <=? Z.of_nat (length dst)) with true by (symmetry; apply Z.leb_le; lia).
  replace (s + n <=? Z.of_nat (length src)) with true by (symmetry; apply Z.leb_le; lia).
  simpl. eexists. split; [reflexivity|].
  assert (L1 : length (take (Z.to_nat d) dst) = Z.to_nat d)
    by (rewrite length_take; lia).
  assert (L2 : length (take (Z.to_nat n) (drop (Z.to_nat s) src)) = Z.to_nat n)
    by (rewrite length_take, length_drop; lia).
  split; [|split].
  - rewrite !length_app, L1, L2, length_drop. lia.
  - intros j Hj [Hlt|Hge].
    + rewrite lookup_app_l by (rewrite L1; lia).
      apply lookup_take_lt. lia.
    + rewrite lookup_app_r by (rewrite L1; lia).
      rewrite lookup_app_r by (rewrite L1, L2; lia).
      rewrite L1, L2, lookup_drop. f_equal. lia.
  - intros b Hb.
    rewrite lookup_app_r by (rewrite L1; lia).
    rewrite lookup_app_l by (rewrite L1, L2; lia).
    rewrite L1, lookup_take_lt by lia.
    rewrite lookup_drop. f_equal. lia.
Qed.

Lemma resized_length (n : Z) : 0 <= n < 2 ^ 31 -> size (resized n) = n.
Proof.
  intros Hn. unfold resized, size. rewrite length_replicate.
  rewrite int32_id by (unfold is_int32; lia). lia.
Qed.

(** The sizes of a well-formed texture, without wrap-around. *)
Lemma wellFormed_sizes (t : TexData.TexData) (ts : Z) :
  TexData.wellFormed t ts ->
  1 <= ts <= 4
  /\ TexData.packedElementSize t = Ok (ts * TexData._channels t)
  /\ TexData.packedLineSize t = Ok (ts * TexData._channels t * TexData._w t)
  /\ TexData.packedDataSize t
     = Ok (ts * TexData._channels t * TexData._w t * TexData._h t)
  /\ TexData.planarElementSize t = Ok ts
  /\ TexData.planarLineSize t = Ok (ts * TexData._w t)
  /\ TexData.planarColumnSize t = Ok (ts * TexData._h t)
  /\ TexData.planarDataSize t = Ok (ts * TexData._w t * TexData._h t)
  /\ 0 <= ts * TexData._w t * TexData._h t <= size (TexData._packedData t).
Proof.
  intros (Hts & Hw & Hh & Hc & Hsize & Hmax).
  change (2 ^ 31) with 2147483648 in *.
  assert (Hts' : 1 <= ts <= 4).
  { unfold TexData.typeSize in Hts. apply glTypeSize_Ok in Hts. lia. }
  assert (H64 : 2 ^ 64 = 18446744073709551616) by reflexivity.
  split; [exact Hts'|].
  unfold TexData.packedDataSize, TexData.packedLineSize, TexData.packedElementSize,
    TexData.planarDataSize, TexData.planarLineSize, TexData.planarColumnSize,
    TexData.planarElementSize, TexData.width, TexData.height, TexData.channels.
  rewrite Hts. cbn [obind].
  assert (B1 : 0 <= ts * TexData._channels t <= 16) by nia.
  assert (B2 : 0 <= ts * TexData._channels t * TexData._w t <= 16 * 2147483648) by nia.
  assert (B3 : 0 <= ts * TexData._w t <= 4 * 2147483648) by nia.
  assert (B4 : 0 <= ts * TexData._h t <= 4 * 2147483648) by nia.
  rewrite (size_t_id (ts * TexData._channels t)) by (rewrite H64; lia). cbn [obind].
  rewrite (size_t_id (ts * TexData._channels t * TexData._w t)) by (rewrite H64; lia).
  cbn [obind].
  rewrite (size_t_id (ts * TexData._channels t * TexData._w t * TexData._h t))
    by (rewrite <- Hsize, H64; unfold size in *; lia).
  rewrite (size_t_id (ts * TexData._w t)) by (rewrite H64; lia).
  rewrite (size_t_id (ts * TexData._h t)) by (rewrite H64; lia). cbn [obind].
  assert (Hplanar : 0 <= ts * TexData._w t * TexData._h t <= size (TexData._packedData t)).
  { rewrite Hsize. split; [apply Z.mul_nonneg_nonneg; nia|].
    assert (0 <= ts * TexData._w t * TexData._h t) by (apply Z.mul_nonneg_nonneg; nia).
    replace (ts * TexData._channels t * TexData._w t * TexData._h t)
      with (TexData._channels t * (ts * TexData._w t * TexData._h t)) by ring.
    nia. }
  rewrite (size_t_id (ts * TexData._w t * TexData._h t)) by (rewrite H64; lia).
  repeat split; try reflexivity; lia.
Qed.

(** The loops of [planarDataArray] and [transposedPlanarDataArray]: every
    element [(x, y)] is copied from its offset [off y x] in the packed data
    to its slot [slot y x] in the result. *)
Lemma gather_loop (w h ts N : Z) (data : list Byte.byte) (off slot : Z -> Z -> Z)
    (outer : list Byte.byte -> Z -> outcome (list Byte.byte))
    (body : Z -> list Byte.byte -> Z -> outcome (list Byte.byte)) :
  0 <= w -> 0 <= h -> 0 <= ts ->
  (forall r y, outer r y = ofold (body y) (indices_below w) r) ->
  (forall y r x, 0 <= y < h -> 0 <= x < w ->
     body y r x = memcpy r (slot y x * ts) data (off y x) ts) ->
  (forall y x, 0 <= y < h -> 0 <= x < w -> 0 <= slot y x /\ (slot y x + 1) * ts <= N) ->
  (forall y x y' x', 0 <= y < h -> 0 <= x < w -> 0 <= y' < h -> 0 <= x' < w ->
     slot y x = slot y' x' -> y = y' /\ x = x') ->
  (forall y x, 0 <= y < h -> 0 <= x < w -> 0 <= off y x /\ off y x + ts <= size data) ->
  forall r0, size r0 = N ->
  exists r,
    ofold outer (indices_below h) r0 = Ok r
    /\ size r = N
    /\ forall y x b, 0 <= y < h -> 0 <= x < w -> 0 <= b < ts ->
         r !! Z.to_nat (slot y x * ts + b) = data !! Z.to_nat (off y x + b).
Proof.
  intros Hw Hh Hts Houter Hbody Hslot Hinj Hoff r0 Hr0.
  set (done := fun (y0 x0 : Z) (r : list Byte.byte) =>
         size r = N
         /\ forall y x b, 0 <= y < h -> 0 <= x < w -> 0 <= b < ts ->
              y < y0 \/ (y = y0 /\ x < x0) ->
              r !! Z.to_nat (slot y x * ts + b) = data !! Z.to_nat (off y x + b)).
  destruct (ofold_below h outer (fun y0 r => done y0 0 r) r0 Hh)
    as (r & Hr & Hsize & Hdone).
  - split; [exact Hr0|]. intros y x b Hy Hx Hb [H|[H1 H2]]; lia.
  - intros y r1 Hy Hinv.
    rewrite Houter.
    destruct (ofold_below w (body y) (fun x0 r => done y x0 r) r1 Hw)
      as (r2 & Hr2 & Hinv2).
    + exact Hinv.
    + intros x r2 Hx (Hsize2 & Hdone2).
      destruct (Hslot y x Hy Hx) as [Hs0 Hs1].
      destruct (Hoff y x Hy Hx) as [Ho0 Ho1].
      destruct (memcpy_spec r2 (slot y x * ts) data (off y x) ts)
        as (r3 & Hcpy & Hlen & Hout & Hin);
        [nia|lia|lia|rewrite Hsize2; nia|lia|].
      exists r3. split; [rewrite Hbody by assumption; exact Hcpy|].
      split; [unfold size in *; lia|].
      intros y' x' b Hy' Hx' Hb Hprev.
      destruct (Z.eq_dec (slot y' x') (slot y x)) as [Heq|Hne].
      * rewrite Heq. destruct (Hinj _ _ _ _ Hy' Hx' Hy Hx Heq) as [-> ->].
        apply Hin. exact Hb.
      * destruct (Hslot y' x' Hy' Hx') as [Hs0' Hs1'].
        rewrite Hout.
        -- apply Hdone2; try assumption.
           destruct Hprev as [H|[H1 H2]]; [left; exact H|].
           right. split; [exact H1|].
           destruct (Z.eq_dec x' x) as [->|Hx'']; [|lia].
           subst y'. congruence.
        -- nia.
        -- destruct (Z_lt_le_dec (slot y' x') (slot y x)) as [Hlt|Hge]; [left|right]; nia.
    + exists r2. split; [exact Hr2|].
      destruct Hinv2 as (Hsize2 & Hdone2). split; [exact Hsize2|].
      intros y' x' b Hy' Hx' Hb [H|[H1 H2]]; [|lia].
      apply Hdone2; try assumption.
      destruct (Z.eq_dec y' y) as [->|Hne]; [right; split; [reflexivity|lia]|left; lia].
  - exists r. split; [exact Hr|]. split; [exact Hsize|].
    intros y x b Hy Hx Hb. apply Hdone; try assumption. left. lia.
Qed.

Lemma element_offset (t : TexData.TexData) (ts x y c : Z) :
  TexData.wellFormed t ts ->
  0 <= x < TexData._w t -> 0 <= y < TexData._h t -> 0 <= c < TexData._channels t ->
  TexData.element t x y c
  = Ok (((y * TexData._w t + x) * TexData._channels t + c) * ts)
  /\ 0 <= ((y * TexData._w t + x) * TexData._channels t + c) * ts
  /\ ((y * TexData._w t + x) * TexData._channels t + c) * ts + ts
     <= size (TexData._packedData t).
Proof.
  intros Hwf Hx Hy Hc.
  destruct (wellFormed_sizes t ts Hwf) as (Hts & Hpes & Hpls & _).
  destruct Hwf as (Htype & Hw & Hh & Hch & Hsize & Hmax).
  change (2 ^ 31) with 2147483648 in *.
  set (w := TexData._w t) in *. set (h := TexData._h t) in *.
  set (ch := TexData._channels t) in *.
  assert (A1 : 0 <= y * w + x /\ y * w + x + 1 <= h * w) by nia.
  assert (A2 : 0 <= (y * w + x) * ch + c /\ (y * w + x) * ch + c + 1 <= h * w * ch) by nia.
  assert (A3 : 0 <= ((y * w + x) * ch + c) * ts
               /\ ((y * w + x) * ch + c) * ts + ts <= h * w * ch * ts) by nia.
  assert (Htotal : h * w * ch * ts = size (TexData._packedData t))
    by (rewrite Hsize; ring).
  split; [|lia].
  unfold TexData.element. fold w h ch.
  replace ((x >=? 0) && (x <? w)) with true
    by (symmetry; rewrite Z.geb_leb, andb_true_iff, Z.leb_le, Z.ltb_lt; lia).
  replace ((y >=? 0) && (y <? h)) with true
    by (symmetry; rewrite Z.geb_leb, andb_true_iff, Z.leb_le, Z.ltb_lt; lia).
  replace ((c >=? 0) && (c <? ch)) with true
    by (symmetry; rewrite Z.geb_leb, andb_true_iff, Z.leb_le, Z.ltb_lt; lia).
  cbn [Q_ASSERT obind]. rewrite Hpls, Hpes, Htype. cbn [obind]. f_equal.
  assert (H64 : 2 ^ 64 = 18446744073709551616) by reflexivity.
  assert (B1 : 0 <= y * (ts * ch * w) /\ y * (ts * ch * w) <= h * w * ch * ts) by nia.
  assert (B2 : 0 <= x * (ts * ch) /\ x * (ts * ch) <= h * w * ch * ts) by nia.
  assert (B3 : 0 <= c * ts /\ c * ts <= h * w * ch * ts) by nia.
  rewrite (size_t_id (y * (ts * ch * w))) by (rewrite H64; lia).
  rewrite (size_t_id (x * (ts * ch))) by (rewrite H64; lia).
  rewrite (size_t_id (c * ts)) by (rewrite H64; lia).
  rewrite (size_t_id (y * (ts * ch * w) + x * (ts * ch))) by (rewrite H64; lia).
  rewrite size_t_id by (rewrite H64; lia). ring.
Qed.

Lemma wellFormed_type (t : TexData.TexData) (ts : Z) :
  TexData.wellFormed t ts -> TexData.typeSize t = Ok ts.
Proof. intros (H & _). exact H. Qed.

Lemma slot_bounds (w h ts x y : Z) :
  0 <= x < w -> 0 <= y < h -> 0 <= ts ->
  0 <= y * w + x /\ (y * w + x + 1) * ts <= ts * w * h.
Proof.
  intros Hx Hy Hts.
  assert (A : 0 <= y * w + x /\ y * w + x + 1 <= w * h) by nia.
  split; [lia|].
  replace (ts * w * h) with (w * h * ts) by ring.
  apply Z.mul_le_mono_nonneg_r; lia.
Qed.

Lemma slot_injective (w x y x' y' : Z) :
  0 <= x < w -> 0 <= x' < w -> y * w + x = y' * w + x' -> y = y' /\ x = x'.
Proof.
  intros Hx Hx' H.
  destruct (Z.lt_trichotomy y y') as [Hlt|[Heq|Hgt]].
  - assert ((y + 1) * w <= y' * w) by (apply Z.mul_le_mono_nonneg_r; lia). lia.
  - subst y'. lia.
  - assert ((y' + 1) * w <= y * w) by (apply Z.mul_le_mono_nonneg_r; lia). lia.
Qed.

Lemma planar_copied (t : TexData.TexData) (ts c : Z) (slot : Z -> Z -> Z)
    (r : list Byte.byte) :
  TexData.wellFormed t ts -> 0 <= c < TexData._channels t ->
  size r = ts * TexData._w t * TexData._h t ->
  (forall y x, 0 <= y < TexData._h t -> 0 <= x < TexData._w t ->
     0 <= slot y x /\ (slot y x + 1) * ts <= ts * TexData._w t * TexData._h t) ->
  (forall y x b, 0 <= y < TexData._h t -> 0 <= x < TexData._w t -> 0 <= b < ts ->
     r !! Z.to_nat (slot y x * ts + b)
     = TexData._packedData t
         !! Z.to_nat (((y * TexData._w t + x) * TexData._channels t + c) * ts + b)) ->
  forall x y b, 0 <= x < TexData._w t -> 0 <= y < TexData._h t -> 0 <= b < ts ->
    exists v,
      r !! Z.to_nat (slot y x * ts + b) = Some v
      /\ TexData.packedByte t ts x y c b = Some v.
Proof.
  intros Hwf Hc Hsize Hslot Hcopy x y b Hx Hy Hb.
  destruct (Hslot y x Hy Hx) as [Hs0 Hs1].
  destruct (lookup_lt_is_Some_2 r (Z.to_nat (slot y x * ts + b))) as [v Hv].
  { unfold size in Hsize. nia. }
  exists v. split; [exact Hv|].
  unfold TexData.packedByte. rewrite <- Hcopy by assumption. exact Hv.
Qed.

(** X27: on a texture with complete data, [planarDataArray(c)] returns,
    for every channel [c] of the texture, an array of one element per pixel
    in which byte [b] of the element of pixel [(x, y)] is byte [b] of
    channel [c] of that pixel in the packed data: the planar data are the
    channel [c], row by row. *)
Theorem planarDataArray_channel (t : TexData.TexData) (ts c : Z) :
  TexData.wellFormed t ts -> 0 <= c < TexData._channels t ->
  exists r,
    TexData.planarDataArray t c = Ok r
    /\ size r = ts * TexData._w t * TexData._h t
    /\ forall x y b, 0 <= x < TexData._w t -> 0 <= y < TexData._h t -> 0 <= b < ts ->
         exists v, TexData.planarByte t r ts x y b = Some v
                   /\ TexData.packedByte t ts x y c b = Some v.
Proof.
  intros Hwf Hc.
  destruct (wellFormed_sizes t ts Hwf)
    as (Hts & _ & _ & _ & Hpes & Hpls & Hpcs & Hpds & Hplanar).
  pose proof (wellFormed_type t ts Hwf) as Htype.
  pose proof Hwf as (_ & Hw & Hh & Hch & Hsize & Hmax).
  change (2 ^ 31) with 2147483648 in Hw, Hh, Hmax.
  assert (H64 : 2 ^ 64 = 18446744073709551616) by reflexivity.
  unfold TexData.planarDataArray, TexData.channels.
  replace ((c >=? 0) && (c <=? TexData._channels t)) with true
    by (symmetry; rewrite Z.geb_leb, andb_true_iff, !Z.leb_le; lia).
  cbn [Q_ASSERT obind]. rewrite Hpds. cbn [obind].
  lazymatch goal with
  | |- exists r, ofold ?f _ _ = Ok r /\ _ =>
      edestruct (gather_loop (TexData._w t) (TexData._h t) ts
                   (ts * TexData._w t * TexData._h t) (TexData._packedData t)
                   (fun y x => ((y * TexData._w t + x) * TexData._channels t + c) * ts)
                   (fun y x => y * TexData._w t + x) f)
        as (r & Hr & Hrsize & Hcopy)
  end.
  - lia.
  - lia.
  - lia.
  - intros r y. unfold TexData.width. reflexivity.
  - intros y r x Hy Hx. cbv beta.
    destruct (element_offset t ts x y c Hwf Hx Hy Hc) as (Hel & _).
    rewrite Hpls, Hpes, Hel, Htype. cbn [obind]. f_equal.
    destruct (slot_bounds (TexData._w t) (TexData._h t) ts x y Hx Hy ltac:(lia))
      as [S0 S1].
    assert (E1 : y * (ts * TexData._w t) + x * ts = (y * TexData._w t + x) * ts) by ring.
    assert (E2 : (y * TexData._w t + x + 1) * ts = (y * TexData._w t + x) * ts + ts)
      by ring.
    assert (B1 : 0 <= y * (ts * TexData._w t))
      by (apply Z.mul_nonneg_nonneg; [lia|apply Z.mul_nonneg_nonneg; lia]).
    assert (B2 : 0 <= x * ts) by (apply Z.mul_nonneg_nonneg; lia).
    rewrite (size_t_id (y * (ts * TexData._w t))) by (rewrite H64; unfold size in *; lia).
    rewrite (size_t_id (x * ts)) by (rewrite H64; unfold size in *; lia).
    rewrite size_t_id by (rewrite H64; unfold size in *; lia). ring.
  - intros y x Hy Hx. apply slot_bounds; lia.
  - intros y x y' x' Hy Hx Hy' Hx'. apply slot_injective; assumption.
  - intros y x Hy Hx. destruct (element_offset t ts x y c Hwf Hx Hy Hc) as (_ & H0 & H1).
    split; assumption.
  - apply resized_length. change (2 ^ 31) with 2147483648. unfold size in *. lia.
  - exists r. split; [exact Hr|]. split; [exact Hrsize|].
    intros x y b Hx Hy Hb. unfold TexData.planarByte.
    apply (planar_copied t ts c (fun y x => y * TexData._w t + x) r Hwf Hc Hrsize);
      try assumption.
    intros y' x' Hy' Hx'. apply slot_bounds; lia.
Qed.

Lemma planarDataArray_channel_witness :
  TexData.planarDataArray exampleTexture 1
  = Ok [Byte.x01; Byte.x03; Byte.x11; Byte.x13; Byte.x21; Byte.x23].
Proof.
  destruct (planarDataArray_channel exampleTexture 1 1) as (r & Hr & _).
  - unfold TexData.wellFormed. vm_compute. repeat split; discriminate.
  - vm_compute. split; [discriminate|reflexivity].
  - vm_compute. reflexivity.
Defined.

Lemma transposed_slot_bounds (w h ts x y : Z) :
  0 <= x < w -> 0 <= y < h -> 0 <= ts ->
  0 <= x * h + y /\ (x * h + y + 1) * ts <= ts * w * h.
Proof.
  intros Hx Hy Hts.
  destruct (slot_bounds h w ts y x Hy Hx Hts) as [H0 H1].
  split; [exact H0|]. replace (ts * w * h) with (ts * h * w) by ring. exact H1.
Qed.

(** X28: [transposedPlanarDataArray(c)] returns the same elements as
    [planarDataArray(c)], column by column: byte [b] of the element at
    column [x] and row [y], which is element [x * height + y] of the result,
    is byte [b] of channel [c] of the pixel [(x, y)] of the packed data. *)
Theorem transposedPlanarDataArray_channel (t : TexData.TexData) (ts c : Z) :
  TexData.wellFormed t ts -> 0 <= c < TexData._channels t ->
  exists r,
    TexData.transposedPlanarDataArray t c = Ok r
    /\ size r = ts * TexData._w t * TexData._h t
    /\ forall x y b, 0 <= x < TexData._w t -> 0 <= y < TexData._h t -> 0 <= b < ts ->
         exists v, TexData.transposedByte t r ts x y b = Some v
                   /\ TexData.packedByte t ts x y c b = Some v.
Proof.
  intros Hwf Hc.
  destruct (wellFormed_sizes t ts Hwf)
    as (Hts & _ & _ & _ & Hpes & Hpls & Hpcs & Hpds & Hplanar).
  pose proof (wellFormed_type t ts Hwf) as Htype.
  pose proof Hwf as (_ & Hw & Hh & Hch & Hsize & Hmax).
  change (2 ^ 31) with 2147483648 in Hw, Hh, Hmax.
  assert (H64 : 2 ^ 64 = 18446744073709551616) by reflexivity.
  unfold TexData.transposedPlanarDataArray, TexData.channels.
  replace ((c >=? 0) && (c <=? TexData._channels t)) with true
    by (symmetry; rewrite Z.geb_leb, andb_true_iff, !Z.leb_le; lia).
  cbn [Q_ASSERT obind]. rewrite Hpds. cbn [obind].
  lazymatch goal with
  | |- exists r, ofold ?f _ _ = Ok r /\ _ =>
      edestruct (gather_loop (TexData._w t) (TexData._h t) ts
                   (ts * TexData._w t * TexData._h t) (TexData._packedData t)
                   (fun y x => ((y * TexData._w t + x) * TexData._channels t + c) * ts)
                   (fun y x => x * TexData._h t + y) f)
        as (r & Hr & Hrsize & Hcopy)
  end.
  - lia.
  - lia.
  - lia.
  - intros r y. unfold TexData.width. reflexivity.
  - intros y r x Hy Hx. cbv beta.
    destruct (element_offset t ts x y c Hwf Hx Hy Hc) as (Hel & _).
    rewrite Hpcs, Hpes, Hel, Htype. cbn [obind]. f_equal.
    destruct (transposed_slot_bounds (TexData._w t) (TexData._h t) ts x y Hx Hy
                ltac:(lia)) as [S0 S1].
    assert (E1 : x * (ts * TexData._h t) + y * ts = (x * TexData._h t + y) * ts) by ring.
    assert (E2 : (x * TexData._h t + y + 1) * ts = (x * TexData._h t + y) * ts + ts)
      by ring.
    assert (B1 : 0 <= x * (ts * TexData._h t))
      by (apply Z.mul_nonneg_nonneg; [lia|apply Z.mul_nonneg_nonneg; lia]).
    assert (B2 : 0 <= y * ts) by (apply Z.mul_nonneg_nonneg; lia).
    rewrite (size_t_id (x * (ts * TexData._h t))) by (rewrite H64; unfold size in *; lia).
    rewrite (size_t_id (y * ts)) by (rewrite H64; unfold size in *; lia).
    rewrite size_t_id by (rewrite H64; unfold size in *; lia). ring.
  - intros y x Hy Hx. apply transposed_slot_bounds; lia.
  - intros y x y' x' Hy Hx Hy' Hx' H.
    destruct (slot_injective (TexData._h t) y x y' x' Hy Hy' H) as [-> ->]. auto.
  - intros y x Hy Hx. destruct (element_offset t ts x y c Hwf Hx Hy Hc) as (_ & H0 & H1).
    split; assumption.
  - apply resized_length. change (2 ^ 31) with 2147483648. unfold size in *. lia.
  - exists r. split; [exact Hr|]. split; [exact Hrsize|].
    intros x y b Hx Hy Hb. unfold TexData.transposedByte.
    apply (planar_copied t ts c (fun y x => x * TexData._h t + y) r Hwf Hc Hrsize);
      try assumption.
    intros y' x' Hy' Hx'. apply transposed_slot_bounds; lia.
Qed.

Lemma transposedPlanarDataArray_channel_witness :
  TexData.transposedPlanarDataArray exampleTexture 1
  = Ok [Byte.x01; Byte.x11; Byte.x21; Byte.x03; Byte.x13; Byte.x23].
Proof.
  destruct (transposedPlanarDataArray_channel exampleTexture 1 1) as (r & Hr & _).
  - unfold TexData.wellFormed. vm_compute. repeat split; discriminate.
  - vm_compute. split; [discriminate|reflexivity].
  - vm_compute. reflexivity.
Defined.

(** X29: the assertion of [planarDataArray] and
    [transposedPlanarDataArray] admits [channel == channels()], one past the
    last channel; for a texture that is not empty the call then ends in the
    assertion of [element], which does not admit it, at the first element
    and before any byte is copied. *)
Theorem planarDataArray_channel_limit (t : TexData.TexData) (ts : Z) :
  TexData.wellFormed t ts -> 1 <= TexData._w t -> 1 <= TexData._h t ->
  TexData.planarDataArray t (TexData.channels t) = Fail (Exit "c >= 0 && c < _channels")
  /\ TexData.transposedPlanarDataArray t (TexData.channels t)
     = Fail (Exit "c >= 0 && c < _channels").
Proof.
  intros Hwf Hw1 Hh1.
  destruct (wellFormed_sizes t ts Hwf)
    as (Hts & _ & _ & _ & Hpes & Hpls & Hpcs & Hpds & Hplanar).
  pose proof Hwf as (_ & Hw & Hh & Hch & Hsize & Hmax).
  assert (Hel : TexData.element t 0 0 (TexData._channels t)
                = Fail (Exit "c >= 0 && c < _channels")).
  { unfold TexData.element.
    replace ((0 >=? 0) && (0 <? TexData._w t)) with true
      by (symmetry; rewrite andb_true_iff, Z.ltb_lt; split; [reflexivity|lia]).
    replace ((0 >=? 0) && (0 <? TexData._h t)) with true
      by (symmetry; rewrite andb_true_iff, Z.ltb_lt; split; [reflexivity|lia]).
    replace (TexData._channels t <? TexData._channels t) with false
      by (symmetry; apply Z.ltb_irrefl).
    rewrite andb_false_r. reflexivity. }
  unfold TexData.planarDataArray, TexData.transposedPlanarDataArray, TexData.channels,
    TexData.width, TexData.height, indices_below.
  replace ((TexData._channels t >=? 0) && (TexData._channels t <=? TexData._channels t))
    with true
    by (symmetry; rewrite Z.geb_leb, andb_true_iff, !Z.leb_le; lia).
  cbn [Q_ASSERT obind]. rewrite Hpds. cbn [obind].
  rewrite (seqZ_cons 0 (TexData._h t)) by lia. cbn [ofold].
  rewrite (seqZ_cons 0 (TexData._w t)) by lia. cbn [ofold].
  rewrite Hpls, Hpes, Hpcs, Hel. cbn [obind]. split; reflexivity.
Qed.

Lemma planarDataArray_channel_limit_witness :
  TexData.planarDataArray exampleTexture 2 = Fail (Exit "c >= 0 && c < _channels").
Proof.
  apply (planarDataArray_channel_limit exampleTexture 1).
  - unfold TexData.wellFormed. vm_compute. repeat split; discriminate.
  - vm_compute. discriminate.
  - vm_compute. discriminate.
Defined.

(** ** The row swap at the end of [setTexture] *)

Lemma row_index_lt (pls y y' b : Z) :
  0 <= pls -> 0 <= b < pls -> y < y' -> y * pls + b < y' * pls.
Proof.
  intros Hp Hb Hy.
  assert (H : (y + 1) * pls <= y' * pls) by (apply Z.mul_le_mono_nonneg_r; lia).
  replace ((y + 1) * pls) with (y * pls + pls) in H by ring. lia.
Qed.

Lemma row_index_bounds (pls h y b : Z) :
  0 <= pls -> 0 <= y < h -> 0 <= b < pls -> 0 <= y * pls + b < h * pls.
Proof.
  intros Hp Hy Hb. split.
  - assert (0 <= y * pls) by (apply Z.mul_nonneg_nonneg; lia). lia.
  - apply row_index_lt; lia.
Qed.

Lemma row_bounds (pls h y : Z) :
  0 <= pls -> 0 <= y < h -> 0 <= y * pls /\ y * pls + pls <= h * pls.
Proof.
  intros Hp Hy. split.
  - apply Z.mul_nonneg_nonneg; lia.
  - assert (H : (y + 1) * pls <= h * pls) by (apply Z.mul_le_mono_nonneg_r; lia).
    replace ((y + 1) * pls) with (y * pls + pls) in H by ring. exact H.
Qed.

Lemma reverse_loop (pls h : Z) (data : list Byte.byte)
    (body : list Byte.byte * list Byte.byte -> Z
            -> outcome (list Byte.byte * list Byte.byte)) :
  0 <= pls -> 0 <= h < 2 ^ 31 -> size data = h * pls -> size data < 2 ^ 31 ->
  (forall d l y,
     body (d, l) y
     = let? l1 := memcpy l 0 d (size_t (y * pls)) pls in
       let? d1 := memcpy d (size_t (y * pls)) d
                    (size_t (int32 (int32 (h - 1) - y) * pls)) pls in
       let? d2 := memcpy d1 (size_t (int32 (int32 (h - 1) - y) * pls)) l1 0 pls in
       Ok (d2, l1)) ->
  forall l0, (1 <= h -> size l0 = pls) ->
  exists r,
    ofold body (indices_below (Z.quot h 2)) (data, l0) = Ok r
    /\ size (fst r) = size data
    /\ forall y b, 0 <= y < h -> 0 <= b < pls ->
         fst r !! Z.to_nat (y * pls + b) = data !! Z.to_nat ((h - 1 - y) * pls + b).
Proof.
  intros Hp Hh Hsize Hmax Hbody l0 Hl0.
  change (2 ^ 31) with 2147483648 in Hh, Hmax.
  assert (H64 : 2 ^ 64 = 18446744073709551616) by reflexivity.
  rewrite Z.quot_div_nonneg by lia.
  pose proof (Z.div_mod h 2 ltac:(lia)) as Hdm.
  pose proof (Z.mod_pos_bound h 2 ltac:(lia)) as Hmod.
  set (q := h / 2) in *.
  set (Inv := fun (k : Z) (r : list Byte.byte * list Byte.byte) =>
         size (fst r) = size data /\ (1 <= h -> size (snd r) = pls)
         /\ forall y b, 0 <= y < h -> 0 <= b < pls ->
              fst r !! Z.to_nat (y * pls + b)
              = data !! Z.to_nat ((if (y <? k) || (h - k <=? y) then h - 1 - y else y)
                                    * pls + b)).
  destruct (ofold_below q body Inv (data, l0)) as (r & Hr & Hs & _ & Hrows).
  - lia.
  - repeat split; [assumption|]. intros y b Hy Hb. cbn [fst].
    replace ((y <? 0) || (h - 0 <=? y)) with false; [reflexivity|].
    symmetry. rewrite orb_false_iff, Z.ltb_ge, Z.leb_gt. lia.
  - intros k [d l] Hk (Hd & Hl & Hrows). cbn [fst snd] in Hd, Hl, Hrows.
    rewrite Hbody.
    rewrite (int32_id (h - 1)) by (unfold is_int32; change (2 ^ 31) with 2147483648; lia).
    rewrite (int32_id (h - 1 - k))
      by (unfold is_int32; change (2 ^ 31) with 2147483648; lia).
    destruct (row_bounds pls h k Hp ltac:(lia)) as [K0 K1].
    destruct (row_bounds pls h (h - 1 - k) Hp ltac:(lia)) as [Y0 Y1].
    rewrite (size_t_id (k * pls)) by (rewrite H64; lia).
    rewrite (size_t_id ((h - 1 - k) * pls)) by (rewrite H64; lia).
    destruct (memcpy_spec l 0 d (k * pls) pls) as (l1 & -> & Ll1 & _ & Cl1);
      try lia.
    cbn [obind].
    destruct (memcpy_spec d (k * pls) d ((h - 1 - k) * pls) pls)
      as (d1 & -> & Ld1 & Kd1 & Cd1); try lia.
    cbn [obind].
    destruct (memcpy_spec d1 ((h - 1 - k) * pls) l1 0 pls)
      as (d2 & -> & Ld2 & Kd2 & Cd2); try (unfold size in *; lia).
    cbn [obind]. eexists. split; [reflexivity|].
    unfold Inv. cbn [fst snd].
    split; [unfold size in *; lia|]. split; [unfold size in *; lia|].
    intros y b Hy Hb.
    destruct (row_index_bounds pls h y b Hp Hy Hb) as [I0 I1].
    destruct (Z.eq_dec y k) as [->|Hyk]; [|destruct (Z.eq_dec y (h - 1 - k)) as [->|Hyy]].
    + replace ((k <? k + 1) || (h - (k + 1) <=? k)) with true
        by (symmetry; rewrite orb_true_iff, Z.ltb_lt; lia).
      rewrite Kd2 by (try lia; left; apply row_index_lt; lia).
      rewrite Cd1 by lia. rewrite Hrows by lia.
      replace ((h - 1 - k <? k) || (h - k <=? h - 1 - k)) with false
        by (symmetry; rewrite orb_false_iff, Z.ltb_ge, Z.leb_gt; lia).
      reflexivity.
    + replace ((h - 1 - k <? k + 1) || (h - (k + 1) <=? h - 1 - k)) with true
        by (symmetry; rewrite orb_true_iff, Z.leb_le; lia).
      rewrite Cd2 by lia. rewrite Z.add_0_l.
      specialize (Cl1 b Hb). rewrite Z.add_0_l in Cl1. rewrite Cl1.
      rewrite Hrows by lia.
      replace ((k <? k) || (h - k <=? k)) with false
        by (symmetry; rewrite orb_false_iff, Z.ltb_ge, Z.leb_gt; lia).
      f_equal. f_equal. ring.
    + assert (Hout : forall z, 0 <= z < h -> z <> y ->
                y * pls + b < z * pls \/ z * pls + pls <= y * pls + b).
      { intros z Hz Hne. destruct (Z_lt_le_dec y z) as [Hlt|Hge].
        - left. apply row_index_lt; lia.
        - right. assert (H : (z + 1) * pls <= y * pls)
            by (apply Z.mul_le_mono_nonneg_r; lia).
          replace ((z + 1) * pls) with (z * pls + pls) in H by ring. lia. }
      rewrite Kd2 by (try lia; apply Hout; lia).
      rewrite Kd1 by (try lia; apply Hout; lia).
      rewrite Hrows by lia.
      replace ((y <? k + 1) || (h - (k + 1) <=? y)) with ((y <? k) || (h - k <=? y));
        [reflexivity|].
      destruct (y <? k) eqn:E1, (h - k <=? y) eqn:E2, (y <? k + 1) eqn:E3,
        (h - (k + 1) <=? y) eqn:E4; try reflexivity; exfalso;
        rewrite ?Z.ltb_lt, ?Z.ltb_ge, ?Z.leb_le, ?Z.leb_gt in *; lia.
  - exists r. split; [exact Hr|]. split; [exact Hs|].
    intros y b Hy Hb. rewrite Hrows by assumption.
    destruct ((y <? q) || (h - q <=? y)) eqn:E; [reflexivity|].
    rewrite orb_false_iff, Z.ltb_ge, Z.leb_gt in E.
    replace (h - 1 - y) with y by lia. reflexivity.
Qed.

Lemma rows_eq (pls h : Z) (d d' : list Byte.byte) :
  0 <= pls -> 0 <= h -> size d = h * pls -> size d' = h * pls ->
  (forall y b, 0 <= y < h -> 0 <= b < pls ->
     d' !! Z.to_nat (y * pls + b) = d !! Z.to_nat (y * pls + b)) ->
  d' = d.
Proof.
  intros Hp Hh Hd Hd' Hrows. apply list_eq. intros i.
  destruct (Z_lt_le_dec (Z.of_nat i) (h * pls)) as [Hlt|Hge].
  - assert (Hpos : 0 < pls).
    { destruct (Z.eq_dec pls 0) as [->|]; [|lia]. rewrite Z.mul_0_r in Hlt. lia. }
    pose proof (Z.div_mod (Z.of_nat i) pls ltac:(lia)) as Hdm.
    pose proof (Z.mod_pos_bound (Z.of_nat i) pls Hpos) as Hmod.
    assert (Hy : 0 <= Z.of_nat i / pls < h).
    { split; [apply Z.div_pos; lia|]. apply Z.div_lt_upper_bound; lia. }
    specialize (Hrows (Z.of_nat i / pls) (Z.of_nat i mod pls) Hy Hmod).
    replace (Z.of_nat i / pls * pls + Z.of_nat i mod pls) with (Z.of_nat i) in Hrows
      by lia.
    rewrite Nat2Z.id in Hrows. exact Hrows.
  - rewrite !lookup_ge_None_2; [reflexivity| |]; unfold size in *; lia.
Qed.

(** X30: the row swap at the end of [setTexture] turns the image upside
    down: on a texture with complete data it succeeds, keeps the layout and
    the number of bytes, and row [y] of the result is row [height - 1 - y]
    of the data that were read, byte by byte (the middle row of an odd height
    stays); applied to its own result it gives the first data back. *)
Theorem reverseY_rows (t : TexData.TexData) (ts : Z) :
  TexData.wellFormed t ts ->
  exists t',
    TexData.reverseY t (TexData.height t) = Ok t'
    /\ TexData.wellFormed t' ts
    /\ TexData.width t' = TexData.width t /\ TexData.height t' = TexData.height t
    /\ TexData.channels t' = TexData.channels t
    /\ (forall y b,
          0 <= y < TexData.height t ->
          0 <= b < ts * TexData.channels t * TexData.width t ->
          TexData.rowByte (TexData._packedData t')
            (ts * TexData.channels t * TexData.width t) y b
          = TexData.rowByte (TexData._packedData t)
              (ts * TexData.channels t * TexData.width t) (TexData.height t - 1 - y) b)
    /\ TexData.reverseY t' (TexData.height t') = Ok t.
Proof.
  intros Hwf.
  assert (Hrev : forall u : TexData.TexData, TexData.wellFormed u ts ->
            exists d,
              TexData.reverseY u (TexData._h u)
              = Ok (TexData.mk (TexData._w u) (TexData._h u) (TexData._type u)
                      (TexData._channels u) d)
              /\ size d = size (TexData._packedData u)
              /\ forall y b, 0 <= y < TexData._h u ->
                   0 <= b < ts * TexData._channels u * TexData._w u ->
                   d !! Z.to_nat (y * (ts * TexData._channels u * TexData._w u) + b)
                   = TexData._packedData u
                       !! Z.to_nat ((TexData._h u - 1 - y)
                                    * (ts * TexData._channels u * TexData._w u) + b)).
  { intros u Hu.
    destruct (wellFormed_sizes u ts Hu) as (Hts & _ & Hpls & _).
    pose proof Hu as (_ & Hw & Hh & Hch & Hsize & Hmax).
    assert (Hp : 0 <= ts * TexData._channels u * TexData._w u)
      by (apply Z.mul_nonneg_nonneg; [apply Z.mul_nonneg_nonneg|]; lia).
    assert (Hp31 : 1 <= TexData._h u ->
                   ts * TexData._channels u * TexData._w u < 2 ^ 31).
    { intros H1. change (2 ^ 31) with 2147483648 in *.
      assert (ts * TexData._channels u * TexData._w u * 1
              <= ts * TexData._channels u * TexData._w u * TexData._h u)
        by (apply Z.mul_le_mono_nonneg_l; lia).
      lia. }
    unfold TexData.reverseY. rewrite Hpls. cbn [obind].
    lazymatch goal with
    | |- exists d, obind (ofold ?f _ (_, ?buffer)) _ = _ /\ _ =>
        destruct (fun H1 H2 H3 H4 H5 =>
                    reverse_loop (ts * TexData._channels u * TexData._w u) (TexData._h u)
                      (TexData._packedData u) f H1 H2 H3 H4 H5 buffer)
          as (r & Hr & Hrs & Hrows)
    end.
    - exact Hp.
    - exact Hh.
    - rewrite Hsize. ring.
    - exact Hmax.
    - intros d l y. reflexivity.
    - intros H1. apply resized_length. split; [exact Hp|apply Hp31; exact H1].
    - rewrite Hr. cbn [obind]. exists (fst r). repeat split; assumption. }
  destruct (Hrev t Hwf) as (d & Hd & Hds & Hrows).
  pose proof Hwf as (Htype & Hw & Hh & Hch & Hsize & Hmax).
  set (t' := TexData.mk (TexData._w t) (TexData._h t) (TexData._type t)
               (TexData._channels t) d).
  assert (Hwf' : TexData.wellFormed t' ts).
  { unfold TexData.wellFormed, t', TexData.typeSize. cbn.
    repeat split; try assumption; try lia. }
  exists t'. unfold TexData.width, TexData.height, TexData.channels, TexData.rowByte.
  split; [exact Hd|]. split; [exact Hwf'|].
  split; [reflexivity|]. split; [reflexivity|]. split; [reflexivity|].
  split; [exact Hrows|].
  destruct (Hrev t' Hwf') as (d' & Hd' & Hds' & Hrows').
  cbn [TexData._w TexData._h TexData._type TexData._channels TexData._packedData t']
    in Hd', Hds', Hrows'.
  change (TexData._h t') with (TexData._h t). rewrite Hd'.
  assert (Hp : 0 <= ts * TexData._channels t * TexData._w t).
  { destruct (wellFormed_sizes t ts Hwf) as (Hts & _).
    apply Z.mul_nonneg_nonneg; [apply Z.mul_nonneg_nonneg|]; lia. }
  assert (E : d' = TexData._packedData t).
  { apply (rows_eq (ts * TexData._channels t * TexData._w t) (TexData._h t)).
    - exact Hp.
    - lia.
    - rewrite Hsize. ring.
    - rewrite Hds', Hds, Hsize. ring.
    - intros y b Hy Hb. rewrite Hrows' by assumption.
      rewrite Hrows by lia. f_equal. f_equal. ring. }
  rewrite E. destruct t. reflexivity.
Qed.

Lemma reverseY_rows_witness :
  TexData.reverseY exampleTexture 3
  = Ok (TexData.mk 2 3 GL_UNSIGNED_BYTE 2
          [Byte.x20; Byte.x21; Byte.x22; Byte.x23;
           Byte.x10; Byte.x11; Byte.x12; Byte.x13;
           Byte.x00; Byte.x01; Byte.x02; Byte.x03]).
Proof.
  destruct (reverseY_rows exampleTexture 1) as (t' & Ht' & _).
  - unfold TexData.wellFormed. vm_compute. repeat split; discriminate.
  - vm_compute. reflexivity.
Defined.
